(* ===== verification/_CoqProject ===== *)
-Q . S2P
Prelude.v
SeqNum.v
RingBuffer.v
RooIo.v
Protocol.v
RetryBackoff.v
Buffers.v
Transmitter.v
TransmitterSpec.v
TransmitterProofs.v
TransmitterCorrect.v
TransmitterAck.v
TransmitterLive.v
TransmitterSession.v
Receiver.v
ReceiverProofs.v
ReceiverCorrect.v
ThreadSafe.v
SendLoop.v
Channel.v
ChannelCorrect.v
ChannelHandshake.v
ChannelAwait.v
LinkDelivery.v
LinkProgress.v
ChannelPair.v
ChannelPairCorrect.v
Packets.v
Link.v
Arduino.v
Messaging.v
MessagingThreads.v
MessagingThreadsCorrect.v
MessagingEnd.v
MessagingHangs.v
RpcHeader.v
Serialization.v
RpcClient.v
RpcServer.v
RpcTimer.v
RpcPair.v
PicoDma.v
PicoBoard.v
ReceiveLoops.v
EspIdf.v
PicoReceive.v
