(* ===== verification/Prelude.v ===== *)
(** * roo_transport: a verification development

    roo_transport (C++, sources under src/src/roo_transport/) gives two
    microcontrollers a reliable byte stream over a UART or any other medium that
    loses packets, and messages and remote calls on top of it. From the bottom up
    its parts are

    - packets over a stream (packets/over_stream/): a packet gets a hash and a COBS
      frame; the receiver finds the frames again and drops the damaged ones;
    - the link (link/internal/): a [Transmitter] cuts the outgoing stream into
      numbered packets and repeats them until they are acknowledged, a [Receiver]
      puts the incoming ones in order, acknowledges them and advertises its free
      room, and a [Channel] pairs the two, finds the peer by a three-way handshake
      and hands packets to the half they are for;
    - [Link], [LinkInputStream], [LinkOutputStream], [LinkTransport] (link/): what
      the application holds;
    - messaging (messaging/, link/link_messaging.cpp): length-prefixed messages on
      the current link, and a multiplexer;
    - RPC (rpc/): headers, serializers, a client and a server with deadlines.

    ** The files

    - [Prelude]: machine integers, [CHECK], arrays, shared lemmas and tactics.
    - [SeqNum], [RingBuffer]: link/internal/seq_num.h and ring_buffer.h. A wrapped
      number stands for a position of the unbounded stream (an integer); [ring_abs r
      B E] says that a window holds the positions from B to E - 1.
    - [RooIo]: the parameters of the model that more than one file needs: the loads
      and stores of roo_io ([RooIo], [RooIoLaws]) and the platform ([Platform]: range
      of the random generator, latest time, debug or release build).
    - [Protocol], [RetryBackoff], [Buffers]: link/internal/protocol.h,
      retry_backoff.h, in_buffer.h, out_buffer.h and out_buffer.cpp.
    - [Transmitter]: link/internal/transmitter.h and transmitter.cpp, one definition
      per method, long methods cut at their loops. [TransmitterSpec] has the invariant
      ([tx_wf], [tx_sched]), the abstract stream ([tx_stream]) and the lemmas on
      writing and sending; [TransmitterProofs] those on closing and acknowledging;
      [TransmitterCorrect] the transition system and the theorems; [TransmitterAck]
      what an acknowledgment does, packet by packet; [TransmitterLive]
      which packets operations add to or take off the acknowledged ones;
      [TransmitterSession] a session of the transmitter, from open over closed to done.
    - [Receiver]: link/internal/receiver.h and receiver.cpp, with [ReceiverProofs]
      (invariant [rx_inv], against the packets the peer sends) and [ReceiverCorrect].
    - [ThreadSafe]: link/internal/thread_safe/thread_safe_transmitter,
      thread_safe_receiver and outgoing_data_ready_notification. Every critical
      section is one atomic function that also returns the condition variables it
      notifies; a method that waits is cut there, and returns [Blocked].
    - [Channel]: link/internal/thread_safe/channel.h and channel.cpp, in a small monad
      [ChM] of state, abort and a log of effects (packets sent, notifications,
      callbacks). [ChannelCorrect] and [ChannelHandshake] have the theorems.
    - [SendLoop]: Channel::begin, sendLoop and end with OutgoingDataReadyNotification, one
      atomic operation at a time. [ChannelAwait]: a thread in Channel::awaitConnected.
    - [LinkDelivery]: one direction of a connected link, a [Transmitter] and a [Receiver]
      joined by a network that loses, repeats and reorders data packets and loses
      acknowledgments, until the writer closes and the reader sees the end of the stream;
      [packetReceived_routes] ties it to [Channel]. [LinkProgress] has the round of
      sends, acknowledgment, read and credit after which such a link has delivered
      everything, and a closed one has come to its end.
    - [ChannelPair], [ChannelPairCorrect]: two channels from connect() on, with the
      critical sections of trySend and packetReceived and the application's calls in any
      order; each direction is shown to be a run of [LinkDelivery].
    - [Packets]: packets/over_stream/. The COBS and murmur3 functions are the class
      [PacketCodec], with the laws of their documentation and a reference instance.
    - [Link]: link/link.cpp, link_input_stream.cpp, link_output_stream.cpp and
      link_transport.cpp.
    - [Arduino]: link/arduino/: LinkStream and the receive callback of the ESP32.
    - [PicoDma]: link/pico/reliable_uart_dma.cpp: the two DMA rings, against the registers
      of the hardware. [PicoBoard]: the instances of a board from constructor to end(), with
      what they claim and the interrupt they share.
    - [ReceiveLoops]: what feeds a channel from a serial port: the receive threads of
      link/esp_idf/ and link/arduino/rp2040/, the receive callback of link/arduino/esp32/ and
      link_stream_transport.cpp, with the channel. [EspIdf]: begin() and end() of
      link/esp_idf/reliable_uart.cpp with its two threads. [PicoReceive]: receiveLoop of
      reliable_uart_dma.cpp over the DMA ring.
    - [Messaging]: messaging/messaging.cpp, mux_messaging.cpp and
      link/link_messaging.cpp. The stream of the link is the interface [OutputStream]
      and [InputStream] with its laws. [MessagingThreads]: LinkMessaging as its threads run
      it over a [Channel], with begin() and end(); [MessagingThreadsCorrect] what they deliver,
      [MessagingEnd] how they end, [MessagingHangs] when they do not.
    - [RpcHeader], [Serialization], [RpcClient], [RpcServer]: rpc/status.h,
      internal/header.cpp, serialization.h, client.h, client.cpp, server.h, server.cpp
      and internal/server/request.h. [RpcTimer]: the timer thread of the server.
      [RpcPair]: a client and a server over a connection.

    ** Conventions

    An operation that can abort (a failed [CHECK], a null pointer, an access outside an
    array) returns an [option], and [None] is the abort. A loop that is not structural
    takes fuel, and [None] is also running out of it; the callers give the number of
    slots of the window, of bytes of the buffer or of pending requests plus a constant,
    and the theorems that an operation returns [Some] show that this is enough. The
    backoff loop takes 26 rounds, the number its comment gives. The clock and the random
    draws are arguments. Uninitialised memory is an argument of the constructors.

    Code that is not in the repository is a class of operations with a class of laws,
    stated as its documentation does; a reference instance of each shows that the laws
    can hold and makes the witnesses run. A theorem named [X] has its witness in
    [X_witness], which applies it to a concrete run.

    ** What is shown

    - Arithmetic and formats: the order of wrapped numbers, windows as intervals, the
      12-bit numbers on the wire, packet and RPC headers, serialized values, the bounds
      of the backoff.
    - Transmitter: in every reachable state every operation completes, if the
      acknowledgments name only packets that were sent; writing appends
      to the stream; what is sent is a packet of the stream, and a packet that is due is
      sent; an acknowledgment removes, marks and rushes exactly the packets it says;
      closing ends the stream.
    - Receiver: whatever packets of the peer's stream arrive, within 2048 positions of the
      window, the reader gets a prefix of that stream, and nothing aborts; a packet is
      stored where it belongs; acknowledgments and credit tell the truth.
    - Two channels: whatever the network loses, repeats and reorders during and after the
      handshake, within the bounds below, they stay intact and deliver in both directions,
      and from every state three handshake packets that arrive connect both.
    - Link: what the application reads at one end is a prefix of what was written at the
      other, whatever the network does within the bounds, the end of the stream is seen only
      after all of it,
      and no operation aborts; from any state one round that starts with a flush, on a
      network that works, delivers everything written, empties the queue and gives the writer room again, and after
      another a closed link has come to its end at both sides; the sender thread never sleeps on work it was told about.
      The bounds, which the code needs: a data packet is not delivered when it is more than
      2048 packets behind the receiver's window ([Receiver_late_copy]); acknowledgments and
      credit may be lost but are not reordered ([Transmitter_overtaken_ack],
      [Transmitter_stale_ack_stalls]); a link is closed only once it is connected
      ([Transmitter_close_before_connect]).
    - Channel: two channels that dial each other connect, with matching positions, credit
      and control bits; own and malformed packets are ignored; a stale stream gets an
      error; the disconnect callback is called exactly once, when the link goes down.
    - Packets: the receiver delivers what cutting the whole byte stream at its zeros
      gives, however the reads cut it, and recovers after any noise.
    - Back ends: the DMA rings are queues under every interleaving with the interrupt, and
      drain; over the whole life of the instances of a board the channels, locks and the interrupt
      belong to whom they should, and end() gives them back; every receive loop passes on to the
      channel exactly the packets in the bytes that arrive, in order, and catches up; the
      receive callback of the ESP32 is bounded and empties the backlog; end() of the
      ESP-IDF transport returns.
    - Messaging: accepted messages are whole on the link, whatever other threads send, arrive
      whole and in order, and reach the channel they are for; the receive thread does what
      the receive loop says; end() returns, in the cases stated, and is final.
    - RPC: values of every type that has a serializer survive the wire; a unary call
      computes the function of the server; a callback runs at most once
      and no call is lost, for every interleaving; every request is answered at most once,
      and by its deadline: the timer thread never oversleeps; over any connections, with
      many calls under way, every call gets an outcome of its own request.

    Theorems that show a defect of the code, each on a concrete run, are
    [Transmitter_close_before_connect], [Receiver_init_stale_position],
    [Receiver_markInputClosed_gap], [Channel_handshake_check_fails],
    [Channel_disconnect_leaves_writer_blocked], [Serializer_pair_loses_error],
    [RpcClient_stream_id_collision], [UnaryHandler_ignores_serialization_failure],
    [Transmitter_stale_ack_stalls], [Transmitter_overtaken_ack],
    [Receiver_late_copy], [ArduinoStream_timedRead_overwrites],
    [ArduinoStream_timedRead_loses_part], [LinkStreamTransport_connectAsync_blocks],
    [ArduinoStream_write1_reports_one], [Rp2040_end_waits_for_data],
    [LinkMessaging_restart_hangs], [LinkMessaging_end_hangs],
    [LinkMessaging_end_waits_for_send].

    ** Not modelled

    Names, stack sizes and priorities of threads; timed waits other than the timer thread's,
    awaitConnected's and the sender's; logging; the locks of the two halves of
    a channel, since every critical section is atomic here; the set-up of the serial ports
    and of their callbacks; benchmarks, examples and tests.

    The models of two channels on a network follow one connection: they do not reconnect. *)

From stdpp Require Export prelude.
From Stdlib Require Export ZArith Lia.

Declare Scope roo_scope.
Delimit Scope roo_scope with roo.
Local Open Scope Z_scope.

(** ** Machine integers

    A w-bit unsigned integer is a [Z] in [0, 2^w); a conversion to an unsigned
    type wraps around, as C++ specifies. [s16] is the conversion to
    [int16_t]. *)

Definition u8 (z : Z) : Z := z mod 256.
Definition u16 (z : Z) : Z := z mod 65536.
Definition u32 (z : Z) : Z := z mod 4294967296.
Definition u64 (z : Z) : Z := z mod 18446744073709551616.
Definition s16 (z : Z) : Z := (z + 32768) mod 65536 - 32768.

(** Bytes are 8-bit values. *)
Abbreviation byte := Z (only parsing).

(** ** Aborts

    [CHECK(b)] ends the program when [b] is false: an operation that can do so
    returns an [option], and [None] is the abort. The same value stands for a
    write or read outside an array, so that a theorem which proves [Some] also
    proves memory safety. *)

Definition check (b : bool) : option unit := if b then Some tt else None.

Notation "'CHECK' b ;; k" := (check b ≫= λ _, k)
  (at level 100, b at level 99, k at level 200, right associativity) : roo_scope.

(** [memcpy(dst + off, src, |src|)] on an array. *)
Definition memcpy {A} (dst : list A) (off : nat) (src : list A) : option (list A) :=
  if decide (off + length src ≤ length dst)%nat
  then Some (take off dst ++ src ++ drop (off + length src) dst)
  else None.

(** The [n] array elements from index [off] on; [None] past the end. *)
Definition slice {A} (src : list A) (off n : nat) : option (list A) :=
  if decide (off + n ≤ length src)%nat then Some (take n (drop off src)) else None.

(** ** Automation *)

(** Linear arithmetic over the wrapped operations. *)
Ltac wrap_lia :=
  unfold u8, u16, u32, u64, s16 in *; Z.div_mod_to_equations; lia.

(** Runs the [CHECK]s whose condition is known. *)
Ltac run_checks :=
  repeat match goal with
  | |- context [check ?b] =>
      let H := fresh in
      assert (b = true) as H by
        (rewrite ?andb_true_iff, ?negb_true_iff, ?Z.ltb_lt, ?Z.leb_le, ?Z.eqb_eq,
           ?Z.gtb_lt, ?Z.geb_le; (lia || done || auto));
      rewrite H; clear H; cbn [check mbind option_bind]
  end.

(** Case analysis on the boolean tests of the goal, in [Prop]. *)
Ltac case_bool :=
  repeat match goal with
  | |- context [Z.ltb ?a ?b] => destruct (Z.ltb_spec a b)
  | |- context [Z.leb ?a ?b] => destruct (Z.leb_spec a b)
  | |- context [Z.eqb ?a ?b] => destruct (Z.eqb_spec a b)
  end.

(** Inverts a successful monadic computation in a hypothesis. *)
Ltac inv_bind H :=
  repeat match type of H with
  | mbind _ ?m = Some _ =>
      let E := fresh "E" in
      destruct m eqn:E; cbn [mbind option_bind] in H; [|discriminate H]
  | check ?b ≫= _ = Some _ =>
      let E := fresh "E" in
      destruct b eqn:E; cbn [check mbind option_bind] in H; [|discriminate H]
  end.

(** Runs one step of a computation whose result is known. *)
Lemma bind_step {A B} (m : option A) (f : A → option B) a : m = Some a → m ≫= f = f a.
Proof. by intros ->. Qed.

Create HintDb roo discriminated.
Create Rewrite HintDb wrap.

(** ** Wrapped arithmetic *)

Lemma u8_range z : 0 ≤ u8 z < 256.
Proof. wrap_lia. Qed.

Lemma u16_range z : 0 ≤ u16 z < 65536.
Proof. wrap_lia. Qed.

Lemma u32_range z : 0 ≤ u32 z < 4294967296.
Proof. wrap_lia. Qed.

Lemma u8_small z : 0 ≤ z < 256 → u8 z = z.
Proof. apply Z.mod_small. Qed.

Lemma u16_small z : 0 ≤ z < 65536 → u16 z = z.
Proof. apply Z.mod_small. Qed.

Lemma u32_add_l a b : u32 (u32 a + b) = u32 (a + b).
Proof. apply Zplus_mod_idemp_l. Qed.

Lemma u32_small z : 0 ≤ z < 4294967296 → u32 z = z.
Proof. apply Z.mod_small. Qed.

Lemma u64_small z : 0 ≤ z < 18446744073709551616 → u64 z = z.
Proof. apply Z.mod_small. Qed.

Lemma s16_small z : -32768 ≤ z < 32768 → s16 z = z.
Proof. intros; wrap_lia. Qed.

Lemma u16_idemp z : u16 (u16 z) = u16 z.
Proof. apply Zmod_mod. Qed.

Lemma u16_add_l a b : u16 (u16 a + b) = u16 (a + b).
Proof. apply Zplus_mod_idemp_l. Qed.

Lemma u16_add_r a b : u16 (a + u16 b) = u16 (a + b).
Proof. apply Zplus_mod_idemp_r. Qed.

Lemma u16_sub_l a b : u16 (u16 a - b) = u16 (a - b).
Proof. apply Zminus_mod_idemp_l. Qed.

Lemma u16_sub_r a b : u16 (a - u16 b) = u16 (a - b).
Proof. apply Zminus_mod_idemp_r. Qed.

Lemma u16_s16 a : u16 (s16 a) = u16 a.
Proof. wrap_lia. Qed.

#[export] Hint Rewrite u16_idemp u16_add_l u16_add_r u16_sub_l u16_sub_r u16_s16 : wrap.

(** The wrapped difference of two positions is their distance, when that fits
    in an [int16_t]. *)
Lemma s16_sub_u16 a b : -32768 ≤ a - b < 32768 → s16 (u16 a - u16 b) = a - b.
Proof. intros; wrap_lia. Qed.

Lemma u16_inj a b : -65536 < a - b < 65536 → u16 a = u16 b → a = b.
Proof. intros; wrap_lia. Qed.

Lemma u16_mod_pow2 a k : 0 ≤ k ≤ 16 → u16 a mod 2 ^ k = a mod 2 ^ k.
Proof.
  intros. unfold u16. change 65536 with (2 ^ 16).
  apply Z.mod_mod_divide. exists (2 ^ (16 - k)).
  rewrite <- Z.pow_add_r by lia. f_equal; lia.
Qed.

(** Two positions closer than the modulus with the same residue are equal. *)
Lemma mod_inj_close a b m : 0 < m → -m < a - b < m → a mod m = b mod m → a = b.
Proof.
  intros Hm Hab Heq.
  pose proof (Z_div_mod_eq_full a m) as Ha. pose proof (Z_div_mod_eq_full b m) as Hb.
  rewrite Heq in Ha. assert (a / m = b / m) by nia. congruence.
Qed.

Lemma pow2_bounds k : 0 ≤ k ≤ 10 → 1 ≤ 2 ^ k ≤ 1024.
Proof.
  intros. split.
  - apply Z.lt_pred_le, Z.pow_pos_nonneg; lia.
  - change 1024 with (2 ^ 10). apply Z.pow_le_mono_r; lia.
Qed.

#[export] Hint Resolve u8_range u16_range u32_range : roo.

(** ** Lists used as arrays *)

Lemma length_memcpy {A} (dst : list A) off src dst' :
  memcpy dst off src = Some dst' → length dst' = length dst.
Proof.
  unfold memcpy. case_decide; [|done]. intros [= <-].
  rewrite !length_app, length_take, length_drop. lia.
Qed.

Lemma memcpy_Some {A} (dst : list A) off src :
  (off + length src ≤ length dst)%nat →
  memcpy dst off src = Some (take off dst ++ src ++ drop (off + length src) dst).
Proof. intros. unfold memcpy. by rewrite decide_True. Qed.

Lemma slice_Some {A} (src : list A) off n :
  (off + n ≤ length src)%nat → slice src off n = Some (take n (drop off src)).
Proof. intros. unfold slice. by rewrite decide_True. Qed.

(** A copy extends the prefix it is appended to. *)
Lemma take_memcpy {A} (dst : list A) off src dst' :
  memcpy dst off src = Some dst' →
  take (off + length src) dst' = take off dst ++ src.
Proof.
  unfold memcpy. case_decide; [|done]. intros [= <-].
  rewrite app_assoc, take_app_length'; [done|].
  rewrite length_app, length_take. lia.
Qed.

Lemma take_memcpy_le {A} (dst : list A) off src dst' n :
  memcpy dst off src = Some dst' → (n ≤ off)%nat → take n dst' = take n dst.
Proof.
  unfold memcpy. case_decide; [|done]. intros [= <-] ?.
  rewrite take_app_le by (rewrite length_take; lia).
  rewrite take_take. f_equal. lia.
Qed.

Lemma concat_all_nil {A} (ls : list (list A)) : Forall (λ l, l = []) ls → concat ls = [].
Proof. induction 1 as [|l ls ->]; done. Qed.
