(* ===== verification/SeqNum.v ===== *)
(** * SeqNum: sequence numbers that wrap around at 2^16

    [link/internal/seq_num.h]. A sequence number is its raw 16-bit value. The
    comparisons go through the signed 16-bit difference; the lemmas say that on
    positions of one stream closer than 2^15 they are the comparisons of the
    unbounded positions, which is how every component below reasons. *)

From S2P Require Import Prelude.

Local Open Scope Z_scope.

Abbreviation SeqNum := Z (only parsing).

Section Definitions.

(** The constructor, from a [uint16_t]. *)
Definition SeqNum_make (seq : Z) : SeqNum := u16 seq.

Definition SeqNum_eq (a b : SeqNum) : bool := a =? b.
Definition SeqNum_ne (a b : SeqNum) : bool := negb (a =? b).
Definition SeqNum_lt (a b : SeqNum) : bool := s16 (a - b) <? 0.
Definition SeqNum_le (a b : SeqNum) : bool := s16 (a - b) <=? 0.
Definition SeqNum_gt (a b : SeqNum) : bool := 0 <? s16 (a - b).
Definition SeqNum_ge (a b : SeqNum) : bool := 0 <=? s16 (a - b).

(** [operator++]: the incremented value (the prefix form returns it, the
    postfix form the one before). *)
Definition SeqNum_incr (a : SeqNum) : SeqNum := u16 (a + 1).

(** [operator+=], and [operator+ (int)]. *)
Definition SeqNum_add (a : SeqNum) (n : Z) : SeqNum := u16 (a + n).

(** [operator- (int)]. *)
Definition SeqNum_sub (a : SeqNum) (n : Z) : SeqNum := u16 (a - n).

(** [operator- (SeqNum)]: the wrapped distance from [b] to [a]. *)
Definition SeqNum_dist (a b : SeqNum) : Z := s16 (a - b).

Definition SeqNum_raw (a : SeqNum) : Z := a.

End Definitions.

Section Positions.

(** [a] and [b] are unbounded stream positions within reach of each other. *)
Context (a b : Z) (Hreach : -32768 ≤ a - b < 32768).

Lemma SeqNum_dist_pos : SeqNum_dist (u16 a) (u16 b) = a - b.
Proof. by apply s16_sub_u16. Qed.

Lemma SeqNum_lt_pos : SeqNum_lt (u16 a) (u16 b) = (a <? b).
Proof. unfold SeqNum_lt. rewrite s16_sub_u16 by done. case_bool; lia. Qed.

Lemma SeqNum_le_pos : SeqNum_le (u16 a) (u16 b) = (a <=? b).
Proof. unfold SeqNum_le. rewrite s16_sub_u16 by done. case_bool; lia. Qed.

Lemma SeqNum_gt_pos : SeqNum_gt (u16 a) (u16 b) = (b <? a).
Proof. unfold SeqNum_gt. rewrite s16_sub_u16 by done. case_bool; lia. Qed.

Lemma SeqNum_ge_pos : SeqNum_ge (u16 a) (u16 b) = (b <=? a).
Proof. unfold SeqNum_ge. rewrite s16_sub_u16 by done. case_bool; lia. Qed.

Lemma SeqNum_eq_pos : SeqNum_eq (u16 a) (u16 b) = (a =? b).
Proof.
  unfold SeqNum_eq. destruct (Z.eqb_spec a b) as [->|Hne]; [lia|].
  apply Z.eqb_neq. intros ?%u16_inj; lia.
Qed.

Lemma SeqNum_ne_pos : SeqNum_ne (u16 a) (u16 b) = negb (a =? b).
Proof. unfold SeqNum_ne. f_equal. apply SeqNum_eq_pos. Qed.

End Positions.

Lemma SeqNum_incr_pos a : SeqNum_incr (u16 a) = u16 (a + 1).
Proof. apply u16_add_l. Qed.

Lemma SeqNum_add_pos a n : SeqNum_add (u16 a) n = u16 (a + n).
Proof. apply u16_add_l. Qed.

Lemma SeqNum_sub_pos a n : SeqNum_sub (u16 a) n = u16 (a - n).
Proof. apply u16_sub_l. Qed.

#[export] Hint Rewrite SeqNum_incr_pos SeqNum_add_pos SeqNum_sub_pos : wrap.

(** C35: Sequence numbers order a stream correctly across the wrap at 2^16: on
    two positions of one stream that are less than 2^15 apart, each of the
    six comparisons of wrapped numbers is the comparison of the positions, and
    the wrapped difference is their distance. *)
Theorem SeqNum_orders_positions (a b : Z) (Hreach : -32768 ≤ a - b < 32768) :
  SeqNum_eq (SeqNum_make a) (SeqNum_make b) = (a =? b)
  ∧ SeqNum_ne (SeqNum_make a) (SeqNum_make b) = negb (a =? b)
  ∧ SeqNum_lt (SeqNum_make a) (SeqNum_make b) = (a <? b)
  ∧ SeqNum_le (SeqNum_make a) (SeqNum_make b) = (a <=? b)
  ∧ SeqNum_gt (SeqNum_make a) (SeqNum_make b) = (b <? a)
  ∧ SeqNum_ge (SeqNum_make a) (SeqNum_make b) = (b <=? a)
  ∧ SeqNum_dist (SeqNum_make a) (SeqNum_make b) = a - b
  ∧ SeqNum_add (SeqNum_make b) (a - b) = SeqNum_make a.
Proof.
  unfold SeqNum_make. repeat apply conj;
    auto using SeqNum_eq_pos, SeqNum_ne_pos, SeqNum_lt_pos, SeqNum_le_pos,
      SeqNum_gt_pos, SeqNum_ge_pos, SeqNum_dist_pos.
  rewrite SeqNum_add_pos. f_equal; lia.
Qed.

Lemma SeqNum_orders_positions_witness :
  SeqNum_make 65538 = 2 ∧ SeqNum_lt (SeqNum_make 65530) (SeqNum_make 65538) = true.
Proof.
  split; [reflexivity|].
  destruct (SeqNum_orders_positions 65530 65538) as (_ & _ & H & _); [lia|].
  rewrite H. reflexivity.
Defined.
