(* ===== verification/RingBuffer.v ===== *)
(** * RingBuffer: a window of sequence numbers

    [link/internal/ring_buffer.h]. The window keeps its two ends as wrapped
    sequence numbers and maps the numbers inside to slots of an array of
    2^capacity_log2 entries. [ring_abs r B E] relates it to the interval
    [B, E) of unbounded stream positions; the operations are proved against
    that interval. *)

From S2P Require Import Prelude.
From S2P Require Import SeqNum.

Local Open Scope Z_scope.
Local Open Scope roo_scope.

(** [link_buffer_size.h]: the largest window. *)
Definition kMaxLinkBufferSizeLog2 : Z := 10.

Record RingBuffer := mkRing {
  rb_log2 : Z;          (* capacity_log2_ *)
  rb_begin : SeqNum;    (* begin_ *)
  rb_end : SeqNum;      (* end_ *)
}.

Section Operations.

Definition RingBuffer_new (capacity_log2 : Z) (initial_seq : Z) : option RingBuffer :=
  CHECK (0 <=? capacity_log2) ;;
  CHECK (u32 capacity_log2 <=? kMaxLinkBufferSizeLog2) ;;
  Some (mkRing capacity_log2 (SeqNum_make initial_seq) (SeqNum_make initial_seq)).

Definition RingBuffer_capacity (r : RingBuffer) : Z := u16 (Z.shiftl 1 (rb_log2 r)).

Definition RingBuffer_slotsUsed (r : RingBuffer) : Z :=
  u16 (SeqNum_dist (rb_end r) (rb_begin r)).

Definition RingBuffer_slotsFree (r : RingBuffer) : Z :=
  u16 (RingBuffer_capacity r - RingBuffer_slotsUsed r).

Definition RingBuffer_empty (r : RingBuffer) : bool := RingBuffer_slotsUsed r =? 0.

Definition RingBuffer_push (r : RingBuffer) : option (SeqNum * RingBuffer) :=
  CHECK (0 <? RingBuffer_slotsFree r) ;;
  Some (rb_end r, mkRing (rb_log2 r) (rb_begin r) (SeqNum_incr (rb_end r))).

Definition RingBuffer_pop (r : RingBuffer) : option (SeqNum * RingBuffer) :=
  CHECK (0 <? RingBuffer_slotsUsed r) ;;
  Some (rb_begin r, mkRing (rb_log2 r) (SeqNum_incr (rb_begin r)) (rb_end r)).

Definition RingBuffer_reset (r : RingBuffer) (seq : SeqNum) : option RingBuffer :=
  CHECK (SeqNum_eq (rb_begin r) (rb_end r)) ;;
  Some (mkRing (rb_log2 r) seq seq).

Definition RingBuffer_contains (r : RingBuffer) (seq : SeqNum) : bool :=
  SeqNum_le (rb_begin r) seq && SeqNum_lt seq (rb_end r).

(** The [DCHECK] is the one of a debug build; the theorems of the clients show
    that it holds, so that a release build behaves the same. *)
Definition RingBuffer_offset_for (r : RingBuffer) (seq : SeqNum) : option Z :=
  CHECK (RingBuffer_contains r seq) ;;
  Some (u16 (Z.land (SeqNum_raw seq) (RingBuffer_capacity r - 1))).

Definition RingBuffer_restorePosHighBits (r : RingBuffer) (truncated_pos : Z)
    (pos_bits : Z) : option SeqNum :=
  CHECK (rb_log2 r + 2 <=? pos_bits) ;;
  let left := u16 (SeqNum_raw (rb_begin r) - Z.shiftl 1 (pos_bits - 1)) in
  Some (SeqNum_make (left + u16 (truncated_pos - left) mod Z.shiftl 1 pos_bits)).

(** [while (!ring.empty()) ring.pop();], the loop of [reset], [init] and
    [setBroken] in both link state machines. *)
Fixpoint RingBuffer_drain (fuel : nat) (r : RingBuffer) : option RingBuffer :=
  match fuel with
  | O => None
  | S fuel =>
      if RingBuffer_empty r then Some r
      else '(_, r') ← RingBuffer_pop r; RingBuffer_drain fuel r'
  end.

(** A window never holds more than 2^16 - 1 slots; 1024 for a valid one. *)
Definition RingBuffer_drain_all (r : RingBuffer) : option RingBuffer :=
  RingBuffer_drain (S (Z.to_nat (RingBuffer_slotsUsed r))) r.

End Operations.

(** ** The interval of positions a window stands for *)

Record ring_abs (r : RingBuffer) (B E : Z) : Prop := mkRingAbs {
  ra_log2 : 0 ≤ rb_log2 r ≤ kMaxLinkBufferSizeLog2;
  ra_begin : rb_begin r = u16 B;
  ra_end : rb_end r = u16 E;
  ra_size : 0 ≤ E - B ≤ 2 ^ rb_log2 r;
}.

Section Interval.

Context (r : RingBuffer) (B E : Z) (Hr : ring_abs r B E).

Lemma ring_capacity_bounds : 1 ≤ 2 ^ rb_log2 r ≤ 1024.
Proof. apply pow2_bounds, (ra_log2 _ _ _ Hr). Qed.

Lemma ring_size_bounds : 0 ≤ E - B ≤ 1024.
Proof. pose proof (ra_size _ _ _ Hr). pose proof ring_capacity_bounds. lia. Qed.

Lemma ring_capacity : RingBuffer_capacity r = 2 ^ rb_log2 r.
Proof.
  pose proof ring_capacity_bounds. destruct Hr. unfold RingBuffer_capacity.
  rewrite Z.shiftl_1_l. apply u16_small. lia.
Qed.

Lemma ring_slotsUsed : RingBuffer_slotsUsed r = E - B.
Proof.
  pose proof ring_size_bounds. unfold RingBuffer_slotsUsed.
  rewrite (ra_begin _ _ _ Hr), (ra_end _ _ _ Hr), SeqNum_dist_pos by lia.
  apply u16_small. lia.
Qed.

Lemma ring_slotsFree : RingBuffer_slotsFree r = 2 ^ rb_log2 r - (E - B).
Proof.
  pose proof ring_capacity_bounds. pose proof (ra_size _ _ _ Hr).
  unfold RingBuffer_slotsFree.
  rewrite ring_capacity, ring_slotsUsed. apply u16_small. lia.
Qed.

Lemma ring_empty : RingBuffer_empty r = (B =? E).
Proof. unfold RingBuffer_empty. rewrite ring_slotsUsed. case_bool; lia. Qed.

Lemma ring_push :
  E - B < 2 ^ rb_log2 r →
  ∃ r', RingBuffer_push r = Some (u16 E, r') ∧ ring_abs r' B (E + 1)
        ∧ rb_log2 r' = rb_log2 r.
Proof.
  intros. unfold RingBuffer_push. rewrite ring_slotsFree. run_checks.
  eexists. split; [by rewrite (ra_end _ _ _ Hr)|]. split; [|done].
  destruct Hr as [? Hb He ?]. constructor; cbn [rb_log2 rb_begin rb_end]; [done|done| |lia].
  apply SeqNum_incr_pos.
Qed.

Lemma ring_pop :
  B < E →
  ∃ r', RingBuffer_pop r = Some (u16 B, r') ∧ ring_abs r' (B + 1) E
        ∧ rb_log2 r' = rb_log2 r.
Proof.
  intros. unfold RingBuffer_pop. rewrite ring_slotsUsed. run_checks.
  eexists. split; [by rewrite (ra_begin _ _ _ Hr)|]. split; [|done].
  destruct Hr as [? Hb He ?]. constructor; cbn [rb_log2 rb_begin rb_end]; [done| |done|lia].
  apply SeqNum_incr_pos.
Qed.

Lemma ring_reset S :
  B = E → ∃ r', RingBuffer_reset r (u16 S) = Some r' ∧ ring_abs r' S S
                ∧ rb_log2 r' = rb_log2 r.
Proof.
  intros HBE. unfold RingBuffer_reset. rewrite (ra_begin _ _ _ Hr), (ra_end _ _ _ Hr), HBE.
  unfold SeqNum_eq. run_checks. eexists; split; [done|]. split; [|done].
  pose proof ring_capacity_bounds. destruct Hr. constructor; cbn; auto. lia.
Qed.

Lemma ring_contains S :
  -30000 ≤ S - B ≤ 30000 →
  RingBuffer_contains r (u16 S) = (B <=? S) && (S <? E).
Proof.
  intros. pose proof ring_size_bounds. unfold RingBuffer_contains.
  rewrite (ra_begin _ _ _ Hr), (ra_end _ _ _ Hr), SeqNum_le_pos, SeqNum_lt_pos by lia.
  done.
Qed.

Lemma ring_offset_for S :
  B ≤ S < E → RingBuffer_offset_for r (u16 S) = Some (S mod 2 ^ rb_log2 r).
Proof.
  intros. pose proof ring_size_bounds. pose proof ring_capacity_bounds.
  pose proof (ra_log2 _ _ _ Hr) as Hl. unfold kMaxLinkBufferSizeLog2 in Hl.
  unfold RingBuffer_offset_for. rewrite ring_contains by lia.
  run_checks. f_equal. rewrite ring_capacity, Z.sub_1_r, <- Z.ones_equiv.
  unfold SeqNum_raw. rewrite Z.land_ones by lia. rewrite u16_mod_pow2 by lia.
  apply u16_small. pose proof (Z.mod_pos_bound S (2 ^ rb_log2 r)). lia.
Qed.

Lemma ring_restore S :
  -2048 ≤ S - B < 2048 →
  RingBuffer_restorePosHighBits r (S mod 4096) 12 = Some (u16 S).
Proof.
  intros. unfold RingBuffer_restorePosHighBits, SeqNum_make, SeqNum_raw.
  pose proof (ra_log2 _ _ _ Hr) as Hl. unfold kMaxLinkBufferSizeLog2 in Hl.
  run_checks. rewrite (ra_begin _ _ _ Hr). change (Z.shiftl 1 12) with 4096.
  change (Z.shiftl 1 (12 - 1)) with 2048. f_equal. wrap_lia.
Qed.

(** Whatever 12 bits arrive, the restored position is one close to the window. *)
Lemma ring_restore_any p :
  0 ≤ p < 4096 →
  ∃ S, RingBuffer_restorePosHighBits r p 12 = Some (u16 S)
       ∧ -2048 ≤ S - B < 2048 ∧ S mod 4096 = p.
Proof.
  intros. exists (B - 2048 + (p - (B - 2048)) mod 4096).
  assert (Hm : (B - 2048 + (p - (B - 2048)) mod 4096) mod 4096 = p)
    by (Z.div_mod_to_equations; lia).
  split; [|split; [Z.div_mod_to_equations; lia|done]].
  rewrite <- Hm at 1. apply ring_restore. Z.div_mod_to_equations; lia.
Qed.

End Interval.

Lemma ring_drain fuel r B E :
  ring_abs r B E → (Z.to_nat (E - B) < fuel)%nat →
  ∃ r', RingBuffer_drain fuel r = Some r' ∧ ring_abs r' E E ∧ rb_log2 r' = rb_log2 r.
Proof.
  revert r B. induction fuel as [|fuel IH]; intros r B Hr HBE; [lia|].
  cbn [RingBuffer_drain]. rewrite (ring_empty _ _ _ Hr).
  pose proof (ring_size_bounds _ _ _ Hr). destruct (Z.eqb_spec B E) as [->|?]; [by eauto|].
  destruct (ring_pop _ _ _ Hr) as (r' & -> & Hr' & Hl); [lia|]. cbn.
  destruct (IH _ _ Hr') as (r'' & ? & ? & ?); [lia|]. exists r''. split_and!; congruence.
Qed.

Lemma ring_drain_all r B E :
  ring_abs r B E →
  ∃ r', RingBuffer_drain_all r = Some r' ∧ ring_abs r' E E ∧ rb_log2 r' = rb_log2 r.
Proof.
  intros Hr. unfold RingBuffer_drain_all. rewrite (ring_slotsUsed _ _ _ Hr).
  eapply ring_drain; [done|lia].
Qed.

Lemma ring_new log2 seq :
  0 ≤ log2 ≤ kMaxLinkBufferSizeLog2 →
  RingBuffer_new log2 seq = Some (mkRing log2 (u16 seq) (u16 seq))
  ∧ ring_abs (mkRing log2 (u16 seq) (u16 seq)) seq seq.
Proof.
  unfold RingBuffer_new, kMaxLinkBufferSizeLog2. intros.
  rewrite u32_small by lia. run_checks. split; [done|].
  pose proof (pow2_bounds log2). constructor; cbn; unfold kMaxLinkBufferSizeLog2; lia.
Qed.

(** Two positions of the window never share a slot. *)
Lemma ring_offset_inj r B E S T :
  ring_abs r B E → B ≤ S < E → B ≤ T < E →
  S mod 2 ^ rb_log2 r = T mod 2 ^ rb_log2 r → S = T.
Proof.
  intros Hr ?? Heq. pose proof (ra_size _ _ _ Hr). pose proof (ring_capacity_bounds _ _ _ Hr).
  eapply mod_inj_close; [| |done]; lia.
Qed.

(** C34: A window implements a bounded queue of stream positions. When it stands
    for the interval [B, E), its counters are the interval's length and the
    remaining capacity, it is empty exactly when B = E, [push] succeeds exactly
    when there is a free slot and then returns position E, and [pop] succeeds
    exactly when the window is not empty and then returns position B. *)
Theorem RingBuffer_refines_interval (r : RingBuffer) (B E : Z) (Hr : ring_abs r B E) :
  RingBuffer_slotsUsed r = E - B
  ∧ RingBuffer_slotsFree r = 2 ^ rb_log2 r - (E - B)
  ∧ (RingBuffer_empty r = true ↔ B = E)
  ∧ (E - B = 2 ^ rb_log2 r → RingBuffer_push r = None)
  ∧ (E - B < 2 ^ rb_log2 r →
       ∃ r', RingBuffer_push r = Some (u16 E, r') ∧ ring_abs r' B (E + 1))
  ∧ (B = E → RingBuffer_pop r = None)
  ∧ (B < E → ∃ r', RingBuffer_pop r = Some (u16 B, r') ∧ ring_abs r' (B + 1) E).
Proof.
  pose proof (ring_slotsUsed _ _ _ Hr) as Hu. pose proof (ring_slotsFree _ _ _ Hr) as Hf.
  do 2 (split; [done|]). split; [|split; [|split; [|split]]].
  - rewrite (ring_empty _ _ _ Hr). apply Z.eqb_eq.
  - intros Heq. unfold RingBuffer_push. rewrite Hf, Heq, Z.sub_diag. done.
  - intros H. destruct (ring_push _ _ _ Hr H) as (r' & ? & ? & _). eauto.
  - intros ->. unfold RingBuffer_pop. rewrite Hu, Z.sub_diag. done.
  - intros H. destruct (ring_pop _ _ _ Hr H) as (r' & ? & ? & _). eauto.
Qed.

Lemma RingBuffer_refines_interval_witness :
  RingBuffer_slotsFree (mkRing 2 65535 1) = 2
  ∧ ∃ r', RingBuffer_push (mkRing 2 65535 1) = Some (1, r') ∧ ring_abs r' 65535 65538.
Proof.
  assert (Hr : ring_abs (mkRing 2 65535 1) 65535 65537)
    by (constructor; cbn; unfold kMaxLinkBufferSizeLog2; auto with lia).
  destruct (RingBuffer_refines_interval _ _ _ Hr) as (_ & Hf & _ & _ & Hp & _).
  split; [exact Hf|]. apply Hp. reflexivity.
Defined.

(** Live sequence numbers never collide in the buffer array: each position
    of the window is mapped to a slot inside the array, and different positions
    of the window to different slots, also across the 2^16 wrap. *)
Theorem RingBuffer_slots_distinct (r : RingBuffer) (B E : Z) (Hr : ring_abs r B E) :
  ∀ S T, B ≤ S < E → B ≤ T < E →
  ∃ i j, RingBuffer_offset_for r (SeqNum_make S) = Some i
         ∧ RingBuffer_offset_for r (SeqNum_make T) = Some j
         ∧ 0 ≤ i < RingBuffer_capacity r ∧ (i = j ↔ S = T).
Proof.
  intros S T HS HT. unfold SeqNum_make.
  rewrite !(ring_offset_for _ _ _ Hr) by done. do 2 eexists. do 2 (split; [done|]).
  pose proof (ring_capacity_bounds _ _ _ Hr). rewrite (ring_capacity _ _ _ Hr).
  split; [apply Z.mod_pos_bound; lia|]. split; [|congruence].
  by apply (ring_offset_inj _ B E).
Qed.

Lemma RingBuffer_slots_distinct_witness :
  ∃ i j, RingBuffer_offset_for (mkRing 2 65535 2) 65535 = Some i
         ∧ RingBuffer_offset_for (mkRing 2 65535 2) 1 = Some j ∧ i ≠ j.
Proof.
  assert (Hr : ring_abs (mkRing 2 65535 2) 65535 65538)
    by (constructor; cbn; unfold kMaxLinkBufferSizeLog2; auto with lia).
  destruct (RingBuffer_slots_distinct _ _ _ Hr 65535 65537) as (i & j & Hi & Hj & _ & Hij);
    [lia|lia|].
  exists i, j. split; [exact Hi|]. split; [exact Hj|]. lia.
Defined.
