(* ===== verification/RooIo.v ===== *)
(** * RooIo: the byte-level primitives of roo_io that the transport calls

    roo_io is a separate library. Its memory primitives are the fields of a
    class, and the documented behaviour the transport relies on ("store in
    network order", "load what was stored") is a second class of laws, stated
    against the reference encoding [be_bytes]. [roo_io_reference] is the
    instance that shows the laws can hold; the witnesses use it. *)

From S2P Require Import Prelude.

Local Open Scope Z_scope.

(** ** The reference encoding: [n] bytes, most significant first *)

Fixpoint be_bytes (n : nat) (x : Z) : list byte :=
  match n with
  | O => []
  | S n => (x / 256 ^ Z.of_nat n) mod 256 :: be_bytes n x
  end.

Definition be_value (bs : list byte) : Z := foldl (λ acc b, acc * 256 + b) 0 bs.

Definition is_byte (b : Z) : Prop := 0 ≤ b < 256.

Lemma length_be_bytes n x : length (be_bytes n x) = n.
Proof. induction n; cbn; congruence. Qed.

Lemma be_bytes_is_byte n x : Forall is_byte (be_bytes n x).
Proof.
  induction n; cbn; constructor; [|done]. unfold is_byte. apply Z.mod_pos_bound. lia.
Qed.

Lemma be_value_app bs cs :
  be_value (bs ++ cs) = foldl (λ acc b, acc * 256 + b) (be_value bs) cs.
Proof. apply foldl_app. Qed.

Lemma foldl_be_bytes n x acc :
  foldl (λ acc b, acc * 256 + b) acc (be_bytes n x)
  = acc * 256 ^ Z.of_nat n + x mod 256 ^ Z.of_nat n.
Proof.
  revert acc. induction n as [|n IH]; intros acc; cbn [be_bytes foldl].
  - rewrite Z.mod_1_r. cbn. lia.
  - rewrite IH, Nat2Z.inj_succ, Z.pow_succ_r by lia.
    assert (0 < 256 ^ Z.of_nat n) by (apply Z.pow_pos_nonneg; lia).
    rewrite (Z.mul_comm 256), Z.rem_mul_r by lia. ring.
Qed.

Lemma be_value_bytes n x :
  0 ≤ x < 256 ^ Z.of_nat n → be_value (be_bytes n x) = x.
Proof. intros. unfold be_value. rewrite foldl_be_bytes, Z.mod_small; lia. Qed.

Lemma be_value_range bs :
  Forall is_byte bs → 0 ≤ be_value bs < 256 ^ Z.of_nat (length bs).
Proof.
  induction bs as [|b bs IH] using rev_ind; [cbn; lia|].
  rewrite Forall_app, Forall_singleton. intros [Hbs Hb]. rewrite be_value_app. cbn.
  rewrite length_app, Nat2Z.inj_add, Z.pow_add_r by lia. cbn.
  specialize (IH Hbs). unfold is_byte in Hb. lia.
Qed.

Lemma be_value_cons b bs : be_value (b :: bs) = b * 256 ^ Z.of_nat (length bs) + be_value bs.
Proof.
  induction bs as [|c bs IH] using rev_ind; [cbn; lia|].
  rewrite app_comm_cons, !be_value_app, IH, length_app, Nat2Z.inj_add, Z.pow_add_r by lia. cbn. lia.
Qed.

Lemma be_bytes_mod n x : be_bytes n (x mod 256 ^ Z.of_nat n) = be_bytes n x.
Proof.
  enough (H : ∀ m, (n ≤ m)%nat → be_bytes n (x mod 256 ^ Z.of_nat m) = be_bytes n x) by auto.
  induction n as [|n IH]; intros m Hm; [done|]. cbn [be_bytes]. f_equal; [|apply IH; lia].
  replace (Z.of_nat m) with (Z.of_nat n + (1 + Z.of_nat (m - S n))) by lia.
  rewrite (Z.pow_add_r 256 (Z.of_nat n)), (Z.pow_add_r 256 1) by lia.
  assert (0 < 256 ^ Z.of_nat n) by (apply Z.pow_pos_nonneg; lia).
  assert (0 < 256 ^ Z.of_nat (m - S n)) by (apply Z.pow_pos_nonneg; lia).
  rewrite Z.rem_mul_r, (Z.mul_comm (256 ^ Z.of_nat n)), Z.div_add, Z.div_small by
    (try apply Z.mod_pos_bound; lia).
  rewrite Z.add_0_l. apply Z.mod_mod_divide. exists (256 ^ Z.of_nat (m - S n)). lia.
Qed.

(** The bytes are determined by their value. *)
Lemma be_bytes_value bs : Forall is_byte bs → be_bytes (length bs) (be_value bs) = bs.
Proof.
  induction 1 as [|b bs Hb Hbs IH]; [done|]. cbn [length be_bytes]. rewrite be_value_cons.
  pose proof (be_value_range bs Hbs) as Hr. unfold is_byte in Hb.
  rewrite Z.div_add_l, (Z.div_small (be_value bs)), Z.add_0_r, Z.mod_small by lia. f_equal.
  rewrite <- be_bytes_mod, Z.add_comm, Z.mod_add, Z.mod_small by lia. done.
Qed.

Lemma be_value_zeros bs : Forall (λ b, b = 0) bs → be_value bs = 0.
Proof. unfold be_value. induction 1 as [|b bs ->]; [done|]. cbn. done. Qed.

(** A value that is not zero has a byte that is not. *)
Lemma be_bytes_nonzero n x :
  0 < x < 256 ^ Z.of_nat n → ∃ i b, (i < n)%nat ∧ be_bytes n x !! i = Some b ∧ b ≠ 0.
Proof.
  intros Hx. destruct (Forall_Exists_dec (λ b, b = 0) (λ b, b ≠ 0)
    (λ b, match decide (b = 0) with left H => left H | right H => right H end) (be_bytes n x))
    as [Hall|(b & Hb & Hne)%Exists_exists].
  - pose proof (be_value_bytes n x ltac:(lia)) as Hv. rewrite (be_value_zeros _ Hall) in Hv. lia.
  - apply list_elem_of_lookup in Hb as [i Hi]. exists i, b. split; [|done].
    apply lookup_lt_Some in Hi. by rewrite length_be_bytes in Hi.
Qed.

(** ** The interface *)

Class RooIo := {
  StoreU8 : Z → list byte;
  StoreBeU16 : Z → list byte;
  StoreBeU32 : Z → list byte;
  StoreBeU64 : Z → list byte;
  LoadU8 : list byte → Z;
  LoadBeU16 : list byte → Z;
  LoadBeU32 : list byte → Z;
  LoadBeU64 : list byte → Z;
}.

(** Stores write the value in network byte order; loads read it back. A load
    is applied to exactly the bytes it reads. *)
Class RooIoLaws {io : RooIo} : Prop := {
  StoreU8_be x : 0 ≤ x < 2 ^ 8 → StoreU8 x = be_bytes 1 x;
  StoreBeU16_be x : 0 ≤ x < 2 ^ 16 → StoreBeU16 x = be_bytes 2 x;
  StoreBeU32_be x : 0 ≤ x < 2 ^ 32 → StoreBeU32 x = be_bytes 4 x;
  StoreBeU64_be x : 0 ≤ x < 2 ^ 64 → StoreBeU64 x = be_bytes 8 x;
  LoadU8_be bs : length bs = 1%nat → Forall is_byte bs → LoadU8 bs = be_value bs;
  LoadBeU16_be bs : length bs = 2%nat → Forall is_byte bs → LoadBeU16 bs = be_value bs;
  LoadBeU32_be bs : length bs = 4%nat → Forall is_byte bs → LoadBeU32 bs = be_value bs;
  LoadBeU64_be bs : length bs = 8%nat → Forall is_byte bs → LoadBeU64 bs = be_value bs;
}.

Instance roo_io_reference : RooIo := {|
  StoreU8 := be_bytes 1; StoreBeU16 := be_bytes 2;
  StoreBeU32 := be_bytes 4; StoreBeU64 := be_bytes 8;
  LoadU8 := be_value; LoadBeU16 := be_value;
  LoadBeU32 := be_value; LoadBeU64 := be_value;
|}.

Instance roo_io_reference_laws : RooIoLaws (io := roo_io_reference).
Proof. by constructor. Qed.

Section Laws.

Context {io : RooIo} {io_laws : RooIoLaws}.

Lemma LoadBeU16_Store x : 0 ≤ x < 65536 → LoadBeU16 (StoreBeU16 x) = x.
Proof.
  intros. rewrite StoreBeU16_be, LoadBeU16_be; auto using length_be_bytes, be_bytes_is_byte.
  by apply be_value_bytes.
Qed.

Lemma LoadBeU32_Store x : 0 ≤ x < 4294967296 → LoadBeU32 (StoreBeU32 x) = x.
Proof.
  intros. rewrite StoreBeU32_be, LoadBeU32_be; auto using length_be_bytes, be_bytes_is_byte.
  by apply be_value_bytes.
Qed.

Lemma LoadBeU64_Store x : 0 ≤ x < 18446744073709551616 → LoadBeU64 (StoreBeU64 x) = x.
Proof.
  intros. rewrite StoreBeU64_be, LoadBeU64_be; auto using length_be_bytes, be_bytes_is_byte.
  by apply be_value_bytes.
Qed.

Lemma LoadU8_Store x : 0 ≤ x < 256 → LoadU8 (StoreU8 x) = x.
Proof.
  intros. rewrite StoreU8_be, LoadU8_be; auto using length_be_bytes, be_bytes_is_byte.
  by apply be_value_bytes.
Qed.

Lemma length_StoreU8 x : 0 ≤ x < 256 → length (StoreU8 x) = 1%nat.
Proof. intros. rewrite StoreU8_be by lia. apply length_be_bytes. Qed.

Lemma length_StoreBeU16 x : 0 ≤ x < 65536 → length (StoreBeU16 x) = 2%nat.
Proof. intros. rewrite StoreBeU16_be by lia. apply length_be_bytes. Qed.

Lemma length_StoreBeU32 x : 0 ≤ x < 4294967296 → length (StoreBeU32 x) = 4%nat.
Proof. intros. rewrite StoreBeU32_be by lia. apply length_be_bytes. Qed.

Lemma length_StoreBeU64 x : 0 ≤ x < 18446744073709551616 → length (StoreBeU64 x) = 8%nat.
Proof. intros. rewrite StoreBeU64_be by lia. apply length_be_bytes. Qed.

End Laws.

(** ** The platform: clock and random generator

    An [Uptime] is its number of microseconds. The two constants of roo_time, the
    range of the random generator ([RANDOM_INTEGER_MAX]), the largest [long] and the
    kind of build are parameters; times read from the clock and random draws are arguments of the operations
    that read them. *)
Class Platform := {
  Uptime_Start : Z;
  Uptime_Max : Z;
  RANDOM_INTEGER_MAX : Z;
  LONG_MAX : Z;
  debug_build : bool;
}.

(** [(long)z]: the conversion of a 64-bit difference of times. *)
Definition to_long `{Platform} (z : Z) : Z :=
  (z + (LONG_MAX + 1)) mod (2 * (LONG_MAX + 1)) - (LONG_MAX + 1).

(** [DCHECK(b)]: a [CHECK] in a debug build, nothing in a release build. *)
Definition dcheck `{Platform} (b : bool) : option unit := check (negb debug_build || b).

Notation "'DCHECK' b ;; k" := (dcheck b ≫= λ _, k)
  (at level 100, b at level 99, k at level 200, right associativity) : roo_scope.

Lemma dcheck_true `{Platform} {A} b (k : unit → option A) : b = true → dcheck b ≫= k = k tt.
Proof. intros ->. unfold dcheck. by rewrite orb_true_r. Qed.

Class PlatformLaws {pf : Platform} : Prop := {
  Uptime_Start_Max : Uptime_Start < Uptime_Max;
  RANDOM_INTEGER_MAX_u32 : 0 ≤ RANDOM_INTEGER_MAX < 2 ^ 32;
}.

(** The ESP32 and host values. *)
Instance platform_esp32 : Platform := {|
  Uptime_Start := 0; Uptime_Max := 9223372036854775807;
  RANDOM_INTEGER_MAX := 4294967295; LONG_MAX := 2147483647; debug_build := true;
|}.

Instance platform_esp32_laws : PlatformLaws (pf := platform_esp32).
Proof. constructor; cbn; lia. Qed.
