(* ===== verification/Protocol.v ===== *)
(** * Protocol: packet types and the 16-bit packet header

    [link/internal/protocol.h]. The header holds the control bit (bit 15), the
    packet type (bits 14-12) and the low 12 bits of the sequence number. *)

From S2P Require Import Prelude.
From S2P Require Import SeqNum.
From S2P Require Import RingBuffer.
From S2P Require Import RooIo.

Local Open Scope Z_scope.
Local Open Scope roo_scope.

(** The values 5 to 7 fit the three type bits without being named. *)
Inductive PacketType :=
  | kDataPacket | kFinPacket | kDataAckPacket | kHandshakePacket | kFlowControlPacket
  | kUnnamedPacket (code : Z).

Section Operations.

Definition PacketType_code (t : PacketType) : Z :=
  match t with
  | kDataPacket => 0
  | kFinPacket => 1
  | kDataAckPacket => 2
  | kHandshakePacket => 3
  | kFlowControlPacket => 4
  | kUnnamedPacket code => code
  end.

Definition PacketType_of_code (c : Z) : PacketType :=
  if c =? 0 then kDataPacket
  else if c =? 1 then kFinPacket
  else if c =? 2 then kDataAckPacket
  else if c =? 3 then kHandshakePacket
  else if c =? 4 then kFlowControlPacket
  else kUnnamedPacket c.

Definition GetPacketControlBit (header : Z) : bool :=
  negb (Z.land header 0x8000 =? 0).

Definition GetPacketType (header : Z) : PacketType :=
  PacketType_of_code (Z.shiftr (Z.land header 0x7FFF) 12).

Definition FormatPacketHeader (seq : SeqNum) (type : PacketType) (control_bit : bool) : Z :=
  u16 (Z.lor (Z.lor (Z.land (SeqNum_raw seq) 0x0FFF)
                    (Z.shiftl (PacketType_code type) 12))
             (if control_bit then 0x8000 else 0)).

(** With the [DCHECK] of a debug build. *)
Definition SetPacketHeaderTypeFin (header : Z) : option Z :=
  CHECK (Z.land header 0x7000 <=? 1) ;;
  Some (u16 (Z.lor header 0x1000)).

End Operations.

(** ** The header as a number *)

Lemma lor_shiftl_add a b k :
  0 ≤ k → 0 ≤ a < 2 ^ k → Z.lor a (Z.shiftl b k) = a + b * 2 ^ k.
Proof.
  intros Hk Ha. rewrite <- Z.shiftl_mul_pow2 by done. symmetry. apply Z.add_nocarry_lor.
  apply Z.bits_inj'. intros i Hi. rewrite Z.land_spec, Z.bits_0, Z.shiftl_spec by done.
  destruct (decide (i < k)).
  - rewrite (Z.testbit_neg_r b) by lia. apply andb_false_r.
  - rewrite <- (Z.mod_small a (2 ^ k)), Z.mod_pow2_bits_high by lia. done.
Qed.

Definition header_value (p c : Z) (cb : bool) : Z :=
  p + c * 4096 + (if cb then 32768 else 0).

Lemma FormatPacketHeader_value seq type cb :
  0 ≤ PacketType_code type < 8 →
  FormatPacketHeader seq type cb = header_value (seq mod 4096) (PacketType_code type) cb.
Proof.
  intros. unfold FormatPacketHeader, SeqNum_raw, header_value.
  change 0x0FFF with (Z.ones 12). rewrite Z.land_ones by lia. change (2 ^ 12) with 4096.
  assert (0 ≤ seq mod 4096 < 4096) by (apply Z.mod_pos_bound; lia).
  rewrite lor_shiftl_add by lia. change (2 ^ 12) with 4096.
  destruct cb.
  - rewrite (lor_shiftl_add _ 1 15) by lia. apply u16_small. lia.
  - rewrite Z.lor_0_r, Z.add_0_r. apply u16_small. lia.
Qed.

Lemma header_range p c cb :
  0 ≤ p < 4096 → 0 ≤ c < 8 → 0 ≤ header_value p c cb < 65536.
Proof. unfold header_value. destruct cb; lia. Qed.

Lemma GetPacketType_value p c cb :
  0 ≤ p < 4096 → 0 ≤ c < 8 → GetPacketType (header_value p c cb) = PacketType_of_code c.
Proof.
  intros. unfold GetPacketType, header_value. f_equal.
  change 0x7FFF with (Z.ones 15). rewrite Z.land_ones, Z.shiftr_div_pow2 by lia.
  change (2 ^ 15) with 32768. change (2 ^ 12) with 4096.
  destruct cb; Z.div_mod_to_equations; lia.
Qed.

(** Masking a field of [n] bits at bit [k]. *)
Lemma land_field h k n :
  0 ≤ k → 0 ≤ n → Z.land h (Z.shiftl (Z.ones n) k) = (h / 2 ^ k) mod 2 ^ n * 2 ^ k.
Proof.
  intros. rewrite <- Z.shiftr_div_pow2, <- Z.land_ones, <- Z.shiftl_mul_pow2 by done.
  apply Z.bits_inj'. intros i Hi. rewrite !Z.shiftl_spec, !Z.land_spec, !Z.shiftl_spec by done.
  destruct (decide (k ≤ i)).
  - rewrite Z.shiftr_spec by lia. do 2 f_equal. lia.
  - rewrite !(Z.testbit_neg_r _ (i - k)) by lia. apply andb_false_r.
Qed.

Lemma GetPacketControlBit_value p c cb :
  0 ≤ p < 4096 → 0 ≤ c < 8 → GetPacketControlBit (header_value p c cb) = cb.
Proof.
  intros. unfold GetPacketControlBit. change 0x8000 with (Z.shiftl (Z.ones 1) 15).
  rewrite land_field by lia. change (2 ^ 15) with 32768. change (2 ^ 1) with 2.
  unfold header_value.
  destruct cb; match goal with |- negb (?a =? 0) = _ => destruct (Z.eqb_spec a 0) end;
    try done; Z.div_mod_to_equations; lia.
Qed.

Lemma header_seq_bits p c cb :
  0 ≤ p < 4096 → Z.land (header_value p c cb) 0x0FFF = p.
Proof.
  intros. unfold header_value. change 0x0FFF with (Z.ones 12).
  rewrite Z.land_ones by lia. change (2 ^ 12) with 4096.
  destruct cb; Z.div_mod_to_equations; lia.
Qed.

Lemma SetPacketHeaderTypeFin_value p cb :
  0 ≤ p < 4096 →
  SetPacketHeaderTypeFin (header_value p 0 cb) = Some (header_value p 1 cb).
Proof.
  intros. unfold SetPacketHeaderTypeFin, header_value.
  change 0x7000 with (Z.shiftl (Z.ones 3) 12). rewrite land_field by lia.
  change (2 ^ 12) with 4096. change (2 ^ 3) with 8.
  assert (((p + 0 * 4096 + (if cb then 32768 else 0)) / 4096) mod 8 = 0) as ->
    by (destruct cb; Z.div_mod_to_equations; lia).
  change (0 * 4096 <=? 1) with true. cbn [check mbind option_bind]. f_equal.
  rewrite <- Z.add_nocarry_lor.
  - rewrite u16_small by (destruct cb; lia). destruct cb; lia.
  - change 0x1000 with (Z.shiftl (Z.ones 1) 12). rewrite land_field by lia.
    change (2 ^ 12) with 4096. change (2 ^ 1) with 2.
    destruct cb; Z.div_mod_to_equations; lia.
Qed.

(** The named packet types survive the trip through their code. *)
Definition named (t : PacketType) : bool :=
  match t with kUnnamedPacket _ => false | _ => true end.

Lemma named_code t :
  named t = true → 0 ≤ PacketType_code t < 5 ∧ PacketType_of_code (PacketType_code t) = t.
Proof. by destruct t. Qed.

Lemma packet_header_fields seq type cb :
  named type = true →
  GetPacketType (FormatPacketHeader seq type cb) = type
  ∧ GetPacketControlBit (FormatPacketHeader seq type cb) = cb
  ∧ Z.land (FormatPacketHeader seq type cb) 0x0FFF = seq mod 4096.
Proof.
  intros Hnamed. destruct (named_code _ Hnamed) as [Hc Ht].
  assert (0 ≤ seq mod 4096 < 4096) by (apply Z.mod_pos_bound; lia).
  rewrite FormatPacketHeader_value by lia.
  rewrite GetPacketType_value, GetPacketControlBit_value, header_seq_bits by lia. done.
Qed.

(** The packet header round-trips: from the header formatted for a sequence
    number, a named packet type and a control bit, the receiving side reads back
    the type, the control bit and the low 12 bits of the number, and turning a
    data header into a 'final data' one gives the header that would have been
    formatted with the final type. *)
Theorem packet_header_roundtrip (seq : SeqNum) (type : PacketType) (cb : bool)
    (Hnamed : named type = true) :
  let h := FormatPacketHeader seq type cb in
  0 ≤ h < 65536
  ∧ GetPacketType h = type
  ∧ GetPacketControlBit h = cb
  ∧ Z.land h 0x0FFF = seq mod 4096
  ∧ SetPacketHeaderTypeFin (FormatPacketHeader seq kDataPacket cb)
    = Some (FormatPacketHeader seq kFinPacket cb).
Proof.
  destruct (named_code _ Hnamed) as [Hc Ht]. intros h. subst h.
  assert (0 ≤ seq mod 4096 < 4096) by (apply Z.mod_pos_bound; lia).
  rewrite !FormatPacketHeader_value by (cbn; lia). split_and!.
  - apply header_range; lia.
  - apply header_range; lia.
  - rewrite GetPacketType_value by lia. done.
  - apply GetPacketControlBit_value; lia.
  - by apply header_seq_bits.
  - by apply SetPacketHeaderTypeFin_value.
Qed.

Lemma packet_header_roundtrip_witness :
  GetPacketType (FormatPacketHeader 65535 kFlowControlPacket true) = kFlowControlPacket
  ∧ Z.land (FormatPacketHeader 65535 kFlowControlPacket true) 0x0FFF = 4095.
Proof.
  destruct (packet_header_roundtrip 65535 kFlowControlPacket true eq_refl)
    as (_ & H1 & _ & H2 & _).
  split; [exact H1|exact H2].
Defined.

(** A 12-bit sequence number on the wire identifies the stream position: for
    every position within 2048 of the receiving window's start (any window of
    up to 1024 slots, a full window ahead or behind included), the position
    formatted into a packet header and restored by the window of the other side
    is the original one. *)
Theorem wire_sequence_roundtrip (r : RingBuffer) (B E : Z) (Hr : ring_abs r B E) :
  ∀ (S : Z) (type : PacketType) (cb : bool),
  named type = true → -2048 ≤ S - B < 2048 →
  RingBuffer_restorePosHighBits r
    (Z.land (FormatPacketHeader (SeqNum_make S) type cb) 0x0FFF) 12
  = Some (SeqNum_make S).
Proof.
  intros S type cb Hn HS. destruct (named_code _ Hn) as [Hc _].
  rewrite FormatPacketHeader_value by lia. rewrite header_seq_bits by (apply Z.mod_pos_bound; lia).
  unfold SeqNum_make. change 4096 with (2 ^ 12). rewrite u16_mod_pow2 by lia.
  by apply (ring_restore _ _ _ Hr).
Qed.

Lemma wire_sequence_roundtrip_witness :
  RingBuffer_restorePosHighBits (mkRing 4 65530 4)
    (Z.land (FormatPacketHeader 4 kDataPacket true) 0x0FFF) 12 = Some 4.
Proof.
  assert (Hr : ring_abs (mkRing 4 65530 4) 65530 65540)
    by (constructor; cbn; unfold kMaxLinkBufferSizeLog2; auto with lia).
  apply (wire_sequence_roundtrip _ _ _ Hr 65540 kDataPacket true); [reflexivity|lia].
Defined.

Lemma FormatPacketHeader_range seq type cb : 0 ≤ FormatPacketHeader seq type cb < 65536.
Proof. apply u16_range. Qed.

(** ** The skip-ack bitmap of a kDataAck packet *)

(** Bit [k] of the skip-ack bitmap, most significant first. *)
Definition skip_ack (ack_bitmap : list byte) (k : nat) : bool :=
  match ack_bitmap !! (k / 8)%nat with
  | Some val => negb (Z.land val (Z.shiftl 1 (7 - Z.of_nat (k mod 8))) =? 0)
  | None => false
  end.

Lemma land_bit a i : 0 ≤ i → negb (Z.land a (Z.shiftl 1 i) =? 0) = Z.testbit a i.
Proof.
  intros Hi. assert (Z.land a (Z.shiftl 1 i) = if Z.testbit a i then Z.shiftl 1 i else 0) as ->.
  { apply Z.bits_inj'. intros j Hj. rewrite Z.land_spec, Z.shiftl_1_l, Z.pow2_bits_eqb by done.
    destruct (Z.eqb_spec i j) as [->|Hne].
    - destruct (Z.testbit a j); rewrite ?Z.pow2_bits_true, ?Z.bits_0 by done; done.
    - rewrite andb_false_r. destruct (Z.testbit a i); [|by rewrite Z.bits_0].
      by rewrite Z.pow2_bits_false by done. }
  destruct (Z.testbit a i); [|done]. rewrite Z.shiftl_1_l.
  pose proof (Z.pow_pos_nonneg 2 i). by rewrite (proj2 (Z.eqb_neq _ 0)) by lia.
Qed.

Lemma be_bytes_lookup n x i :
  (i < n)%nat → be_bytes n x !! i = Some ((x / 256 ^ Z.of_nat (n - 1 - i)) mod 256).
Proof.
  revert i. induction n as [|n IH]; intros i Hi; [lia|]. cbn [be_bytes].
  destruct i as [|i]; cbn [lookup list_lookup].
  - do 4 f_equal. lia.
  - change (list_lookup i (be_bytes n x)) with (be_bytes n x !! i).
    rewrite IH by lia. do 4 f_equal. lia.
Qed.

Lemma byte_testbit x j i :
  0 ≤ j → 0 ≤ i < 8 → Z.testbit ((x / 256 ^ j) mod 256) i = Z.testbit x (8 * j + i).
Proof.
  intros Hj Hi. change 256 with (2 ^ 8) at 2. rewrite Z.mod_pow2_bits_low by lia.
  change 256 with (2 ^ 8). rewrite <- Z.pow_mul_r, <- Z.shiftr_div_pow2 by lia.
  rewrite Z.shiftr_spec by lia. f_equal. lia.
Qed.

(** The bitmap is the 64-bit mask, its most significant bit first. *)
Lemma skip_ack_be m k : (k < 64)%nat → skip_ack (be_bytes 8 m) k = Z.testbit m (63 - Z.of_nat k).
Proof.
  intros Hk. unfold skip_ack.
  pose proof (Nat.div_mod_eq k 8) as Hdm. pose proof (Nat.mod_upper_bound k 8 ltac:(lia)).
  rewrite be_bytes_lookup by lia. rewrite land_bit, byte_testbit by lia. f_equal. lia.
Qed.

Lemma skip_ack_short bitmap k : (8 * length bitmap ≤ k)%nat → skip_ack bitmap k = false.
Proof.
  intros Hk. unfold skip_ack. pose proof (Nat.div_mod_eq k 8). pose proof (Nat.mod_upper_bound k 8).
  by rewrite lookup_ge_None_2 by lia.
Qed.

(** Leaving out zero bytes at the end changes nothing. *)
Lemma skip_ack_trimmed bitmap n k :
  (∀ i x, (n ≤ i)%nat → bitmap !! i = Some x → x = 0) →
  skip_ack (take n bitmap) k = skip_ack bitmap k.
Proof.
  intros Hz. unfold skip_ack. destruct (decide (k / 8 < n)%nat).
  - by rewrite lookup_take_lt by done.
  - rewrite lookup_take_ge by lia. destruct (bitmap !! (k / 8)%nat) eqn:Hb; [|done].
    by rewrite (Hz (k / 8)%nat z ltac:(lia) Hb).
Qed.
