(* ===== verification/RetryBackoff.v ===== *)
(** * RetryBackoff: the jittered exponential backoff

    [link/internal/retry_backoff.h]. All arithmetic is on 32-bit unsigned
    integers, wrap-around written out; the theorems show that within the
    documented parameter range nothing wraps and the growth loop ends. *)

From S2P Require Import Prelude.

Local Open Scope Z_scope.

Section Operations.

(** The growth loop. The fuel bounds the number of loop tests; [None] when it
    runs out. *)
Fixpoint backoff_grow (fuel : nat) (retry retry_count delay max_delay_us : Z) : option Z :=
  match fuel with
  | O => None
  | S fuel =>
      if (retry <? retry_count) && (delay <? max_delay_us) then
        let delay := u32 (u32 (delay * 133) + 50) / 100 in
        let delay := if max_delay_us <? delay then max_delay_us else delay in
        backoff_grow fuel (u32 (retry + 1)) retry_count delay max_delay_us
      else Some delay
  end.

(** The documentation bounds the growth by 25 steps, hence 26 tests. *)
Definition backoff_fuel : nat := 26.

Definition RetryBackoffMicros (kRandomMax initial_delay_us max_delay_us retry_count
    random_draw : Z) : option Z :=
  delay ← backoff_grow backoff_fuel 0 retry_count initial_delay_us max_delay_us;
  let bin := u32 (u64 (random_draw * 8192) / u64 (kRandomMax + 1)) in
  let radius := delay / 5 in
  Some (u32 (u32 (delay - radius) + Z.shiftr (u32 (bin * u32 (2 * radius))) 13)).

End Operations.

(** ** Reference: the growth as plain iteration *)

(** One retry multiplies by 1.33, rounds to the nearest microsecond and caps. *)
Definition backoff_step (cap d : Z) : Z := Z.min cap ((d * 133 + 50) / 100).

Definition backoff_base (cap initial : Z) (retries : nat) : Z :=
  Nat.iter retries (backoff_step cap) initial.

Lemma backoff_step_cap cap : 1000 ≤ cap → backoff_step cap cap = cap.
Proof. intros. unfold backoff_step. Z.div_mod_to_equations. lia. Qed.

Lemma backoff_step_range cap lo d :
  1000 ≤ lo → lo ≤ d ≤ cap → lo ≤ backoff_step cap d ≤ cap.
Proof. intros. unfold backoff_step. Z.div_mod_to_equations. lia. Qed.

Lemma backoff_base_cap cap n : 1000 ≤ cap → backoff_base cap cap n = cap.
Proof.
  intros. induction n as [|n IH]; [done|]. change (backoff_step cap (backoff_base cap cap n) = cap).
  rewrite IH. by apply backoff_step_cap.
Qed.

Lemma backoff_base_range cap initial n :
  1000 ≤ initial ≤ cap → initial ≤ backoff_base cap initial n ≤ cap.
Proof.
  intros. induction n as [|n IH]; [cbn; lia|].
  apply (backoff_step_range cap initial (backoff_base cap initial n)); lia.
Qed.

Lemma backoff_base_step cap d n :
  backoff_base cap (backoff_step cap d) n = backoff_base cap d (S n).
Proof. unfold backoff_base. by rewrite Nat.iter_succ_r. Qed.

(** The slowest growth within the documented range: from 1000 us, uncapped. *)
Definition backoff_floor (n : nat) : Z := Nat.iter n (λ d, (d * 133 + 50) / 100) 1000.

Lemma backoff_floor_25 : backoff_floor 25 = 1248225.
Proof. reflexivity. Qed.

Section Loop.

Context (cap retry_count : Z).
Context (Hcap : 1000 ≤ cap ≤ 1000000) (Hretry : 0 ≤ retry_count < 4294967296).

Lemma u32_step delay :
  1000 ≤ delay ≤ cap →
  (let d := u32 (u32 (delay * 133) + 50) / 100 in if cap <? d then cap else d)
  = backoff_step cap delay.
Proof using Hcap.
  intros. cbv zeta. rewrite (u32_small (delay * 133)), u32_small by lia.
  unfold backoff_step. case_bool; lia.
Qed.

(** With [n] steps done and [26 - n] tests left, the loop ends and computes the
    remaining iterations. *)
Lemma backoff_grow_spec fuel :
  ∀ n retry delay, (n + fuel = 25)%nat →
  0 ≤ retry → 1000 ≤ delay ≤ cap → Z.min cap (backoff_floor n) ≤ delay →
  backoff_grow (S fuel) retry retry_count delay cap
  = Some (backoff_base cap delay (Z.to_nat (retry_count - retry))).
Proof using Hcap Hretry.
  induction fuel as [|fuel IH]; intros n retry delay Hn Hr Hd Hfl; cbn [backoff_grow].
  - replace n with 25%nat in Hfl by lia. rewrite backoff_floor_25 in Hfl.
    replace delay with cap by lia. rewrite Z.ltb_irrefl, andb_false_r.
    by rewrite backoff_base_cap by lia.
  - destruct (Z.ltb_spec retry retry_count) as [Hlt|]; cbn [andb].
    2: { replace (Z.to_nat _) with 0%nat by lia. done. }
    destruct (Z.ltb_spec delay cap) as [Hdc|].
    2: { replace delay with cap by lia. by rewrite backoff_base_cap by lia. }
    pose proof (u32_step delay Hd) as Hs. cbv zeta in Hs. cbv zeta. rewrite Hs.
    rewrite (u32_small (retry + 1)) by lia.
    pose proof (backoff_step_range cap 1000 delay). change (backoff_grow (S fuel) (retry + 1) retry_count
      (backoff_step cap delay) cap = Some (backoff_base cap delay (Z.to_nat (retry_count - retry)))).
    rewrite (IH (S n)); [|lia..|].
    + rewrite backoff_base_step. do 2 f_equal. lia.
    + unfold backoff_step. change (backoff_floor (S n)) with ((backoff_floor n * 133 + 50) / 100).
      Z.div_mod_to_equations. lia.
Qed.

End Loop.

Lemma RetryBackoffMicros_base (kRandomMax initial cap retry_count draw : Z)
    (Hinit : 1000 ≤ initial ≤ cap) (Hcap : cap ≤ 1000000)
    (Hretry : 0 ≤ retry_count < 4294967296)
    (Hmax : kRandomMax < 4294967296) (Hdraw : 0 ≤ draw ≤ kRandomMax) :
  let base := backoff_base cap initial (Z.to_nat retry_count) in
  initial ≤ base ≤ cap
  ∧ ∃ d, RetryBackoffMicros kRandomMax initial cap retry_count draw = Some d
         ∧ base - base / 5 ≤ d < base + base / 5.
Proof.
  intros base. pose proof (backoff_base_range cap initial (Z.to_nat retry_count) Hinit) as Hb.
  fold base in Hb. split; [done|].
  unfold RetryBackoffMicros. change backoff_fuel with 26%nat.
  rewrite (backoff_grow_spec cap retry_count) with (n := 0%nat); [|lia..|cbn; lia].
  rewrite Z.sub_0_r. fold base. clearbody base. cbn [mbind option_bind]. eexists; split; [done|].
  assert (0 ≤ draw * 8192 / (kRandomMax + 1) < 8192)
    by (split; [apply Z.div_pos; lia|apply Z.div_lt_upper_bound; lia]).
  rewrite (u64_small (draw * 8192)), (u64_small (kRandomMax + 1)) by lia.
  generalize dependent (draw * 8192 / (kRandomMax + 1)). intros bin Hbin.
  assert (200 ≤ base / 5 ≤ 200000 ∧ 5 * (base / 5) ≤ base) by (clear -Hb Hinit Hcap; Z.div_mod_to_equations; lia).
  rewrite (u32_small bin), (u32_small (base - base / 5)), (u32_small (2 * (base / 5))) by lia.
  rewrite (u32_small (bin * _)) by nia. rewrite Z.shiftr_div_pow2 by lia. change (2 ^ 13) with 8192.
  assert (0 ≤ bin * (2 * (base / 5)) / 8192 < 2 * (base / 5))
    by (split; [apply Z.div_pos; nia|apply Z.div_lt_upper_bound; nia]).
  rewrite u32_small; lia.
Qed.

(** The bounds that do not mention the base. *)
Lemma RetryBackoffMicros_range (kRandomMax initial cap retry_count draw : Z) :
  1000 ≤ initial ≤ cap → cap ≤ 1000000 → 0 ≤ retry_count < 4294967296 →
  kRandomMax < 4294967296 → 0 ≤ draw ≤ kRandomMax →
  ∃ d, RetryBackoffMicros kRandomMax initial cap retry_count draw = Some d
       ∧ initial - initial / 5 ≤ d < cap + cap / 5.
Proof.
  intros H1 H2 H3 H4 H5.
  destruct (RetryBackoffMicros_base _ _ _ _ _ H1 H2 H3 H4 H5) as (Hb & d & Hd & Hr).
  exists d. split; [done|]. Z.div_mod_to_equations. lia.
Qed.

(** The retry delay is what the comment promises. For an initial delay of at
    least 1000 us, a cap of at most 1000000 us, any retry count and any draw of
    the random generator, the 26 loop tests suffice, no 32-bit operation wraps,
    and the result lies within 20% of the capped exponential delay of that retry
    (upper end excluded), which itself lies between the initial delay and the
    cap. *)
Theorem RetryBackoffMicros_bounds (kRandomMax initial cap retry_count draw : Z)
    (Hinit : 1000 ≤ initial ≤ cap) (Hcap : cap ≤ 1000000)
    (Hretry : 0 ≤ retry_count < 4294967296)
    (Hmax : kRandomMax < 4294967296) (Hdraw : 0 ≤ draw ≤ kRandomMax) :
  let base := backoff_base cap initial (Z.to_nat retry_count) in
  initial ≤ base ≤ cap
  ∧ ∃ d, RetryBackoffMicros kRandomMax initial cap retry_count draw = Some d
         ∧ base - base / 5 ≤ d < base + base / 5.
Proof. by apply RetryBackoffMicros_base. Qed.

Lemma RetryBackoffMicros_bounds_witness :
  ∃ d, RetryBackoffMicros 4294967295 5000 200000 100 4294967295 = Some d
       ∧ 160000 ≤ d < 240000.
Proof.
  destruct (RetryBackoffMicros_bounds 4294967295 5000 200000 100 4294967295)
    as (_ & d & Hd & Hb); [lia..|].
  exists d. split; [exact Hd|]. vm_compute in Hb. vm_compute. exact Hb.
Defined.

(** Conversion never needs the loop's body; computation with the VM still runs it. *)
#[global] Opaque RetryBackoffMicros.
