(* ===== verification/Buffers.v ===== *)
(** * Buffers: one packet of received or outgoing data

    [link/internal/in_buffer.h], [link/internal/out_buffer.h] and
    [link/internal/out_buffer.cpp]. The payload arrays keep their fixed C++
    sizes (248 and 250 bytes), so that a successful [memcpy] is also a bounds
    proof. *)

From S2P Require Import Prelude.
From S2P Require Import SeqNum.
From S2P Require Import RooIo.
From S2P Require Import Protocol.
From S2P Require Import RetryBackoff.

Local Open Scope Z_scope.
Local Open Scope roo_scope.

(** ** InBuffer *)

Inductive InBufferType := kUnset | kData | kFin.

#[export] Instance InBufferType_eq_dec : EqDecision InBufferType.
Proof. solve_decision. Defined.

Record InBuffer := mkInBuffer {
  ib_type : InBufferType;
  ib_size : Z;
  ib_payload : list byte;
}.

Section InBufferOperations.

(** [memory] is the uninitialised content of the array. *)
Definition InBuffer_new (memory : list byte) : InBuffer := mkInBuffer kUnset 0 memory.

Definition InBuffer_clear (b : InBuffer) : InBuffer := mkInBuffer kUnset 0 (ib_payload b).

(** [size] arrives as a [uint8_t]. *)
Definition InBuffer_set (b : InBuffer) (type : InBufferType) (payload : list byte)
    (size : Z) : option InBuffer :=
  let size := u8 size in
  CHECK (size <=? 248) ;;
  src ← slice payload 0 (Z.to_nat size);
  payload' ← memcpy (ib_payload b) 0 src;
  Some (mkInBuffer type size payload').

(** The bytes [data()[from .. size())]. *)
Definition InBuffer_bytes (b : InBuffer) (from : Z) : list byte :=
  take (Z.to_nat (ib_size b - from)) (drop (Z.to_nat from) (ib_payload b)).

End InBufferOperations.

Record in_buffer_wf (b : InBuffer) : Prop := {
  ibw_length : length (ib_payload b) = 248%nat;
  ibw_size : 0 ≤ ib_size b ≤ 248;
  ibw_unset : ib_type b = kUnset → ib_size b = 0;
}.

Lemma InBuffer_clear_wf b : in_buffer_wf b → in_buffer_wf (InBuffer_clear b).
Proof. intros []. by constructor. Qed.

Lemma InBuffer_set_spec b type payload :
  in_buffer_wf b → Z.of_nat (length payload) ≤ 248 → type ≠ kUnset →
  ∃ b', InBuffer_set b type payload (Z.of_nat (length payload)) = Some b'
        ∧ in_buffer_wf b' ∧ ib_type b' = type
        ∧ ib_size b' = Z.of_nat (length payload)
        ∧ InBuffer_bytes b' 0 = payload.
Proof.
  intros [Hl Hs _] Hp Ht. unfold InBuffer_set. rewrite u8_small by lia. run_checks.
  rewrite Nat2Z.id, slice_Some by lia. cbn [mbind option_bind].
  rewrite drop_0, take_ge by lia. rewrite memcpy_Some by lia. cbn [mbind option_bind].
  eexists; split; [done|]. rewrite take_0, app_nil_l. split; [|cbn; split_and!; try done].
  - constructor; cbn; [|lia|done]. rewrite length_app, length_drop. lia.
  - unfold InBuffer_bytes. cbn. rewrite drop_0, Z.sub_0_r, Nat2Z.id.
    by rewrite take_app_length.
Qed.

(** The tail of a buffer's bytes, as [tryRead] copies it. *)
Lemma InBuffer_slice b from n :
  in_buffer_wf b → 0 ≤ from ≤ ib_size b → 0 ≤ n ≤ ib_size b - from →
  slice (ib_payload b) (Z.to_nat from) (Z.to_nat n)
  = Some (take (Z.to_nat n) (drop (Z.to_nat from) (InBuffer_bytes b 0))).
Proof.
  intros [Hl Hs _] Hf Hn. rewrite slice_Some by lia. f_equal. unfold InBuffer_bytes.
  rewrite drop_0, Z.sub_0_r, skipn_firstn_comm, take_take. f_equal. lia.
Qed.

Lemma length_InBuffer_bytes b :
  in_buffer_wf b → Z.of_nat (length (InBuffer_bytes b 0)) = ib_size b.
Proof.
  intros []. unfold InBuffer_bytes. rewrite length_take, length_drop. lia.
Qed.

(** ** OutBuffer *)

Record OutBuffer := mkOutBuffer {
  ob_size : Z;
  ob_acked : bool;
  ob_flushed : bool;
  ob_finished : bool;
  ob_final : bool;
  ob_payload : list byte;
  ob_expiration : Z;
  ob_send_counter : Z;
}.

Section OutBufferOperations.

Context {io : RooIo} {pf : Platform}.

Definition OutBuffer_new (memory : list byte) : OutBuffer :=
  mkOutBuffer 0 false false false false memory Uptime_Start 0.

Definition OutBuffer_init (b : OutBuffer) (seq_id : SeqNum) (control_bit : bool)
    : option OutBuffer :=
  let header := FormatPacketHeader seq_id kDataPacket control_bit in
  payload ← memcpy (ob_payload b) 0 (StoreBeU16 header);
  Some (mkOutBuffer 0 false false false (ob_final b) payload Uptime_Start 0).

(** Appends up to [count] bytes; returns how many. *)
Definition OutBuffer_write (b : OutBuffer) (buf : list byte) : option (Z * OutBuffer) :=
  if ob_finished b then Some (0, b)
  else
    let capacity := u32 (248 - ob_size b) in
    CHECK (0 <? capacity) ;;
    let full := capacity <=? Z.of_nat (length buf) in
    let count := if full then capacity else Z.of_nat (length buf) in
    payload ← memcpy (ob_payload b) (Z.to_nat (ob_size b + 2)) (take (Z.to_nat count) buf);
    Some (count,
          mkOutBuffer (u8 (ob_size b + count)) (ob_acked b) (ob_flushed b || full)
            full (ob_final b) payload
            (if full then Uptime_Start else ob_expiration b) (ob_send_counter b)).

Definition OutBuffer_flush (b : OutBuffer) : OutBuffer :=
  mkOutBuffer (ob_size b) (ob_acked b) true (ob_finished b) (ob_final b)
    (ob_payload b) (ob_expiration b) (ob_send_counter b).

Definition OutBuffer_finish (b : OutBuffer) : OutBuffer :=
  mkOutBuffer (ob_size b) (ob_acked b) true true (ob_final b)
    (ob_payload b) Uptime_Start (ob_send_counter b).

Definition OutBuffer_markFinal (b : OutBuffer) : option OutBuffer :=
  bytes ← slice (ob_payload b) 0 2;
  raw ← SetPacketHeaderTypeFin (LoadBeU16 bytes);
  payload ← memcpy (ob_payload b) 0 (StoreBeU16 raw);
  Some (mkOutBuffer (ob_size b) (ob_acked b) (ob_flushed b) (ob_finished b) (ob_final b)
          payload (ob_expiration b) (ob_send_counter b)).

Definition OutBuffer_ack (b : OutBuffer) : OutBuffer :=
  mkOutBuffer (ob_size b) true (ob_flushed b) (ob_finished b) (ob_final b)
    (ob_payload b) (ob_expiration b) (ob_send_counter b).

(** The packet as sent: [size()] bytes from [data()]. *)
Definition OutBuffer_packet (b : OutBuffer) : option (list byte) :=
  slice (ob_payload b) 0 (Z.to_nat (u8 (ob_size b + 2))).

(** [Backoff] of out_buffer.cpp: 5 ms growing to 200 ms. *)
Definition OutBuffer_Backoff (retry_count draw : Z) : option Z :=
  RetryBackoffMicros RANDOM_INTEGER_MAX 5000 200000 retry_count draw.

Definition OutBuffer_markSent (b : OutBuffer) (now draw : Z) : option OutBuffer :=
  let counter := if ob_send_counter b <? 255 then u8 (ob_send_counter b + 1)
                 else ob_send_counter b in
  delay ← OutBuffer_Backoff counter draw;
  Some (mkOutBuffer (ob_size b) (ob_acked b) (ob_flushed b) (ob_finished b) (ob_final b)
          (ob_payload b) (now + delay) counter).

Definition OutBuffer_rush (b : OutBuffer) : option OutBuffer :=
  CHECK (0 <? ob_send_counter b) ;;
  Some (mkOutBuffer (ob_size b) (ob_acked b) (ob_flushed b) (ob_finished b) (ob_final b)
          (ob_payload b) Uptime_Start (ob_send_counter b)).

End OutBufferOperations.

(** The payload bytes written so far, after the two header bytes. *)
Definition ob_body (b : OutBuffer) : list byte :=
  take (Z.to_nat (ob_size b)) (drop 2 (ob_payload b)).

Definition ob_header (b : OutBuffer) : list byte := take 2 (ob_payload b).

(** [ob_finished] is what closes a buffer: while it is open there is room. *)
Record out_buffer_wf (b : OutBuffer) : Prop := {
  obw_length : length (ob_payload b) = 250%nat;
  obw_size : 0 ≤ ob_size b ≤ 248;
  obw_open : ob_finished b = false → ob_size b < 248;
  obw_flushed : ob_finished b = true → ob_flushed b = true;
  obw_counter : 0 ≤ ob_send_counter b ≤ 255;
}.

(** What [init] establishes. *)
Record out_buffer_fresh (b : OutBuffer) (header : list byte) : Prop := {
  obf_wf : out_buffer_wf b;
  obf_header : ob_header b = header;
  obf_body : ob_body b = [];
  obf_acked : ob_acked b = false;
  obf_flushed : ob_flushed b = false;
  obf_finished : ob_finished b = false;
  obf_counter : ob_send_counter b = 0;
}.

(** Operations that leave the packet's bytes alone. *)
Definition same_bytes (b b' : OutBuffer) : Prop :=
  ob_payload b' = ob_payload b ∧ ob_size b' = ob_size b.

Lemma same_bytes_header b b' : same_bytes b b' → ob_header b' = ob_header b.
Proof. intros [Hp _]. unfold ob_header. by rewrite Hp. Qed.

Lemma same_bytes_body b b' : same_bytes b b' → ob_body b' = ob_body b.
Proof. intros [Hp Hs]. unfold ob_body. by rewrite Hp, Hs. Qed.

Section OutBufferLemmas.

Context {io : RooIo} {pf : Platform}.

Lemma length_ob_body b :
  out_buffer_wf b → Z.of_nat (length (ob_body b)) = ob_size b.
Proof.
  intros []. unfold ob_body. rewrite length_take, length_drop. lia.
Qed.

Lemma OutBuffer_packet_bytes b :
  out_buffer_wf b → OutBuffer_packet b = Some (ob_header b ++ ob_body b).
Proof.
  intros []. unfold OutBuffer_packet. rewrite u8_small by lia.
  rewrite slice_Some by lia. rewrite drop_0. f_equal. unfold ob_header, ob_body.
  replace (Z.to_nat (ob_size b + 2)) with (2 + Z.to_nat (ob_size b))%nat by lia.
  by rewrite take_take_drop.
Qed.

Lemma OutBuffer_flush_wf b : out_buffer_wf b → out_buffer_wf (OutBuffer_flush b).
Proof. intros []. by constructor. Qed.

Lemma OutBuffer_finish_wf b : out_buffer_wf b → out_buffer_wf (OutBuffer_finish b).
Proof. intros []. by constructor. Qed.

Lemma OutBuffer_ack_wf b : out_buffer_wf b → out_buffer_wf (OutBuffer_ack b).
Proof. intros []. by constructor. Qed.

Lemma OutBuffer_rush_spec b :
  out_buffer_wf b → 0 < ob_send_counter b →
  ∃ b', OutBuffer_rush b = Some b' ∧ out_buffer_wf b' ∧ same_bytes b b'
        ∧ ob_acked b' = ob_acked b ∧ ob_finished b' = ob_finished b
        ∧ ob_flushed b' = ob_flushed b ∧ ob_send_counter b' = ob_send_counter b
        ∧ ob_expiration b' = Uptime_Start.
Proof.
  intros [] ?. unfold OutBuffer_rush. run_checks.
  eexists; split; [done|]. split; [by constructor|done].
Qed.

(** Writing appends, and closes the buffer exactly when it is full. *)
Lemma OutBuffer_write_spec b buf :
  out_buffer_wf b → ob_finished b = false →
  let n := Z.min (Z.of_nat (length buf)) (248 - ob_size b) in
  ∃ b', OutBuffer_write b buf = Some (n, b')
        ∧ out_buffer_wf b' ∧ ob_header b' = ob_header b
        ∧ ob_body b' = ob_body b ++ take (Z.to_nat n) buf
        ∧ ob_finished b' = (248 - ob_size b <=? Z.of_nat (length buf))
        ∧ ob_flushed b' = ob_flushed b || ob_finished b'
        ∧ ob_acked b' = ob_acked b ∧ ob_send_counter b' = ob_send_counter b
        ∧ ob_size b' = ob_size b + n
        ∧ (ob_finished b' = true → ob_expiration b' = Uptime_Start).
Proof.
  intros Hwf Hfin n. pose proof Hwf as [Hl Hs Ho _ Hc]. specialize (Ho Hfin).
  unfold OutBuffer_write. rewrite Hfin, u32_small by lia. run_checks.
  assert ((if 248 - ob_size b <=? Z.of_nat (length buf) then 248 - ob_size b
           else Z.of_nat (length buf)) = n) as ->.
  { subst n. case_bool; lia. }
  assert (Hn : 0 ≤ n ≤ Z.of_nat (length buf) ∧ n ≤ 248 - ob_size b) by lia.
  rewrite memcpy_Some by (rewrite length_take; lia). cbn [mbind option_bind].
  eexists; split; [done|]. cbn [ob_finished ob_flushed ob_acked ob_send_counter ob_size].
  rewrite u8_small by lia.
  pose proof (memcpy_Some (ob_payload b) (Z.to_nat (ob_size b + 2)) (take (Z.to_nat n) buf)
    ltac:(rewrite length_take; lia)) as Hm.
  split_and!; try done.
  - constructor; cbn.
    + erewrite length_memcpy by exact Hm. done.
    + lia.
    + rewrite Z.leb_gt. lia.
    + intros ->. apply orb_true_r.
    + done.
  - unfold ob_header. cbn. apply (take_memcpy_le _ _ _ _ _ Hm). lia.
  - unfold ob_body. cbn [ob_size ob_payload].
    pose proof (take_memcpy _ _ _ _ Hm) as Ht. rewrite length_take in Ht.
    rewrite !take_drop_commute.
    replace (2 + Z.to_nat (ob_size b + n))%nat
      with (Z.to_nat (ob_size b + 2) + Z.to_nat n `min` length buf)%nat by lia.
    rewrite length_take, Ht, drop_app_le by (rewrite length_take; lia).
    do 3 f_equal. lia.
  - cbn. by intros ->.
Qed.

Lemma OutBuffer_markSent_spec `{!PlatformLaws} b now draw :
  out_buffer_wf b → 0 ≤ draw ≤ RANDOM_INTEGER_MAX →
  ∃ b', OutBuffer_markSent b now draw = Some b'
        ∧ out_buffer_wf b' ∧ same_bytes b b'
        ∧ ob_acked b' = ob_acked b ∧ ob_finished b' = ob_finished b
        ∧ ob_flushed b' = ob_flushed b
        ∧ ob_send_counter b' = Z.min 255 (ob_send_counter b + 1)
        ∧ 0 < ob_send_counter b'
        ∧ now + 4000 ≤ ob_expiration b' < now + 240000.
Proof.
  intros [] Hd. unfold OutBuffer_markSent, OutBuffer_Backoff.
  set (c := if ob_send_counter b <? 255 then _ else _).
  assert (Hc : c = Z.min 255 (ob_send_counter b + 1)).
  { subst c. destruct (Z.ltb_spec (ob_send_counter b) 255); rewrite ?u8_small; lia. }
  pose proof RANDOM_INTEGER_MAX_u32.
  destruct (RetryBackoffMicros_range RANDOM_INTEGER_MAX 5000 200000 c draw)
    as (d & -> & Hdr); [lia..|]. cbn [mbind option_bind].
  clearbody c. eexists; split; [done|]. split; [constructor; cbn; try done; lia|].
  change (5000 - 5000 / 5) with 4000 in Hdr. change (200000 + 200000 / 5) with 240000 in Hdr.
  split; [done|]. cbn [ob_acked ob_finished ob_flushed ob_send_counter ob_expiration].
  split_and!; try done; lia.
Qed.

Context `{!RooIoLaws}.

Lemma OutBuffer_init_spec b seq cb :
  length (ob_payload b) = 250%nat →
  ∃ b', OutBuffer_init b seq cb = Some b'
        ∧ out_buffer_fresh b' (StoreBeU16 (FormatPacketHeader seq kDataPacket cb)).
Proof.
  intros Hl. unfold OutBuffer_init.
  pose proof (length_StoreBeU16 (FormatPacketHeader seq kDataPacket cb) (u16_range _)) as H2.
  rewrite memcpy_Some by lia. cbn [mbind option_bind]. eexists; split; [done|].
  rewrite take_0, app_nil_l. constructor; try done.
  - constructor; cbn; try done; [|lia..]. rewrite length_app, length_drop. lia.
  - unfold ob_header. cbn [ob_payload]. rewrite <- H2. apply take_app_length.
Qed.

(** The end-of-stream packet: an empty buffer whose header says 'final'. *)
Lemma OutBuffer_markFinal_spec b seq cb :
  out_buffer_fresh b (StoreBeU16 (FormatPacketHeader seq kDataPacket cb)) →
  ∃ b', OutBuffer_markFinal b = Some b'
        ∧ out_buffer_fresh b' (StoreBeU16 (FormatPacketHeader seq kFinPacket cb)).
Proof.
  intros [Hwf Hh Hb ? ? ? ?]. pose proof Hwf as [Hl Hs Ho Hf Hc].
  unfold OutBuffer_markFinal. rewrite slice_Some by lia. rewrite drop_0. cbn [mbind option_bind].
  unfold ob_header in Hh. rewrite Hh, LoadBeU16_Store by apply u16_range.
  rewrite !FormatPacketHeader_value in * by (cbn; lia).
  rewrite SetPacketHeaderTypeFin_value by (apply Z.mod_pos_bound; lia). cbn [mbind option_bind].
  assert (0 ≤ seq mod 4096 < 4096) by (apply Z.mod_pos_bound; lia).
  pose proof (length_StoreBeU16 (header_value (seq mod 4096) 1 cb)
    ltac:(apply header_range; lia)) as Hlen2. cbn [PacketType_code] in *.
  rewrite memcpy_Some by lia. cbn [mbind option_bind]. eexists; split; [done|].
  rewrite take_0, app_nil_l. constructor; cbn; try done.
  - constructor; cbn; try done. rewrite length_app, length_drop. lia.
  - unfold ob_header. cbn [ob_payload]. rewrite <- Hlen2. apply take_app_length.
  - apply nil_length_inv. apply (f_equal length) in Hb. revert Hb. unfold ob_body. cbn [ob_size ob_payload].
    rewrite !length_take, !length_drop, length_app, length_drop, Hl. cbn. lia.
Qed.

End OutBufferLemmas.
