(* ===== verification/Transmitter.v ===== *)
(** * Transmitter: the outgoing half of a link

    [link/internal/transmitter.h] and [link/internal/transmitter.cpp]. The
    buffer array is a list indexed by ring slot and [current_out_buffer_] an
    index into it, so that the aliasing between the two is the program's. Every
    operation returns an [option]: [None] is a failed [CHECK] or an access
    outside the array. *)

From S2P Require Import Prelude.
From S2P Require Import SeqNum.
From S2P Require Import RingBuffer.
From S2P Require Import RooIo.
From S2P Require Import Protocol.
From S2P Require Import Buffers.

Local Open Scope Z_scope.
Local Open Scope roo_scope.

Inductive TransmitterState := TkIdle | TkConnecting | TkConnected | TkBroken.

#[export] Instance TransmitterState_eq_dec : EqDecision TransmitterState.
Proof. solve_decision. Defined.

Record Transmitter := mkTransmitter {
  tx_my_stream_id : Z;
  tx_state : TransmitterState;
  tx_end_of_stream : bool;
  tx_out_buffers : list OutBuffer;
  tx_current_out_buffer : option nat;
  tx_out_ring : RingBuffer;
  tx_next_to_send : SeqNum;
  tx_recv_himark : SeqNum;
  tx_has_pending_eof : bool;
  tx_packets_sent : Z;
  tx_packets_delivered : Z;
  tx_peer_receive_buffer_size : Z;
  tx_control_bit : bool;
}.

Definition tx_with_my_stream_id (v : Z) (t : Transmitter) : Transmitter :=
  mkTransmitter v (tx_state t) (tx_end_of_stream t) (tx_out_buffers t) (tx_current_out_buffer
    t) (tx_out_ring t) (tx_next_to_send t) (tx_recv_himark t) (tx_has_pending_eof t)
    (tx_packets_sent t) (tx_packets_delivered t) (tx_peer_receive_buffer_size t)
    (tx_control_bit t).
Definition tx_with_state (v : TransmitterState) (t : Transmitter) : Transmitter :=
  mkTransmitter (tx_my_stream_id t) v (tx_end_of_stream t) (tx_out_buffers t)
    (tx_current_out_buffer t) (tx_out_ring t) (tx_next_to_send t) (tx_recv_himark t)
    (tx_has_pending_eof t) (tx_packets_sent t) (tx_packets_delivered t)
    (tx_peer_receive_buffer_size t) (tx_control_bit t).
Definition tx_with_end_of_stream (v : bool) (t : Transmitter) : Transmitter :=
  mkTransmitter (tx_my_stream_id t) (tx_state t) v (tx_out_buffers t) (tx_current_out_buffer
    t) (tx_out_ring t) (tx_next_to_send t) (tx_recv_himark t) (tx_has_pending_eof t)
    (tx_packets_sent t) (tx_packets_delivered t) (tx_peer_receive_buffer_size t)
    (tx_control_bit t).
Definition tx_with_out_buffers (v : list OutBuffer) (t : Transmitter) : Transmitter :=
  mkTransmitter (tx_my_stream_id t) (tx_state t) (tx_end_of_stream t) v (tx_current_out_buffer
    t) (tx_out_ring t) (tx_next_to_send t) (tx_recv_himark t) (tx_has_pending_eof t)
    (tx_packets_sent t) (tx_packets_delivered t) (tx_peer_receive_buffer_size t)
    (tx_control_bit t).
Definition tx_with_current_out_buffer (v : option nat) (t : Transmitter) : Transmitter :=
  mkTransmitter (tx_my_stream_id t) (tx_state t) (tx_end_of_stream t) (tx_out_buffers t) v
    (tx_out_ring t) (tx_next_to_send t) (tx_recv_himark t) (tx_has_pending_eof t)
    (tx_packets_sent t) (tx_packets_delivered t) (tx_peer_receive_buffer_size t)
    (tx_control_bit t).
Definition tx_with_out_ring (v : RingBuffer) (t : Transmitter) : Transmitter :=
  mkTransmitter (tx_my_stream_id t) (tx_state t) (tx_end_of_stream t) (tx_out_buffers t)
    (tx_current_out_buffer t) v (tx_next_to_send t) (tx_recv_himark t) (tx_has_pending_eof t)
    (tx_packets_sent t) (tx_packets_delivered t) (tx_peer_receive_buffer_size t)
    (tx_control_bit t).
Definition tx_with_next_to_send (v : SeqNum) (t : Transmitter) : Transmitter :=
  mkTransmitter (tx_my_stream_id t) (tx_state t) (tx_end_of_stream t) (tx_out_buffers t)
    (tx_current_out_buffer t) (tx_out_ring t) v (tx_recv_himark t) (tx_has_pending_eof t)
    (tx_packets_sent t) (tx_packets_delivered t) (tx_peer_receive_buffer_size t)
    (tx_control_bit t).
Definition tx_with_recv_himark (v : SeqNum) (t : Transmitter) : Transmitter :=
  mkTransmitter (tx_my_stream_id t) (tx_state t) (tx_end_of_stream t) (tx_out_buffers t)
    (tx_current_out_buffer t) (tx_out_ring t) (tx_next_to_send t) v (tx_has_pending_eof t)
    (tx_packets_sent t) (tx_packets_delivered t) (tx_peer_receive_buffer_size t)
    (tx_control_bit t).
Definition tx_with_has_pending_eof (v : bool) (t : Transmitter) : Transmitter :=
  mkTransmitter (tx_my_stream_id t) (tx_state t) (tx_end_of_stream t) (tx_out_buffers t)
    (tx_current_out_buffer t) (tx_out_ring t) (tx_next_to_send t) (tx_recv_himark t) v
    (tx_packets_sent t) (tx_packets_delivered t) (tx_peer_receive_buffer_size t)
    (tx_control_bit t).
Definition tx_with_packets_sent (v : Z) (t : Transmitter) : Transmitter :=
  mkTransmitter (tx_my_stream_id t) (tx_state t) (tx_end_of_stream t) (tx_out_buffers t)
    (tx_current_out_buffer t) (tx_out_ring t) (tx_next_to_send t) (tx_recv_himark t)
    (tx_has_pending_eof t) v (tx_packets_delivered t) (tx_peer_receive_buffer_size t)
    (tx_control_bit t).
Definition tx_with_packets_delivered (v : Z) (t : Transmitter) : Transmitter :=
  mkTransmitter (tx_my_stream_id t) (tx_state t) (tx_end_of_stream t) (tx_out_buffers t)
    (tx_current_out_buffer t) (tx_out_ring t) (tx_next_to_send t) (tx_recv_himark t)
    (tx_has_pending_eof t) (tx_packets_sent t) v (tx_peer_receive_buffer_size t)
    (tx_control_bit t).
Definition tx_with_peer_receive_buffer_size (v : Z) (t : Transmitter) : Transmitter :=
  mkTransmitter (tx_my_stream_id t) (tx_state t) (tx_end_of_stream t) (tx_out_buffers t)
    (tx_current_out_buffer t) (tx_out_ring t) (tx_next_to_send t) (tx_recv_himark t)
    (tx_has_pending_eof t) (tx_packets_sent t) (tx_packets_delivered t) v (tx_control_bit t).
Definition tx_with_control_bit (v : bool) (t : Transmitter) : Transmitter :=
  mkTransmitter (tx_my_stream_id t) (tx_state t) (tx_end_of_stream t) (tx_out_buffers t)
    (tx_current_out_buffer t) (tx_out_ring t) (tx_next_to_send t) (tx_recv_himark t)
    (tx_has_pending_eof t) (tx_packets_sent t) (tx_packets_delivered t)
    (tx_peer_receive_buffer_size t) v.

Section Operations.

Context {io : RooIo} {pf : Platform}.

(** [memory] and [garbage_id] are the uninitialised contents of the packet
    arrays and of [my_stream_id_], which the constructor leaves unset. *)
Definition Transmitter_new (sendbuf_log2 : Z) (memory : list byte) (garbage_id : Z)
    : option Transmitter :=
  ring ← RingBuffer_new sendbuf_log2 0;
  Some (mkTransmitter garbage_id TkIdle false
          (replicate (Z.to_nat (Z.shiftl 1 sendbuf_log2)) (OutBuffer_new memory))
          None ring (rb_begin ring)
          (SeqNum_add (rb_begin ring) (Z.shiftl 1 sendbuf_log2))
          false 0 0 0 false).

(** [getOutBuffer], as the index of the buffer. *)
Definition Transmitter_getOutBuffer (t : Transmitter) (seq : SeqNum) : option nat :=
  i ← RingBuffer_offset_for (tx_out_ring t) seq;
  Some (Z.to_nat i).

(** Replaces the buffer at index [i]. *)
Definition tx_set_buffer (i : nat) (b : OutBuffer) (t : Transmitter) : Transmitter :=
  tx_with_out_buffers (<[i:=b]> (tx_out_buffers t)) t.

(** First part of the body of the loop of [tryWrite]: the buffer to write to,
    a new one if there is none, [Some None] for [break]. *)
Definition Transmitter_acquire (t : Transmitter) : option (option (nat * Transmitter)) :=
  match tx_current_out_buffer t with
  | Some i => Some (Some (i, t))
  | None =>
      if SeqNum_eq (tx_recv_himark t) (rb_end (tx_out_ring t)) then Some None
      else if RingBuffer_slotsFree (tx_out_ring t) =? 0 then Some None
      else
        '(pos, ring) ← RingBuffer_push (tx_out_ring t);
        let t := tx_with_out_ring ring t in
        i ← Transmitter_getOutBuffer t pos;
        let t := tx_with_current_out_buffer (Some i) t in
        b ← tx_out_buffers t !! i;
        b ← OutBuffer_init b pos (tx_control_bit t);
        Some (Some (i, tx_set_buffer i b t))
  end.

(** Second part of that body: writes to buffer [i], and lets go of it when it is
    full. Returns the number of bytes and whether the buffer is finished. *)
Definition Transmitter_writeTo (t : Transmitter) (i : nat) (buf : list byte)
    : option (Z * bool * Transmitter) :=
  b ← tx_out_buffers t !! i;
  '(written, b) ← OutBuffer_write b buf;
  let t := tx_set_buffer i b t in
  Some (written, ob_finished b,
        if ob_finished b then tx_with_current_out_buffer None t else t).

Fixpoint Transmitter_tryWrite_loop (fuel : nat) (t : Transmitter) (buf : list byte)
    (total_written : Z) (outgoing_data_ready : bool) : option (Z * bool * Transmitter) :=
  match fuel with
  | O => None
  | S fuel =>
      CHECK (SeqNum_ge (tx_recv_himark t) (rb_end (tx_out_ring t))) ;;
      acquired ← Transmitter_acquire t;
      match acquired with
      | None => Some (total_written, outgoing_data_ready, t)
      | Some (i, t) =>
          '(written, finished, t) ← Transmitter_writeTo t i buf;
          match drop (Z.to_nat written) buf with
          | [] => Some (total_written + written, outgoing_data_ready || finished, t)
          | buf => Transmitter_tryWrite_loop fuel t buf (total_written + written)
                     (outgoing_data_ready || finished)
          end
      end
  end.

(** Returns the number of bytes written and [outgoing_data_ready]. Every
    iteration but the first writes a byte. *)
Definition Transmitter_tryWrite (t : Transmitter) (buf : list byte)
    : option (Z * bool * Transmitter) :=
  match buf with
  | [] => Some (0, false, t)
  | _ =>
      if tx_end_of_stream t then Some (0, false, t)
      else match tx_state t with
      | TkIdle | TkBroken => Some (0, false, t)
      | _ => Transmitter_tryWrite_loop (S (S (length buf))) t buf 0 false
      end
  end.

Definition Transmitter_flush (t : Transmitter) : option (bool * Transmitter) :=
  match tx_current_out_buffer t with
  | Some i => b ← tx_out_buffers t !! i; Some (true, tx_set_buffer i (OutBuffer_flush b) t)
  | None => Some (false, t)
  end.

Definition Transmitter_hasPendingData (t : Transmitter) : bool :=
  negb (RingBuffer_empty (tx_out_ring t)).

Definition Transmitter_addEosPacket (t : Transmitter) : option Transmitter :=
  '(pos, ring) ← RingBuffer_push (tx_out_ring t);
  let t := tx_with_out_ring ring t in
  i ← Transmitter_getOutBuffer t pos;
  b ← tx_out_buffers t !! i;
  b ← OutBuffer_init b pos (tx_control_bit t);
  b ← OutBuffer_markFinal b;
  Some (tx_set_buffer i (OutBuffer_finish b) t).

Definition Transmitter_close (t : Transmitter) : option Transmitter :=
  let t := if decide (tx_state t = TkBroken) then tx_with_state TkIdle t else t in
  if tx_end_of_stream t || bool_decide (tx_state t = TkIdle) then Some t
  else
    '(_, t) ← Transmitter_flush t;
    t ← (if RingBuffer_slotsFree (tx_out_ring t) =? 0
         then Some (tx_with_has_pending_eof true t)
         else Transmitter_addEosPacket t);
    Some (tx_with_end_of_stream true t).

Definition Transmitter_setBroken (t : Transmitter) : option Transmitter :=
  ring ← RingBuffer_drain_all (tx_out_ring t);
  Some (tx_with_state TkBroken (tx_with_out_ring ring t)).

Definition Transmitter_availableForWrite (t : Transmitter) : Z :=
  if tx_end_of_stream t || bool_decide (tx_state t = TkIdle)
     || bool_decide (tx_state t = TkBroken) then 0
  else RingBuffer_slotsFree (tx_out_ring t).

Definition Transmitter_setConnected (peer_receive_buffer_size : Z) (control_bit : bool)
    (t : Transmitter) : Transmitter :=
  tx_with_recv_himark (SeqNum_add (rb_begin (tx_out_ring t)) peer_receive_buffer_size)
    (tx_with_control_bit control_bit
      (tx_with_peer_receive_buffer_size peer_receive_buffer_size
        (tx_with_state TkConnected t))).

Definition Transmitter_front (t : Transmitter) : SeqNum := rb_begin (tx_out_ring t).

(** The loop of [getBufferToSend] over the window, for the packet to send and
    when it is due. *)
Fixpoint Transmitter_scan (fuel : nat) (t : Transmitter) (pos to_send : SeqNum)
    (min_send_time : Z) : option (SeqNum * Z) :=
  match fuel with
  | O => None
  | S fuel =>
      if SeqNum_lt pos (rb_end (tx_out_ring t)) && SeqNum_lt pos (tx_recv_himark t) then
        i ← Transmitter_getOutBuffer t pos;
        b ← tx_out_buffers t !! i;
        if ob_acked b then Transmitter_scan fuel t (SeqNum_incr pos) to_send min_send_time
        else if negb (ob_flushed b) then Some (to_send, min_send_time)
        else if negb (ob_finished b) || (ob_expiration b =? Uptime_Start)
        then Some (pos, Uptime_Start)
        else if ob_expiration b <? min_send_time
        then Transmitter_scan fuel t (SeqNum_incr pos) pos (ob_expiration b)
        else Transmitter_scan fuel t (SeqNum_incr pos) to_send min_send_time
      else Some (to_send, min_send_time)
  end.

(** Sends the buffer at [i]: the common end of both paths of [getBufferToSend]. *)
Definition Transmitter_markSent (t : Transmitter) (i : nat) (now draw : Z)
    (next_to_send : SeqNum) : option Transmitter :=
  b ← tx_out_buffers t !! i;
  b ← OutBuffer_markSent b now draw;
  Some (tx_with_packets_sent (u32 (tx_packets_sent t + 1))
          (tx_with_next_to_send next_to_send (tx_set_buffer i b t))).

(** The first attempt of [getBufferToSend]: the next packet in sequence, if it
    has never been sent. Returns [None] for the buffer when it does not apply. *)
Definition Transmitter_sendNext (t : Transmitter) (now draw : Z)
    : option (option nat * Transmitter) :=
  if RingBuffer_contains (tx_out_ring t) (tx_next_to_send t) then
    i ← Transmitter_getOutBuffer t (tx_next_to_send t);
    b ← tx_out_buffers t !! i;
    if negb (ob_acked b) && ob_flushed b then
      let b := if negb (ob_finished b) then OutBuffer_finish b else b in
      let t := tx_set_buffer i b t in
      if ob_send_counter b =? 0 then
        t ← Transmitter_markSent t i now draw (SeqNum_incr (tx_next_to_send t));
        Some (Some i, t)
      else Some (None, t)
    else Some (None, t)
  else Some (None, t).

(** The fallback of [getBufferToSend], first part: the packet to send and when it
    is due, which is the earliest one of the window or the only, still open one;
    [None] to return without a packet. *)
Definition Transmitter_choose (t : Transmitter)
    : option (option (SeqNum * Z * Transmitter)) :=
  let ring := tx_out_ring t in
  '(to_send, min_send_time) ←
    Transmitter_scan (S (Z.to_nat (RingBuffer_slotsUsed ring))) t (rb_begin ring)
      (rb_end ring) Uptime_Max;
  if RingBuffer_contains ring to_send then Some (Some (to_send, min_send_time, t))
  else if negb (RingBuffer_slotsUsed ring =? 1)
          || SeqNum_ge (rb_begin ring) (tx_recv_himark t)
  then Some None
  else
    i ← Transmitter_getOutBuffer t (rb_begin ring);
    b ← tx_out_buffers t !! i;
    if ob_finished b then DCHECK (0 <? ob_send_counter b) ;; Some None
    else
      DCHECK (negb (ob_acked b)) ;;
      DCHECK (0 <? u8 (ob_size b + 2)) ;;
      Some (Some (rb_begin ring, Uptime_Start, tx_set_buffer i (OutBuffer_finish b) t)).

(** Second part: sends it if it is due. *)
Definition Transmitter_sendDue (t : Transmitter) (now draw next_send_micros : Z)
    : option (option nat * Z * Transmitter) :=
  chosen ← Transmitter_choose t;
  match chosen with
  | None => Some (None, next_send_micros, t)
  | Some (to_send, min_send_time, t) =>
      if now <? min_send_time
      then Some (None, Z.min next_send_micros (to_long (min_send_time - now)), t)
      else
        i ← Transmitter_getOutBuffer t to_send;
        b ← tx_out_buffers t !! i;
        let t := tx_set_buffer i (if negb (ob_finished b) then OutBuffer_finish b else b) t in
        t ← Transmitter_markSent t i now draw (SeqNum_add to_send 1);
        Some (Some i, 0, t)
  end.

(** [now] is the clock, read once on either path, and [draw] the random draw of
    the backoff. Returns the buffer to send and [next_send_micros]. *)
Definition Transmitter_getBufferToSend (t : Transmitter) (now draw next_send_micros : Z)
    : option (option nat * Z * Transmitter) :=
  match tx_state t with
  | TkConnected =>
      '(sent, t) ← Transmitter_sendNext t now draw;
      match sent with
      | Some i => Some (Some i, 0, t)
      | None => Transmitter_sendDue t now draw next_send_micros
      end
  | _ => Some (None, next_send_micros, t)
  end.

(** [send]: the packet to send, empty if there is none, and
    [next_send_micros]. *)
Definition Transmitter_send (t : Transmitter) (now draw next_send_micros : Z)
    : option (list byte * Z * Transmitter) :=
  '(sent, next_send_micros, t) ← Transmitter_getBufferToSend t now draw next_send_micros;
  match sent with
  | None => Some ([], next_send_micros, t)
  | Some i =>
      b ← tx_out_buffers t !! i;
      packet ← OutBuffer_packet b;
      Some (packet, next_send_micros, t)
  end.

Definition Transmitter_reset (t : Transmitter) : option Transmitter :=
  ring ← RingBuffer_drain_all (tx_out_ring t);
  Some (tx_with_has_pending_eof false
         (tx_with_current_out_buffer None
           (tx_with_state TkIdle
             (tx_with_my_stream_id 0
               (tx_with_end_of_stream false (tx_with_out_ring ring t)))))).

Definition Transmitter_init (t : Transmitter) (my_stream_id : Z) (new_start : SeqNum)
    : option Transmitter :=
  let t := tx_with_end_of_stream false
            (tx_with_state TkConnecting (tx_with_my_stream_id my_stream_id t)) in
  ring ← RingBuffer_drain_all (tx_out_ring t);
  ring ← RingBuffer_reset ring new_start;
  Some (tx_with_has_pending_eof false
         (tx_with_current_out_buffer None
           (tx_with_next_to_send (rb_begin ring)
             (tx_with_recv_himark (rb_begin ring) (tx_with_out_ring ring t))))).

(** [ack]: the body of the loop that removes the acknowledged packets. *)
Definition Transmitter_popAcked (t : Transmitter) : option Transmitter :=
  '(_, ring) ← RingBuffer_pop (tx_out_ring t);
  let t := tx_with_packets_delivered (u32 (tx_packets_delivered t + 1))
             (tx_with_out_ring ring t) in
  if tx_has_pending_eof t
  then t ← Transmitter_addEosPacket t; Some (tx_with_has_pending_eof false t)
  else Some t.

(** [ack]: that loop, for the packets before [seq]. *)
Fixpoint Transmitter_ack_pop (fuel : nat) (t : Transmitter) (seq : SeqNum)
    : option Transmitter :=
  match fuel with
  | O => None
  | S fuel =>
      if SeqNum_lt (rb_begin (tx_out_ring t)) seq && negb (RingBuffer_empty (tx_out_ring t))
      then t ← Transmitter_popAcked t; Transmitter_ack_pop fuel t seq
      else Some t
  end.

(** [ack]: the eight skip-ack bits of one byte, from bit [i - 1] down. *)
Fixpoint Transmitter_ack_bits (i : nat) (t : Transmitter) (val : Z)
    (out_pos last_acked : SeqNum) : option (Transmitter * SeqNum * SeqNum) :=
  match i with
  | O => Some (t, out_pos, last_acked)
  | S i =>
      '(t, last_acked) ←
        (if RingBuffer_contains (tx_out_ring t) out_pos
            && negb (Z.land val (Z.shiftl 1 (Z.of_nat i)) =? 0)
         then
           k ← Transmitter_getOutBuffer t out_pos;
           b ← tx_out_buffers t !! k;
           Some (tx_set_buffer k (OutBuffer_ack b) t, out_pos)
         else Some (t, last_acked));
      Transmitter_ack_bits i t val (SeqNum_incr out_pos) last_acked
  end.

Fixpoint Transmitter_ack_bitmap (t : Transmitter) (ack_bitmap : list byte)
    (out_pos last_acked : SeqNum) : option (Transmitter * SeqNum) :=
  match ack_bitmap with
  | [] => Some (t, last_acked)
  | val :: ack_bitmap =>
      '(t, out_pos, last_acked) ← Transmitter_ack_bits 8 t val out_pos last_acked;
      Transmitter_ack_bitmap t ack_bitmap out_pos last_acked
  end.

(** [ack]: rushes the packets before [last_acked] that were sent once. *)
Fixpoint Transmitter_ack_rush (fuel : nat) (t : Transmitter) (pos last_acked : SeqNum)
    (rushed next_to_send_updated : bool) : option (bool * Transmitter) :=
  match fuel with
  | O => None
  | S fuel =>
      if SeqNum_ne pos last_acked then
        i ← Transmitter_getOutBuffer t pos;
        b ← tx_out_buffers t !! i;
        if negb (ob_acked b) && (ob_send_counter b =? 1) then
          b ← OutBuffer_rush b;
          let t := tx_set_buffer i b t in
          let t := if next_to_send_updated then t else tx_with_next_to_send pos t in
          Transmitter_ack_rush fuel t (SeqNum_incr pos) last_acked true true
        else Transmitter_ack_rush fuel t (SeqNum_incr pos) last_acked rushed next_to_send_updated
      else Some (rushed, t)
  end.

(** Returns whether a packet was rushed. *)
Definition Transmitter_ack (t : Transmitter) (control_bit : bool) (seq_id : Z)
    (ack_bitmap : list byte) : option (bool * Transmitter) :=
  match tx_state t with
  | TkConnected =>
      if Bool.eqb control_bit (tx_control_bit t) then Some (false, t)
      else
        seq ← RingBuffer_restorePosHighBits (tx_out_ring t) seq_id 12;
        if SeqNum_gt seq (rb_end (tx_out_ring t)) then Some (false, t)
        else
          t ← Transmitter_ack_pop
                (S (S (Z.to_nat (RingBuffer_slotsUsed (tx_out_ring t))))) t seq;
          if RingBuffer_empty (tx_out_ring t) then
            t ← (if tx_end_of_stream t then Transmitter_reset t else Some t);
            Some (false, t)
          else
            let begin := rb_begin (tx_out_ring t) in
            '(t, last_acked) ←
              Transmitter_ack_bitmap t ack_bitmap (SeqNum_add begin 1) (SeqNum_sub begin 1);
            if RingBuffer_contains (tx_out_ring t) last_acked then
              Transmitter_ack_rush (S (Z.to_nat (RingBuffer_slotsUsed (tx_out_ring t)))) t
                (rb_begin (tx_out_ring t)) last_acked false false
            else Some (false, t)
  | _ => Some (false, t)
  end.

Definition Transmitter_updateRecvHimark (t : Transmitter) (control_bit : bool)
    (recv_himark : Z) : option (bool * Transmitter) :=
  match tx_state t with
  | TkConnected =>
      if Bool.eqb (tx_control_bit t) control_bit then Some (false, t)
      else
        new_recv_himark ← RingBuffer_restorePosHighBits (tx_out_ring t) recv_himark 12;
        if SeqNum_lt new_recv_himark (tx_recv_himark t)
           || SeqNum_gt new_recv_himark
                (SeqNum_add (rb_end (tx_out_ring t)) (tx_peer_receive_buffer_size t))
        then Some (false, t)
        else
          new_recv_himark ← RingBuffer_restorePosHighBits (tx_out_ring t) recv_himark 12;
          Some (true, tx_with_recv_himark new_recv_himark t)
  | _ => Some (false, t)
  end.

End Operations.
