(* ===== verification/TransmitterSpec.v ===== *)
(** * TransmitterSpec: the invariant of the transmitter and what its operations do

    [tx_wf t B E H] relates the transmitter to the unbounded positions of its
    queue: packets [B, E) are queued and the peer has announced room up to H. It
    holds whatever packets the peer sends. [tx_stream] is the queue as the byte
    stream it stands for. *)

From S2P Require Import Prelude.
From S2P Require Import SeqNum.
From S2P Require Import RingBuffer.
From S2P Require Import RooIo.
From S2P Require Import Protocol.
From S2P Require Import Buffers.
From S2P Require Import Transmitter.

Local Open Scope Z_scope.
Local Open Scope roo_scope.

(** ** The invariant *)

Definition tx_active (t : Transmitter) : Prop :=
  tx_state t = TkConnecting ∨ tx_state t = TkConnected.

(** The slot of position [p]. *)
Definition tx_slot (t : Transmitter) (p : Z) : nat :=
  Z.to_nat (p mod 2 ^ rb_log2 (tx_out_ring t)).

Record tx_wf (t : Transmitter) (B E H : Z) : Prop := {
  tw_ring : ring_abs (tx_out_ring t) B E;
  tw_length : length (tx_out_buffers t) = Z.to_nat (2 ^ rb_log2 (tx_out_ring t));
  tw_buffers : Forall out_buffer_wf (tx_out_buffers t);
  tw_current : ∀ i, tx_current_out_buffer t = Some i → (i < length (tx_out_buffers t))%nat;
  tw_himark : tx_recv_himark t = u16 H;
  tw_peer : 0 ≤ tx_peer_receive_buffer_size t ≤ 1024;
  tw_credit : tx_active t →
    E ≤ H + (if tx_end_of_stream t then 1 else 0) ∧ H ≤ B + 2048;
  tw_connecting : tx_state t = TkConnecting → H = B;
  tw_inactive : tx_state t = TkIdle ∨ tx_state t = TkBroken → B = E;
  tw_pending : tx_has_pending_eof t = true →
    tx_end_of_stream t = true ∧ (tx_active t → E ≤ H);
}.

(** The bytes queued in position [p], and in the whole queue. *)
Definition tx_body (t : Transmitter) (p : Z) : list byte :=
  match tx_out_buffers t !! tx_slot t p with Some b => ob_body b | None => [] end.

Definition tx_stream (t : Transmitter) (B E : Z) : list byte :=
  concat (tx_body t <$> seqZ B (E - B)).

(** The buffer being filled is the last of the queue, unless it is closed. *)
Definition tx_cur_ok (t : Transmitter) (B E : Z) : Prop :=
  ∀ i b, tx_current_out_buffer t = Some i → tx_out_buffers t !! i = Some b →
  ob_finished b = true ∨ (B < E ∧ i = tx_slot t (E - 1)).

(** The sending order: F is the end of the positions sent so far, so that nothing
    from F on has been sent or acknowledged, what was sent is closed, what is closed
    and unsent is due at once, and the position to send next is within a window
    of F. It relies on the peer
    acknowledging only what was sent. *)
Record tx_sched {pf : Platform} (t : Transmitter) (B E F : Z) : Prop := {
  sc_frontier : B ≤ F ≤ E;
  sc_next : ∃ N, tx_next_to_send t = u16 N ∧ F - 1024 ≤ N ≤ F;
  sc_unsent : ∀ p b, F ≤ p < E → tx_out_buffers t !! tx_slot t p = Some b →
    ob_send_counter b = 0 ∧ ob_acked b = false;
  sc_sent : ∀ p b, B ≤ p < E → tx_out_buffers t !! tx_slot t p = Some b →
    (0 < ob_send_counter b → ob_finished b = true)
    ∧ (ob_acked b = true → 0 < ob_send_counter b)
    ∧ (ob_finished b = true → ob_send_counter b = 0 → ob_expiration b = Uptime_Start);
}.

(** ** Slots and the stream *)

Section Slots.

Context (t : Transmitter) (B E H : Z) (Hwf : tx_wf t B E H).

Lemma tx_slot_lt p : (tx_slot t p < length (tx_out_buffers t))%nat.
Proof using Hwf.
  rewrite (tw_length _ _ _ _ Hwf). unfold tx_slot.
  pose proof (ring_capacity_bounds _ _ _ (tw_ring _ _ _ _ Hwf)).
  pose proof (Z.mod_pos_bound p (2 ^ rb_log2 (tx_out_ring t))). lia.
Qed.

Lemma tx_slot_lookup p : ∃ b, tx_out_buffers t !! tx_slot t p = Some b ∧ out_buffer_wf b.
Proof using Hwf.
  destruct (lookup_lt_is_Some_2 _ _ (tx_slot_lt p)) as [b Hb].
  exists b. split; [done|]. eapply Forall_lookup_1, Hb. by apply (tw_buffers _ _ _ _ Hwf).
Qed.

Lemma tx_current_lookup i :
  tx_current_out_buffer t = Some i → ∃ b, tx_out_buffers t !! i = Some b ∧ out_buffer_wf b.
Proof using Hwf.
  intros Hi. destruct (lookup_lt_is_Some_2 _ _ (tw_current _ _ _ _ Hwf _ Hi)) as [b Hb].
  exists b. split; [done|]. eapply Forall_lookup_1, Hb. by apply (tw_buffers _ _ _ _ Hwf).
Qed.

Lemma tx_getOutBuffer p :
  B ≤ p < E → Transmitter_getOutBuffer t (u16 p) = Some (tx_slot t p).
Proof using Hwf.
  intros. unfold Transmitter_getOutBuffer.
  by rewrite (ring_offset_for _ _ _ (tw_ring _ _ _ _ Hwf)) by done.
Qed.

Lemma tx_slot_inj p q : B ≤ p < E → B ≤ q < E → tx_slot t p = tx_slot t q → p = q.
Proof using Hwf.
  intros Hp Hq Heq. pose proof (ring_capacity_bounds _ _ _ (tw_ring _ _ _ _ Hwf)).
  eapply (ring_offset_inj _ _ _ _ _ (tw_ring _ _ _ _ Hwf) Hp Hq).
  unfold tx_slot in Heq.
  pose proof (Z.mod_pos_bound p (2 ^ rb_log2 (tx_out_ring t))).
  pose proof (Z.mod_pos_bound q (2 ^ rb_log2 (tx_out_ring t))). lia.
Qed.

Lemma tx_set_buffer_wf i b : out_buffer_wf b → tx_wf (tx_set_buffer i b t) B E H.
Proof using Hwf.
  intros Hb. destruct Hwf. constructor; cbn; auto.
  - by rewrite length_insert.
  - by apply Forall_insert.
  - intros j Hj. rewrite length_insert. auto.
Qed.

(** The stream depends on the bodies of the queued positions only. *)
Lemma tx_stream_ext t' :
  (∀ p, B ≤ p < E → tx_body t' p = tx_body t p) → tx_stream t' B E = tx_stream t B E.
Proof using Type.
  intros Heq. unfold tx_stream. f_equal. apply list_fmap_ext. intros i p Hp.
  apply Heq. apply lookup_seqZ in Hp. lia.
Qed.

Lemma tx_stream_snoc :
  B ≤ E → tx_stream t B (E + 1) = tx_stream t B E ++ tx_body t E.
Proof using Type.
  intros. unfold tx_stream. replace (E + 1 - B) with ((E - B) + 1) by lia.
  rewrite seqZ_app, fmap_app, concat_app by lia. f_equal.
  replace (B + (E - B)) with E by lia. rewrite seqZ_cons by lia.
  cbn. by rewrite app_nil_r.
Qed.

Lemma tx_body_set_eq i b p :
  i = tx_slot t p → tx_body (tx_set_buffer i b t) p = ob_body b.
Proof using Hwf.
  intros ->. unfold tx_body. change (tx_slot (tx_set_buffer _ _ _) p) with (tx_slot t p).
  cbn. rewrite list_lookup_insert_eq; [done|]. apply tx_slot_lt.
Qed.

Lemma tx_body_set_ne i b p :
  i ≠ tx_slot t p → tx_body (tx_set_buffer i b t) p = tx_body t p.
Proof using Type.
  intros. unfold tx_body. change (tx_slot (tx_set_buffer _ _ _) p) with (tx_slot t p).
  cbn. by rewrite list_lookup_insert_ne.
Qed.

(** A buffer replaced by one with the same sending history. *)
Lemma tx_sched_set_buffer {pf : Platform} i b b' F :
  tx_out_buffers t !! i = Some b → ob_send_counter b' = ob_send_counter b →
  ob_acked b' = ob_acked b → (ob_finished b = true → ob_finished b' = true) →
  (ob_finished b' = true →
     ob_expiration b' = Uptime_Start ∨ ob_finished b = true ∧ ob_expiration b' = ob_expiration b) →
  tx_sched t B E F → tx_sched (tx_set_buffer i b' t) B E F.
Proof using Type.
  intros Hi Hc Ha Hf He [F1 F2 F3 F4]. pose proof (lookup_lt_Some _ _ _ Hi) as Hlt.
  constructor; [done|done|..]; intros p bp Hp; change (tx_slot (tx_set_buffer i b' t) p)
    with (tx_slot t p); cbn; (destruct (decide (i = tx_slot t p)) as [->|Hne];
    [rewrite list_lookup_insert_eq by done; intros [= <-]
    |rewrite list_lookup_insert_ne by done; eauto]).
  - rewrite Hc, Ha. eauto.
  - rewrite Hc, Ha. destruct (F4 p b Hp Hi) as (? & ? & Hx). split_and!; auto.
    intros Hf' Hc0. destruct (He Hf') as [?|[? ->]]; auto.
Qed.

(** Replacing a buffer by one with the same bytes. *)
Lemma tx_body_set_same i b b' p :
  tx_out_buffers t !! i = Some b → ob_body b' = ob_body b →
  tx_body (tx_set_buffer i b' t) p = tx_body t p.
Proof using Hwf.
  intros Hi Hb. destruct (decide (i = tx_slot t p)) as [->|Hne].
  - rewrite tx_body_set_eq by done. unfold tx_body. by rewrite Hi.
  - by apply tx_body_set_ne.
Qed.

End Slots.

(** ** Writing *)

Section Write.

Context {io : RooIo} {io_laws : RooIoLaws} {pf : Platform}.

(** A packet appended to the queue. *)
Lemma tx_push_wf t B E H b ring :
  tx_wf t B E H → tx_active t → ring_abs ring B (E + 1) →
  rb_log2 ring = rb_log2 (tx_out_ring t) → out_buffer_wf b →
  E + 1 ≤ H + (if tx_end_of_stream t then 1 else 0) →
  (tx_has_pending_eof t = true → E + 1 ≤ H) →
  tx_wf (tx_set_buffer (tx_slot t E) b (tx_with_out_ring ring t)) B (E + 1) H.
Proof.
  intros Hwf Hact Hr Hl Hb Hc Hp. destruct Hwf. constructor; cbn; auto.
  - by rewrite length_insert, Hl.
  - by apply Forall_insert.
  - intros i Hi. rewrite length_insert. auto.
  - intros Ha. destruct (tw_credit0 Ha). split; lia.
  - intros [?|?]; destruct Hact; congruence.
  - intros Hpe. destruct (tw_pending0 Hpe). auto.
Qed.

Lemma tx_with_current_wf t B E H c :
  tx_wf t B E H → (∀ i, c = Some i → (i < length (tx_out_buffers t))%nat) →
  tx_wf (tx_with_current_out_buffer c t) B E H.
Proof. intros [] Hc. by constructor. Qed.

(** What [acquire] does when it has to open a new packet. *)
Lemma tx_acquire_new t B E H :
  tx_wf t B E H → tx_active t → tx_end_of_stream t = false →
  tx_current_out_buffer t = None → E < H → E - B < 2 ^ rb_log2 (tx_out_ring t) →
  ∃ b ring t',
    Transmitter_acquire t = Some (Some (tx_slot t E, t'))
    ∧ t' = tx_set_buffer (tx_slot t E) b
             (tx_with_current_out_buffer (Some (tx_slot t E)) (tx_with_out_ring ring t))
    ∧ tx_wf t' B (E + 1) H
    ∧ rb_log2 ring = rb_log2 (tx_out_ring t)
    ∧ out_buffer_fresh b
        (StoreBeU16 (FormatPacketHeader (u16 E) kDataPacket (tx_control_bit t))).
Proof.
  intros Hwf Hact Heos Hcur HEH Hfree. unfold Transmitter_acquire. rewrite Hcur.
  pose proof (tw_ring _ _ _ _ Hwf) as Hr. destruct (tw_credit _ _ _ _ Hwf Hact) as [_ Hreach].
  pose proof (ring_size_bounds _ _ _ Hr).
  rewrite (tw_himark _ _ _ _ Hwf), (ra_end _ _ _ Hr), SeqNum_eq_pos by lia.
  rewrite (proj2 (Z.eqb_neq H E)) by lia.
  rewrite (ring_slotsFree _ _ _ Hr), (proj2 (Z.eqb_neq _ 0)) by lia.
  destruct (ring_push _ _ _ Hr Hfree) as (ring & -> & Hr' & Hl). cbn [mbind option_bind].
  unfold Transmitter_getOutBuffer.
  change (tx_out_ring (tx_with_out_ring ring t)) with ring.
  rewrite (ring_offset_for _ _ _ Hr') by lia. cbn [mbind option_bind].
  change (tx_out_buffers (tx_with_current_out_buffer _ _)) with (tx_out_buffers t).
  rewrite Hl. fold (tx_slot t E).
  destruct (tx_slot_lookup _ _ _ _ Hwf E) as (b0 & -> & Hb0). cbn [mbind option_bind].
  destruct (OutBuffer_init_spec b0 (u16 E) (tx_control_bit t) (obw_length _ Hb0)) as (b & Hi & Hb).
  cbn [tx_control_bit tx_with_current_out_buffer tx_with_out_ring]. rewrite Hi. cbn [mbind option_bind].
  exists b, ring. eexists. split; [done|]. split; [done|]. split; [|done].
  assert (Hp : tx_has_pending_eof t = true → E + 1 ≤ H) by lia.
  apply (tx_push_wf (tx_with_current_out_buffer (Some (tx_slot t E)) t)); auto.
  - apply tx_with_current_wf; [done|]. intros i [= <-]. by eapply tx_slot_lt.
  - apply (obf_wf _ _ Hb).
  - cbn. rewrite Heos. lia.
Qed.

Lemma tx_acquire_blocked t B E H :
  tx_wf t B E H → tx_active t → tx_end_of_stream t = false →
  tx_current_out_buffer t = None → H = E ∨ E - B = 2 ^ rb_log2 (tx_out_ring t) →
  Transmitter_acquire t = Some None.
Proof.
  intros Hwf Hact Heos Hcur Hor. unfold Transmitter_acquire. rewrite Hcur.
  pose proof (tw_ring _ _ _ _ Hwf) as Hr. destruct (tw_credit _ _ _ _ Hwf Hact) as [Hc Hreach].
  pose proof (ring_size_bounds _ _ _ Hr). rewrite Heos in Hc.
  rewrite (tw_himark _ _ _ _ Hwf), (ra_end _ _ _ Hr), SeqNum_eq_pos by lia.
  destruct (Z.eqb_spec H E); [done|].
  rewrite (ring_slotsFree _ _ _ Hr), (proj2 (Z.eqb_eq _ 0)) by lia. done.
Qed.

(** One write into buffer [i], the last of the queue or a closed one. *)
Lemma tx_write_buffer t B E H i b buf :
  tx_wf t B E H → tx_out_buffers t !! i = Some b → buf ≠ [] →
  ∃ n b', OutBuffer_write b buf = Some (n, b')
    ∧ tx_wf (tx_set_buffer i b' t) B E H
    ∧ 0 ≤ n ≤ Z.of_nat (length buf)
    ∧ (ob_finished b = false → 0 < n)
    ∧ (ob_finished b = true → b' = b)
    ∧ (ob_finished b' = false → n = Z.of_nat (length buf))
    ∧ ob_acked b' = ob_acked b ∧ ob_send_counter b' = ob_send_counter b
    ∧ (ob_finished b = false → ob_finished b' = true → ob_expiration b' = Uptime_Start)
    ∧ ob_header b' = ob_header b
    ∧ (ob_finished b = true ∨ (B < E ∧ i = tx_slot t (E - 1)) →
       tx_stream (tx_set_buffer i b' t) B E = tx_stream t B E ++ take (Z.to_nat n) buf).
Proof.
  intros Hwf Hi Hbuf. destruct (ob_finished b) eqn:Hfin.
  - exists 0, b. unfold OutBuffer_write. rewrite Hfin, take_0, app_nil_r. split; [done|].
    assert (tx_set_buffer i b t = t) as ->.
    { unfold tx_set_buffer. rewrite list_insert_id by done. by destruct t. }
    split_and!; auto; try lia; done.
  - assert (Hwb : out_buffer_wf b) by (eapply Forall_lookup_1, Hi; apply Hwf).
    destruct (OutBuffer_write_spec b buf Hwb Hfin) as (b' & Hw & Hwb' & Hhd & Hbody & Hf & _ & Ha & Hcnt & _ & Hexp).
    set (n := Z.min _ _) in *. pose proof (obw_open _ Hwb Hfin). pose proof (obw_size _ Hwb).
    assert (0 < Z.of_nat (length buf)) by (destruct buf; cbn; [done|lia]).
    exists n, b'. split; [done|]. split; [by apply tx_set_buffer_wf|].
    split; [lia|]. split; [lia|]. split; [done|].
    split; [rewrite Hf; intros ?%Z.leb_gt; lia|]. do 2 (split; [done|]). split; [auto|].
    split; [done|]. intros [?|[HBE ->]]; [congruence|]. replace E with (E - 1 + 1) by lia.
    rewrite !tx_stream_snoc by lia. replace (E - 1 + 1 - 1) with (E - 1) by lia.
    rewrite (tx_body_set_eq _ _ _ _ Hwf), Hbody by done.
    rewrite (tx_stream_ext t). 2: { intros p Hp. apply tx_body_set_ne.
      intros Heq. apply (tx_slot_inj _ _ _ _ Hwf) in Heq; lia. }
    rewrite <- app_assoc. do 2 f_equal. unfold tx_body. by rewrite Hi.
Qed.

(** The operations of the application change the queue only. *)
Definition tx_upd (bufs : list OutBuffer) (c : option nat) (ring : RingBuffer)
    (t : Transmitter) : Transmitter :=
  tx_with_out_buffers bufs (tx_with_current_out_buffer c (tx_with_out_ring ring t)).

(** From [t] to [t'] the bytes [bs] were appended to the queue. *)
Record tx_wrote (t t' : Transmitter) (B E E' H : Z) (bs : list byte) : Prop := {
  wr_wf : tx_wf t' B E' H;
  wr_upd : t' = tx_upd (tx_out_buffers t') (tx_current_out_buffer t') (tx_out_ring t') t;
  wr_log2 : rb_log2 (tx_out_ring t') = rb_log2 (tx_out_ring t);
  wr_grow : B ≤ E ≤ E';
  wr_stream : tx_cur_ok t B E →
    tx_cur_ok t' B E' ∧ tx_stream t' B E' = tx_stream t B E ++ bs;
  wr_sched : ∀ F, tx_sched t B E F → tx_sched t' B E' F;
  wr_old : ∀ p b, B ≤ p < E → tx_out_buffers t !! tx_slot t p = Some b →
    ∃ b', tx_out_buffers t' !! tx_slot t' p = Some b' ∧ ob_header b' = ob_header b
          ∧ (ob_finished b = true → b' = b);
  wr_new : ∀ p b, E ≤ p < E' → tx_out_buffers t' !! tx_slot t' p = Some b →
    ob_header b = StoreBeU16 (FormatPacketHeader (u16 p) kDataPacket (tx_control_bit t));
}.

Lemma tx_wrote_trans t1 t2 t3 B E1 E2 E3 H bs cs :
  tx_wrote t1 t2 B E1 E2 H bs → tx_wrote t2 t3 B E2 E3 H cs →
  tx_wrote t1 t3 B E1 E3 H (bs ++ cs).
Proof.
  intros [W1 U1 L1 G1 S1 D1 O1 N1] [W2 U2 L2 G2 S2 D2 O2 N2].
  constructor; [done| |congruence|lia| |auto|..].
  - rewrite U2, U1. done.
  - intros Hc. destruct (S1 Hc) as [Hc2 Hs2]. destruct (S2 Hc2) as [Hc3 Hs3].
    split; [done|]. by rewrite Hs3, Hs2, app_assoc.
  - intros p b Hp Hb. destruct (O1 p b Hp Hb) as (b2 & Hb2 & Hh2 & Hf2).
    destruct (O2 p b2 ltac:(lia) Hb2) as (b3 & Hb3 & Hh3 & Hf3).
    exists b3. split; [done|]. split; [congruence|]. intros Hf. specialize (Hf2 Hf).
    subst b2. auto.
  - intros p b Hp Hb. assert (tx_control_bit t2 = tx_control_bit t1) as Hcb by (by rewrite U1).
    destruct (decide (p < E2)); [|rewrite <- Hcb; apply N2; [lia|done]].
    destruct (tx_slot_lookup _ _ _ _ W1 p) as (b2 & Hb2 & _).
    destruct (O2 p b2 ltac:(lia) Hb2) as (b3 & Hb3 & Hh3 & _).
    replace b with b3 by congruence. rewrite Hh3. apply N1; [lia|done].
Qed.

Lemma tx_wrote_active t t' B E E' H bs :
  tx_wrote t t' B E E' H bs → tx_active t → tx_active t'.
Proof. intros [_ -> _ _ _ _ _ _]. done. Qed.

Lemma tx_wrote_eos t t' B E E' H bs :
  tx_wrote t t' B E E' H bs → tx_end_of_stream t' = tx_end_of_stream t.
Proof. intros [_ -> _ _ _ _ _ _]. done. Qed.

Lemma tx_acquire_wrote t B E H :
  tx_wf t B E H → tx_active t → tx_end_of_stream t = false →
  tx_current_out_buffer t = None → E < H → E - B < 2 ^ rb_log2 (tx_out_ring t) →
  ∃ b t', Transmitter_acquire t = Some (Some (tx_slot t E, t'))
    ∧ tx_current_out_buffer t' = Some (tx_slot t E)
    ∧ tx_out_buffers t' !! tx_slot t E = Some b ∧ ob_finished b = false
    ∧ tx_wrote t t' B E (E + 1) H [].
Proof.
  intros Hwf Hact Heos Hcur HEH Hfree.
  destruct (tx_acquire_new _ _ _ _ Hwf Hact Heos Hcur HEH Hfree)
    as (b & ring & t' & Hacq & Ht' & Hwf' & Hl & [Hwb Hhd Hbody Hack _ Hfin Hcnt]).
  pose proof (tx_slot_lt _ _ _ _ Hwf E) as Hlt.
  pose proof (ring_size_bounds _ _ _ (tw_ring _ _ _ _ Hwf)).
  assert (Hslot : ∀ p, tx_slot t' p = tx_slot t p).
  { intros p. rewrite Ht'. unfold tx_slot. cbn. by rewrite Hl. }
  assert (Hlook : tx_out_buffers t' !! tx_slot t E = Some b).
  { rewrite Ht'. cbn. by apply list_lookup_insert_eq. }
  exists b, t'. split; [done|]. split; [by rewrite Ht'|]. split; [done|]. split; [done|].
  assert (Hother : ∀ p, B ≤ p < E → tx_out_buffers t' !! tx_slot t' p
                                     = tx_out_buffers t !! tx_slot t p).
  { intros p Hp. rewrite Hslot. rewrite Ht'. cbn.
    rewrite list_lookup_insert_ne; [done|]. intros Heq.
    rewrite <- !Hslot in Heq. apply (tx_slot_inj _ _ _ _ Hwf') in Heq; lia. }
  constructor; [done|by rewrite Ht'|by rewrite Ht'|lia| | | |].
  3: { intros p bp Hp Hb. exists bp. by rewrite Hother. }
  3: { intros p bp Hp. replace p with E by lia. rewrite Hslot, Hlook. by intros [= <-]. }
  2: { intros F [F1 F2 F3 F4]. constructor; [lia|by rewrite Ht'|..]; intros p bp Hp Hb.
    - destruct (decide (p = E)) as [->|]; [rewrite Hslot, Hlook in Hb; by injection Hb as <-|].
      rewrite Hother in Hb by lia. eapply F3; [|done]; lia.
    - destruct (decide (p = E)) as [->|]; [rewrite Hslot, Hlook in Hb|].
      { injection Hb as <-. split_and!; [lia|congruence..]. }
      rewrite Hother in Hb by lia. eapply F4; [|done]; lia. }
  intros _. split.
  - intros i b1 Hi _. right. split; [lia|]. rewrite Hslot.
    rewrite Ht' in Hi. injection Hi as <-. f_equal. lia.
  - rewrite tx_stream_snoc, app_nil_r by lia.
    replace (tx_body t' E) with (@nil Z)
      by (unfold tx_body; by rewrite Hslot, Hlook, Hbody).
    rewrite app_nil_r. apply tx_stream_ext. intros p Hp.
    unfold tx_body. by rewrite Hother.
Qed.

Lemma tx_write_wrote t B E H i b buf :
  tx_wf t B E H → tx_current_out_buffer t = Some i →
  tx_out_buffers t !! i = Some b → buf ≠ [] →
  ∃ n b', OutBuffer_write b buf = Some (n, b')
    ∧ 0 ≤ n ≤ Z.of_nat (length buf)
    ∧ (ob_finished b = false → 0 < n)
    ∧ (ob_finished b = true → b' = b)
    ∧ (ob_finished b' = false → n = Z.of_nat (length buf))
    ∧ tx_wrote t (tx_set_buffer i b' t) B E E H (take (Z.to_nat n) buf).
Proof.
  intros Hwf Hcur Hi Hbuf. pose proof (ring_size_bounds _ _ _ (tw_ring _ _ _ _ Hwf)).
  destruct (tx_write_buffer _ _ _ _ _ _ _ Hwf Hi Hbuf)
    as (n & b' & Hw & Hwf' & Hn & Hpos & Hsame & Hall & Hack & Hcnt & Hexp & Hhd & Hs).
  exists n, b'. do 5 (split; [done|]). constructor; [done|by destruct t|done|lia| | | |lia].
  3: { intros p bp Hp. change (tx_slot (tx_set_buffer i b' t) p) with (tx_slot t p). cbn.
       destruct (decide (i = tx_slot t p)) as [<-|Hne].
       - rewrite Hi, list_lookup_insert_eq by (by eapply lookup_lt_Some). intros [= <-]. eauto.
       - rewrite list_lookup_insert_ne by done. eauto. }
  2: { intros F. eapply tx_sched_set_buffer; eauto; destruct (ob_finished b) eqn:Hfb; auto; try done;
       rewrite (Hsame eq_refl); auto. }
  intros Hc. specialize (Hc i b Hcur Hi). split; [|auto].
  intros j bj Hj Hbj. cbn in Hj. rewrite Hcur in Hj. injection Hj as <-.
  cbn in Hbj. rewrite list_lookup_insert_eq in Hbj by (by eapply lookup_lt_Some).
  injection Hbj as <-. destruct Hc as [Hf|?]; [|by right].
  left. by rewrite (Hsame Hf).
Qed.

Lemma tx_drop_current_wrote t B E H :
  tx_wf t B E H → tx_wrote t (tx_with_current_out_buffer None t) B E E H [].
Proof.
  intros Hwf. pose proof (ring_size_bounds _ _ _ (tw_ring _ _ _ _ Hwf)).
  constructor; [|by destruct t|done|lia| |by intros F []|by eauto|lia].
  - by apply tx_with_current_wf.
  - intros _. split; [by intros ?? [=]|]. rewrite app_nil_r. by apply tx_stream_ext.
Qed.

Definition tx_blocked (t : Transmitter) (B E H : Z) : Prop :=
  E = H ∨ E - B = 2 ^ rb_log2 (tx_out_ring t).

(** How many bytes the loop can still need, in iterations. *)
Definition tx_write_fuel (t : Transmitter) (buf : list byte) : nat :=
  (length buf + match tx_current_out_buffer t with Some _ => 1 | None => 0 end)%nat.

Lemma tx_writeTo_wrote t B E H i b buf :
  tx_wf t B E H → tx_current_out_buffer t = Some i →
  tx_out_buffers t !! i = Some b → buf ≠ [] →
  ∃ n finished t', Transmitter_writeTo t i buf = Some (n, finished, t')
    ∧ 0 ≤ n ≤ Z.of_nat (length buf)
    ∧ (ob_finished b = false → 0 < n)
    ∧ (finished = true → tx_current_out_buffer t' = None)
    ∧ (finished = false → n = Z.of_nat (length buf))
    ∧ tx_wrote t t' B E E H (take (Z.to_nat n) buf).
Proof.
  intros Hwf Hcur Hi Hbuf. unfold Transmitter_writeTo. rewrite Hi. cbn [mbind option_bind].
  destruct (tx_write_wrote _ _ _ _ _ _ _ Hwf Hcur Hi Hbuf)
    as (n & b' & -> & Hn & Hpos & _ & Hall & W). cbn [mbind option_bind].
  exists n, (ob_finished b'). eexists. split; [done|]. do 2 (split; [done|]).
  destruct (ob_finished b').
  - do 2 (split; [done|]). rewrite <- (app_nil_r (take _ _)).
    eapply tx_wrote_trans; [done|]. apply tx_drop_current_wrote, (wr_wf _ _ _ _ _ _ _ W).
  - split; [done|]. split; [auto|done].
Qed.

Lemma tx_wrote_refl t B E H : tx_wf t B E H → tx_wrote t t B E E H [].
Proof.
  intros Hwf. pose proof (ring_size_bounds _ _ _ (tw_ring _ _ _ _ Hwf)).
  constructor; [done|by destruct t|done|lia| |done|by eauto|lia]. intros.
  split; [done|]. by rewrite app_nil_r.
Qed.

(** The first part of an iteration: a buffer at hand, or no room. *)
Lemma tx_acquire_spec t B E H :
  tx_wf t B E H → tx_active t → tx_end_of_stream t = false →
  (Transmitter_acquire t = Some None ∧ tx_blocked t B E H)
  ∨ ∃ i b t1 E1, Transmitter_acquire t = Some (Some (i, t1))
    ∧ tx_wrote t t1 B E E1 H [] ∧ tx_current_out_buffer t1 = Some i
    ∧ tx_out_buffers t1 !! i = Some b
    ∧ (ob_finished b = true → tx_current_out_buffer t ≠ None).
Proof.
  intros Hwf Hact Heos. destruct (tx_current_out_buffer t) as [i|] eqn:Hcur.
  - right. destruct (tx_current_lookup _ _ _ _ Hwf i Hcur) as (b & Hi & _).
    exists i, b, t, E. unfold Transmitter_acquire. rewrite Hcur.
    auto 10 using tx_wrote_refl.
  - destruct (decide (H = E ∨ E - B = 2 ^ rb_log2 (tx_out_ring t))) as [Hblk|Hnb].
    + left. split; [by eapply tx_acquire_blocked|]. destruct Hblk; [left; lia|by right].
    + right. pose proof (ra_size _ _ _ (tw_ring _ _ _ _ Hwf)).
      destruct (tw_credit _ _ _ _ Hwf Hact) as [Hc _]. rewrite Heos in Hc.
      destruct (tx_acquire_wrote _ _ _ _ Hwf Hact Heos Hcur) as (b & t1 & ? & ? & ? & ? & ?);
        [lia..|].
      exists (tx_slot t E), b, t1, (E + 1). split_and!; auto. congruence.
Qed.

Lemma tx_tryWrite_loop_spec fuel :
  ∀ t B E H buf total ready,
  tx_wf t B E H → tx_active t → tx_end_of_stream t = false → buf ≠ [] →
  (tx_write_fuel t buf < fuel)%nat →
  ∃ n ready' t' E',
    Transmitter_tryWrite_loop fuel t buf total ready = Some (total + n, ready', t')
    ∧ tx_wrote t t' B E E' H (take (Z.to_nat n) buf)
    ∧ 0 ≤ n ≤ Z.of_nat (length buf)
    ∧ (n < Z.of_nat (length buf) → tx_blocked t' B E' H).
Proof.
  induction fuel as [|fuel IH]; intros t B E H buf total ready Hwf Hact Heos Hbuf Hfuel; [lia|].
  cbn [Transmitter_tryWrite_loop].
  pose proof (tw_ring _ _ _ _ Hwf) as Hr. pose proof (ring_size_bounds _ _ _ Hr).
  destruct (tw_credit _ _ _ _ Hwf Hact) as [Hc Hreach]. rewrite Heos, Z.add_0_r in Hc.
  rewrite (tw_himark _ _ _ _ Hwf), (ra_end _ _ _ Hr), SeqNum_ge_pos by lia. run_checks.
  destruct (tx_acquire_spec _ _ _ _ Hwf Hact Heos)
    as [[-> Hblk]|(i & b & t1 & E1 & -> & W1 & Hcur & Hi & Hf1)]; cbn [mbind option_bind].
  { exists 0, ready, t, E. rewrite Z.add_0_r, take_0. auto using tx_wrote_refl with lia. }
  destruct (tx_writeTo_wrote _ _ _ _ _ _ _ (wr_wf _ _ _ _ _ _ _ W1) Hcur Hi Hbuf)
    as (n & finished & t2 & -> & Hn & Hpos & Hfin & Hall & W2). cbn [mbind option_bind].
  pose proof (tx_wrote_trans _ _ _ _ _ _ _ _ _ _ W1 W2) as W. cbn [app] in W.
  destruct (drop (Z.to_nat n) buf) as [|x rest] eqn:Hdrop;
    apply (f_equal length) in Hdrop as Hlen; rewrite length_drop in Hlen; cbn in Hlen.
  { exists n. do 3 eexists. split; [done|]. split; [done|]. lia. }
  assert (finished = true) as -> by (destruct finished; [done|]; specialize (Hall eq_refl); lia).
  rewrite <- Hdrop.
  edestruct (IH t2 B E1 H (drop (Z.to_nat n) buf)) as (n2 & r2 & t' & E' & Hl & W3 & Hn2 & Hb2).
  - apply (wr_wf _ _ _ _ _ _ _ W).
  - by apply (tx_wrote_active _ _ _ _ _ _ _ W).
  - by rewrite (tx_wrote_eos _ _ _ _ _ _ _ W).
  - by rewrite Hdrop.
  - unfold tx_write_fuel in *. rewrite (Hfin eq_refl), length_drop.
    destruct (ob_finished b), (tx_current_out_buffer t); specialize (Hpos eq_refl) || specialize (Hf1 eq_refl);
      try done; lia.
  - exists (n + n2), r2, t', E'. rewrite length_drop in Hn2, Hb2.
    split; [rewrite Hl; do 3 f_equal; lia|]. split; [|split; [lia|intros; apply Hb2; lia]].
    replace (Z.to_nat (n + n2)) with (Z.to_nat n + Z.to_nat n2)%nat by lia.
    rewrite <- take_take_drop. by eapply tx_wrote_trans.
Qed.

End Write.

(** ** Operations that keep the queue's contents *)

(** The packet's bytes stay, and it stays closed and acknowledged if it was. *)
Record buffer_kept (b b' : OutBuffer) : Prop := {
  bk_wf : out_buffer_wf b';
  bk_bytes : same_bytes b b';
  bk_finished : ob_finished b = true → ob_finished b' = true;
  bk_flushed : ob_flushed b = true → ob_flushed b' = true;
  bk_acked : ob_acked b = true → ob_acked b' = true;
  bk_counter : ob_send_counter b ≤ ob_send_counter b';
}.

Lemma buffer_kept_refl b : out_buffer_wf b → buffer_kept b b.
Proof. by constructor. Qed.

Lemma buffer_kept_trans b1 b2 b3 : buffer_kept b1 b2 → buffer_kept b2 b3 → buffer_kept b1 b3.
Proof.
  intros [? [] ? ? ? ?] [? [] ? ? ? ?]. constructor; auto; [split; congruence|lia].
Qed.

Record tx_kept (t t' : Transmitter) : Prop := {
  tk_length : length (tx_out_buffers t') = length (tx_out_buffers t);
  tk_buffers : ∀ i b, tx_out_buffers t !! i = Some b →
    ∃ b', tx_out_buffers t' !! i = Some b' ∧ buffer_kept b b';
  tk_frame : t' = tx_with_packets_sent (tx_packets_sent t')
    (tx_with_next_to_send (tx_next_to_send t') (tx_with_out_buffers (tx_out_buffers t') t));
}.

Lemma tx_kept_trans t1 t2 t3 : tx_kept t1 t2 → tx_kept t2 t3 → tx_kept t1 t3.
Proof.
  intros [L1 K1 F1] [L2 K2 F2]. constructor; [congruence| |by rewrite F2, F1].
  intros i b Hb. destruct (K1 i b Hb) as (b2 & Hb2 & Hk2).
  destruct (K2 i b2 Hb2) as (b3 & Hb3 & Hk3). eauto using buffer_kept_trans.
Qed.

Section Kept.

Context (t : Transmitter) (B E H : Z) (Hwf : tx_wf t B E H).

Lemma tx_kept_refl : tx_kept t t.
Proof using Hwf.
  constructor; [done| |by destruct t]. intros i b Hb. exists b. split; [done|].
  apply buffer_kept_refl. eapply Forall_lookup_1, Hb. apply (tw_buffers _ _ _ _ Hwf).
Qed.

Lemma tx_set_buffer_kept i b b' :
  tx_out_buffers t !! i = Some b → buffer_kept b b' → tx_kept t (tx_set_buffer i b' t).
Proof using Hwf.
  intros Hi Hk. constructor; [by cbn; rewrite length_insert| |by destruct t].
  intros j bj Hj. cbn. destruct (decide (i = j)) as [<-|Hne].
  - rewrite list_lookup_insert_eq by (by eapply lookup_lt_Some). exists b'. split; [done|].
    congruence.
  - rewrite list_lookup_insert_ne by done. exists bj. split; [done|].
    apply buffer_kept_refl. eapply Forall_lookup_1, Hj. apply (tw_buffers _ _ _ _ Hwf).
Qed.

Lemma tx_with_next_to_send_kept n : tx_kept t (tx_with_next_to_send n t).
Proof using Hwf.
  constructor; [done| |done]. intros i b Hb. cbn.
  destruct (tk_buffers _ _ tx_kept_refl i b Hb) as (? & ? & ?). eauto.
Qed.

Context (t' : Transmitter) (Hk : tx_kept t t').

Lemma tx_kept_counters k n :
  tx_kept t (tx_with_packets_sent k (tx_with_next_to_send n t')).
Proof using Hk.
  destruct Hk as [HL HB HF]. constructor; [exact HL|exact HB|]. by rewrite HF.
Qed.

Lemma tx_kept_wf : tx_wf t' B E H.
Proof using Hwf Hk.
  destruct Hk as [HL HB HF]. assert (Hf : Forall out_buffer_wf (tx_out_buffers t')).
  { apply Forall_lookup. intros i b' Hb'.
    destruct (lookup_lt_is_Some_2 (tx_out_buffers t) i) as [b Hb].
    { rewrite <- HL. by eapply lookup_lt_Some. }
    destruct (HB i b Hb) as (b2 & Hb2 & Hkb). replace b' with b2 by congruence. apply Hkb. }
  destruct Hwf. rewrite HF. constructor; cbn; auto; rewrite HL; auto.
Qed.

Lemma tx_kept_slot p : tx_slot t' p = tx_slot t p.
Proof using Hk. by rewrite (tk_frame _ _ Hk). Qed.

Lemma tx_kept_body p : tx_body t' p = tx_body t p.
Proof using Hwf Hk.
  unfold tx_body. rewrite tx_kept_slot. destruct (tx_slot_lookup _ _ _ _ Hwf p) as (b & Hb & _).
  destruct (tk_buffers _ _ Hk _ _ Hb) as (b' & Hb' & Hkb).
  rewrite Hb, Hb'. apply same_bytes_body, Hkb.
Qed.

Lemma tx_kept_stream : tx_stream t' B E = tx_stream t B E.
Proof using Hwf Hk. apply tx_stream_ext. intros. apply tx_kept_body. Qed.

Lemma tx_kept_cur_ok : tx_cur_ok t B E → tx_cur_ok t' B E.
Proof using Hwf Hk.
  intros Hc i b' Hi Hb'. assert (Hi0 : tx_current_out_buffer t = Some i)
    by (by rewrite (tk_frame _ _ Hk) in Hi).
  destruct (tx_current_lookup _ _ _ _ Hwf i Hi0) as (b & Hb & _).
  destruct (tk_buffers _ _ Hk _ _ Hb) as (b2 & Hb2 & Hkb). replace b2 with b' in * by congruence.
  rewrite tx_kept_slot. destruct (Hc i b Hi0 Hb) as [?|?]; [left; by apply Hkb|by right].
Qed.

End Kept.

(** ** Sending *)

(** A packet that has never been sent or whose timer has expired by [now]. *)
Definition ob_due (now : Z) (b : OutBuffer) : Prop :=
  ob_send_counter b = 0 ∨ ob_expiration b ≤ now.

(** The packet of position [p], which was due, was handed out for sending at [now]: it is
    no longer due, and the others are as they were. *)
Record tx_handed_out (t t' : Transmitter) (B E now p : Z) : Prop := {
  ho_live : B ≤ p < E;
  ho_kept : tx_kept t t';
  ho_unacked : ∀ b, tx_out_buffers t !! tx_slot t p = Some b → ob_acked b = false ∧ ob_due now b;
  ho_closed : ∃ b', tx_out_buffers t' !! tx_slot t p = Some b'
    ∧ ob_finished b' = true ∧ 0 < ob_send_counter b' ∧ ob_acked b' = false ∧ ¬ ob_due now b';
  ho_others : ∀ i, i ≠ tx_slot t p → tx_out_buffers t' !! i = tx_out_buffers t !! i;
}.

Lemma buffer_finish_kept {pf : Platform} b :
  out_buffer_wf b → buffer_kept b (OutBuffer_finish b).
Proof. intros. constructor; auto using OutBuffer_finish_wf; [by split|done]. Qed.

Lemma buffer_maybe_finish_kept {pf : Platform} b :
  out_buffer_wf b → buffer_kept b (if negb (ob_finished b) then OutBuffer_finish b else b).
Proof.
  intros. destruct (ob_finished b) eqn:?; cbn; auto using buffer_kept_refl, buffer_finish_kept.
Qed.

Section Send.

Context {io : RooIo} {pf : Platform} {pf_laws : PlatformLaws}.

(** Closing a buffer if it is open and marking it sent, the end of both paths of
    [getBufferToSend]. *)
Lemma tx_markSent_spec t B E H i b now draw n :
  tx_wf t B E H → 0 ≤ draw ≤ RANDOM_INTEGER_MAX → tx_out_buffers t !! i = Some b →
  ∃ b' t', Transmitter_markSent
      (tx_set_buffer i (if negb (ob_finished b) then OutBuffer_finish b else b) t)
      i now draw n = Some t'
    ∧ tx_kept t t' ∧ tx_out_buffers t' = <[i:=b']> (tx_out_buffers t)
    ∧ tx_next_to_send t' = n
    ∧ ob_finished b' = true ∧ 0 < ob_send_counter b' ∧ ob_acked b' = ob_acked b
    ∧ now < ob_expiration b'.
Proof using pf_laws.
  intros Hwf Hd Hb.
  assert (Hwb : out_buffer_wf b) by (eapply Forall_lookup_1, Hb; apply Hwf).
  pose proof (buffer_maybe_finish_kept b Hwb) as Hk1.
  assert (Hf1 : ob_finished (if negb (ob_finished b) then OutBuffer_finish b else b) = true
    ∧ ob_acked (if negb (ob_finished b) then OutBuffer_finish b else b) = ob_acked b)
    by (by destruct (ob_finished b) eqn:?).
  generalize dependent (if negb (ob_finished b) then OutBuffer_finish b else b).
  intros b1 Hk1 [Hfin1 Hack1]. pose proof (lookup_lt_Some _ _ _ Hb) as Hlt.
  destruct (OutBuffer_markSent_spec b1 now draw (bk_wf _ _ Hk1) Hd)
    as (b2 & Hm & Hwf' & Hsb & Ha' & Hf' & Hfl' & Hcnt' & Hcnt & Hexp).
  assert (Hk : buffer_kept b b2).
  { pose proof (obw_counter _ (bk_wf _ _ Hk1)). eapply buffer_kept_trans; [done|].
    constructor; [done|done|congruence..|lia]. }
  assert (Hb1 : tx_out_buffers (tx_set_buffer i b1 t) !! i = Some b1)
    by (by apply list_lookup_insert_eq).
  assert (Hset : tx_set_buffer i b2 (tx_set_buffer i b1 t) = tx_set_buffer i b2 t).
  { unfold tx_set_buffer. cbn. by rewrite list_insert_insert_eq. }
  exists b2. eexists. unfold Transmitter_markSent.
  rewrite (bind_step _ _ _ Hb1), (bind_step _ _ _ Hm). clear Hm.
  rewrite Hset. split; [reflexivity|].
  split; [apply tx_kept_counters; by eapply tx_set_buffer_kept|].
  split_and!; try done; congruence || lia.
Qed.

Lemma tx_markSent_handed_out t B E H p b now draw :
  tx_wf t B E H → B ≤ p < E → 0 ≤ draw ≤ RANDOM_INTEGER_MAX →
  tx_out_buffers t !! tx_slot t p = Some b → ob_acked b = false → ob_due now b →
  ∃ t', Transmitter_markSent
          (tx_set_buffer (tx_slot t p)
             (if negb (ob_finished b) then OutBuffer_finish b else b) t)
          (tx_slot t p) now draw (u16 (p + 1)) = Some t'
        ∧ tx_handed_out t t' B E now p
        ∧ (∀ F, tx_sched t B E F → tx_sched t' B E (Z.max F (p + 1))).
Proof using pf_laws.
  intros Hwf Hp Hd Hb Hack Hdue.
  destruct (tx_markSent_spec _ _ _ _ _ _ now draw (u16 (p + 1)) Hwf Hd Hb)
    as (b' & t' & Hm & HK & Hbufs & Hnext & Hf & Hc & Ha & He).
  pose proof (lookup_lt_Some _ _ _ Hb) as Hlt.
  exists t'. split; [done|]. split.
  { constructor; [done|done|intros b2 Hb2; replace b2 with b by congruence; done| |].
    - exists b'. rewrite Hbufs, list_lookup_insert_eq by done. unfold ob_due.
      split_and!; try done; [congruence|lia].
    - intros i Hi. rewrite Hbufs. by apply list_lookup_insert_ne. }
  intros F [F1 F2 F3 F4]. pose proof (ring_size_bounds _ _ _ (tw_ring _ _ _ _ Hwf)).
  constructor; [lia| |..].
  - exists (p + 1). split; [done|]. lia.
  - intros q bq Hq. rewrite (tx_kept_slot _ _ HK), Hbufs, list_lookup_insert_ne.
    + intros. eapply F3; [|done]; lia.
    + intros Heq%(tx_slot_inj _ _ _ _ Hwf); lia.
  - intros q bq Hq. rewrite (tx_kept_slot _ _ HK), Hbufs.
    destruct (decide (tx_slot t p = tx_slot t q)) as [<-|Hne].
    + rewrite list_lookup_insert_eq by done. intros [= <-]. split_and!; [done|done|lia].
    + rewrite list_lookup_insert_ne by done. eauto.
Qed.

(** What the scan of the window may return: a queued, unacknowledged and flushed
    packet within the peer's credit that is due at [m], or its start values. *)
Definition tx_candidate (t : Transmitter) (B E H S m : Z) : Prop :=
  B ≤ S < E ∧ S < H ∧ ∃ b, tx_out_buffers t !! tx_slot t S = Some b
    ∧ ob_acked b = false ∧ ob_flushed b = true
    ∧ (m = Uptime_Start ∧ ob_finished b = false ∨ m = ob_expiration b).

Lemma tx_scan_spec t B E H fuel :
  ∀ P S m, tx_wf t B E H → tx_active t → B ≤ P ≤ E → (Z.to_nat (E - P) < fuel)%nat →
  ∃ S' m', Transmitter_scan fuel t (u16 P) (u16 S) m = Some (u16 S', m')
           ∧ ((S' = S ∧ m' = m) ∨ tx_candidate t B E H S' m').
Proof.
  induction fuel as [|fuel IH]; intros P S m Hwf Hact HP Hfuel; [lia|].
  cbn [Transmitter_scan]. pose proof (tw_ring _ _ _ _ Hwf) as Hr.
  pose proof (ring_size_bounds _ _ _ Hr). destruct (tw_credit _ _ _ _ Hwf Hact) as [Hc Hreach].
  assert (E ≤ H + 1) by (destruct (tx_end_of_stream t); lia).
  rewrite (ra_end _ _ _ Hr), (tw_himark _ _ _ _ Hwf), !SeqNum_lt_pos by lia.
  destruct (Z.ltb_spec P E); [|by exists S, m; auto].
  destruct (Z.ltb_spec P H); [|by exists S, m; auto]. cbn [andb].
  rewrite (tx_getOutBuffer _ _ _ _ Hwf) by lia. cbn [mbind option_bind].
  destruct (tx_slot_lookup _ _ _ _ Hwf P) as (b & Hb & _). rewrite Hb. cbn [mbind option_bind].
  rewrite SeqNum_incr_pos.
  destruct (ob_acked b) eqn:Hack; [apply IH; auto; lia|].
  destruct (ob_flushed b) eqn:Hfl; cbn [negb]; [|by exists S, m; auto].
  destruct (negb (ob_finished b) || (ob_expiration b =? Uptime_Start)) eqn:Hnow.
  { exists P, Uptime_Start. split; [done|]. right. split; [lia|]. split; [lia|].
    exists b. split_and!; auto. apply orb_true_iff in Hnow.
    destruct Hnow as [Hnf%negb_true_iff|Hst%Z.eqb_eq]; auto. }
  destruct (ob_expiration b <? m); [|apply IH; auto; lia].
  destruct (IH (P + 1) P (ob_expiration b)) as (S' & m' & Hs & [[-> ->]|?]); auto; [lia..| |].
  - exists P, (ob_expiration b). split; [done|]. right. split; [lia|]. split; [lia|]. eauto 10.
  - eauto.
Qed.

(** The scan stops at once at a first packet that is due. *)
Lemma tx_scan_due t B E H :
  tx_wf t B E H → tx_active t → ∀ fuel b S m,
  tx_out_buffers t !! tx_slot t B = Some b → B < E → B < H →
  ob_acked b = false → ob_flushed b = true → ob_expiration b = Uptime_Start →
  Transmitter_scan (Datatypes.S fuel) t (u16 B) S m = Some (u16 B, Uptime_Start).
Proof.
  intros Hwf Hact fuel b S m Hb HBE HBH Hack Hfl Hexp. cbn [Transmitter_scan].
  pose proof (tw_ring _ _ _ _ Hwf) as Hr. pose proof (ring_size_bounds _ _ _ Hr).
  destruct (tw_credit _ _ _ _ Hwf Hact) as [Hc Hreach].
  rewrite (ra_end _ _ _ Hr), (tw_himark _ _ _ _ Hwf), !SeqNum_lt_pos by lia.
  rewrite (proj2 (Z.ltb_lt B E)), (proj2 (Z.ltb_lt B H)) by lia. cbn [andb].
  rewrite (bind_step _ _ _ (tx_getOutBuffer _ _ _ _ Hwf B ltac:(lia))), (bind_step _ _ _ Hb).
  by rewrite Hack, Hfl, Hexp, Z.eqb_refl, orb_true_r.
Qed.

(** No packet is marked as acknowledged. *)
Definition tx_acks_same (t t' : Transmitter) : Prop :=
  ∀ i b b', tx_out_buffers t !! i = Some b → tx_out_buffers t' !! i = Some b' → ob_acked b' = ob_acked b.

Lemma tx_acks_same_refl t : tx_acks_same t t.
Proof. intros i b b' Hb Hb'. congruence. Qed.

Lemma tx_acks_same_trans t1 t2 t3 :
  tx_kept t1 t2 → tx_acks_same t1 t2 → tx_acks_same t2 t3 → tx_acks_same t1 t3.
Proof.
  intros HK S1 S2 i b b' Hb Hb'. destruct (tk_buffers _ _ HK i b Hb) as (b2 & Hb2 & _).
  rewrite (S2 i b2 b' Hb2 Hb'). by apply (S1 i).
Qed.

Lemma tx_acks_same_set t i b b' :
  tx_out_buffers t !! i = Some b → ob_acked b' = ob_acked b → tx_acks_same t (tx_set_buffer i b' t).
Proof.
  intros Hb Ha j bj bj' Hj. cbn. destruct (decide (i = j)) as [<-|Hne].
  - rewrite list_lookup_insert_eq by (by eapply lookup_lt_Some). intros [= <-]. congruence.
  - rewrite list_lookup_insert_ne by done. congruence.
Qed.

(** The outcome of [getBufferToSend]: either a packet is handed out and the
    frontier moves past it, or none is and only open buffers may be closed. *)
Definition tx_send_outcome (t t' : Transmitter) (B E F now : Z) (sent : option nat) : Prop :=
  match sent with
  | Some i => ∃ p, i = tx_slot t p ∧ tx_handed_out t t' B E now p
                   ∧ tx_sched t' B E (Z.max F (p + 1))
  | None => tx_kept t t' ∧ tx_sched t' B E F ∧ tx_acks_same t t'
  end.

Lemma tx_sendNext_spec t B E H F now draw :
  tx_wf t B E H → tx_sched t B E F → 0 ≤ draw ≤ RANDOM_INTEGER_MAX →
  ∃ sent t', Transmitter_sendNext t now draw = Some (sent, t')
             ∧ tx_send_outcome t t' B E F now sent.
Proof using pf_laws.
  intros Hwf Hs Hd. unfold Transmitter_sendNext.
  destruct (sc_next _ _ _ _ Hs) as (N & HN & HNF). rewrite HN.
  pose proof (tw_ring _ _ _ _ Hwf) as Hr. pose proof (ring_size_bounds _ _ _ Hr).
  pose proof (sc_frontier _ _ _ _ Hs).
  assert (Hnone : tx_send_outcome t t B E F now None) by (split; [by eapply tx_kept_refl|split; [done|apply tx_acks_same_refl]]).
  rewrite (ring_contains _ _ _ Hr) by lia.
  destruct (Z.leb_spec B N); cbn [andb]; [|by eauto]. destruct (Z.ltb_spec N E); [|by eauto].
  rewrite (bind_step _ _ _ (tx_getOutBuffer _ _ _ _ Hwf N ltac:(lia))).
  destruct (tx_slot_lookup _ _ _ _ Hwf N) as (b & Hb & Hwb). rewrite (bind_step _ _ _ Hb).
  destruct (ob_acked b) eqn:Hack; cbn [negb andb]; [by eauto|].
  destruct (ob_flushed b); [|by eauto].
  destruct (_ =? 0) eqn:Hcnt.
  - assert (Hz : ob_send_counter b = 0) by (apply Z.eqb_eq in Hcnt; by destruct (ob_finished b)).
    destruct (tx_markSent_handed_out _ _ _ _ N b now draw Hwf ltac:(lia) Hd Hb Hack (or_introl Hz))
      as (t' & Hm & HO & HS). exists (Some (tx_slot t N)), t'.
    change (tx_next_to_send (tx_set_buffer _ _ t)) with (tx_next_to_send t).
    rewrite HN, SeqNum_incr_pos, (bind_step _ _ _ Hm).
    split; [done|]. exists N. auto.
  - do 2 eexists. split; [done|].
    split; [eapply tx_set_buffer_kept; eauto using buffer_maybe_finish_kept|].
    split; [|eapply tx_acks_same_set; [done|by destruct (ob_finished b) eqn:?]].
    eapply tx_sched_set_buffer; [exact Hb|by destruct (ob_finished b) eqn:?..| |done].
    destruct (ob_finished b) eqn:?; cbn; auto.
Qed.

(** The packet the fallback picks, with the auto-flush of the only, open one. *)
Lemma tx_choose_spec t B E H F :
  tx_wf t B E H → tx_active t → tx_sched t B E F →
  Transmitter_choose t = Some None
  ∨ ∃ p m t1 b, Transmitter_choose t = Some (Some (u16 p, m, t1)) ∧ B ≤ p < E
      ∧ tx_kept t t1 ∧ tx_sched t1 B E F
      ∧ tx_out_buffers t1 !! tx_slot t p = Some b ∧ ob_acked b = false
      ∧ (ob_send_counter b = 0 ∨ ob_expiration b = m) ∧ tx_acks_same t t1
      ∧ ∃ b0, tx_out_buffers t !! tx_slot t p = Some b0 ∧ ob_acked b0 = false
        ∧ (ob_send_counter b0 = 0 ∨ ob_expiration b0 = m)
        ∧ ∀ i, i ≠ tx_slot t p → tx_out_buffers t1 !! i = tx_out_buffers t !! i.
Proof using pf_laws.
  intros Hwf Hact Hs. unfold Transmitter_choose.
  pose proof (tw_ring _ _ _ _ Hwf) as Hr. pose proof (ring_size_bounds _ _ _ Hr).
  destruct (tw_credit _ _ _ _ Hwf Hact) as [Hc Hreach].
  rewrite (ring_slotsUsed _ _ _ Hr), (ra_begin _ _ _ Hr), (ra_end _ _ _ Hr).
  destruct (tx_scan_spec t B E H (S (Z.to_nat (E - B))) B E Uptime_Max)
    as (S & m & Hscan & [[-> ->]|(HS & HSH & b & Hb & Hack & _ & Hm)]); [done|done|lia|lia|..];
    rewrite (bind_step _ _ _ Hscan); rewrite (ring_contains _ _ _ Hr) by lia.
  2: { right. exists S, m, t, b. rewrite (proj2 (Z.leb_le B S)), (proj2 (Z.ltb_lt S E)) by lia.
       assert (Hdue : ob_send_counter b = 0 ∨ ob_expiration b = m).
       { destruct Hm as [[_ Hnf]|?]; [left|by right]. destruct (sc_sent _ _ _ _ Hs S b HS Hb) as (Hsf & _).
         destruct (tx_slot_lookup _ _ _ _ Hwf S) as (b2 & Hb2 & Hwb). replace b2 with b in * by congruence.
         pose proof (obw_counter _ Hwb). destruct (decide (ob_send_counter b = 0)); [done|].
         rewrite Hsf in Hnf by lia. done. }
       split_and!; eauto 10 using tx_kept_refl, tx_acks_same_refl; lia. }
  rewrite Z.ltb_irrefl, andb_false_r, (tw_himark _ _ _ _ Hwf), SeqNum_ge_pos by (destruct (tx_end_of_stream t); lia).
  destruct (Z.eqb_spec (E - B) 1); cbn [negb orb]; [|by left].
  destruct (Z.leb_spec H B); [by left|].
  rewrite (bind_step _ _ _ (tx_getOutBuffer _ _ _ _ Hwf B ltac:(lia))).
  destruct (tx_slot_lookup _ _ _ _ Hwf B) as (b & Hb & Hwb). rewrite (bind_step _ _ _ Hb).
  destruct (sc_sent _ _ _ _ Hs B b ltac:(lia) Hb) as (Hsf & Has & Hexp).
  destruct (ob_finished b) eqn:Hfin.
  - left. rewrite dcheck_true; [done|]. apply Z.ltb_lt. pose proof (obw_counter _ Hwb).
    destruct (decide (ob_send_counter b = 0)) as [Hz|]; [exfalso|lia].
    assert (ob_acked b = false) by (destruct (ob_acked b); [specialize (Has eq_refl); lia|done]).
    rewrite (tx_scan_due _ _ _ _ Hwf Hact _ _ _ _ Hb) in Hscan; auto;
      [|lia..|by apply (obw_flushed _ Hwb)].
    injection Hscan as HBE _. apply u16_inj in HBE; lia.
  - right. assert (ob_acked b = false) as Hack.
    { destruct (ob_acked b); [|done]. specialize (Hsf (Has eq_refl)). congruence. }
    exists B, Uptime_Start. do 2 eexists. rewrite Hack.
    pose proof (obw_size _ Hwb). rewrite u8_small by lia.
    rewrite !dcheck_true by (done || apply Z.ltb_lt; lia). split; [done|]. split; [lia|].
    split; [eapply tx_set_buffer_kept; eauto using buffer_finish_kept|].
    split; [eapply tx_sched_set_buffer; eauto|].
    assert (Hz : ob_send_counter b = 0).
    { pose proof (obw_counter _ Hwb). destruct (decide (ob_send_counter b = 0)); [done|].
      discriminate Hsf; lia. }
    split; [apply list_lookup_insert_eq; by eapply lookup_lt_Some|]. split; [done|].
    split; [by left|]. split; [by eapply tx_acks_same_set|]. exists b. split_and!; auto.
    intros i Hi. cbn. by apply list_lookup_insert_ne.
Qed.

(** The choice may close the packet before it is handed out. *)
Lemma tx_handed_out_choice t t1 t' B E H now p b :
  tx_wf t B E H → tx_kept t t1 → tx_handed_out t1 t' B E now p →
  tx_out_buffers t !! tx_slot t p = Some b → ob_acked b = false → ob_due now b →
  (∀ i, i ≠ tx_slot t p → tx_out_buffers t1 !! i = tx_out_buffers t !! i) →
  tx_handed_out t t' B E now p.
Proof.
  intros Hwf HK [Hp HK' Hun Hcl Ho] Hb Ha Hd Hsame. rewrite (tx_kept_slot _ _ HK) in *.
  constructor; [done|by eapply tx_kept_trans| |done|].
  - intros b2 Hb2. by replace b2 with b by congruence.
  - intros i Hi. rewrite Ho by done. auto.
Qed.

Lemma tx_sendDue_spec t B E H F now draw next :
  tx_wf t B E H → tx_active t → tx_sched t B E F → 0 ≤ draw ≤ RANDOM_INTEGER_MAX →
  ∃ sent next' t', Transmitter_sendDue t now draw next = Some (sent, next', t')
             ∧ tx_send_outcome t t' B E F now sent.
Proof using pf_laws.
  intros Hwf Hact Hs Hd. unfold Transmitter_sendDue.
  destruct (tx_choose_spec _ _ _ _ _ Hwf Hact Hs)
    as [Hch|(p & m & t1 & b & Hch & Hp & HK & Hs1 & Hb & Hack & Hdue & Hsame & b0 & Hb0 & Ha0 & Hd0 & Ho)];
    rewrite (bind_step _ _ _ Hch).
  { do 3 eexists. split; [done|]. split; [by eapply tx_kept_refl|split; [done|apply tx_acks_same_refl]]. }
  destruct (Z.ltb_spec now m).
  { do 3 eexists. split; [done|]. by split_and!. }
  pose proof (tx_kept_wf _ _ _ _ Hwf _ HK) as Hwf1.
  rewrite (bind_step _ _ _ (tx_getOutBuffer _ _ _ _ Hwf1 p Hp)).
  rewrite <- (tx_kept_slot _ _ HK) in Hb. rewrite (bind_step _ _ _ Hb).
  assert (∀ b, ob_send_counter b = 0 ∨ ob_expiration b = m → ob_due now b) as Hdm
    by (intros ? [?|?]; [by left|right; lia]).
  destruct (tx_markSent_handed_out _ _ _ _ p b now draw Hwf1 Hp Hd Hb Hack (Hdm _ Hdue)) as (t' & Hm & HO & HS).
  rewrite SeqNum_add_pos, (bind_step _ _ _ Hm). do 3 eexists. split; [done|].
  exists p. rewrite (tx_kept_slot _ _ HK). split; [done|]. split; [|auto].
  by apply (tx_handed_out_choice t t1 t' B E H now p b0); auto.
Qed.

(** The attempt at the next packet in sequence sends, or leaves everything as it is. *)
Lemma tx_sendNext_none t B E H F now draw t' :
  tx_wf t B E H → tx_sched t B E F →
  Transmitter_sendNext t now draw = Some (None, t') → t' = t.
Proof.
  intros Hwf Hs. unfold Transmitter_sendNext.
  destruct (sc_next _ _ _ _ Hs) as (N & HN & HNF). rewrite HN.
  pose proof (tw_ring _ _ _ _ Hwf) as Hr. pose proof (ring_size_bounds _ _ _ Hr).
  pose proof (sc_frontier _ _ _ _ Hs). rewrite (ring_contains _ _ _ Hr) by lia.
  destruct (Z.leb_spec B N); cbn [andb]; [|by intros [= <-]].
  destruct (Z.ltb_spec N E); [|by intros [= <-]].
  rewrite (bind_step _ _ _ (tx_getOutBuffer _ _ _ _ Hwf N ltac:(lia))).
  destruct (tx_slot_lookup _ _ _ _ Hwf N) as (b & Hb & Hwb). rewrite (bind_step _ _ _ Hb).
  destruct (_ && _); [|by intros [= <-]].
  destruct (sc_sent _ _ _ _ Hs N b ltac:(lia) Hb) as (Hsf & _).
  destruct (_ =? 0) eqn:Hcnt; intros Heq; [by inv_bind Heq|]. injection Heq as <-.
  assert (ob_finished b = true) as Hf.
  { apply Hsf. pose proof (obw_counter _ Hwb). apply Z.eqb_neq in Hcnt.
    destruct (ob_finished b); cbn in Hcnt; lia. }
  rewrite Hf. cbn. unfold tx_set_buffer. rewrite list_insert_id by done. by destruct t.
Qed.

Lemma tx_getBufferToSend_spec t B E H F now draw next :
  tx_wf t B E H → tx_sched t B E F → 0 ≤ draw ≤ RANDOM_INTEGER_MAX →
  ∃ sent next' t', Transmitter_getBufferToSend t now draw next = Some (sent, next', t')
             ∧ tx_send_outcome t t' B E F now sent
             ∧ (tx_state t ≠ TkConnected → sent = None).
Proof using pf_laws.
  intros Hwf Hs Hd. unfold Transmitter_getBufferToSend.
  assert (Hnone : tx_send_outcome t t B E F now None) by (split; [by eapply tx_kept_refl|split; [done|apply tx_acks_same_refl]]).
  destruct (tx_state t) eqn:Hst; try (by do 3 eexists).
  destruct (tx_sendNext_spec _ _ _ _ _ now draw Hwf Hs Hd) as ([i|] & t1 & Hn & Ho);
    rewrite (bind_step _ _ _ Hn).
  { do 3 eexists. split; [done|]. split; [exact Ho|done]. }
  apply (tx_sendNext_none _ _ _ _ _ _ _ _ Hwf Hs) in Hn as ->.
  destruct (tx_sendDue_spec _ _ _ _ F now draw next Hwf (or_intror Hst) Hs Hd)
    as (sent & next' & t' & Hdue & Ho'). by exists sent, next', t'.
Qed.

End Send.

