(* ===== verification/TransmitterProofs.v ===== *)
(** * TransmitterProofs: correctness of the transmitter

    The invariant [tx_inv] of a transmitter whose peer acknowledges only what was
    sent, that every operation preserves it without a failed check, and what each
    operation does to the stream. *)

From S2P Require Import Prelude.
From S2P Require Import SeqNum.
From S2P Require Import RingBuffer.
From S2P Require Import RooIo.
From S2P Require Import Protocol.
From S2P Require Import Buffers.
From S2P Require Import Transmitter.
From S2P Require Import TransmitterSpec.

Local Open Scope Z_scope.
Local Open Scope roo_scope.

Record tx_inv {pf : Platform} (t : Transmitter) (B E H F : Z) : Prop := {
  ti_wf : tx_wf t B E H;
  ti_sched : tx_active t → tx_sched t B E F;
  ti_cur : tx_active t → tx_end_of_stream t = false → tx_cur_ok t B E;
}.

(** The packet of position [p] has been sent. *)
Definition tx_was_sent (t : Transmitter) (p : Z) : Prop :=
  ∀ b, tx_out_buffers t !! tx_slot t p = Some b → 0 < ob_send_counter b.

(** The packet of position [p] is marked as acknowledged. *)
Definition tx_acked (t : Transmitter) (p : Z) : Prop :=
  ∃ b, tx_out_buffers t !! tx_slot t p = Some b ∧ ob_acked b = true.

Lemma tx_acked_same t t' p :
  tx_kept t t' → tx_acks_same t t' → tx_acked t' p → tx_acked t p.
Proof.
  intros HK Hs (b' & Hb' & Ha). rewrite (tx_kept_slot _ _ HK) in Hb'.
  destruct (tx_out_buffers t !! tx_slot t p) as [b|] eqn:Hb.
  - exists b. split; [done|]. by rewrite <- (Hs _ _ _ Hb Hb').
  - exfalso. apply lookup_ge_None in Hb. apply lookup_lt_Some in Hb'. rewrite (tk_length _ _ HK) in Hb'. lia.
Qed.

Lemma tx_was_sent_kept t t' B E H p :
  tx_wf t B E H → tx_kept t t' → tx_was_sent t p → tx_was_sent t' p.
Proof.
  intros Hwf HK Hs b' Hb'. destruct (tx_slot_lookup _ _ _ _ Hwf p) as (b & Hb & _).
  destruct (tk_buffers _ _ HK _ _ Hb) as (b2 & Hb2 & Hk).
  rewrite (tx_kept_slot _ _ HK) in Hb'. specialize (Hs b Hb).
  pose proof (bk_counter _ _ Hk). replace b' with b2 by congruence. lia.
Qed.

(** Every queued packet is labelled with its position and the session's control
    bit, and has a payload only if it is a data packet. *)
Definition tx_labelled {io : RooIo} (t : Transmitter) (B E : Z) : Prop :=
  ∀ p b, B ≤ p < E → tx_out_buffers t !! tx_slot t p = Some b →
  ob_header b = StoreBeU16 (FormatPacketHeader (u16 p) kDataPacket (tx_control_bit t))
  ∨ (ob_header b = StoreBeU16 (FormatPacketHeader (u16 p) kFinPacket (tx_control_bit t))
     ∧ ob_body b = [] ∧ tx_end_of_stream t = true).

(** ** Acknowledgments *)

Section Ack.

Context {io : RooIo} {io_laws : RooIoLaws} {pf : Platform}.

Lemma tx_sched_unsent_frontier t B E F p :
  tx_sched t B E F → B ≤ p < E → tx_was_sent t p →
  (∃ b, tx_out_buffers t !! tx_slot t p = Some b) → p < F.
Proof.
  intros Hsc Hp Hs [b Hb]. destruct (decide (p < F)); [done|].
  destruct (sc_unsent _ _ _ _ Hsc p b) as [? _]; [lia|done|]. specialize (Hs b Hb). lia.
Qed.

(** The first packet leaves the queue. *)
Lemma tx_pop_wf t B E H ring k :
  tx_wf t B E H → tx_active t → ring_abs ring (B + 1) E →
  rb_log2 ring = rb_log2 (tx_out_ring t) → tx_state t = TkConnected →
  tx_wf (tx_with_packets_delivered k (tx_with_out_ring ring t)) (B + 1) E H.
Proof.
  intros Hwf Hact Hr Hl Hst. pose proof (tw_credit _ _ _ _ Hwf Hact).
  destruct Hwf. constructor; cbn; auto; try congruence.
  - intros _. split; lia.
  - intros [?|?]; congruence.
Qed.

Lemma tx_slot_ring t ring p :
  rb_log2 ring = rb_log2 (tx_out_ring t) → tx_slot (tx_with_out_ring ring t) p = tx_slot t p.
Proof. intros Hl. unfold tx_slot. cbn. by rewrite Hl. Qed.

Lemma tx_pop_sched t B E H F ring k :
  tx_wf t B E H → B < E → rb_log2 ring = rb_log2 (tx_out_ring t) →
  tx_was_sent t B → tx_sched t B E F →
  tx_sched (tx_with_packets_delivered k (tx_with_out_ring ring t)) (B + 1) E F.
Proof.
  intros Hwf HBE Hl Hsent Hs.
  assert (B < F).
  { eapply tx_sched_unsent_frontier; eauto; [lia|].
    destruct (tx_slot_lookup _ _ _ _ Hwf B) as (b & ? & _); eauto. }
  destruct Hs as [F1 F2 F3 F4]. constructor; [lia|done|..]; intros p b Hp;
    change (tx_slot (tx_with_packets_delivered k (tx_with_out_ring ring t)) p)
      with (tx_slot (tx_with_out_ring ring t) p); rewrite (tx_slot_ring _ _ _ Hl).
  - apply F3. lia.
  - apply F4. lia.
Qed.

Lemma tx_pop_cur_ok t B E H F ring k :
  tx_wf t B E H → B < E → rb_log2 ring = rb_log2 (tx_out_ring t) →
  tx_was_sent t B → tx_sched t B E F → tx_cur_ok t B E →
  tx_cur_ok (tx_with_packets_delivered k (tx_with_out_ring ring t)) (B + 1) E.
Proof.
  intros Hwf HBE Hl Hsent Hs Hc i b Hi Hb.
  change (tx_slot (tx_with_packets_delivered k (tx_with_out_ring ring t)) (E - 1))
    with (tx_slot (tx_with_out_ring ring t) (E - 1)). rewrite (tx_slot_ring _ _ _ Hl).
  destruct (Hc i b Hi Hb) as [?|[_ ->]]; [by left|].
  destruct (decide (B + 1 < E)); [by right|]. left.
  replace (E - 1) with B in Hb by lia. destruct (sc_sent _ _ _ _ Hs B b ltac:(lia) Hb) as [Hsf _].
  apply Hsf, Hsent, Hb.
Qed.

(** The end-of-stream packet. *)
Lemma tx_addEosPacket_push t B E H :
  tx_wf t B E H → E - B < 2 ^ rb_log2 (tx_out_ring t) →
  ∃ b ring, Transmitter_addEosPacket t
      = Some (tx_set_buffer (tx_slot t E) b (tx_with_out_ring ring t))
    ∧ ring_abs ring B (E + 1) ∧ rb_log2 ring = rb_log2 (tx_out_ring t)
    ∧ out_buffer_wf b ∧ ob_finished b = true ∧ ob_send_counter b = 0 ∧ ob_acked b = false
    ∧ ob_expiration b = Uptime_Start ∧ ob_body b = []
    ∧ ob_header b = StoreBeU16 (FormatPacketHeader (u16 E) kFinPacket (tx_control_bit t)).
Proof using io_laws.
  intros Hwf Hfree. unfold Transmitter_addEosPacket.
  pose proof (tw_ring _ _ _ _ Hwf) as Hr. pose proof (ring_size_bounds _ _ _ Hr).
  destruct (ring_push _ _ _ Hr Hfree) as (ring & Hpush & Hr' & Hl). rewrite (bind_step _ _ _ Hpush).
  assert (Transmitter_getOutBuffer (tx_with_out_ring ring t) (u16 E) = Some (tx_slot t E)) as Hget.
  { unfold Transmitter_getOutBuffer. cbn [tx_out_ring tx_with_out_ring].
    rewrite (ring_offset_for _ _ _ Hr') by lia. unfold tx_slot. cbn. by rewrite Hl. }
  cbn beta iota. rewrite (bind_step _ _ _ Hget).
  destruct (tx_slot_lookup _ _ _ _ Hwf E) as (b0 & Hb0 & Hwb0).
  cbn [tx_out_buffers tx_with_out_ring tx_control_bit]. rewrite (bind_step _ _ _ Hb0).
  destruct (OutBuffer_init_spec b0 (u16 E) (tx_control_bit t) (obw_length _ Hwb0)) as (b1 & Hi & Hf1).
  rewrite (bind_step _ _ _ Hi).
  destruct (OutBuffer_markFinal_spec _ _ _ Hf1) as (b2 & Hm & []). rewrite (bind_step _ _ _ Hm).
  exists (OutBuffer_finish b2), ring. split; [done|].
  split_and!; auto using OutBuffer_finish_wf.
Qed.

(** The slot of a new last position is not in use. *)
Lemma tx_slot_ne t B E ring p :
  ring_abs ring B (E + 1) → rb_log2 ring = rb_log2 (tx_out_ring t) → B ≤ p < E →
  tx_slot t E ≠ tx_slot t p.
Proof.
  intros Hr' Hl Hp Heq. assert (p = E); [|lia].
  eapply (ring_offset_inj _ _ _ _ _ Hr'); [lia..|]. rewrite Hl. unfold tx_slot in Heq.
  pose proof (ring_capacity_bounds _ _ _ Hr'). rewrite Hl in *.
  pose proof (Z.mod_pos_bound p (2 ^ rb_log2 (tx_out_ring t))).
  pose proof (Z.mod_pos_bound E (2 ^ rb_log2 (tx_out_ring t))). lia.
Qed.

(** A closed, unsent packet appended to the queue. *)
Lemma tx_push_sched t B E H F ring b :
  tx_wf t B E H → ring_abs ring B (E + 1) → rb_log2 ring = rb_log2 (tx_out_ring t) →
  ob_send_counter b = 0 → ob_acked b = false → ob_expiration b = Uptime_Start →
  tx_sched t B E F → tx_sched (tx_set_buffer (tx_slot t E) b (tx_with_out_ring ring t)) B (E + 1) F.
Proof.
  intros Hwf Hr' Hl Hc Ha He [F1 F2 F3 F4]. pose proof (tx_slot_lt _ _ _ _ Hwf E) as Hlt.
  assert (Hlook : ∀ p bp, B ≤ p < E + 1 →
    tx_out_buffers (tx_set_buffer (tx_slot t E) b (tx_with_out_ring ring t))
      !! tx_slot (tx_set_buffer (tx_slot t E) b (tx_with_out_ring ring t)) p = Some bp →
    (p = E ∧ bp = b) ∨ (B ≤ p < E ∧ tx_out_buffers t !! tx_slot t p = Some bp)).
  { intros p bp Hp. change (tx_slot (tx_set_buffer _ _ _) p)
      with (tx_slot (tx_with_out_ring ring t) p). rewrite (tx_slot_ring _ _ _ Hl). cbn.
    destruct (decide (p = E)) as [->|Hne].
    - rewrite list_lookup_insert_eq by done. intros [= <-]. by left.
    - rewrite list_lookup_insert_ne; [right; split; [lia|done]|].
      eapply tx_slot_ne; eauto; lia. }
  constructor; [lia|done|..]; intros p bp Hp Hb;
    (destruct (Hlook p bp ltac:(lia) Hb) as [[-> ->]|[? ?]]).
  - done.
  - eapply F3; [|done]; lia.
  - rewrite Hc, Ha. split_and!; [lia|done|done].
  - eapply F4; [|done]; lia.
Qed.

(** What an acknowledgment leaves alone. *)
Record tx_session (t t' : Transmitter) : Prop := {
  ts_state : tx_state t' = tx_state t;
  ts_eos : tx_end_of_stream t' = tx_end_of_stream t;
  ts_control : tx_control_bit t' = tx_control_bit t;
  ts_id : tx_my_stream_id t' = tx_my_stream_id t;
  ts_current : tx_current_out_buffer t' = tx_current_out_buffer t;
  ts_peer : tx_peer_receive_buffer_size t' = tx_peer_receive_buffer_size t;
  ts_log2 : rb_log2 (tx_out_ring t') = rb_log2 (tx_out_ring t);
}.

Lemma tx_session_trans t1 t2 t3 : tx_session t1 t2 → tx_session t2 t3 → tx_session t1 t3.
Proof. intros [] []. constructor; congruence. Qed.

Lemma tx_kept_session t t' : tx_kept t t' → tx_session t t'.
Proof. intros [_ _ ->]. by constructor. Qed.

(** The queue from position [B] on has the same packets, possibly followed by
    end-of-stream packets. *)
Record tx_queue_ext (t t' : Transmitter) (B E E' : Z) : Prop := {
  qe_session : tx_session t t';
  qe_grow : E ≤ E';
  qe_same : ∀ p, B ≤ p < E →
    tx_out_buffers t' !! tx_slot t' p = tx_out_buffers t !! tx_slot t p;
  qe_new : ∀ p b, E ≤ p < E' → tx_out_buffers t' !! tx_slot t' p = Some b →
    ob_body b = [] ∧ tx_end_of_stream t = true
    ∧ ob_header b = StoreBeU16 (FormatPacketHeader (u16 p) kFinPacket (tx_control_bit t))
    ∧ ob_finished b = true;
}.

Lemma tx_queue_ext_new_body t t' B E E' p :
  tx_queue_ext t t' B E E' → E ≤ p < E' → tx_body t' p = [].
Proof.
  intros [_ _ _ Hnew] Hp. unfold tx_body. destruct (_ !! _) as [b|] eqn:Hb; [|done].
  by apply (Hnew p b).
Qed.

Lemma tx_queue_ext_stream t t' B E E' :
  tx_queue_ext t t' B E E' → B ≤ E → tx_stream t' B E' = tx_stream t B E.
Proof.
  intros Hq HBE. pose proof (qe_grow _ _ _ _ _ Hq) as HE. transitivity (tx_stream t' B E).
  - unfold tx_stream. replace (E' - B) with ((E - B) + (E' - E)) by lia.
    rewrite seqZ_app, fmap_app, concat_app by lia.
    replace (B + (E - B)) with E by lia. rewrite <- (app_nil_r (concat (_ <$> seqZ B _))) at 2.
    f_equal. apply concat_all_nil, Forall_fmap, Forall_forall. intros p Hp%elem_of_seqZ.
    cbn. eapply tx_queue_ext_new_body; [done|lia].
  - apply tx_stream_ext. intros p Hp. unfold tx_body. by rewrite (qe_same _ _ _ _ _ Hq).
Qed.

Lemma tx_labelled_ext t t' B B' E E' :
  tx_queue_ext t t' B' E E' → B ≤ B' → tx_labelled t B E → tx_labelled t' B' E'.
Proof.
  intros [[] _ Hsame Hnew] HB Hl p b Hp Hb. rewrite ts_control0, ts_eos0.
  destruct (decide (p < E)).
  - rewrite Hsame in Hb by lia. apply (Hl p b); [lia|done].
  - right. destruct (Hnew p b) as (? & ? & ? & _); [lia|done|]. done.
Qed.

Lemma tx_labelled_kept t t' B E H :
  tx_wf t B E H → tx_kept t t' → tx_labelled t B E → tx_labelled t' B E.
Proof.
  intros Hwf HK Hl p b' Hp Hb'. destruct (tx_slot_lookup _ _ _ _ Hwf p) as (b & Hb & _).
  destruct (tk_buffers _ _ HK _ _ Hb) as (b2 & Hb2 & Hk).
  rewrite (tx_kept_slot _ _ HK), Hb2 in Hb'. injection Hb' as <-.
  rewrite (same_bytes_body _ _ (bk_bytes _ _ Hk)).
  replace (ob_header b2) with (ob_header b)
    by (unfold ob_header; by rewrite (proj1 (bk_bytes _ _ Hk))).
  rewrite (tk_frame _ _ HK). by apply (Hl p b).
Qed.

Lemma tx_queue_ext_trans t1 t2 t3 B B' E E2 E3 :
  B ≤ B' ≤ E → tx_queue_ext t1 t2 B E E2 → tx_queue_ext t2 t3 B' E2 E3 →
  tx_queue_ext t1 t3 B' E E3.
Proof.
  intros HB [S1 G1 Q1 N1] [S2 G2 Q2 N2]. constructor; [by eapply tx_session_trans|lia|..].
  - intros p Hp. rewrite Q2, Q1; [done|lia..].
  - intros p b Hp Hb. rewrite <- (ts_eos _ _ S1), <- (ts_control _ _ S1).
    destruct (decide (p < E2)); [|apply (N2 p b); [lia|done]].
    rewrite Q2 in Hb by lia. rewrite (ts_eos _ _ S1), (ts_control _ _ S1).
    apply (N1 p b); [lia|done].
Qed.

Lemma tx_queue_ext_refl t B E : tx_queue_ext t t B E E.
Proof. constructor; [done|lia|done|lia]. Qed.

Lemma tx_queue_ext_sent t t' B E E' p :
  tx_queue_ext t t' B E E' → B ≤ p < E → tx_was_sent t p → tx_was_sent t' p.
Proof. intros [_ _ Q _] Hp Hs b. rewrite Q by done. apply Hs. Qed.

Lemma tx_push_queue_ext t B E H ring b :
  tx_wf t B E H → ring_abs ring B (E + 1) → rb_log2 ring = rb_log2 (tx_out_ring t) →
  ob_body b = [] → tx_end_of_stream t = true →
  ob_header b = StoreBeU16 (FormatPacketHeader (u16 E) kFinPacket (tx_control_bit t)) →
  ob_finished b = true →
  tx_queue_ext t (tx_set_buffer (tx_slot t E) b (tx_with_out_ring ring t)) B E (E + 1).
Proof.
  intros Hwf Hr' Hl Hb Heos Hh Hf. pose proof (tx_slot_lt _ _ _ _ Hwf E).
  constructor; [by constructor|lia|..]; [intros p Hp|intros p bp Hp];
    change (tx_slot (tx_set_buffer _ _ _) p) with (tx_slot (tx_with_out_ring ring t) p);
    rewrite (tx_slot_ring _ _ _ Hl); cbn.
  - apply list_lookup_insert_ne. intros Heq. eapply tx_slot_ne; eauto; lia.
  - replace p with E by lia. rewrite list_lookup_insert_eq by done. by intros [= <-].
Qed.

(** The deferred end-of-stream packet enters a queue with a free slot. *)
Lemma tx_deferredEos_spec t B E H F :
  tx_wf t B E H → tx_active t → tx_sched t B E F → tx_has_pending_eof t = true →
  E - B < 2 ^ rb_log2 (tx_out_ring t) →
  ∃ t', (t1 ← Transmitter_addEosPacket t; Some (tx_with_has_pending_eof false t1)) = Some t'
        ∧ tx_inv t' B (E + 1) H F ∧ tx_queue_ext t t' B E (E + 1)
        ∧ tx_has_pending_eof t' = false.
Proof using io_laws.
  intros Hwf Hact Hs Hp Hfree. destruct (tw_pending _ _ _ _ Hwf Hp) as [Heos HEH].
  specialize (HEH Hact).
  destruct (tx_addEosPacket_push _ _ _ _ Hwf Hfree)
    as (b & ring & Hadd & Hr & Hl & Hwb & Hf & Hc & Ha & He & Hbody & Hhd).
  rewrite (bind_step _ _ _ Hadd). eexists; split; [done|]. split; [split|].
  - apply (tx_push_wf (tx_with_has_pending_eof false t)); auto.
    + destruct Hwf. by constructor.
    + cbn. rewrite Heos. lia.
    + done.
  - intros _. by apply (tx_push_sched (tx_with_has_pending_eof false t) _ _ H);
      [destruct Hwf; constructor|..|destruct Hs; constructor].
  - cbn. congruence.
  - destruct (tx_push_queue_ext t B E H ring b Hwf Hr Hl Hbody Heos Hhd Hf) as [[] ? ? ?].
    constructor; [by constructor|done..].
Qed.

(** One acknowledged packet is removed, and a deferred end-of-stream packet takes
    its place. *)
Lemma tx_popAcked_spec t B E H F :
  tx_inv t B E H F → tx_state t = TkConnected → B < E → tx_was_sent t B →
  ∃ t' E', Transmitter_popAcked t = Some t' ∧ tx_inv t' (B + 1) E' H F
           ∧ tx_queue_ext t t' (B + 1) E E'
           ∧ E' = E + Z.b2z (tx_has_pending_eof t) ∧ tx_has_pending_eof t' = false.
Proof using io_laws.
  intros [Hwf Hs Hc] Hst HBE Hsent. assert (Hact : tx_active t) by (by right).
  specialize (Hs Hact). specialize (Hc Hact). unfold Transmitter_popAcked.
  destruct (ring_pop _ _ _ (tw_ring _ _ _ _ Hwf) HBE) as (ring & Hpop & Hr & Hl).
  rewrite (bind_step _ _ _ Hpop). cbn beta iota zeta.
  set (k := u32 _).
  pose proof (tx_pop_wf _ _ _ _ ring k Hwf Hact Hr Hl Hst) as Hwf1.
  pose proof (tx_pop_sched _ _ _ _ _ ring k Hwf HBE Hl Hsent Hs) as Hs1.
  assert (Hc1 : tx_end_of_stream t = false →
    tx_cur_ok (tx_with_packets_delivered k (tx_with_out_ring ring t)) (B + 1) E)
    by (intros; eapply tx_pop_cur_ok; eauto).
  assert (Hq1 : tx_queue_ext t (tx_with_packets_delivered k (tx_with_out_ring ring t)) (B + 1) E E).
  { constructor; [by constructor|lia| |lia]. intros p Hp.
    change (tx_slot (tx_with_packets_delivered _ _) p) with (tx_slot (tx_with_out_ring ring t) p).
    by rewrite (tx_slot_ring _ _ _ Hl). }
  assert (Hst1 : tx_active (tx_with_packets_delivered k (tx_with_out_ring ring t))) by done.
  assert (Heos1 : tx_end_of_stream (tx_with_packets_delivered k (tx_with_out_ring ring t))
    = tx_end_of_stream t) by done.
  assert (Hpe1 : tx_has_pending_eof t
    = tx_has_pending_eof (tx_with_packets_delivered k (tx_with_out_ring ring t))) by done.
  rewrite Hpe1. clear Hpe1.
  assert (Hf1 : E - (B + 1) < 2 ^ rb_log2 (tx_out_ring
    (tx_with_packets_delivered k (tx_with_out_ring ring t)))).
  { cbn. pose proof (ra_size _ _ _ Hr). pose proof (ra_size _ _ _ (tw_ring _ _ _ _ Hwf)).
    rewrite Hl in *. lia. }
  generalize dependent (tx_with_packets_delivered k (tx_with_out_ring ring t)).
  intros t1 Hwf1 Hs1 Hc1 Hq1 Hact1 Heos1 Hf1.
  destruct (tx_has_pending_eof t1) eqn:Hpend.
  - destruct (tx_deferredEos_spec _ _ _ _ _ Hwf1 Hact1 Hs1 Hpend Hf1) as (t' & ? & ? & ? & ?).
    exists t', (E + 1). split; [done|]. split; [done|]. split; [|done].
    eapply (tx_queue_ext_trans _ t1); eauto; lia.
  - exists t1, E. split; [done|]. split; [|split; [done|split; [cbn; lia|done]]].
    split; auto. intros _. by rewrite Heos1.
Qed.

(** The whole loop: the queue starts at the acknowledged position. *)
Lemma tx_ack_pop_spec fuel H F S :
  ∀ t B E, tx_inv t B E H F → tx_state t = TkConnected → B - 2048 ≤ S ≤ E →
  (∀ p, B ≤ p < S → tx_was_sent t p) → (Z.to_nat (S - B) < fuel)%nat →
  ∃ t' E', Transmitter_ack_pop fuel t (u16 S) = Some t' ∧ tx_inv t' (Z.max B S) E' H F
           ∧ tx_queue_ext t t' (Z.max B S) E E'
           ∧ E' = E + Z.b2z ((B <? S) && tx_has_pending_eof t)
           ∧ tx_has_pending_eof t' = negb (B <? S) && tx_has_pending_eof t.
Proof using io_laws.
  induction fuel as [|fuel IH]; intros t B E Hinv Hst HS Hsent Hfuel; [lia|].
  cbn [Transmitter_ack_pop]. pose proof (tw_ring _ _ _ _ (ti_wf _ _ _ _ _ Hinv)) as Hr.
  pose proof (ring_size_bounds _ _ _ Hr).
  rewrite (ra_begin _ _ _ Hr), SeqNum_lt_pos, (ring_empty _ _ _ Hr) by lia.
  destruct (Z.ltb_spec B S); cbn [andb].
  2: { exists t, E. replace (Z.max B S) with B by lia. rewrite Z.add_0_r.
       auto using tx_queue_ext_refl. }
  rewrite (proj2 (Z.eqb_neq B E)) by lia. cbn [negb].
  destruct (tx_popAcked_spec _ _ _ _ _ Hinv Hst) as (t1 & E1 & Hp & Hinv1 & Hq1 & HE1 & Hpe1);
    [lia|apply Hsent; lia|]. rewrite (bind_step _ _ _ Hp).
  pose proof (qe_grow _ _ _ _ _ Hq1).
  destruct (IH t1 (B + 1) E1 Hinv1) as (t' & E' & Hl & Hinv' & Hq' & HE' & Hpe').
  - rewrite (ts_state _ _ (qe_session _ _ _ _ _ Hq1)). done.
  - lia.
  - intros p Hp'. eapply (tx_queue_ext_sent t); eauto; [lia|]. apply Hsent. lia.
  - lia.
  - replace (Z.max (B + 1) S) with (Z.max B S) in * by lia.
    exists t', E'. split; [done|]. split; [done|].
    split; [eapply (tx_queue_ext_trans _ t1 _ (B + 1)); eauto; lia|].
    rewrite HE', Hpe', Hpe1, !andb_false_r. cbn. split; [lia|done].
Qed.

(** *** Skip-acknowledgments *)

Lemma buffer_ack_kept b : out_buffer_wf b → buffer_kept b (OutBuffer_ack b).
Proof. intros. constructor; auto using OutBuffer_ack_wf; [by split|done]. Qed.

Lemma tx_sched_ack t B E F p b :
  B ≤ p < E → tx_out_buffers t !! tx_slot t p = Some b → 0 < ob_send_counter b →
  tx_sched t B E F → tx_sched (tx_set_buffer (tx_slot t p) (OutBuffer_ack b) t) B E F.
Proof.
  intros Hp Hb Hc [F1 F2 F3 F4]. pose proof (lookup_lt_Some _ _ _ Hb) as Hlt.
  constructor; [done|done|..]; intros q bq Hq;
    change (tx_slot (tx_set_buffer _ _ t) q) with (tx_slot t q); cbn;
    (destruct (decide (tx_slot t p = tx_slot t q)) as [Heq|Hne];
     [rewrite Heq in *; rewrite list_lookup_insert_eq by done; intros [= <-]
     |rewrite list_lookup_insert_ne by done; eauto]).
  - destruct (F3 q b Hq Hb). lia.
  - destruct (F4 q b Hq Hb) as (? & ? & ?). cbn. split_and!; auto.
Qed.

(** The last position the skip-acks named: none, or one inside the queue. *)
Definition tx_last_acked (B E L : Z) : Prop := L = B - 1 ∨ B < L < E.

Section Bits.

Context (B E H F : Z).

(** One byte: bits [i - 1] down to 0 stand for positions [P, P + i). *)
Lemma tx_ack_bits_spec i val :
  ∀ t P L, tx_wf t B E H → tx_sched t B E F → B < P → P + Z.of_nat i ≤ B + 20000 →
  tx_last_acked B E L →
  (∀ j, (j < i)%nat → negb (Z.land val (Z.shiftl 1 (Z.of_nat j)) =? 0) = true →
     P + Z.of_nat (i - 1 - j) < E → tx_was_sent t (P + Z.of_nat (i - 1 - j))) →
  ∃ t' L', Transmitter_ack_bits i t val (u16 P) (u16 L) = Some (t', u16 (P + Z.of_nat i), u16 L')
           ∧ tx_kept t t' ∧ tx_sched t' B E F ∧ tx_last_acked B E L'
           ∧ ∀ p, B ≤ p < E → tx_acked t' p → tx_acked t p
               ∨ ∃ j, (j < i)%nat ∧ negb (Z.land val (Z.shiftl 1 (Z.of_nat j)) =? 0) = true
                   ∧ p = P + Z.of_nat (i - 1 - j).
Proof.
  induction i as [|i IH]; intros t P L Hwf Hs HP Hreach HL Hsent; cbn [Transmitter_ack_bits].
  { exists t, L. rewrite Z.add_0_r. eauto 10 using tx_kept_refl. }
  pose proof (tw_ring _ _ _ _ Hwf) as Hr. pose proof (ring_size_bounds _ _ _ Hr).
  rewrite (ring_contains _ _ _ Hr), (proj2 (Z.leb_le B P)), SeqNum_incr_pos by lia. cbn [andb].
  replace (P + Z.of_nat (S i)) with (P + 1 + Z.of_nat i) by lia.
  set (Q := λ p, ∃ j, (j < S i)%nat ∧ negb (Z.land val (Z.shiftl 1 (Z.of_nat j)) =? 0) = true
                   ∧ p = P + Z.of_nat (S i - 1 - j)).
  assert (Hrest : ∀ t1 L1, tx_kept t t1 → tx_sched t1 B E F → tx_last_acked B E L1 →
    (∀ p, B ≤ p < E → tx_acked t1 p → tx_acked t p ∨ Q p) →
    ∃ t' L', Transmitter_ack_bits i t1 val (u16 (P + 1)) (u16 L1)
             = Some (t', u16 (P + 1 + Z.of_nat i), u16 L')
             ∧ tx_kept t t' ∧ tx_sched t' B E F ∧ tx_last_acked B E L'
             ∧ ∀ p, B ≤ p < E → tx_acked t' p → tx_acked t p ∨ Q p).
  { intros t1 L1 HK1 Hs1 HL1 HQ1.
    destruct (IH t1 (P + 1) L1 (tx_kept_wf _ _ _ _ Hwf _ HK1) Hs1) as (t' & L' & ? & ? & ? & ? & HQ);
      [lia|lia|done| |].
    - intros j Hj Hbit Hlt. eapply tx_was_sent_kept; [exact Hwf|done|].
      replace (P + 1 + Z.of_nat (i - 1 - j)) with (P + Z.of_nat (S i - 1 - j)) in * by lia.
      apply Hsent; [lia|done|done].
    - exists t', L'. split_and!; eauto using tx_kept_trans. intros p Hp Ha.
      destruct (HQ p Hp Ha) as [?|(j & Hj & Hbit & ->)]; [by apply HQ1|right].
      exists j. split; [lia|]. split; [done|]. lia. }
  destruct (Z.ltb_spec P E); cbn [andb].
  2: { cbn [mbind option_bind]. apply Hrest; eauto using tx_kept_refl. }
  destruct (negb _) eqn:Hbit; [|cbn [mbind option_bind]; apply Hrest; eauto using tx_kept_refl].
  rewrite (bind_step _ _ _ (tx_getOutBuffer _ _ _ _ Hwf P ltac:(lia))).
  destruct (tx_slot_lookup _ _ _ _ Hwf P) as (b & Hb & Hwb). rewrite (bind_step _ _ _ Hb).
  assert (Hw : tx_was_sent t P).
  { replace P with (P + Z.of_nat (S i - 1 - i)) by lia. apply Hsent; [lia|done|lia]. }
  cbn [mbind option_bind]. apply Hrest; [|apply tx_sched_ack; auto; lia|right; lia|].
  { eapply tx_set_buffer_kept; eauto using buffer_ack_kept. }
  intros p Hp (b' & Hb' & Ha). destruct (decide (p = P)) as [->|Hne].
  - right. exists i. split; [lia|]. split; [done|]. lia.
  - left. exists b'. split; [|done]. rewrite <- Hb'.
    change (tx_slot (tx_set_buffer _ _ t) p) with (tx_slot t p). cbn. symmetry. apply list_lookup_insert_ne.
    intros Heq%(tx_slot_inj _ _ _ _ Hwf); lia.
Qed.

Lemma tx_ack_bitmap_spec bitmap :
  ∀ t P L, tx_wf t B E H → tx_sched t B E F → B < P →
  P + 8 * Z.of_nat (length bitmap) ≤ B + 20000 → tx_last_acked B E L →
  (∀ k, skip_ack bitmap k = true → P + Z.of_nat k < E → tx_was_sent t (P + Z.of_nat k)) →
  ∃ t' L', Transmitter_ack_bitmap t bitmap (u16 P) (u16 L) = Some (t', u16 L')
           ∧ tx_kept t t' ∧ tx_sched t' B E F ∧ tx_last_acked B E L'
           ∧ ∀ p, B ≤ p < E → tx_acked t' p → tx_acked t p
               ∨ ∃ k, skip_ack bitmap k = true ∧ p = P + Z.of_nat k.
Proof.
  induction bitmap as [|val bitmap IH]; intros t P L Hwf Hs HP Hreach HL Hsent;
    cbn [Transmitter_ack_bitmap].
  { exists t, L. eauto 10 using tx_kept_refl. }
  cbn [length] in Hreach.
  assert (Hfirst : ∀ j, (j < 8)%nat → negb (Z.land val (Z.shiftl 1 (Z.of_nat j)) =? 0) = true →
    skip_ack (val :: bitmap) (8 - 1 - j) = true).
  { intros j Hj Hbit. unfold skip_ack.
    rewrite Nat.div_small, Nat.mod_small by lia. cbn [lookup list_lookup].
    replace (7 - Z.of_nat (8 - 1 - j)) with (Z.of_nat j) by lia. done. }
  assert (Hnext : ∀ k, skip_ack bitmap k = true → skip_ack (val :: bitmap) (8 + k) = true).
  { intros k. unfold skip_ack.
    replace ((8 + k) / 8)%nat with (S (k / 8)) by (rewrite <- (Nat.div_add_l 1 8) by lia; f_equal; lia).
    replace ((8 + k) mod 8)%nat with (k mod 8)%nat; [done|].
    replace (8 + k)%nat with (k + 1 * 8)%nat by lia. symmetry. apply Nat.Div0.mod_add. }
  destruct (tx_ack_bits_spec 8 val t P L Hwf Hs HP) as (t1 & L1 & Hb & HK1 & Hs1 & HL1 & HQ1); [lia|done|auto|].
  rewrite (bind_step _ _ _ Hb).
  destruct (IH t1 (P + 8) L1 (tx_kept_wf _ _ _ _ Hwf _ HK1) Hs1) as (t' & L' & ? & ? & ? & ? & HQ);
    [lia|lia|done| |].
  - intros k Hbit Hlt. eapply tx_was_sent_kept; [exact Hwf|done|].
    replace (P + 8 + Z.of_nat k) with (P + Z.of_nat (8 + k)) in * by lia. auto.
  - exists t', L'. split_and!; eauto using tx_kept_trans. intros p Hp Ha.
    destruct (HQ p Hp Ha) as [Ha1|(k & Hk & ->)]; [|right; exists (8 + k)%nat; split; [auto|lia]].
    destruct (HQ1 p Hp Ha1) as [?|(j & Hj & Hbit & ->)]; [by left|right; eauto].
Qed.

End Bits.

(** *** Rushing the packets the peer seems to have missed *)

Lemma tx_rush_buffer t B E H F p b upd :
  tx_wf t B E H → tx_sched t B E F → B ≤ p < E → tx_out_buffers t !! tx_slot t p = Some b →
  ob_send_counter b = 1 →
  ∃ b', OutBuffer_rush b = Some b'
    ∧ let t' := tx_set_buffer (tx_slot t p) b' t in
      let t' := if upd : bool then t' else tx_with_next_to_send (u16 p) t' in
      tx_kept t t' ∧ tx_sched t' B E F ∧ tx_acks_same t t'.
Proof.
  intros Hwf Hs Hp Hb Hc. assert (Hwb : out_buffer_wf b)
    by (eapply Forall_lookup_1, Hb; apply Hwf).
  destruct (OutBuffer_rush_spec b Hwb) as (b' & Hr & Hwb' & Hsb & Ha & Hf & Hfl & Hcnt & He); [lia|].
  assert (Hk : buffer_kept b b') by (constructor; rewrite ?Hf, ?Ha, ?Hfl, ?Hcnt; done || lia).
  pose proof (tx_set_buffer_kept _ _ _ _ Hwf _ _ _ Hb Hk) as HK.
  assert (HS : tx_sched (tx_set_buffer (tx_slot t p) b' t) B E F)
    by (eapply tx_sched_set_buffer; eauto; rewrite Hf; auto).
  assert (p < F).
  { apply (tx_sched_unsent_frontier t B E F); eauto. intros b2 Hb2. rewrite Hb in Hb2. injection Hb2 as <-. lia. }
  pose proof (ring_size_bounds _ _ _ (tw_ring _ _ _ _ Hwf)). pose proof (sc_frontier _ _ _ _ Hs).
  pose proof (tx_acks_same_set t _ b b' Hb Ha) as Hsame.
  exists b'. split; [done|]. destruct upd; [done|]. split; [|split; [|exact Hsame]].
  - eapply tx_kept_trans; [done|]. eapply tx_with_next_to_send_kept, tx_kept_wf; done.
  - destruct HS as [F1 F2 F3 F4]. constructor; auto. exists p. split; [done|lia].
Qed.

Lemma tx_ack_rush_spec fuel B E H F L :
  ∀ t P rushed upd, tx_wf t B E H → tx_sched t B E F → B ≤ P ≤ L → L < E →
  (Z.to_nat (L - P) < fuel)%nat →
  ∃ r t', Transmitter_ack_rush fuel t (u16 P) (u16 L) rushed upd = Some (r, t')
          ∧ tx_kept t t' ∧ tx_sched t' B E F ∧ tx_acks_same t t'.
Proof.
  induction fuel as [|fuel IH]; intros t P rushed upd Hwf Hs HP HL Hfuel; [lia|].
  cbn [Transmitter_ack_rush]. pose proof (ring_size_bounds _ _ _ (tw_ring _ _ _ _ Hwf)).
  rewrite SeqNum_ne_pos, SeqNum_incr_pos by lia.
  destruct (Z.eqb_spec P L); cbn [negb]; [exists rushed, t; eauto 10 using tx_kept_refl, tx_acks_same_refl|].
  rewrite (bind_step _ _ _ (tx_getOutBuffer _ _ _ _ Hwf P ltac:(lia))).
  destruct (tx_slot_lookup _ _ _ _ Hwf P) as (b & Hb & Hwb). rewrite (bind_step _ _ _ Hb).
  destruct (ob_acked b); cbn [negb andb]; [apply IH; auto; lia|].
  destruct (Z.eqb_spec (ob_send_counter b) 1) as [Hc|]; [|apply IH; auto; lia].
  destruct (tx_rush_buffer _ _ _ _ _ P b upd Hwf Hs ltac:(lia) Hb Hc) as (b' & Hr & HK & HS & Hsame).
  rewrite (bind_step _ _ _ Hr). cbv zeta.
  edestruct (IH _ (P + 1) true true (tx_kept_wf _ _ _ _ Hwf _ HK) HS) as (r & t' & Hl & HK' & HS' & Hsame');
    [lia..|]. exists r, t'. split; [exact Hl|]. split; [by eapply tx_kept_trans|]. split; [done|].
  by eapply tx_acks_same_trans.
Qed.

End Ack.


(** ** The remaining operations *)

Section Operations.

Context {io : RooIo} {io_laws : RooIoLaws} {pf : Platform}.

Lemma tx_inactive_inv t B E H F :
  tx_wf t B E H → ¬ tx_active t → tx_inv t B E H F.
Proof. intros. by split. Qed.

(** Draining the queue in a state that keeps it empty. *)
Lemma tx_drain_wf t B E H ring st :
  tx_wf t B E H → ring_abs ring E E → rb_log2 ring = rb_log2 (tx_out_ring t) →
  st = TkIdle ∨ st = TkBroken →
  tx_wf (tx_with_state st (tx_with_out_ring ring t)) E E H.
Proof.
  intros Hwf Hr Hl Hst.
  assert (Hno : ¬ tx_active (tx_with_state st (tx_with_out_ring ring t)))
    by (intros [?|?]; cbn in *; destruct Hst; congruence).
  pose proof (tw_pending _ _ _ _ Hwf) as Hpd.
  pose proof (tw_length _ _ _ _ Hwf) as Hlen.
  destruct Hwf. constructor; cbn [tx_with_state tx_with_out_ring tx_out_ring tx_out_buffers
    tx_current_out_buffer tx_recv_himark tx_peer_receive_buffer_size tx_state tx_end_of_stream
    tx_has_pending_eof]; auto.
  - by rewrite Hl.
  - intros Ha. by destruct Hno.
  - destruct Hst; congruence.
  - intros Hp. split; [by apply Hpd|]. intros Ha. by destruct Hno.
Qed.

(** A transmitter that has gone idle. *)
Record tx_ended (t t' : Transmitter) : Prop := {
  te_state : tx_state t' = TkIdle;
  te_current : tx_current_out_buffer t' = None;
  te_control : tx_control_bit t' = tx_control_bit t;
  te_peer : tx_peer_receive_buffer_size t' = tx_peer_receive_buffer_size t;
}.

Lemma tx_reset_spec t B E H F :
  tx_wf t B E H →
  ∃ t', Transmitter_reset t = Some t' ∧ tx_inv t' E E H F ∧ tx_state t' = TkIdle
        ∧ tx_my_stream_id t' = 0 ∧ tx_ended t t'.
Proof.
  intros Hwf. unfold Transmitter_reset.
  destruct (ring_drain_all _ _ _ (tw_ring _ _ _ _ Hwf)) as (ring & Hd & Hr & Hl).
  rewrite (bind_step _ _ _ Hd). eexists; split; [done|]. split; [|by split_and!].
  apply tx_inactive_inv; [|by intros [?|?]].
  destruct (tx_drain_wf t B E H ring TkIdle Hwf Hr Hl (or_introl eq_refl)).
  constructor; cbn; auto; try done. by intros [?|?].
Qed.

Lemma tx_setBroken_spec t B E H F :
  tx_wf t B E H →
  ∃ t', Transmitter_setBroken t = Some t' ∧ tx_inv t' E E H F ∧ tx_state t' = TkBroken.
Proof.
  intros Hwf. unfold Transmitter_setBroken.
  destruct (ring_drain_all _ _ _ (tw_ring _ _ _ _ Hwf)) as (ring & Hd & Hr & Hl).
  rewrite (bind_step _ _ _ Hd). eexists; split; [done|]. split; [|done].
  apply tx_inactive_inv; [|by intros [?|?]]. eapply tx_drain_wf; eauto.
Qed.

(** A new connection starts with an empty queue at position [S] and no credit. *)
Lemma tx_init_spec t B E H id S :
  tx_wf t B E H →
  ∃ t', Transmitter_init t id (u16 S) = Some t' ∧ tx_inv t' S S S S
        ∧ tx_state t' = TkConnecting ∧ tx_end_of_stream t' = false
        ∧ tx_my_stream_id t' = id ∧ tx_control_bit t' = tx_control_bit t.
Proof.
  intros Hwf. unfold Transmitter_init. cbn [tx_out_ring tx_with_end_of_stream tx_with_state
    tx_with_my_stream_id].
  destruct (ring_drain_all _ _ _ (tw_ring _ _ _ _ Hwf)) as (ring & Hd & Hr & Hl).
  rewrite (bind_step _ _ _ Hd).
  destruct (ring_reset _ _ _ Hr S eq_refl) as (ring2 & Hr2 & Hra & Hl2).
  rewrite (bind_step _ _ _ Hr2). pose proof (ra_begin _ _ _ Hra) as Hb.
  eexists; split; [done|]. split; [|done]. split.
  - destruct Hwf. constructor; cbn; auto; try congruence; try lia; intros; lia.
  - intros _. constructor; [lia|exists S; split; [exact Hb|lia]|lia|lia].
  - intros _ _ i b [=].
Qed.

Lemma tx_setConnected_spec t B E H F size cb :
  tx_inv t B E H F → tx_state t = TkConnecting → 1 ≤ size ≤ 1024 →
  tx_inv (Transmitter_setConnected size cb t) B E (B + size) F.
Proof.
  intros [Hwf Hs Hc] Hst Hsize. assert (Hact : tx_active t) by (by left).
  pose proof (tw_credit _ _ _ _ Hwf Hact) as [Hcr _].
  pose proof (tw_connecting _ _ _ _ Hwf Hst) as ->.
  pose proof (ra_begin _ _ _ (tw_ring _ _ _ _ Hwf)) as Hb.
  assert (E ≤ B + 1) by (destruct (tx_end_of_stream t); lia). split.
  - pose proof (tw_pending _ _ _ _ Hwf) as Hpd. destruct Hwf. constructor; cbn; auto; try lia.
    + rewrite Hb. apply SeqNum_add_pos.
    + intros [=].
    + by intros [?|?].
    + intros Hp. split; [by apply Hpd|]. intros _. lia.
  - intros _. destruct (Hs Hact). by constructor.
  - intros _ Heos. by apply Hc.
Qed.

Lemma buffer_flush_kept b : out_buffer_wf b → buffer_kept b (OutBuffer_flush b).
Proof. intros. constructor; auto using OutBuffer_flush_wf; [by split|done]. Qed.

Lemma tx_kept_inv t t' B E H F F' :
  tx_inv t B E H F → tx_kept t t' → (tx_active t → tx_sched t' B E F') → tx_inv t' B E H F'.
Proof.
  intros [Hwf Hs Hc] HK HS. assert (Ha : tx_active t' ↔ tx_active t)
    by (by rewrite (tk_frame _ _ HK)).
  assert (He : tx_end_of_stream t' = tx_end_of_stream t) by (by rewrite (tk_frame _ _ HK)).
  split; [by eapply tx_kept_wf|by rewrite Ha|]. rewrite Ha, He. intros.
  eapply tx_kept_cur_ok; eauto.
Qed.

Lemma tx_flush_spec t B E H F :
  tx_inv t B E H F →
  ∃ r t', Transmitter_flush t = Some (r, t') ∧ tx_inv t' B E H F ∧ tx_kept t t' ∧ tx_acks_same t t'.
Proof.
  intros Hinv. pose proof (ti_wf _ _ _ _ _ Hinv) as Hwf. unfold Transmitter_flush.
  destruct (tx_current_out_buffer t) as [i|] eqn:Hcur.
  2: { exists false, t. eauto using tx_kept_refl, tx_acks_same_refl. }
  destruct (tx_current_lookup _ _ _ _ Hwf i Hcur) as (b & Hb & Hwb). rewrite (bind_step _ _ _ Hb).
  assert (HK : tx_kept t (tx_set_buffer i (OutBuffer_flush b) t))
    by (eapply tx_set_buffer_kept; eauto using buffer_flush_kept).
  do 2 eexists. split; [done|]. split; [|split; [done|by eapply tx_acks_same_set]]. eapply tx_kept_inv; eauto.
  intros Ha. eapply tx_sched_set_buffer; eauto. by apply (ti_sched _ _ _ _ _ Hinv).
Qed.

(** Closing the stream: the end-of-stream packet is queued, or deferred until
    there is a free slot. *)
Lemma tx_close_active_spec t B E H F :
  tx_inv t B E H F → tx_active t → tx_end_of_stream t = false →
  ∃ t' E', Transmitter_close t = Some t' ∧ tx_inv t' B E' H F
           ∧ tx_stream t' B E' = tx_stream t B E
           ∧ tx_end_of_stream t' = true ∧ tx_state t' = tx_state t
           ∧ (∃ t1, tx_kept t t1 ∧ tx_acks_same t t1 ∧ tx_queue_ext (tx_with_end_of_stream true t1) t' B E E')
           ∧ if decide (E - B = 2 ^ rb_log2 (tx_out_ring t))
             then E' = E ∧ tx_has_pending_eof t' = true
             else E' = E + 1 ∧ tx_has_pending_eof t' = false
                  ∧ ∃ b, tx_out_buffers t' !! tx_slot t' E = Some b ∧ ob_body b = []
                         ∧ ob_finished b = true
                         ∧ ob_header b = StoreBeU16
                             (FormatPacketHeader (u16 E) kFinPacket (tx_control_bit t)).
Proof using io_laws.
  intros Hinv Hact Heos. unfold Transmitter_close.
  rewrite decide_False by (destruct Hact; congruence).
  rewrite Heos, bool_decide_false by (destruct Hact; congruence). cbn [orb].
  destruct (tx_flush_spec _ _ _ _ _ Hinv) as (r & t1 & Hfl & Hinv1 & HK & Hack).
  rewrite (bind_step _ _ _ Hfl). cbn beta iota. clear Hfl.
  rewrite <- (tx_kept_stream _ _ _ _ (ti_wf _ _ _ _ _ Hinv) _ HK).
  pose proof (tk_frame _ _ HK) as Hfr.
  assert (tx_out_ring t = tx_out_ring t1) as -> by (by rewrite Hfr).
  assert (tx_state t = tx_state t1) as -> by (by rewrite Hfr).
  assert (tx_control_bit t = tx_control_bit t1) as -> by (by rewrite Hfr).
  assert (Hact1 : tx_active t1) by (by rewrite Hfr).
  assert (Heos1 : tx_end_of_stream t1 = false) by (by rewrite Hfr).
  clear Hfr. clear Hinv Hact Heos. destruct Hinv1 as [Hwf Hs Hc].
  destruct (tw_credit _ _ _ _ Hwf Hact1) as [Hcr Hcr2]. rewrite Heos1, Z.add_0_r in Hcr.
  assert (Hnp : tx_has_pending_eof t1 = false).
  { destruct (tx_has_pending_eof t1) eqn:Hp; [|done].
    destruct (tw_pending _ _ _ _ Hwf Hp). congruence. }
  rewrite (ring_slotsFree _ _ _ (tw_ring _ _ _ _ Hwf)).
  pose proof (ra_size _ _ _ (tw_ring _ _ _ _ Hwf)) as Hsz.
  assert (Hwf' : tx_wf (tx_with_end_of_stream true t1) B E H).
  { destruct Hwf. constructor; cbn; auto. intros; split; [lia|done]. }
  case_decide as Hfull.
  - rewrite (proj2 (Z.eqb_eq _ 0)) by lia. cbn [mbind option_bind].
    eexists _, E. split; [done|]. split; [split|].
    + destruct Hwf. constructor; cbn; auto. intros _. lia.
    + intros _. by destruct (Hs Hact1).
    + done.
    + do 3 (split; [done|]). split; [|done]. exists t1. do 2 (split; [done|]).
      by destruct (tx_queue_ext_refl (tx_with_end_of_stream true t1) B E).
  - rewrite (proj2 (Z.eqb_neq _ 0)) by lia.
    destruct (tx_addEosPacket_push _ _ _ _ Hwf) as
      (b & ring & Hadd & Hr & Hl & Hwb & Hf & Hsc & Ha & He & Hbody & Hhd); [lia|].
    rewrite (bind_step _ _ _ Hadd). do 2 eexists. split; [done|]. split; [split|].
    + apply (tx_push_wf (tx_with_end_of_stream true t1)); auto; cbn; [lia|congruence].
    + intros _. apply (tx_push_sched (tx_with_end_of_stream true t1) _ _ H); auto.
      by destruct (Hs Hact1).
    + done.
    + pose proof (tx_push_queue_ext (tx_with_end_of_stream true t1) _ _ H ring b Hwf' Hr Hl Hbody eq_refl Hhd Hf) as Hq.
      split; [apply (tx_queue_ext_stream _ _ _ _ _ Hq); lia|].
      split_and!; [done|done|by exists t1|done|done|]. exists b. split_and!; [|done..].
      change (tx_slot (tx_with_end_of_stream _ _) E)
        with (tx_slot (tx_with_out_ring ring t1) E). rewrite (tx_slot_ring _ _ _ Hl).
      cbn. apply list_lookup_insert_eq. by eapply tx_slot_lt.
Qed.

Lemma tx_close_inactive_spec t B E H F :
  tx_inv t B E H F → ¬ tx_active t ∨ tx_end_of_stream t = true →
  ∃ t', Transmitter_close t = Some t' ∧ tx_inv t' B E H F
        ∧ (tx_active t → t' = t) ∧ (¬ tx_active t → tx_state t' = TkIdle).
Proof.
  intros Hinv Hor. unfold Transmitter_close.
  destruct (decide (tx_state t = TkBroken)) as [Hbr|Hnb].
  - cbn. rewrite orb_true_r. eexists. split; [done|]. destruct Hinv as [Hwf _ _].
    split; [|split; [intros [?|?]; congruence|done]].
    apply tx_inactive_inv; [|by intros [?|?]].
    pose proof (tw_inactive _ _ _ _ Hwf (or_intror Hbr)). pose proof (tw_pending _ _ _ _ Hwf).
    destruct Hwf. constructor; cbn; auto; try done; [by intros [?|?]|].
    intros Hp. split; [by apply H1|by intros [?|?]].
  - assert ((tx_end_of_stream t || bool_decide (tx_state t = TkIdle)) = true) as ->.
    { destruct (tx_end_of_stream t); [done|]. destruct Hor as [Hna|]; [|done].
      apply bool_decide_true. unfold tx_active in Hna.
      destruct (tx_state t); try done; exfalso; auto. }
    exists t. split; [done|]. split; [done|]. split; [done|]. intros Hna.
    unfold tx_active in Hna. destruct (tx_state t); try done; exfalso; auto.
Qed.

(** What an acknowledgment of everything before [S], with skip-acks [bitmap], may
    name: only packets that were sent. As in the code, the bitmap counts from the first
    packet of the queue, which is after [S] when a later acknowledgment came first. *)
Definition tx_honest_ack (t : Transmitter) (B E S : Z) (bitmap : list byte) : Prop :=
  (∀ p, B ≤ p < S → tx_was_sent t p)
  ∧ ∀ k, skip_ack bitmap k = true →
      Z.max B S + 1 + Z.of_nat k < E ∧ tx_was_sent t (Z.max B S + 1 + Z.of_nat k).

(** The skip-acks and the rush they cause, on a queue that is not empty. *)
Lemma tx_ack_skips_spec t B E H F bitmap :
  tx_inv t B E H F → tx_active t → B < E → (length bitmap ≤ 248)%nat →
  (∀ k, skip_ack bitmap k = true → B + 1 + Z.of_nat k < E →
     tx_was_sent t (B + 1 + Z.of_nat k)) →
  ∃ r t', (let begin := rb_begin (tx_out_ring t) in
           '(t, last_acked) ←
             Transmitter_ack_bitmap t bitmap (SeqNum_add begin 1) (SeqNum_sub begin 1);
           if RingBuffer_contains (tx_out_ring t) last_acked then
             Transmitter_ack_rush (S (Z.to_nat (RingBuffer_slotsUsed (tx_out_ring t)))) t
               (rb_begin (tx_out_ring t)) last_acked false false
           else Some (false, t)) = Some (r, t')
    ∧ tx_inv t' B E H F ∧ tx_kept t t'
    ∧ ∀ p, B ≤ p < E → tx_acked t' p → tx_acked t p
        ∨ ∃ k, skip_ack bitmap k = true ∧ p = B + 1 + Z.of_nat k.
Proof.
  intros Hinv Hact HBE Hlen Hskip. cbv zeta. destruct Hinv as [Hwf Hs Hc].
  pose proof (tw_ring _ _ _ _ Hwf) as Hr. rewrite (ra_begin _ _ _ Hr).
  rewrite SeqNum_add_pos, SeqNum_sub_pos.
  destruct (tx_ack_bitmap_spec B E H F bitmap t (B + 1) (B - 1) Hwf (Hs Hact))
    as (t1 & L & Hb & HK1 & Hs1 & HL & HQ); [lia|lia|by left|done|]. rewrite (bind_step _ _ _ Hb).
  assert (tx_out_ring t1 = tx_out_ring t) as -> by (by rewrite (tk_frame _ _ HK1)).
  pose proof (ring_size_bounds _ _ _ Hr).
  assert (HLr : B - 1 ≤ L < E) by (destruct HL; lia).
  cbn beta iota. rewrite (ring_contains _ _ _ Hr), (ring_slotsUsed _ _ _ Hr), (ra_begin _ _ _ Hr) by lia.
  assert (Hok : ∀ t', tx_kept t t' → tx_sched t' B E F → tx_inv t' B E H F).
  { intros t' HK HS. by eapply (tx_kept_inv t). }
  destruct (Z.leb_spec B L); cbn [andb]; [|by eauto 10].
  rewrite (proj2 (Z.ltb_lt L E)) by lia.
  destruct (tx_ack_rush_spec (S (Z.to_nat (E - B))) B E H F L t1 B false false)
    as (r & t' & Hl & HK & HS & Hsame); [by eapply tx_kept_wf|done|lia|lia|lia|].
  exists r, t'. split; [done|]. split; [|split; [by eapply tx_kept_trans|]].
  - apply Hok; [by eapply tx_kept_trans|done].
  - intros p Hp Ha. apply HQ; [done|]. by eapply tx_acked_same.
Qed.

Lemma tx_ack_spec t B E H F S bitmap cb :
  tx_inv t B E H F → tx_state t = TkConnected → cb ≠ tx_control_bit t →
  B - 2048 ≤ S ≤ E → tx_honest_ack t B E S bitmap → (length bitmap ≤ 248)%nat →
  let E' := E + Z.b2z ((B <? S) && tx_has_pending_eof t) in
  ∃ r t', Transmitter_ack t cb (S mod 4096) bitmap = Some (r, t')
    ∧ if decide (Z.max B S = E' ∧ tx_end_of_stream t = true)
      then tx_inv t' E' E' H F ∧ tx_state t' = TkIdle ∧ tx_ended t t'
      else tx_inv t' (Z.max B S) E' H F
           ∧ tx_stream t' (Z.max B S) E' = tx_stream t (Z.max B S) E ∧ tx_session t t'
           ∧ tx_has_pending_eof t' = negb (B <? S) && tx_has_pending_eof t
           ∧ (tx_labelled t B E → tx_labelled t' (Z.max B S) E')
           ∧ (∃ t1, tx_queue_ext t t1 (Z.max B S) E E' ∧ tx_kept t1 t')
           ∧ ∀ p, Z.max B S ≤ p < E → tx_acked t' p → tx_acked t p
               ∨ ∃ k, skip_ack bitmap k = true ∧ p = Z.max B S + 1 + Z.of_nat k.
Proof using io_laws.
  intros Hinv Hst Hcb HS [Hsent Hskip] Hlen E'. unfold Transmitter_ack. rewrite Hst.
  rewrite (proj2 (eqb_false_iff _ _)) by done.
  pose proof (tw_ring _ _ _ _ (ti_wf _ _ _ _ _ Hinv)) as Hr. pose proof (ring_size_bounds _ _ _ Hr).
  rewrite (bind_step _ _ _ (ring_restore _ _ _ Hr S ltac:(lia))).
  rewrite (ra_end _ _ _ Hr), SeqNum_gt_pos, (proj2 (Z.ltb_ge _ _)), (ring_slotsUsed _ _ _ Hr) by lia.
  destruct (tx_ack_pop_spec (Datatypes.S (Datatypes.S (Z.to_nat (E - B)))) H F S t B E Hinv Hst HS Hsent)
    as (t1 & E1 & Hpop & Hinv1 & Hq & HE1 & Hpe); [lia|]. rewrite (bind_step _ _ _ Hpop).
  fold E' in HE1. subst E1. clearbody E'.
  pose proof (qe_session _ _ _ _ _ Hq) as Hses. pose proof (qe_grow _ _ _ _ _ Hq).
  pose proof (tx_queue_ext_stream _ _ _ _ _ Hq ltac:(lia)) as Hstr.
  pose proof (ti_wf _ _ _ _ _ Hinv1) as Hwf1. pose proof (tw_ring _ _ _ _ Hwf1) as Hr1.
  assert (Hact1 : tx_active t1) by (right; rewrite (ts_state _ _ Hses); done).
  rewrite (ring_empty _ _ _ Hr1), <- (ts_eos _ _ Hses).
  destruct (Z.eqb_spec (Z.max B S) E') as [Heq|Hne].
  - destruct (tx_end_of_stream t1) eqn:Heos.
    + destruct (tx_reset_spec _ _ _ _ F Hwf1) as (t2 & Hrst & Hinv2 & Hid & _ & He).
      rewrite (bind_step _ _ _ Hrst). do 2 eexists. split; [done|].
      rewrite decide_True by done. split; [|split; [done|destruct He, Hses; constructor; congruence]]. by rewrite <- Heq in Hinv2 |- *.
    + do 2 eexists. split; [done|]. rewrite decide_False by (by intros [_ ?]).
      pose proof (tx_labelled_ext t t1 B (Z.max B S) E E' Hq ltac:(lia)).
      pose proof (tx_kept_refl _ _ _ _ Hwf1). rewrite <- Heq in *. split_and!; eauto. intros p Hp. lia.
  - destruct (tx_ack_skips_spec _ _ _ _ _ bitmap Hinv1 Hact1) as (r & t' & Hsk & Hinv' & HK & HQ).
    + pose proof (ra_size _ _ _ Hr1). lia.
    + done.
    + intros k Hk _. destruct (Hskip k Hk). eapply tx_queue_ext_sent; [exact Hq|lia|done].
    + exists r, t'. split; [exact Hsk|].
      rewrite decide_False by (by intros [? _]). split; [done|].
      split; [by rewrite (tx_kept_stream _ _ _ _ Hwf1 _ HK)|].
      split; [eapply tx_session_trans; [done|]; by apply tx_kept_session|].
      split; [by rewrite (tk_frame _ _ HK)|]. split; [|split; [by exists t1|]].
      2: { intros p Hp Ha. destruct (HQ p) as [Ha1|?]; [lia|done| |by right]. left.
           destruct Ha1 as (b & Hb & ?). exists b. by rewrite <- (qe_same _ _ _ _ _ Hq) by lia. }
      intros Hlab. eapply tx_labelled_kept; [done..|]. eapply tx_labelled_ext; eauto. lia.
Qed.

(** An acknowledgment that is not for this transmitter changes nothing. *)
Lemma tx_ack_ignored t B E H F cb seq bitmap :
  tx_inv t B E H F → 0 ≤ seq < 4096 →
  (tx_state t ≠ TkConnected ∨ cb = tx_control_bit t
   ∨ ∃ S, E < S < B + 2048 ∧ seq = S mod 4096) →
  Transmitter_ack t cb seq bitmap = Some (false, t).
Proof.
  intros Hinv Hseq Hor. unfold Transmitter_ack. destruct (tx_state t) eqn:Hst; try done.
  destruct (Bool.eqb_spec cb (tx_control_bit t)) as [|Hcb]; [done|].
  destruct Hor as [?|[?|(S & HS & ->)]]; [done|done|].
  pose proof (tw_ring _ _ _ _ (ti_wf _ _ _ _ _ Hinv)) as Hr. pose proof (ring_size_bounds _ _ _ Hr).
  rewrite (bind_step _ _ _ (ring_restore _ _ _ Hr S ltac:(lia))).
  rewrite (ra_end _ _ _ Hr), SeqNum_gt_pos, (proj2 (Z.ltb_lt _ _)) by lia. done.
Qed.

(** The peer's credit only grows, and never beyond its buffer. *)
Lemma tx_updateRecvHimark_spec t B E H F cb seq :
  tx_inv t B E H F → 0 ≤ seq < 4096 →
  ∃ r t' H', Transmitter_updateRecvHimark t cb seq = Some (r, t')
    ∧ tx_inv t' B E H' F ∧ H ≤ H' ∧ tx_stream t' B E = tx_stream t B E
    ∧ (r = false → t' = t)
    ∧ (r = true → H' mod 4096 = seq ∧ H' ≤ E + tx_peer_receive_buffer_size t).
Proof.
  intros Hinv Hseq. unfold Transmitter_updateRecvHimark.
  assert (Hnone : ∃ r t' H', Some (false, t) = Some (r, t')
    ∧ tx_inv t' B E H' F ∧ H ≤ H' ∧ tx_stream t' B E = tx_stream t B E
    ∧ (r = false → t' = t)
    ∧ (r = true → H' mod 4096 = seq ∧ H' ≤ E + tx_peer_receive_buffer_size t))
    by (exists false, t, H; split_and!; done || lia).
  destruct (tx_state t) eqn:Hst; try done.
  destruct (Bool.eqb_spec (tx_control_bit t) cb); [done|].
  destruct Hinv as [Hwf Hs Hc]. pose proof (tw_ring _ _ _ _ Hwf) as Hr.
  pose proof (ring_size_bounds _ _ _ Hr). pose proof (tw_peer _ _ _ _ Hwf).
  assert (Hact : tx_active t) by (by right). destruct (tw_credit _ _ _ _ Hwf Hact) as [Hc1 Hc2].
  destruct (ring_restore_any _ _ _ Hr seq Hseq) as (N & Hres & HN & Hmod).
  rewrite !(bind_step _ _ _ Hres), (tw_himark _ _ _ _ Hwf), (ra_end _ _ _ Hr), SeqNum_add_pos.
  rewrite SeqNum_lt_pos, SeqNum_gt_pos by (destruct (tx_end_of_stream t); lia).
  destruct (Z.ltb_spec N H); [done|].
  destruct (Z.ltb_spec (E + tx_peer_receive_buffer_size t) N); [done|]. cbn [orb].
  exists true. do 2 eexists. split; [done|]. split; [split|].
  - pose proof (tw_pending _ _ _ _ Hwf) as Hpd. destruct Hwf. constructor; cbn; auto.
    + intros _. destruct (tx_end_of_stream t); lia.
    + congruence.
    + intros Hp. destruct (Hpd Hp) as [? HE]. split; [done|]. intros _. specialize (HE Hact). lia.
  - intros _. by destruct (Hs Hact).
  - intros _ ?. by apply Hc.
  - split_and!; done || lia.
Qed.

(** A new transmitter. *)
Lemma tx_new_spec log2 memory id F :
  0 ≤ log2 ≤ kMaxLinkBufferSizeLog2 → length memory = 250%nat →
  ∃ t, Transmitter_new log2 memory id = Some t ∧ tx_inv t 0 0 (2 ^ log2) F
       ∧ tx_state t = TkIdle.
Proof.
  intros Hl Hm. unfold Transmitter_new. destruct (ring_new log2 0 Hl) as [Hn Hr].
  rewrite (bind_step _ _ _ Hn). eexists. split; [done|]. split; [|done].
  unfold kMaxLinkBufferSizeLog2 in Hl. pose proof (pow2_bounds log2 Hl).
  apply tx_inactive_inv; [|by intros [?|?]]. constructor; cbn; auto; try done; try lia.
  - rewrite length_replicate, Z.shiftl_1_l. done.
  - apply Forall_replicate. constructor; cbn; done || lia.
  - rewrite Z.shiftl_1_l. apply SeqNum_add_pos.
Qed.

End Operations.
