(* ===== verification/TransmitterCorrect.v ===== *)
(** * TransmitterCorrect: what the transmitter promises

    The events a transmitter is driven by, as a transition system, its safety, and
    the contract of each operation: the queue is the byte stream the application
    wrote, from the first unacknowledged packet on. *)

From S2P Require Import Prelude.
From S2P Require Import SeqNum.
From S2P Require Import RingBuffer.
From S2P Require Import RooIo.
From S2P Require Import Protocol.
From S2P Require Import Buffers.
From S2P Require Import Transmitter.
From S2P Require Import TransmitterSpec.
From S2P Require Import TransmitterProofs.

Local Open Scope Z_scope.
Local Open Scope roo_scope.

(** ** The transition system *)

Inductive tx_event :=
  | EvWrite (buf : list byte)
  | EvFlush
  | EvClose
  | EvSend (now draw next_send_micros : Z)
  | EvAck (control_bit : bool) (seq_id : Z) (ack_bitmap : list byte)
  | EvRecvHimark (control_bit : bool) (recv_himark : Z)
  | EvInit (my_stream_id : Z) (new_start : Z)
  | EvSetConnected (peer_receive_buffer_size : Z) (control_bit : bool)
  | EvSetBroken
  | EvReset.

Section System.

Context {io : RooIo} {io_laws : RooIoLaws} {pf : Platform} {pf_laws : PlatformLaws}.

Definition tx_exec (t : Transmitter) (e : tx_event) : option Transmitter :=
  match e with
  | EvWrite buf => '(_, _, t) ← Transmitter_tryWrite t buf; Some t
  | EvFlush => '(_, t) ← Transmitter_flush t; Some t
  | EvClose => Transmitter_close t
  | EvSend now draw next => '(_, _, t) ← Transmitter_send t now draw next; Some t
  | EvAck cb seq bitmap => '(_, t) ← Transmitter_ack t cb seq bitmap; Some t
  | EvRecvHimark cb himark => '(_, t) ← Transmitter_updateRecvHimark t cb himark; Some t
  | EvInit id start => Transmitter_init t id (SeqNum_make start)
  | EvSetConnected size cb => Some (Transmitter_setConnected size cb t)
  | EvSetBroken => Transmitter_setBroken t
  | EvReset => Transmitter_reset t
  end.

(** What the environment owes: random draws in range, 12-bit positions from the
    wire, bitmaps that fit in a packet, acknowledgments that, as [ack] reads them, name
    sent packets only, and a handshake that completes once. *)
Definition tx_env (t : Transmitter) (e : tx_event) : Prop :=
  match e with
  | EvSend _ draw _ => 0 ≤ draw ≤ RANDOM_INTEGER_MAX
  | EvAck cb seq bitmap =>
      0 ≤ seq < 4096 ∧ (length bitmap ≤ 248)%nat
      ∧ ∀ B E S, ring_abs (tx_out_ring t) B E → B - 2048 ≤ S ≤ E → S mod 4096 = seq →
          tx_honest_ack t B E S bitmap
  | EvRecvHimark _ himark => 0 ≤ himark < 4096
  | EvSetConnected size _ => tx_state t = TkConnecting ∧ 1 ≤ size ≤ 1024
  | _ => True
  end.

Inductive tx_reachable : Transmitter → Prop :=
  | tx_start log2 memory id t :
      0 ≤ log2 ≤ kMaxLinkBufferSizeLog2 → length memory = 250%nat →
      Transmitter_new log2 memory id = Some t → tx_reachable t
  | tx_next t e t' :
      tx_reachable t → tx_env t e → tx_exec t e = Some t' → tx_reachable t'.

(** *** The operations, on the invariant *)

Lemma tx_tryWrite_spec t B E H F buf :
  tx_inv t B E H F →
  ∃ n ready t' E', Transmitter_tryWrite t buf = Some (n, ready, t')
    ∧ 0 ≤ n ≤ Z.of_nat (length buf) ∧ tx_inv t' B E' H F
    ∧ if decide (tx_active t ∧ tx_end_of_stream t = false)
      then tx_wrote t t' B E E' H (take (Z.to_nat n) buf)
           ∧ (n < Z.of_nat (length buf) → tx_blocked t' B E' H)
      else n = 0 ∧ t' = t ∧ E' = E.
Proof using io_laws.
  intros Hinv. pose proof (ti_wf _ _ _ _ _ Hinv) as Hwf. unfold Transmitter_tryWrite.
  destruct buf as [|x buf].
  { exists 0, false, t, E. split; [done|]. split; [done|]. split; [done|].
    case_decide; [|done]. split; [by apply tx_wrote_refl|cbn; lia]. }
  destruct (tx_end_of_stream t) eqn:Heos.
  { exists 0, false, t, E. split; [done|]. split; [lia|]. split; [done|].
    by rewrite decide_False by (by intros [_ ?]). }
  assert (Hidle : ¬ tx_active t → ∃ n ready t' E', Some (0, false, t) = Some (n, ready, t')
    ∧ 0 ≤ n ≤ Z.of_nat (length (x :: buf)) ∧ tx_inv t' B E' H F
    ∧ if decide (tx_active t ∧ false = false)
      then tx_wrote t t' B E E' H (take (Z.to_nat n) (x :: buf))
           ∧ (n < Z.of_nat (length (x :: buf)) → tx_blocked t' B E' H)
      else n = 0 ∧ t' = t ∧ E' = E).
  { intros Hna. exists 0, false, t, E. split; [done|]. split; [lia|]. split; [done|].
    by rewrite decide_False by (by intros [? _]). }
  assert (Hact : tx_active t → ∃ n ready t' E',
    Transmitter_tryWrite_loop (S (S (length (x :: buf)))) t (x :: buf) 0 false = Some (n, ready, t')
    ∧ 0 ≤ n ≤ Z.of_nat (length (x :: buf)) ∧ tx_inv t' B E' H F
    ∧ if decide (tx_active t ∧ false = false)
      then tx_wrote t t' B E E' H (take (Z.to_nat n) (x :: buf))
           ∧ (n < Z.of_nat (length (x :: buf)) → tx_blocked t' B E' H)
      else n = 0 ∧ t' = t ∧ E' = E).
  { intros Ha. destruct (tx_tryWrite_loop_spec (S (S (length (x :: buf)))) t B E H (x :: buf) 0 false)
      as (n & ready & t' & E' & Hl & W & Hn & Hb); auto.
    { unfold tx_write_fuel. destruct (tx_current_out_buffer t); lia. }
    exists n, ready, t', E'. split; [exact Hl|]. split; [done|]. rewrite decide_True by done.
    split; [|done]. split; [apply (wr_wf _ _ _ _ _ _ _ W)| |].
    - intros _. apply (wr_sched _ _ _ _ _ _ _ W), Hinv, Ha.
    - intros _ _. apply (wr_stream _ _ _ _ _ _ _ W). by apply Hinv. }
  unfold tx_active in *. destruct (tx_state t); auto; apply Hidle; by intros [?|?].
Qed.

Lemma tx_send_spec t B E H F now draw next :
  tx_inv t B E H F → 0 ≤ draw ≤ RANDOM_INTEGER_MAX →
  ∃ packet next' t' F', Transmitter_send t now draw next = Some (packet, next', t')
    ∧ tx_inv t' B E H F' ∧ tx_kept t t' ∧ F ≤ F'
    ∧ (packet = [] ∧ F' = F ∧ tx_acks_same t t'
         ∧ Transmitter_getBufferToSend t now draw next = Some (None, next', t')
       ∨ tx_state t = TkConnected
         ∧ ∃ p b b', B ≤ p < E ∧ p < F' ∧ packet ≠ [] ∧ tx_out_buffers t !! tx_slot t p = Some b
           ∧ ob_acked b = false ∧ packet = ob_header b ++ ob_body b
           ∧ tx_out_buffers t' !! tx_slot t p = Some b'
           ∧ ob_finished b' = true ∧ 0 < ob_send_counter b' ∧ tx_handed_out t t' B E now p).
Proof using pf_laws.
  intros Hinv Hd. unfold Transmitter_send. pose proof (ti_wf _ _ _ _ _ Hinv) as Hwf.
  destruct (decide (tx_active t)) as [Hact|Hna].
  2: { assert (Transmitter_getBufferToSend t now draw next = Some (None, next, t)) as Hg.
       { unfold Transmitter_getBufferToSend, tx_active in *. destruct (tx_state t); try done; exfalso; auto. }
       rewrite (bind_step _ _ _ Hg). exists [], next, t, F. split; [done|]. split; [done|].
       split; [by eapply tx_kept_refl|]. split; [lia|left; auto using tx_acks_same_refl]. }
  destruct (tx_getBufferToSend_spec t B E H F now draw next Hwf)
    as (sent & next' & t' & Hg & Ho & Hst); [by apply Hinv|done|].
  rewrite (bind_step _ _ _ Hg). cbn beta iota. destruct sent as [i|].
  - clear Hg. destruct Ho as (p & -> & HO & HS). pose proof HO as [Hp HK Hun (b' & Hb' & Hf & Hc & _) _].
    rewrite (bind_step _ _ _ Hb').
    assert (Hwb : out_buffer_wf b').
    { eapply Forall_lookup_1, Hb'. apply (tx_kept_wf _ _ _ _ Hwf _ HK). }
    rewrite (bind_step _ _ _ (OutBuffer_packet_bytes _ Hwb)).
    destruct (tx_slot_lookup _ _ _ _ Hwf p) as (b & Hb & _).
    destruct (tk_buffers _ _ HK _ _ Hb) as (b2 & Hb2 & Hk). replace b2 with b' in * by congruence.
    do 4 eexists. split; [done|]. split; [by eapply tx_kept_inv|].
    split; [done|]. split; [apply Z.le_max_l|]. right.
    split; [destruct (decide (tx_state t = TkConnected)); [done|by specialize (Hst n)]|].
    exists p, b, b'. split_and!; auto; try lia.
    { unfold ob_header. pose proof (obw_length _ Hwb). by destruct (ob_payload b'). }
    { by apply Hun. }
    rewrite (same_bytes_body _ _ (bk_bytes _ _ Hk)). f_equal.
    unfold ob_header. by rewrite (proj1 (bk_bytes _ _ Hk)).
  - destruct Ho as (HK & HS & Hsame). exists [], next', t', F. split; [done|].
    split; [by eapply tx_kept_inv|]. split; [done|]. split; [lia|by left].
Qed.

Lemma tx_wrote_labelled t t' B E E' H bs :
  tx_wf t B E H → tx_wrote t t' B E E' H bs → tx_end_of_stream t = false →
  tx_labelled t B E → tx_labelled t' B E'.
Proof.
  intros Hwf W Heos Hlab p b' Hp Hb'. left.
  assert (tx_control_bit t' = tx_control_bit t) as -> by (by rewrite (wr_upd _ _ _ _ _ _ _ W)).
  destruct (decide (p < E)); [|apply (wr_new _ _ _ _ _ _ _ W); [lia|done]].
  destruct (tx_slot_lookup _ _ _ _ Hwf p) as (b & Hb & _).
  destruct (wr_old _ _ _ _ _ _ _ W p b ltac:(lia) Hb) as (b2 & Hb2 & Hh & _).
  replace b' with b2 by congruence. rewrite Hh.
  destruct (Hlab p b ltac:(lia) Hb) as [?|(_ & _ & ?)]; [done|congruence].
Qed.

Lemma tx_ack_total t B E H F cb seq bitmap :
  tx_inv t B E H F → tx_env t (EvAck cb seq bitmap) →
  ∃ r t' B' E', Transmitter_ack t cb seq bitmap = Some (r, t') ∧ tx_inv t' B' E' H F.
Proof using io_laws.
  intros Hinv (Hseq & Hlen & Hhon).
  destruct (decide (tx_state t = TkConnected ∧ cb ≠ tx_control_bit t)) as [[Hst Hcb]|Hno].
  - pose proof (tw_ring _ _ _ _ (ti_wf _ _ _ _ _ Hinv)) as Hr.
    destruct (ring_restore_any _ _ _ Hr seq Hseq) as (S & _ & HS & Hmod).
    destruct (decide (S ≤ E)).
    + destruct (tx_ack_spec t B E H F S bitmap cb Hinv Hst Hcb) as (r & t' & Hack & Hres);
        [lia|apply Hhon; auto; lia|done|]. rewrite Hmod in Hack. exists r, t'.
      case_decide; [destruct Hres as [? _]|destruct Hres as (? & _)]; eauto.
    + rewrite (tx_ack_ignored _ _ _ _ _ cb seq bitmap Hinv); [by eauto 10|done|].
      right. right. exists S. split; [lia|done].
  - rewrite (tx_ack_ignored _ _ _ _ _ cb seq bitmap Hinv); [by eauto 10|done|].
    destruct (decide (tx_state t = TkConnected)); [|by left]. right. left.
    destruct (decide (cb = tx_control_bit t)); [done|]. exfalso. auto.
Qed.

Lemma tx_exec_inv t B E H F e :
  tx_inv t B E H F → tx_env t e →
  ∃ t' B' E' H' F', tx_exec t e = Some t' ∧ tx_inv t' B' E' H' F'.
Proof using io_laws pf_laws.
  intros Hinv Henv. pose proof (ti_wf _ _ _ _ _ Hinv) as Hwf.
  destruct e as [buf| | |now draw next|cb seq bitmap|cb himark|id start|size cb| |];
    cbn [tx_exec].
  - destruct (tx_tryWrite_spec t B E H F buf Hinv) as (n & r & t' & E' & -> & _ & ? & _). cbn. eauto 10.
  - destruct (tx_flush_spec t B E H F Hinv) as (r & t' & -> & ? & _). cbn. eauto 10.
  - destruct (decide (tx_active t ∧ tx_end_of_stream t = false)) as [[Ha He]|Hno].
    + destruct (tx_close_active_spec _ _ _ _ _ Hinv Ha He) as (t' & E' & -> & ? & _). eauto 10.
    + destruct (tx_close_inactive_spec _ _ _ _ _ Hinv) as (t' & -> & ? & _); [|by eauto 10].
      destruct (decide (tx_active t)); [right|by left]. destruct (tx_end_of_stream t); tauto.
  - destruct (tx_send_spec t B E H F now draw next Hinv Henv) as (pk & nx & t' & F' & -> & ? & _).
    cbn. eauto 10.
  - destruct (tx_ack_total _ _ _ _ _ _ _ _ Hinv Henv) as (r & t' & B' & E' & -> & ?). cbn. eauto 10.
  - destruct (tx_updateRecvHimark_spec _ _ _ _ _ cb himark Hinv Henv) as (r & t' & H' & -> & ? & _).
    cbn. eauto 10.
  - destruct (tx_init_spec t B E H id start Hwf) as (t' & Hi & ? & _).
    unfold SeqNum_make. rewrite Hi. eauto 10.
  - destruct Henv as [Hst Hsz]. do 5 eexists. split; [done|]. by eapply tx_setConnected_spec.
  - destruct (tx_setBroken_spec t B E H F Hwf) as (t' & -> & ? & _). eauto 10.
  - destruct (tx_reset_spec t B E H F Hwf) as (t' & -> & ? & _). eauto 10.
Qed.

Lemma tx_reachable_inv t : tx_reachable t → ∃ B E H F, tx_inv t B E H F.
Proof using io_laws pf_laws.
  induction 1 as [log2 memory id t Hl Hm Hn|t e t' _ (B & E & H & F & Hinv) Henv Hex].
  - destruct (tx_new_spec log2 memory id 0 Hl Hm) as (t1 & Hn1 & ? & _).
    replace t with t1 by congruence. eauto 10.
  - destruct (tx_exec_inv _ _ _ _ _ _ Hinv Henv) as (t1 & B' & E' & H' & F' & Hex1 & ?).
    replace t' with t1 by congruence. eauto 10.
Qed.

(** ** The contract *)

(** C7: the transmitter never aborts as long as its acknowledgments are read as they were
    meant. In every state it can reach from its constructor, whatever sequence of writes,
    flushes, closes, sends, resets, handshakes, acknowledgments and himark updates led
    there, the invariant holds, so the queue fits in the ring and never exceeds the
    peer's announced credit by more than the end-of-stream packet, and the next
    operation completes: no CHECK or DCHECK fails, no buffer index is out of range
    and no loop runs on. It is assumed that a handshake completes only while the
    transmitter is connecting, with a peer that has 1 to 1024 buffers, and that an
    acknowledgment names only packets that were sent, where the bitmap is counted, as the
    code does, from the first packet of the queue at the time it arrives. An acknowledgment
    of the peer has that property when it arrives before any later one; one that was
    overtaken may not, and then a check does fail: [Transmitter_overtaken_ack]. *)
Theorem Transmitter_safe (t : Transmitter) (Hreach : tx_reachable t) :
  (∃ B E H F, tx_inv t B E H F
     ∧ 0 ≤ E - B ≤ 2 ^ rb_log2 (tx_out_ring t) ∧ (tx_active t → E ≤ H + 1))
  ∧ ∀ e, tx_env t e → ∃ t', tx_exec t e = Some t' ∧ tx_reachable t'.
Proof using io_laws pf_laws.
  destruct (tx_reachable_inv t Hreach) as (B & E & H & F & Hinv). split.
  - exists B, E, H, F. pose proof (ti_wf _ _ _ _ _ Hinv) as Hwf. split; [done|].
    split; [apply (ra_size _ _ _ (tw_ring _ _ _ _ Hwf))|].
    intros Ha. destruct (tw_credit _ _ _ _ Hwf Ha) as [? _]. destruct (tx_end_of_stream t); lia.
  - intros e Henv. destruct (tx_exec_inv _ _ _ _ _ _ Hinv Henv) as (t' & B' & E' & H' & F' & Hex & _).
    exists t'. split; [done|]. by eapply tx_next.
Qed.

(** [tryWrite] appends to the stream. On a connection that is open for writing
    it takes a prefix of the bytes, of the length it returns, appends exactly these
    to the queued stream, leaves closed packets as they are, labels the new ones
    with their positions, and takes less than everything only when the send
    buffer is full or the peer's credit is exhausted. Otherwise it takes nothing. *)
Theorem Transmitter_tryWrite_appends (t : Transmitter) (B E H F : Z) (buf : list byte)
    (Hinv : tx_inv t B E H F) :
  ∃ n ready t' E', Transmitter_tryWrite t buf = Some (n, ready, t')
    ∧ tx_inv t' B E' H F ∧ 0 ≤ n ≤ Z.of_nat (length buf)
    ∧ if decide (tx_active t ∧ tx_end_of_stream t = false)
      then tx_stream t' B E' = tx_stream t B E ++ take (Z.to_nat n) buf
           ∧ (tx_labelled t B E → tx_labelled t' B E')
           ∧ (∀ p b, B ≤ p < E → tx_out_buffers t !! tx_slot t p = Some b →
                ob_finished b = true → tx_out_buffers t' !! tx_slot t' p = Some b)
           ∧ (n < Z.of_nat (length buf) →
                E' = H ∨ RingBuffer_slotsFree (tx_out_ring t') = 0)
      else n = 0 ∧ t' = t.
Proof using io_laws.
  destruct (tx_tryWrite_spec t B E H F buf Hinv) as (n & r & t' & E' & Hw & Hn & Hinv' & Hres).
  exists n, r, t', E'. do 3 (split; [done|]).
  case_decide as Hok; [|by destruct Hres as (? & ? & ?)]. destruct Hok as [Ha He].
  destruct Hres as [W Hb]. split; [by apply (wr_stream _ _ _ _ _ _ _ W), Hinv|].
  split; [|split].
  - by apply (tx_wrote_labelled t t' B E E' H (take (Z.to_nat n) buf) (ti_wf _ _ _ _ _ Hinv) W He).
  - intros p b Hp Hpb Hf. destruct (wr_old _ _ _ _ _ _ _ W p b Hp Hpb) as (b' & ? & _ & Hsame).
    by rewrite <- (Hsame Hf).
  - intros Hlt. destruct (Hb Hlt) as [?|Hfull]; [by left|right].
    rewrite (ring_slotsFree _ _ _ (tw_ring _ _ _ _ (ti_wf _ _ _ _ _ Hinv'))). lia.
Qed.

(** *** The labels of the queued packets *)

(** The states of a transmitter that is not closed while it is still connecting:
    [Transmitter_close_before_connect] shows what goes wrong then. *)
Inductive tx_opened : Transmitter → Prop :=
  | tx_opened_start log2 memory id t :
      0 ≤ log2 ≤ kMaxLinkBufferSizeLog2 → length memory = 250%nat →
      Transmitter_new log2 memory id = Some t → tx_opened t
  | tx_opened_next t e t' :
      tx_opened t → tx_env t e → (e = EvClose → tx_state t ≠ TkConnecting) →
      tx_exec t e = Some t' → tx_opened t'.

(** The invariant, with the labels; a transmitter that is connecting has an empty queue. *)
Definition tx_labels (t : Transmitter) : Prop :=
  ∃ B E H F, tx_inv t B E H F ∧ tx_labelled t B E
    ∧ (tx_state t = TkConnecting → tx_end_of_stream t = false).

Lemma tx_labels_empty t B H F :
  tx_inv t B B H F → (tx_state t = TkConnecting → tx_end_of_stream t = false) → tx_labels t.
Proof. intros Hinv He. exists B, B, H, F. split; [done|]. split; [intros p b Hp; lia|done]. Qed.

Lemma tx_labels_write t buf n r t' :
  tx_labels t → Transmitter_tryWrite t buf = Some (n, r, t') → tx_labels t'.
Proof using io_laws.
  intros (B & E & H & F & Hinv & Hl & Hc) Hw.
  destruct (tx_tryWrite_spec t B E H F buf Hinv) as (n1 & r1 & t1 & E' & Hw1 & _ & Hinv' & Hres).
  rewrite Hw in Hw1. injection Hw1 as <- <- <-. case_decide as Hok; [|by destruct Hres as (_ & -> & _); exists B, E, H, F].
  destruct Hok as [Ha He], Hres as [W _]. exists B, E', H, F. split; [done|].
  split; [by eapply tx_wrote_labelled; [apply Hinv|..]|]. intros _. by rewrite (tx_wrote_eos _ _ _ _ _ _ _ W).
Qed.

Lemma tx_labels_kept t t' B E H F F' :
  tx_inv t B E H F → tx_labelled t B E → (tx_state t = TkConnecting → tx_end_of_stream t = false) →
  tx_inv t' B E H F' → tx_kept t t' → tx_labels t'.
Proof.
  intros Hinv Hl Hc Hinv' HK. exists B, E, H, F'. split; [done|].
  split; [eapply tx_labelled_kept; [apply Hinv|done|done]|]. by rewrite (tk_frame _ _ HK).
Qed.

Lemma tx_labels_close t t' :
  tx_labels t → tx_state t ≠ TkConnecting → Transmitter_close t = Some t' → tx_labels t'.
Proof using io_laws.
  intros (B & E & H & F & Hinv & Hl & Hc) Hst Hcl.
  destruct (decide (tx_active t ∧ tx_end_of_stream t = false)) as [[Ha He]|Hno].
  - destruct (tx_close_active_spec _ _ _ _ _ Hinv Ha He) as (t1 & E' & Hcl1 & Hinv' & _ & _ & Hst' & (t2 & HK & _ & Hq) & _).
    rewrite Hcl in Hcl1. injection Hcl1 as <-. exists B, E', H, F. split; [done|]. split; [|congruence].
    eapply (tx_labelled_ext _ _ B); [exact Hq|lia|].
    pose proof (tx_labelled_kept _ _ _ _ _ (ti_wf _ _ _ _ _ Hinv) HK Hl) as Hl2.
    intros p b Hp Hb. destruct (Hl2 p b Hp Hb) as [?|(? & ? & _)]; [by left|by right].
  - destruct (tx_close_inactive_spec _ _ _ _ _ Hinv) as (t1 & Hcl1 & Hinv' & H1 & H2).
    { destruct (decide (tx_active t)); [right|by left]. destruct (tx_end_of_stream t); tauto. }
    rewrite Hcl in Hcl1. injection Hcl1 as <-. destruct (decide (tx_active t)) as [Ha|Hna].
    + rewrite (H1 Ha). by exists B, E, H, F.
    + specialize (H2 Hna). assert (B = E) as <- by (apply (tw_inactive _ _ _ _ (ti_wf _ _ _ _ _ Hinv')); by left).
      apply (tx_labels_empty _ _ _ _ Hinv'). congruence.
Qed.

Lemma tx_labels_ack t cb seq bitmap r t' :
  tx_labels t → tx_env t (EvAck cb seq bitmap) → Transmitter_ack t cb seq bitmap = Some (r, t') → tx_labels t'.
Proof using io_laws.
  intros (B & E & H & F & Hinv & Hl & Hc) (Hseq & Hlen & Hhon) Hack.
  assert (Hsame : Some (r, t') = Some (false, t) → tx_labels t') by (intros [= -> ->]; by exists B, E, H, F).
  destruct (decide (tx_state t = TkConnected ∧ cb ≠ tx_control_bit t)) as [[Hst Hcb]|Hno].
  - pose proof (tw_ring _ _ _ _ (ti_wf _ _ _ _ _ Hinv)) as Hr.
    destruct (ring_restore_any _ _ _ Hr seq Hseq) as (S & _ & HS & Hmod).
    destruct (decide (S ≤ E)).
    + destruct (tx_ack_spec t B E H F S bitmap cb Hinv Hst Hcb) as (r1 & t1 & Hack1 & Hres);
        [lia|apply Hhon; auto; lia|done|]. rewrite Hmod, Hack in Hack1. injection Hack1 as <- <-.
      case_decide; [destruct Hres as (Hi & Hid & _); apply (tx_labels_empty _ _ _ _ Hi); congruence|].
      destruct Hres as (Hi & _ & [] & _ & Hl' & _). do 4 eexists. split; [exact Hi|]. split; [by apply Hl'|congruence].
    + apply Hsame. rewrite <- Hack. apply (tx_ack_ignored _ _ _ _ _ cb seq bitmap Hinv); [done|].
      right. right. exists S. split; [lia|done].
  - apply Hsame. rewrite <- Hack. apply (tx_ack_ignored _ _ _ _ _ cb seq bitmap Hinv); [done|].
    destruct (decide (tx_state t = TkConnected)); [|by left]. right. left.
    destruct (decide (cb = tx_control_bit t)); [done|]. exfalso. auto.
Qed.

Lemma tx_labels_himark t cb himark r t' :
  tx_labels t → 0 ≤ himark < 4096 → Transmitter_updateRecvHimark t cb himark = Some (r, t') → tx_labels t'.
Proof.
  intros (B & E & H & F & Hinv & Hl & Hc) Hh Hu.
  destruct (tx_updateRecvHimark_spec _ _ _ _ _ cb himark Hinv Hh) as (r1 & t1 & H' & Hu1 & Hinv' & _).
  rewrite Hu in Hu1. injection Hu1 as <- <-. exists B, E, H', F. split; [done|].
  unfold Transmitter_updateRecvHimark in Hu. destruct (tx_state t) eqn:Hst; try (by injection Hu as <- <-; rewrite Hst).
  destruct (Bool.eqb _ _); [by injection Hu as <- <-; rewrite Hst|]. inv_bind Hu.
  destruct (_ || _); [by injection Hu as <- <-; rewrite Hst|]. inv_bind Hu. injection Hu as <- <-. cbn. by rewrite Hst.
Qed.

Lemma tx_labels_setConnected t size cb :
  tx_labels t → tx_state t = TkConnecting → 1 ≤ size ≤ 1024 → tx_labels (Transmitter_setConnected size cb t).
Proof.
  intros (B & E & H & F & Hinv & _ & Hc) Hst Hsz. pose proof (ti_wf _ _ _ _ _ Hinv) as Hwf.
  pose proof (tw_connecting _ _ _ _ Hwf Hst). destruct (tw_credit _ _ _ _ Hwf (or_introl Hst)) as [Hcr _].
  rewrite (Hc Hst) in Hcr. pose proof (ra_size _ _ _ (tw_ring _ _ _ _ Hwf)). assert (E = B) as -> by lia.
  by eapply tx_labels_empty; [eapply tx_setConnected_spec|].
Qed.

Lemma tx_opened_labels t : tx_opened t → tx_labels t.
Proof using io_laws pf_laws.
  induction 1 as [log2 memory id t Hlg Hm Hn|t e t' _ IH Henv Hcl Hex].
  { destruct (tx_new_spec log2 memory id 0 Hlg Hm) as (t1 & Hn1 & Hinv & Hst). replace t with t1 by congruence.
    assert (Hid : tx_state t1 = TkIdle) by (revert Hn1; unfold Transmitter_new; intros Hx; inv_bind Hx; by injection Hx as <-).
    eapply tx_labels_empty; [exact Hinv|congruence]. }
  pose proof IH as (B & E & H & F & Hinv & Hl & Hc). pose proof (ti_wf _ _ _ _ _ Hinv) as Hwf.
  destruct e as [buf| | |now draw next|cb seq bitmap|cb himark|id start|size cb| |]; cbn [tx_exec] in Hex.
  - inv_bind Hex. destruct p as [[n r] t1]. injection Hex as <-. by eapply tx_labels_write.
  - destruct (tx_flush_spec t B E H F Hinv) as (r & t1 & Hf & Hinv1 & HK & _).
    rewrite (bind_step _ _ _ Hf) in Hex. injection Hex as <-. by eapply (tx_labels_kept t).
  - apply (tx_labels_close t); [done|by apply Hcl|done].
  - destruct (tx_send_spec t B E H F now draw next Hinv Henv) as (pk & nx & t1 & F' & Hs & Hinv1 & HK & _).
    rewrite (bind_step _ _ _ Hs) in Hex. injection Hex as <-. by eapply (tx_labels_kept t).
  - inv_bind Hex. destruct p as [r t1]. injection Hex as <-. by eapply tx_labels_ack.
  - inv_bind Hex. destruct p as [r t1]. injection Hex as <-. by eapply tx_labels_himark.
  - destruct (tx_init_spec t B E H id start Hwf) as (t1 & Hi & Hinv1 & _ & He & _).
    unfold SeqNum_make in Hex. rewrite Hi in Hex. injection Hex as <-. by eapply tx_labels_empty.
  - injection Hex as <-. destruct Henv. by apply tx_labels_setConnected.
  - destruct (tx_setBroken_spec t B E H F Hwf) as (t1 & Hi & Hinv1 & Hst). rewrite Hex in Hi. injection Hi as <-.
    eapply tx_labels_empty; [done|congruence].
  - destruct (tx_reset_spec t B E H F Hwf) as (t1 & Hi & Hinv1 & Hst & _). rewrite Hex in Hi. injection Hi as <-.
    eapply tx_labels_empty; [done|congruence].
Qed.

(** C18: what [send] puts on the wire. The transmitter may have come to its state by any
    operations, as in [Transmitter_safe], but it was never closed while it was still
    connecting. The packet, if there is one, is that of a queued and unacknowledged position
    p, labelled with p and the session's control bit, and carries exactly the bytes of p: a
    retransmission repeats the packet. It is a data packet, or the end-of-stream packet of
    a closed stream, without payload. The stream does not change, the packet is closed for
    good, and nothing is sent unless the link is connected. *)
Theorem Transmitter_send_packet (t : Transmitter) (now draw next : Z)
    (Hopen : tx_opened t) (Hdraw : 0 ≤ draw ≤ RANDOM_INTEGER_MAX) :
  ∃ B E H F packet next' t' F', tx_inv t B E H F
    ∧ Transmitter_send t now draw next = Some (packet, next', t')
    ∧ tx_inv t' B E H F' ∧ tx_stream t' B E = tx_stream t B E
    ∧ (∀ p, tx_body t' p = tx_body t p)
    ∧ (packet = []
       ∨ tx_state t = TkConnected
         ∧ ∃ p type b b', B ≤ p < E ∧ p < F'
           ∧ packet = StoreBeU16 (FormatPacketHeader (u16 p) type (tx_control_bit t)) ++ tx_body t p
           ∧ (type = kDataPacket
              ∨ type = kFinPacket ∧ tx_body t p = [] ∧ tx_end_of_stream t = true)
           ∧ tx_out_buffers t !! tx_slot t p = Some b ∧ ob_acked b = false
           ∧ tx_out_buffers t' !! tx_slot t p = Some b' ∧ ob_finished b' = true
           ∧ tx_was_sent t' p).
Proof using io_laws pf_laws.
  destruct (tx_opened_labels t Hopen) as (B & E & H & F & Hinv & Hlab & _).
  destruct (tx_send_spec t B E H F now draw next Hinv Hdraw)
    as (packet & next' & t' & F' & Hs & Hinv' & HK & _ & Hor).
  pose proof (ti_wf _ _ _ _ _ Hinv) as Hwf. exists B, E, H, F, packet, next', t', F'.
  split; [done|]. split; [done|]. split; [done|].
  split; [by apply (tx_kept_stream t B E H)|]. split; [intros; by eapply tx_kept_body|].
  destruct Hor as [[? _]|(Hst & p & b & b' & Hp & HpF & _ & Hb & Ha & -> & Hb' & Hf & Hc & _)]; [by left|].
  right. split; [done|].
  assert (Hbody : tx_body t p = ob_body b) by (unfold tx_body; by rewrite Hb).
  assert (Hsent : tx_was_sent t' p).
  { intros b2. rewrite (tx_kept_slot _ _ HK), Hb'. by intros [= <-]. }
  destruct (Hlab p b Hp Hb) as [Hh|(Hh & Hnil & Heos)].
  - exists p, kDataPacket, b, b'. rewrite Hbody, Hh. split_and!; auto; lia.
  - exists p, kFinPacket, b, b'. rewrite Hbody, Hh. split_and!; auto; lia.
Qed.

(** *** Progress of [send] *)

(** The scan never returns a later time than it was given. *)
Lemma tx_scan_time t now fuel :
  Uptime_Start ≤ now → ∀ P S m r, m ≤ now → Transmitter_scan fuel t P S m = Some r → r.2 ≤ now.
Proof.
  intros Hnow. induction fuel as [|fuel IH]; intros P S m r Hm; [done|].
  cbn [Transmitter_scan]. destruct (_ && _); [|by intros [= <-]].
  intros Heq. inv_bind Heq. destruct (ob_acked _); [by eapply IH|].
  destruct (negb (ob_flushed _)); [by injection Heq as <-|].
  destruct (_ || _); [by injection Heq as <-|].
  destruct (Z.ltb_spec (ob_expiration o) m); refine (IH _ _ _ _ _ Heq); lia.
Qed.

(** Packet [p] is not acknowledged, flushed, within the credit, and due, and no packet
    before it is held back. *)
Definition tx_head_due (t : Transmitter) (B E H now p : Z) : Prop :=
  B ≤ p < E ∧ p < H
  ∧ (∀ q b, B ≤ q < p → tx_out_buffers t !! tx_slot t q = Some b → ob_acked b = true ∨ ob_flushed b = true)
  ∧ ∃ b, tx_out_buffers t !! tx_slot t p = Some b ∧ ob_acked b = false
         ∧ ob_flushed b = true ∧ (ob_finished b = true → ob_expiration b ≤ now).

Lemma tx_scan_head t B E H now p :
  tx_wf t B E H → tx_active t → Uptime_Start ≤ now < Uptime_Max →
  tx_head_due t B E H now p →
  ∀ fuel P S m, B ≤ P ≤ p → (Z.to_nat (E - P) < fuel)%nat → m = Uptime_Max ∨ B ≤ S < E →
  ∃ S' m', Transmitter_scan fuel t (u16 P) (u16 S) m = Some (u16 S', m')
           ∧ B ≤ S' < E ∧ m' ≤ now.
Proof.
  intros Hwf Hact Hnow (Hp & HpH & Hbefore & b & Hb & Hack & Hfl & Hexp).
  induction fuel as [|fuel IH]; intros P S m HP Hfuel HS; [lia|].
  cbn [Transmitter_scan]. pose proof (tw_ring _ _ _ _ Hwf) as Hr.
  pose proof (ring_size_bounds _ _ _ Hr). destruct (tw_credit _ _ _ _ Hwf Hact) as [Hc Hreach].
  assert (E ≤ H + 1) by (destruct (tx_end_of_stream t); lia).
  rewrite (ra_end _ _ _ Hr), (tw_himark _ _ _ _ Hwf), !SeqNum_lt_pos by lia.
  rewrite (proj2 (Z.ltb_lt P E)), (proj2 (Z.ltb_lt P H)) by lia. cbn [andb].
  rewrite (bind_step _ _ _ (tx_getOutBuffer _ _ _ _ Hwf P ltac:(lia))), SeqNum_incr_pos.
  destruct (decide (P = p)) as [->|Hne].
  2: { destruct (tx_slot_lookup _ _ _ _ Hwf P) as (b0 & Hb0 & _). rewrite (bind_step _ _ _ Hb0).
       destruct (ob_acked b0) eqn:Ha0; [apply IH; done || lia|].
       destruct (Hbefore P b0 ltac:(lia) Hb0) as [?|Hf0]; [congruence|]. rewrite Hf0. cbn [negb].
       destruct (_ || _); [exists P, Uptime_Start; split_and!; done || lia|].
       destruct (_ <? _); apply IH; lia. }
  rewrite (bind_step _ _ _ Hb), Hack, Hfl. cbn [negb].
  destruct (ob_finished b) eqn:Hfin; cbn [negb orb]; [|exists p, Uptime_Start; split_and!; done || lia].
  destruct (_ =? _); [exists p, Uptime_Start; split_and!; done || lia|]. specialize (Hexp eq_refl).
  assert (Hrest : ∀ S1 m1, B ≤ S1 < E → m1 ≤ now →
    ∃ S' m', Transmitter_scan fuel t (u16 (p + 1)) (u16 S1) m1 = Some (u16 S', m') ∧ B ≤ S' < E ∧ m' ≤ now).
  { intros S1 m1 HS1 Hm1. destruct (tx_scan_spec t B E H fuel (p + 1) S1 m1)
      as (S' & m' & Hs & Hor); [done|done|lia|lia|]. exists S', m'. split; [done|].
    split; [destruct Hor as [[-> _]|[? _]]; lia|].
    by apply (tx_scan_time _ _ _ (proj1 Hnow) _ _ _ _ Hm1 Hs). }
  destruct (Z.ltb_spec (ob_expiration b) m); apply Hrest; destruct HS; lia.
Qed.

Lemma tx_send_head t B E H F now draw next p :
  tx_inv t B E H F → tx_state t = TkConnected → 0 ≤ draw ≤ RANDOM_INTEGER_MAX →
  Uptime_Start ≤ now < Uptime_Max → tx_head_due t B E H now p →
  ∃ packet t', Transmitter_send t now draw next = Some (packet, 0, t') ∧ packet ≠ [].
Proof using pf_laws.
  intros Hinv Hst Hdraw Hnow Hdue.
  pose proof (ti_wf _ _ _ _ _ Hinv) as Hwf. assert (Hact : tx_active t) by (by right).
  pose proof (ti_sched _ _ _ _ _ Hinv Hact) as Hs.
  assert (Hg : ∃ i t', Transmitter_getBufferToSend t now draw next = Some (Some i, 0, t')).
  { unfold Transmitter_getBufferToSend. rewrite Hst.
    destruct (tx_sendNext_spec _ _ _ _ _ now draw Hwf Hs Hdraw) as ([i|] & t1 & Hn & Ho);
      rewrite (bind_step _ _ _ Hn); [by eauto|].
    apply (tx_sendNext_none _ _ _ _ _ _ _ _ Hwf Hs) in Hn as ->.
    destruct (tx_sendDue_spec t B E H F now draw next Hwf Hact Hs Hdraw)
      as (sent & next' & t' & Hd & _). revert Hd. unfold Transmitter_sendDue, Transmitter_choose.
    pose proof (tw_ring _ _ _ _ Hwf) as Hr.
    rewrite (ring_slotsUsed _ _ _ Hr), (ra_begin _ _ _ Hr), (ra_end _ _ _ Hr).
    destruct (tx_scan_head t B E H now p Hwf Hact Hnow Hdue (S (Z.to_nat (E - B))) B E Uptime_Max)
      as (S' & m' & Hscan & HS' & Hm); [destruct Hdue; lia|lia|by left|].
    rewrite (bind_step _ _ _ Hscan). pose proof (ring_size_bounds _ _ _ Hr).
    cbn beta iota. rewrite (ring_contains _ _ _ Hr) by lia.
    rewrite (proj2 (Z.leb_le B S')), (proj2 (Z.ltb_lt S' E)) by lia. cbn [andb mbind option_bind].
    rewrite (proj2 (Z.ltb_ge _ _)) by lia. intros Hd. inv_bind Hd. injection Hd as <- <- <-.
    exists n, t0. cbn [mbind option_bind]. by rewrite (bind_step _ _ _ E1), (bind_step _ _ _ E2). }
  destruct Hg as (i & t' & Hg). destruct (tx_send_spec t B E H F now draw next Hinv Hdraw)
    as (packet & next' & t2 & F' & Hsend & _ & _ & _ & [(_ & _ & _ & Hno)|(_ & ? & ? & ? & _ & _ & Hne & _)]);
    [congruence|]. exists packet, t2. split; [|done]. rewrite Hsend.
  unfold Transmitter_send in Hsend. rewrite (bind_step _ _ _ Hg) in Hsend. cbn beta iota in Hsend.
  inv_bind Hsend. by injection Hsend as -> -> ->.
Qed.

(** The transmitter makes progress. When the link is connected and a packet the
    peer has not acknowledged is flushed, within the peer's credit and due (never sent,
    or its retransmission timer has expired), and no packet before it is still held
    back, [send] emits a packet: data that is ready is never held back, and an
    unacknowledged packet is retransmitted for as long as it takes. *)
Theorem Transmitter_send_progress (t : Transmitter) (B E H F now draw next p : Z)
    (Hinv : tx_inv t B E H F) (Hst : tx_state t = TkConnected)
    (Hdraw : 0 ≤ draw ≤ RANDOM_INTEGER_MAX) (Hnow : Uptime_Start ≤ now < Uptime_Max)
    (Hdue : tx_head_due t B E H now p) :
  ∃ packet t', Transmitter_send t now draw next = Some (packet, 0, t') ∧ packet ≠ [].
Proof using pf_laws. by apply (tx_send_head t B E H F now draw next p). Qed.

(** Acknowledgments that cannot be the peer's are ignored: when the link is not
    connected, when the control bit is this side's own (cross-talk), or when they
    name a position that is not queued yet. *)
Theorem Transmitter_ack_bogus (t : Transmitter) (B E H F seq : Z) (bitmap : list byte) (cb : bool)
    (Hinv : tx_inv t B E H F) (Hseq : 0 ≤ seq < 4096)
    (Hbogus : tx_state t ≠ TkConnected ∨ cb = tx_control_bit t
              ∨ ∃ S, E < S < B + 2048 ∧ seq = S mod 4096) :
  Transmitter_ack t cb seq bitmap = Some (false, t).
Proof. by apply (tx_ack_ignored t B E H F). Qed.

(** Flow control. A himark from the wire moves the credit only forward and never
    beyond the end of the queue plus the peer's buffer, is decoded to the position
    it stands for, and leaves the stream alone. *)
Theorem Transmitter_updateRecvHimark_monotone (t : Transmitter) (B E H F himark : Z) (cb : bool)
    (Hinv : tx_inv t B E H F) (Hh : 0 ≤ himark < 4096) :
  ∃ updated t' H', Transmitter_updateRecvHimark t cb himark = Some (updated, t')
    ∧ tx_inv t' B E H' F ∧ H ≤ H' ∧ tx_stream t' B E = tx_stream t B E
    ∧ (updated = false → t' = t)
    ∧ (updated = true → H' mod 4096 = himark ∧ H' ≤ E + tx_peer_receive_buffer_size t).
Proof. by apply tx_updateRecvHimark_spec. Qed.

(** [close] ends the stream once. On an open stream it queues an end-of-stream
    packet behind the data, or defers it when the ring is full, without touching
    the data; afterwards [tryWrite] takes nothing. On a broken link it returns to
    idle, and otherwise it does nothing. *)
Theorem Transmitter_close_ends_stream (t : Transmitter) (B E H F : Z)
    (Hinv : tx_inv t B E H F) :
  ∃ t' E', Transmitter_close t = Some t' ∧ tx_inv t' B E' H F
    ∧ (∀ buf, Transmitter_tryWrite t' buf = Some (0, false, t'))
    ∧ if decide (tx_active t ∧ tx_end_of_stream t = false)
      then tx_end_of_stream t' = true ∧ tx_stream t' B E' = tx_stream t B E
           ∧ if decide (E - B = 2 ^ rb_log2 (tx_out_ring t))
             then E' = E ∧ tx_has_pending_eof t' = true
             else E' = E + 1
                  ∧ ∃ b, tx_out_buffers t' !! tx_slot t' E = Some b ∧ ob_finished b = true
                         ∧ ob_body b = []
                         ∧ ob_header b = StoreBeU16
                             (FormatPacketHeader (u16 E) kFinPacket (tx_control_bit t))
      else E' = E ∧ (tx_active t → t' = t) ∧ (¬ tx_active t → tx_state t' = TkIdle).
Proof using io_laws.
  destruct (decide (tx_active t ∧ tx_end_of_stream t = false)) as [[Ha He]|Hno].
  - destruct (tx_close_active_spec _ _ _ _ _ Hinv Ha He)
      as (t' & E' & Hc & Hinv' & Hs & He' & _ & _ & Hd).
    exists t', E'. split; [done|]. split; [done|]. split.
    { intros [|? ?]; [done|]. unfold Transmitter_tryWrite. by rewrite He'. }
    split; [done|]. split; [done|]. case_decide; [done|].
    destruct Hd as (? & _ & b & ? & ? & ? & ?). eauto 10.
  - assert (Hor : ¬ tx_active t ∨ tx_end_of_stream t = true).
    { destruct (decide (tx_active t)); [right|by left]. destruct (tx_end_of_stream t); tauto. }
    destruct (tx_close_inactive_spec _ _ _ _ _ Hinv Hor) as (t' & Hc & Hinv' & H1 & H2).
    exists t', E. split; [done|]. split; [done|]. split; [|done].
    intros [|? ?]; [done|]. unfold Transmitter_tryWrite.
    destruct (decide (tx_active t)) as [Ha|Hna].
    + destruct Hor as [?|He]; [done|]. by rewrite (H1 Ha), He.
    + rewrite (H2 Hna). by destruct (tx_end_of_stream t').
Qed.

End System.

(** ** Witnesses *)

(** A connected transmitter with a ring of four packets that starts at 65535, and
    a peer with room for four packets; then three bytes written, flushed and
    sent. *)
Definition tx_demo_connected : option Transmitter :=
  t ← Transmitter_new 2 (replicate 250 0) 0;
  t ← Transmitter_init t 7 65535;
  Some (Transmitter_setConnected 4 false t).

Lemma tx_demo_connected_ok :
  ∃ t, tx_demo_connected = Some t ∧ tx_inv t 65535 65535 65539 65535
       ∧ tx_state t = TkConnected ∧ tx_end_of_stream t = false ∧ tx_control_bit t = false.
Proof.
  unfold tx_demo_connected.
  destruct (tx_new_spec 2 (replicate 250 0) 0 0) as (t1 & Hn & Hinv1 & _); [done|done|].
  rewrite (bind_step _ _ _ Hn).
  destruct (tx_init_spec t1 _ _ _ 7 65535 (ti_wf _ _ _ _ _ Hinv1)) as (t2 & Hi & Hinv2 & Hst & He & _).
  change 65535 with (u16 65535) at 1. rewrite (bind_step _ _ _ Hi).
  eexists. split; [done|]. split; [|done].
  by apply (tx_setConnected_spec t2 65535 65535 65535 65535 4 false).
Qed.

Lemma tx_demo_connected_opened t : tx_demo_connected = Some t → tx_opened t.
Proof.
  unfold tx_demo_connected. destruct (Transmitter_new 2 (replicate 250 0) 0) as [ta|] eqn:Ea; [|done].
  cbn [mbind option_bind]. destruct (Transmitter_init ta 7 65535) as [tb|] eqn:Eb; [|done]. intros [= <-].
  apply (tx_opened_next tb (EvSetConnected 4 false)); [|cbn; split; [|lia]|done|done].
  - apply (tx_opened_next ta (EvInit 7 65535)); [|done|done|done]. by apply (tx_opened_start 2 (replicate 250 0) 0).
  - revert Eb. unfold Transmitter_init. intros Hi. inv_bind Hi. by injection Hi as <-.
Qed.

#[local] Opaque tx_demo_connected.

Lemma Transmitter_tryWrite_appends_witness :
  ∃ t t' n ready E', tx_demo_connected = Some t
    ∧ Transmitter_tryWrite t [1; 2; 3] = Some (n, ready, t')
    ∧ tx_stream t' 65535 E' = take (Z.to_nat n) [1; 2; 3]
    ∧ option_map fst (tx_demo_connected ≫= λ t, Transmitter_tryWrite t [1; 2; 3])
      = Some (3, false).
Proof.
  destruct tx_demo_connected_ok as (t & Ht & Hinv & Hst & He & _).
  destruct (Transmitter_tryWrite_appends t _ _ _ _ [1; 2; 3] Hinv)
    as (n & ready & t' & E' & Hw & _ & _ & Hres).
  rewrite decide_True in Hres by (split; [by right|done]). destruct Hres as (Hs & _).
  exists t, t', n, ready, E'. split; [done|]. split; [done|]. split; [exact Hs|].
  vm_compute. reflexivity.
Defined.

Lemma Transmitter_safe_witness :
  ∃ t, tx_demo_connected = Some t
       ∧ ∃ t', tx_exec t (EvWrite [1; 2; 3]) = Some t' ∧ tx_reachable t'.
Proof.
  destruct tx_demo_connected_ok as (t & Ht & _). exists t. split; [done|].
  assert (Hr : tx_reachable t).
  { with_strategy transparent [tx_demo_connected] unfold tx_demo_connected in Ht.
    inv_bind Ht. injection Ht as <-.
    apply (tx_next t1 (EvSetConnected 4 false)); [|cbn; split; [|lia]|done].
    - apply (tx_next t0 (EvInit 7 65535)); [|done|done].
      by apply (tx_start 2 (replicate 250 0) 0).
    - revert E0. unfold Transmitter_init. intros E0. inv_bind E0. by injection E0 as <-. }
  destruct (Transmitter_safe t Hr) as [_ Hnext]. by apply (Hnext (EvWrite [1; 2; 3])).
Defined.

Definition tx_demo_flushed : option Transmitter :=
  t ← tx_demo_connected;
  '(_, _, t) ← Transmitter_tryWrite t [1; 2; 3];
  '(_, t) ← Transmitter_flush t;
  Some t.

Definition tx_demo_sent : option Transmitter :=
  t ← tx_demo_flushed; '(_, _, t) ← Transmitter_send t 1000 5 0; Some t.

(** Reads a fact of a state that is known to exist off the computation. *)
Lemma demo_fact {A} (d : option Transmitter) (f : Transmitter → A) t v :
  d = Some t → option_map f d = Some v → f t = v.
Proof. by intros -> [= <-]. Qed.

Lemma tx_demo_flushed_ok :
  ∃ t, tx_demo_flushed = Some t ∧ tx_inv t 65535 65536 65539 65535
       ∧ tx_labelled t 65535 65536.
Proof.
  destruct tx_demo_connected_ok as (t & Ht & Hinv & Hst & He & _).
  destruct (tx_tryWrite_spec t _ _ _ _ [1; 2; 3] Hinv) as (n & r & t1 & E1 & Hw & _ & Hinv1 & Hres).
  rewrite decide_True in Hres by (split; [by right|done]). destruct Hres as [W _].
  destruct (tx_flush_spec t1 _ _ _ _ Hinv1) as (r2 & t2 & Hf & Hinv2 & HK & _).
  assert (Hd : tx_demo_flushed = Some t2).
  { unfold tx_demo_flushed. by rewrite (bind_step _ _ _ Ht), (bind_step _ _ _ Hw), (bind_step _ _ _ Hf). }
  assert (E1 = 65536) as ->.
  { assert (Hend : rb_end (tx_out_ring t2) = 0)
      by (apply (demo_fact _ (λ t, rb_end (tx_out_ring t)) _ _ Hd); vm_compute; reflexivity).
    pose proof (tw_ring _ _ _ _ (ti_wf _ _ _ _ _ Hinv2)) as Hr.
    rewrite (ra_end _ _ _ Hr) in Hend. pose proof (ring_size_bounds _ _ _ Hr). wrap_lia. }
  exists t2. split; [done|]. split; [done|].
  eapply tx_labelled_kept; [apply Hinv1|done|].
  eapply (tx_wrote_labelled t); [apply Hinv|done|done|]. intros p b Hp. lia.
Qed.

Lemma tx_demo_flushed_opened t : tx_demo_flushed = Some t → tx_opened t.
Proof.
  unfold tx_demo_flushed. destruct tx_demo_connected as [ta|] eqn:Ea; [|done]. cbn [mbind option_bind].
  destruct (Transmitter_tryWrite ta [1; 2; 3]) as [[[n r] tc]|] eqn:Ec; [|done]. cbn [mbind option_bind].
  destruct (Transmitter_flush tc) as [[r2 td]|] eqn:Ed; [|done]. intros [= <-].
  apply (tx_opened_next tc EvFlush); [|done|done|by cbn [tx_exec]; rewrite Ed].
  apply (tx_opened_next ta (EvWrite [1; 2; 3])); [by apply tx_demo_connected_opened|done|done|].
  cbn [tx_exec]. by rewrite Ec.
Qed.

#[local] Opaque tx_demo_flushed.

Lemma Transmitter_send_packet_witness :
  ∃ t packet next' t' B E, tx_demo_flushed = Some t
    ∧ Transmitter_send t 1000 5 0 = Some (packet, next', t')
    ∧ tx_stream t' B E = tx_stream t B E
    ∧ option_map (λ r, r.1.1) (tx_demo_flushed ≫= λ t, Transmitter_send t 1000 5 0)
      = Some [15; 255; 1; 2; 3].
Proof.
  destruct tx_demo_flushed_ok as (t & Ht & _).
  destruct (Transmitter_send_packet t 1000 5 0 (tx_demo_flushed_opened t Ht) ltac:(cbn; lia))
    as (B & E & H & F & packet & next' & t' & F' & _ & Hs & _ & Hstr & _).
  exists t, packet, next', t', B, E. do 3 (split; [done|]). vm_compute. reflexivity.
Defined.

Lemma Transmitter_send_progress_witness :
  ∃ t packet t', tx_demo_flushed = Some t
    ∧ Transmitter_send t 1000 5 77 = Some (packet, 0, t') ∧ packet ≠ [].
Proof.
  destruct tx_demo_flushed_ok as (t & Ht & Hinv & _).
  destruct (Transmitter_send_progress t _ _ _ _ 1000 5 77 65535 Hinv) as (packet & t' & ? & ?).
  - apply (demo_fact _ tx_state _ _ Ht). vm_compute. reflexivity.
  - cbn; lia.
  - cbn; lia.
  - split; [lia|]. split; [lia|]. split; [intros; lia|].
    destruct (tx_slot_lookup _ _ _ _ (ti_wf _ _ _ _ _ Hinv) 65535) as (b & Hb & _).
    pose proof (demo_fact _ (λ t, (λ b, (ob_acked b, ob_flushed b, ob_finished b))
      <$> (tx_out_buffers t !! tx_slot t 65535)) t _ Ht
      ltac:(vm_compute; reflexivity)) as Hf.
    cbn in Hf. rewrite Hb in Hf. injection Hf as Ha Hfl Hfin. exists b. rewrite Ha, Hfl, Hfin. done.
  - by exists t, packet, t'.
Defined.

Lemma tx_demo_sent_ok :
  ∃ t F, tx_demo_sent = Some t ∧ tx_inv t 65535 65536 65539 F ∧ tx_was_sent t 65535
         ∧ tx_state t = TkConnected ∧ tx_control_bit t = false
         ∧ tx_has_pending_eof t = false ∧ tx_end_of_stream t = false.
Proof.
  destruct tx_demo_flushed_ok as (t & Ht & Hinv & _).
  destruct (tx_send_spec t _ _ _ _ 1000 5 0 Hinv ltac:(cbn; lia))
    as (packet & next' & t' & F' & Hs & Hinv' & _).
  assert (Hd : tx_demo_sent = Some t').
  { unfold tx_demo_sent. by rewrite (bind_step _ _ _ Ht), (bind_step _ _ _ Hs). }
  exists t', F'. split; [done|]. split; [done|]. split.
  - intros b Hb. pose proof (demo_fact _ (λ t, ob_send_counter
      <$> (tx_out_buffers t !! tx_slot t 65535)) t' _ Hd ltac:(vm_compute; reflexivity)) as Hf.
    cbn in Hf. rewrite Hb in Hf. injection Hf as ->. lia.
  - pose proof (demo_fact _ (λ t, (tx_state t, tx_control_bit t, tx_has_pending_eof t,
      tx_end_of_stream t)) t' _ Hd ltac:(vm_compute; reflexivity)) as Hf.
    injection Hf as Hf1 Hf2 Hf3 Hf4. auto.
Qed.

#[local] Opaque tx_demo_sent.

Lemma Transmitter_ack_bogus_witness :
  ∃ t, tx_demo_sent = Some t ∧ Transmitter_ack t false 0 [] = Some (false, t)
       ∧ Transmitter_ack t true 5 [] = Some (false, t).
Proof.
  destruct tx_demo_sent_ok as (t & F & Ht & Hinv & _ & Hst & Hcb & _).
  exists t. split; [done|]. split.
  - apply (Transmitter_ack_bogus t _ _ _ _ 0 [] false Hinv); [lia|]. right. left. done.
  - apply (Transmitter_ack_bogus t _ _ _ _ 5 [] true Hinv); [lia|]. right. right.
    exists 65541. split; [lia|reflexivity].
Defined.

Lemma Transmitter_updateRecvHimark_monotone_witness :
  ∃ t updated t' H', tx_demo_sent = Some t
    ∧ Transmitter_updateRecvHimark t true 4 = Some (updated, t')
    ∧ 65539 ≤ H' ∧ tx_recv_himark t' = u16 H'
    ∧ option_map fst (tx_demo_sent ≫= λ t, Transmitter_updateRecvHimark t true 4) = Some true.
Proof.
  destruct tx_demo_sent_ok as (t & F & Ht & Hinv & _).
  destruct (Transmitter_updateRecvHimark_monotone t _ _ _ _ 4 true Hinv)
    as (u & t' & H' & Hu & Hinv' & HH & _); [lia|].
  exists t, u, t', H'. do 3 (split; [done|]).
  split; [apply (tw_himark _ _ _ _ (ti_wf _ _ _ _ _ Hinv'))|]. vm_compute. reflexivity.
Defined.

Lemma Transmitter_close_ends_stream_witness :
  ∃ t t', tx_demo_sent = Some t ∧ Transmitter_close t = Some t'
    ∧ tx_end_of_stream t' = true ∧ Transmitter_tryWrite t' [1] = Some (0, false, t').
Proof.
  destruct tx_demo_sent_ok as (t & F & Ht & Hinv & _ & Hst & _ & _ & He).
  destruct (Transmitter_close_ends_stream t _ _ _ _ Hinv) as (t' & E' & Hc & _ & Hw & Hres).
  exists t, t'. rewrite decide_True in Hres by (split; [by right|done]).
  destruct Hres as (? & _). auto.
Defined.

(** A stream closed before the handshake completes keeps the control bit of the
    previous session in its end-of-stream packet: here the peer expects 1. *)
Theorem Transmitter_close_before_connect :
  (t ← Transmitter_new 2 (replicate 250 0) 0;
   t ← Transmitter_init t 7 100;
   t ← Transmitter_close t;
   '(packet, _, t) ← Transmitter_send (Transmitter_setConnected 4 true t) 1000 5 0;
   Some (GetPacketControlBit (LoadBeU16 packet), tx_control_bit t)) = Some (false, true).
Proof. vm_compute. reflexivity. Qed.
