(* ===== verification/TransmitterAck.v ===== *)
(** * TransmitterAck: exactly what an acknowledgment does

    [Transmitter_ack] packet by packet: which packets leave the queue, which are marked as
    acknowledged, which are rushed, and where sending goes on. *)

From S2P Require Import Prelude.
From S2P Require Import SeqNum.
From S2P Require Import RingBuffer.
From S2P Require Import RooIo.
From S2P Require Import Protocol.
From S2P Require Import Buffers.
From S2P Require Import Transmitter.
From S2P Require Import TransmitterSpec.
From S2P Require Import TransmitterProofs.
From S2P Require Import TransmitterCorrect.

Local Open Scope Z_scope.
Local Open Scope roo_scope.

(** ** The specification *)

(** Position [q] is named by the bitmap of an acknowledgment, when the queue starts at [M]. *)
Definition named (M : Z) (bitmap : list byte) (q : Z) : bool :=
  (M <? q) && skip_ack bitmap (Z.to_nat (q - M - 1)).

(** A later packet of the queue is named. *)
Definition overtaken (M E : Z) (bitmap : list byte) (q : Z) : bool :=
  existsb (named M bitmap) (seqZ (q + 1) (E - q - 1)).

(** Not acknowledged, and sent once. *)
Definition rush_due (b : OutBuffer) : bool := negb (ob_acked b) && (ob_send_counter b =? 1).

(** What becomes of the packet of position [q]. *)
Definition ack_effect {pf : Platform} (M E : Z) (bitmap : list byte) (q : Z) (b : OutBuffer) : option OutBuffer :=
  if named M bitmap q then Some (OutBuffer_ack b)
  else if overtaken M E bitmap q && rush_due b then OutBuffer_rush b else Some b.

(** The packets that the peer seems to have missed, in order. *)
Definition missed (t : Transmitter) (M E : Z) (bitmap : list byte) : list Z :=
  filter (λ q, match tx_out_buffers t !! tx_slot t q with
               | Some b => negb (named M bitmap q) && overtaken M E bitmap q && rush_due b
               | None => false
               end = true) (seqZ M (E - M)).

(** Nothing passes a filter that fails everywhere. *)
Lemma filter_none {A} (P : A → Prop) `{∀ x, Decision (P x)} (l : list A) : Forall (λ x, ¬ P x) l → filter P l = [].
Proof. induction 1 as [|x l Hx _ IH]; [done|]. by rewrite filter_cons_False. Qed.

Section Exact.

Context {io : RooIo} {io_laws : RooIoLaws} {pf : Platform}.

Section Queue.

Context (B E H : Z).

(** ** The bitmap *)

(** The packets P + k of the queue with k < n and [f k] become acknowledged; L' is the last
    of them, or L if there is none. *)
Record tx_marked (f : nat → bool) (n : nat) (P L L' : Z) (t t' : Transmitter) : Prop := {
  tm_kept : tx_kept t t';
  tm_next : tx_next_to_send t' = tx_next_to_send t;
  tm_at : ∀ q, B ≤ q < E → tx_out_buffers t' !! tx_slot t q
    = (λ b, if bool_decide (P ≤ q < P + Z.of_nat n) && f (Z.to_nat (q - P)) then OutBuffer_ack b else b)
      <$> (tx_out_buffers t !! tx_slot t q);
  tm_last : (L' = L ∧ ∀ k, (k < n)%nat → P + Z.of_nat k < E → f k = false)
    ∨ ∃ k, (k < n)%nat ∧ L' = P + Z.of_nat k ∧ L' < E ∧ f k = true
        ∧ ∀ j, (k < j < n)%nat → P + Z.of_nat j < E → f j = false;
}.

Lemma tx_marked_nil f P L t : tx_wf t B E H → tx_marked f 0 P L L t t.
Proof.
  intros Hwf. constructor; [by eapply tx_kept_refl|done| |left; split; [done|lia]].
  intros q Hq. rewrite bool_decide_false by lia. cbn. by rewrite option_fmap_id.
Qed.

Lemma tx_marked_app f g h m n P L L1 L2 t t1 t2 :
  tx_marked f m P L L1 t t1 → tx_marked g n (P + Z.of_nat m) L1 L2 t1 t2 →
  (∀ k, (k < m)%nat → h k = f k) → (∀ k, (k < n)%nat → h (m + k)%nat = g k) →
  tx_marked h (m + n) P L L2 t t2.
Proof.
  intros [K1 N1 A1 L1'] [K2 N2 A2 L2'] Hf Hg. constructor; [by eapply tx_kept_trans|congruence| |].
  - intros q Hq. rewrite <- (tx_kept_slot _ _ K1), A2, (tx_kept_slot _ _ K1), A1, <- option_fmap_compose by done.
    apply option_fmap_ext. intros b. cbn.
    destruct (decide (P ≤ q < P + Z.of_nat m)).
    + rewrite (bool_decide_false (P + Z.of_nat m ≤ _ < _)), !bool_decide_true, Hf by lia. done.
    + rewrite (bool_decide_false (P ≤ q < P + Z.of_nat m)) by lia. cbn [andb].
      destruct (decide (P + Z.of_nat m ≤ q < P + Z.of_nat m + Z.of_nat n)).
      * rewrite !bool_decide_true by lia. cbn [andb].
        replace (Z.to_nat (q - P)) with (m + Z.to_nat (q - (P + Z.of_nat m)))%nat by lia. by rewrite Hg by lia.
      * by rewrite !bool_decide_false by lia.
  - destruct L2' as [[-> Hn2]|(k & Hk & -> & HkE & Hgk & Hn2)].
    + assert (Hrest : ∀ j, (m ≤ j < m + n)%nat → P + Z.of_nat j < E → h j = false).
      { intros j Hj HjE. replace j with (m + (j - m))%nat by lia. rewrite Hg by lia. apply Hn2; lia. }
      destruct L1' as [[-> Hn1]|(k & Hk & -> & HkE & Hfk & Hn1)].
      * left. split; [done|]. intros j Hj HjE. destruct (decide (j < m)%nat); [rewrite Hf by done; auto|apply Hrest; lia].
      * right. exists k. split_and!; [lia|done|done|by rewrite Hf|]. intros j Hj HjE.
        destruct (decide (j < m)%nat); [rewrite Hf by done; apply Hn1; lia|apply Hrest; lia].
    + right. exists (m + k)%nat. split_and!; [lia|lia|done|by rewrite Hg|]. intros j Hj HjE.
      replace j with (m + (j - m))%nat by lia. rewrite Hg by lia. apply Hn2; lia.
Qed.

(** One bit. *)
Lemma tx_marked_one f P L t b :
  tx_wf t B E H → B ≤ P < E → tx_out_buffers t !! tx_slot t P = Some b → f 0%nat = true →
  tx_marked f 1 P L P t (tx_set_buffer (tx_slot t P) (OutBuffer_ack b) t).
Proof.
  intros Hwf HP Hb Hf. assert (Hwb : out_buffer_wf b) by (eapply Forall_lookup_1, Hb; apply Hwf).
  constructor; [eapply tx_set_buffer_kept; eauto using buffer_ack_kept|done| |].
  - intros q Hq. cbn. destruct (decide (q = P)) as [->|Hne].
    + rewrite list_lookup_insert_eq by (by eapply tx_slot_lt). rewrite Hb, bool_decide_true, Z.sub_diag by lia.
      change (Z.to_nat 0) with 0%nat. by rewrite Hf.
    + rewrite list_lookup_insert_ne by (intros Heq%(tx_slot_inj _ _ _ _ Hwf); lia).
      rewrite bool_decide_false by lia. cbn. by rewrite option_fmap_id.
  - right. exists 0%nat. split_and!; [lia|lia|lia|done|lia].
Qed.

Definition bit_of (val : Z) (j : nat) : bool := negb (Z.land val (Z.shiftl 1 (Z.of_nat j)) =? 0).

Lemma tx_ack_bits_exact i val :
  ∀ t P L, tx_wf t B E H → B < P → P + Z.of_nat i ≤ B + 20000 →
  ∃ t' L', Transmitter_ack_bits i t val (u16 P) (u16 L) = Some (t', u16 (P + Z.of_nat i), u16 L')
    ∧ tx_marked (λ k, bit_of val (i - 1 - k)) i P L L' t t'.
Proof.
  induction i as [|i IH]; intros t P L Hwf HP Hreach; cbn [Transmitter_ack_bits].
  { exists t, L. rewrite Z.add_0_r. split; [done|by apply tx_marked_nil]. }
  pose proof (tw_ring _ _ _ _ Hwf) as Hr. pose proof (ring_size_bounds _ _ _ Hr).
  rewrite (ring_contains _ _ _ Hr), (proj2 (Z.leb_le B P)), SeqNum_incr_pos by lia. cbn [andb].
  fold (bit_of val i). replace (P + Z.of_nat (S i)) with (P + 1 + Z.of_nat i) by lia.
  set (f := λ k, bit_of val (S i - 1 - k)).
  assert (Hrest : ∀ t1 L1, tx_marked f 1 P L L1 t t1 →
    ∃ t' L', Transmitter_ack_bits i t1 val (u16 (P + 1)) (u16 L1)
             = Some (t', u16 (P + 1 + Z.of_nat i), u16 L') ∧ tx_marked f (S i) P L L' t t').
  { intros t1 L1 Hm. destruct (IH t1 (P + 1) L1) as (t' & L' & Hx & Hm'); [|lia|lia|].
    { eapply tx_kept_wf; [exact Hwf|apply Hm]. }
    exists t', L'. split; [done|]. eapply (tx_marked_app f _ f 1 i); [exact Hm|exact Hm'|done|].
    intros k Hk. unfold f. f_equal. lia. }
  assert (Hf0 : f 0%nat = bit_of val i) by (unfold f; f_equal; lia).
  destruct (Z.ltb_spec P E); [destruct (bit_of val i) eqn:Hbit|]; cbn [andb].
  - rewrite (bind_step _ _ _ (tx_getOutBuffer _ _ _ _ Hwf P ltac:(lia))).
    destruct (tx_slot_lookup _ _ _ _ Hwf P) as (b & Hb & Hwb). rewrite (bind_step _ _ _ Hb). cbn [mbind option_bind].
    apply Hrest. by apply tx_marked_one; [|lia|..].
  - cbn [mbind option_bind]. apply Hrest. constructor; [by eapply tx_kept_refl|done| |].
    + intros q Hq. destruct (decide (q = P)) as [->|].
      * rewrite Z.sub_diag. change (Z.to_nat 0) with 0%nat. rewrite Hf0, andb_false_r. by rewrite option_fmap_id.
      * rewrite bool_decide_false by lia. cbn. by rewrite option_fmap_id.
    + left. split; [done|]. intros [|k] Hk _; [done|lia].
  - cbn [mbind option_bind]. apply Hrest. constructor; [by eapply tx_kept_refl|done| |].
    + intros q Hq. rewrite bool_decide_false by lia. cbn. by rewrite option_fmap_id.
    + left. split; [done|]. intros k Hk HkE. lia.
Qed.

Lemma skip_ack_head val bitmap k : (k < 8)%nat → skip_ack (val :: bitmap) k = bit_of val (8 - 1 - k).
Proof.
  intros Hk. unfold skip_ack, bit_of. rewrite Nat.div_small, Nat.mod_small by lia. cbn [lookup list_lookup].
  by replace (7 - Z.of_nat k) with (Z.of_nat (8 - 1 - k)) by lia.
Qed.

Lemma skip_ack_tail val bitmap k : skip_ack (val :: bitmap) (8 + k) = skip_ack bitmap k.
Proof.
  unfold skip_ack.
  replace ((8 + k) / 8)%nat with (S (k / 8)) by (rewrite <- (Nat.div_add_l 1 8) by lia; f_equal; lia).
  replace ((8 + k) mod 8)%nat with (k mod 8)%nat; [done|].
  replace (8 + k)%nat with (k + 1 * 8)%nat by lia. symmetry. apply Nat.Div0.mod_add.
Qed.

Lemma tx_ack_bitmap_exact bitmap :
  ∀ t P L, tx_wf t B E H → B < P → P + 8 * Z.of_nat (length bitmap) ≤ B + 20000 →
  ∃ t' L', Transmitter_ack_bitmap t bitmap (u16 P) (u16 L) = Some (t', u16 L')
    ∧ tx_marked (skip_ack bitmap) (8 * length bitmap) P L L' t t'.
Proof.
  induction bitmap as [|val bitmap IH]; intros t P L Hwf HP Hreach; cbn [Transmitter_ack_bitmap].
  { exists t, L. split; [done|by apply tx_marked_nil]. }
  cbn [length] in Hreach.
  destruct (tx_ack_bits_exact 8 val t P L Hwf HP) as (t1 & L1 & Hb & Hm1); [lia|]. rewrite (bind_step _ _ _ Hb).
  destruct (IH t1 (P + 8) L1) as (t' & L' & Hx & Hm2); [by eapply tx_kept_wf; [|apply Hm1]|lia|lia|].
  exists t', L'. split; [exact Hx|].
  replace (8 * length (val :: bitmap))%nat with (8 + 8 * length bitmap)%nat by (cbn [length]; lia).
  eapply tx_marked_app; [exact Hm1|exact Hm2|apply skip_ack_head|intros k _; apply skip_ack_tail].
Qed.

(** ** The rush *)

(** The due packets of P to L - 1 are rushed, and sending goes on at the first of them,
    unless [upd] says that it does already. *)
Record tx_rushed (P L : Z) (rushed upd r : bool) (t t' : Transmitter) : Prop := {
  tr_kept : tx_kept t t';
  tr_at : ∀ q, B ≤ q < E → tx_out_buffers t' !! tx_slot t q
    = b ← tx_out_buffers t !! tx_slot t q;
      if bool_decide (P ≤ q < L) && rush_due b then OutBuffer_rush b else Some b;
  tr_some : (∃ q b, P ≤ q < L ∧ tx_out_buffers t !! tx_slot t q = Some b ∧ rush_due b = true
      ∧ (∀ q' b', P ≤ q' < q → tx_out_buffers t !! tx_slot t q' = Some b' → rush_due b' = false)
      ∧ r = true ∧ tx_next_to_send t' = (if upd then tx_next_to_send t else u16 q))
    ∨ (∀ q b, P ≤ q < L → tx_out_buffers t !! tx_slot t q = Some b → rush_due b = false)
      ∧ r = rushed ∧ tx_next_to_send t' = tx_next_to_send t;
}.

Lemma tx_rush_one t p b upd :
  tx_wf t B E H → B ≤ p < E → tx_out_buffers t !! tx_slot t p = Some b → rush_due b = true →
  ∃ b', OutBuffer_rush b = Some b'
    ∧ let t1 := tx_set_buffer (tx_slot t p) b' t in
      let t1 := if upd : bool then t1 else tx_with_next_to_send (u16 p) t1 in
      tx_kept t t1 ∧ tx_next_to_send t1 = (if upd then tx_next_to_send t else u16 p)
      ∧ tx_out_buffers t1 !! tx_slot t p = Some b'
      ∧ ∀ q, B ≤ q < E → q ≠ p → tx_out_buffers t1 !! tx_slot t q = tx_out_buffers t !! tx_slot t q.
Proof.
  intros Hwf Hp Hb Hd. assert (Hwb : out_buffer_wf b) by (eapply Forall_lookup_1, Hb; apply Hwf).
  apply andb_true_iff in Hd as [_ Hc%Z.eqb_eq].
  destruct (OutBuffer_rush_spec b Hwb) as (b' & Hr & Hwb' & Hsb & Ha & Hf & Hfl & Hcnt & He); [lia|].
  assert (Hk : buffer_kept b b') by (constructor; rewrite ?Hf, ?Ha, ?Hfl, ?Hcnt; done || lia).
  pose proof (tx_set_buffer_kept _ _ _ _ Hwf _ _ _ Hb Hk) as HK. exists b'. split; [done|]. cbv zeta.
  assert (Hbufs : ∀ u : bool, tx_out_buffers (if u then tx_set_buffer (tx_slot t p) b' t
      else tx_with_next_to_send (u16 p) (tx_set_buffer (tx_slot t p) b' t))
    = <[tx_slot t p:=b']> (tx_out_buffers t)) by (by intros []).
  split; [|split; [by destruct upd|]].
  - destruct upd; [done|]. eapply tx_kept_trans; [done|]. eapply tx_with_next_to_send_kept, tx_kept_wf; done.
  - rewrite Hbufs. split; [apply list_lookup_insert_eq; by eapply tx_slot_lt|]. intros q Hq Hne.
    apply list_lookup_insert_ne. intros Heq%(tx_slot_inj _ _ _ _ Hwf); lia.
Qed.

Lemma tx_ack_rush_exact fuel L :
  ∀ t P rushed upd, tx_wf t B E H → B ≤ P ≤ L → L < E → (Z.to_nat (L - P) < fuel)%nat →
  ∃ r t', Transmitter_ack_rush fuel t (u16 P) (u16 L) rushed upd = Some (r, t')
    ∧ tx_rushed P L rushed upd r t t'.
Proof.
  induction fuel as [|fuel IH]; intros t P rushed upd Hwf HP HL Hfuel; [lia|].
  cbn [Transmitter_ack_rush]. pose proof (ring_size_bounds _ _ _ (tw_ring _ _ _ _ Hwf)).
  rewrite SeqNum_ne_pos, SeqNum_incr_pos by lia.
  destruct (Z.eqb_spec P L) as [->|Hne]; cbn [negb].
  { exists rushed, t. split; [done|]. constructor; [by eapply tx_kept_refl| |right; split; [lia|done]].
    intros q Hq. rewrite bool_decide_false by lia. by destruct (_ !! _). }
  rewrite (bind_step _ _ _ (tx_getOutBuffer _ _ _ _ Hwf P ltac:(lia))).
  destruct (tx_slot_lookup _ _ _ _ Hwf P) as (b & Hb & Hwb). rewrite (bind_step _ _ _ Hb).
  fold (rush_due b). destruct (rush_due b) eqn:Hd.
  - destruct (tx_rush_one t P b upd Hwf ltac:(lia) Hb Hd) as (b' & Hr & HK & Hnx & Hat & Hoth).
    rewrite (bind_step _ _ _ Hr). cbv zeta in *.
    edestruct (IH _ (P + 1) true true (tx_kept_wf _ _ _ _ Hwf _ HK)) as (r & t' & Hl & [K A S]); [lia..|].
    exists r, t'. split; [exact Hl|]. constructor; [by eapply tx_kept_trans| |].
    + intros q Hq. rewrite <- (tx_kept_slot _ _ HK), A, (tx_kept_slot _ _ HK) by done.
      destruct (decide (q = P)) as [->|].
      * rewrite Hat, Hb, (bool_decide_false (P + 1 ≤ _ < _)), (bool_decide_true (P ≤ _ < _)) by lia. cbn. by rewrite Hd, Hr.
      * rewrite Hoth by done. destruct (_ !! _); [|done]. cbn.
        by rewrite (bool_decide_ext (P + 1 ≤ q < L) (P ≤ q < L)) by lia.
    + left. exists P, b. split_and!; [lia|lia|done|done|lia|..].
      * by destruct S as [(? & ? & _ & _ & _ & _ & -> & _)|(_ & -> & _)].
      * by destruct S as [(? & ? & _ & _ & _ & _ & _ & ->)|(_ & _ & ->)].
  - destruct (IH t (P + 1) rushed upd Hwf) as (r & t' & Hl & [K A S]); [lia..|].
    exists r, t'. split; [exact Hl|]. constructor; [done| |].
    + intros q Hq. rewrite A by done. destruct (decide (q = P)) as [->|].
      * rewrite Hb. cbn. by rewrite Hd, !andb_false_r.
      * by rewrite (bool_decide_ext (P + 1 ≤ q < L) (P ≤ q < L)) by lia.
    + destruct S as [(q & bq & Hq & Hbq & Hdq & Hbefore & Hr & Hn)|(Hno & Hr & Hn)].
      * left. exists q, bq. split_and!; [lia|lia|done|done| |done|done]. intros q' b1 Hq' Hb1.
        destruct (decide (q' = P)) as [->|]; [congruence|apply (Hbefore q'); [lia|done]].
      * right. split_and!; [|done|done]. intros q bq Hq Hbq.
        destruct (decide (q = P)) as [->|]; [congruence|apply (Hno q); [lia|done]].
Qed.

(** ** Both *)

Lemma named_marked bitmap q :
  B ≤ q → bool_decide (B + 1 ≤ q < B + 1 + Z.of_nat (8 * length bitmap)) && skip_ack bitmap (Z.to_nat (q - (B + 1)))
  = named B bitmap q.
Proof.
  intros Hq. unfold named. replace (q - (B + 1)) with (q - B - 1) by lia.
  destruct (Z.ltb_spec B q); [|by rewrite bool_decide_false by lia].
  destruct (decide (q < B + 1 + Z.of_nat (8 * length bitmap))); [by rewrite bool_decide_true by lia|].
  rewrite bool_decide_false, skip_ack_short by lia. done.
Qed.

Lemma overtaken_true bitmap q : overtaken B E bitmap q = true ↔ ∃ q', q < q' < E ∧ named B bitmap q' = true.
Proof.
  unfold overtaken. rewrite existsb_exists. split; intros (q' & Hq' & Hn); exists q'; (split; [|done]).
  - apply list_elem_of_In, elem_of_seqZ in Hq'. lia.
  - apply list_elem_of_In, elem_of_seqZ. lia.
Qed.

(** Whether [q] has been missed, in the queue before and after the bitmap. *)
Lemma missed_after bitmap L t t1 q b1 :
  tx_marked (skip_ack bitmap) (8 * length bitmap) (B + 1) (B - 1) L t t1 → B ≤ q < E →
  tx_out_buffers t1 !! tx_slot t q = Some b1 →
  ∃ b, tx_out_buffers t !! tx_slot t q = Some b ∧ b1 = (if named B bitmap q then OutBuffer_ack b else b)
    ∧ rush_due b1 = negb (named B bitmap q) && rush_due b.
Proof.
  intros Hm Hq. rewrite (tm_at _ _ _ _ _ _ _ Hm) by done. rewrite named_marked by lia.
  destruct (_ !! _) as [b|]; [|done]. intros [= <-]. exists b. split; [done|]. split; [done|].
  by destruct (named _ _ _).
Qed.

Lemma overtaken_last bitmap L t t1 q :
  tx_marked (skip_ack bitmap) (8 * length bitmap) (B + 1) (B - 1) L t t1 → B ≤ q < E →
  overtaken B E bitmap q = bool_decide (q < L).
Proof.
  intros Hm Hq. apply eq_bool_prop_intro. rewrite bool_decide_spec, Is_true_true, overtaken_true.
  assert (Hk : ∀ q', B < q' → named B bitmap q' = true →
    q' = B + 1 + Z.of_nat (Z.to_nat (q' - B - 1)) ∧ (Z.to_nat (q' - B - 1) < 8 * length bitmap)%nat
    ∧ skip_ack bitmap (Z.to_nat (q' - B - 1)) = true).
  { intros q' Hq' [_ Hn]%andb_true_iff. split; [lia|]. split; [|done].
    destruct (decide (Z.to_nat (q' - B - 1) < 8 * length bitmap)%nat); [done|].
    rewrite skip_ack_short in Hn by lia. done. }
  destruct (tm_last _ _ _ _ _ _ _ Hm) as [[-> Hno]|(k & Hlt & -> & HkE & Hf & Hafter)].
  - split; [|lia]. intros (q' & Hq' & Hn). destruct (Hk q' ltac:(lia) Hn) as (He & Hlt & Hs).
    rewrite (Hno _ Hlt ltac:(lia)) in Hs. done.
  - split.
    + intros (q' & Hq' & Hn). destruct (Hk q' ltac:(lia) Hn) as (He & Hlt' & Hs).
      destruct (decide (k < Z.to_nat (q' - B - 1))%nat); [|lia]. rewrite Hafter in Hs by lia. done.
    + intros Hql. exists (B + 1 + Z.of_nat k). split; [lia|]. unfold named.
      rewrite (proj2 (Z.ltb_lt _ _)) by lia. cbn [andb].
      by replace (Z.to_nat (B + 1 + Z.of_nat k - B - 1)) with k by lia.
Qed.

(** The first packet that has been missed. *)
Lemma missed_head t bitmap q b :
  B ≤ q < E → tx_out_buffers t !! tx_slot t q = Some b →
  negb (named B bitmap q) && overtaken B E bitmap q && rush_due b = true →
  (∀ q' b', B ≤ q' < q → tx_out_buffers t !! tx_slot t q' = Some b' →
     negb (named B bitmap q') && overtaken B E bitmap q' && rush_due b' = false) →
  ∃ rest, missed t B E bitmap = q :: rest.
Proof.
  intros Hq Hb Hd Hbefore. unfold missed. replace (E - B) with ((q - B) + (1 + (E - q - 1))) by lia.
  rewrite !seqZ_app, !filter_app by lia. rewrite (filter_none _ (seqZ B _)); cycle 1.
  { apply Forall_forall. intros q' Hq'%elem_of_seqZ.
    destruct (tx_out_buffers t !! tx_slot t q') as [b'|] eqn:Hb'; [|done].
    rewrite (Hbefore q' b'); [done|lia|done]. }
  replace (B + (q - B)) with q by lia. cbn [app]. rewrite (seqZ_cons q 1) by lia. cbn [app].
  rewrite filter_cons_True by (by rewrite Hb). by eexists.
Qed.

Lemma missed_nil t bitmap :
  (∀ q b, B ≤ q < E → tx_out_buffers t !! tx_slot t q = Some b →
     negb (named B bitmap q) && overtaken B E bitmap q && rush_due b = false) →
  missed t B E bitmap = [].
Proof.
  intros Hno. apply filter_none, Forall_forall. intros q Hq%elem_of_seqZ.
  destruct (tx_out_buffers t !! tx_slot t q) as [b|] eqn:Hb; [|done]. rewrite (Hno q b); [done|lia|done].
Qed.

Lemma tx_ack_skips_exact t bitmap :
  tx_wf t B E H → B < E → (length bitmap ≤ 248)%nat →
  ∃ t', (let begin := rb_begin (tx_out_ring t) in
           '(t, last_acked) ←
             Transmitter_ack_bitmap t bitmap (SeqNum_add begin 1) (SeqNum_sub begin 1);
           if RingBuffer_contains (tx_out_ring t) last_acked then
             Transmitter_ack_rush (S (Z.to_nat (RingBuffer_slotsUsed (tx_out_ring t)))) t
               (rb_begin (tx_out_ring t)) last_acked false false
           else Some (false, t)) = Some (bool_decide (missed t B E bitmap ≠ []), t')
    ∧ tx_kept t t'
    ∧ (∀ q b, B ≤ q < E → tx_out_buffers t !! tx_slot t q = Some b →
         tx_out_buffers t' !! tx_slot t q = ack_effect B E bitmap q b)
    ∧ tx_next_to_send t' = default (tx_next_to_send t) (u16 <$> head (missed t B E bitmap)).
Proof.
  intros Hwf HBE Hlen. cbv zeta. pose proof (tw_ring _ _ _ _ Hwf) as Hr. rewrite (ra_begin _ _ _ Hr).
  rewrite SeqNum_add_pos, SeqNum_sub_pos. pose proof (ring_size_bounds _ _ _ Hr).
  destruct (tx_ack_bitmap_exact bitmap t (B + 1) (B - 1) Hwf) as (t1 & L & Hb & Hm); [lia|lia|].
  rewrite (bind_step _ _ _ Hb). cbn beta iota. pose proof (tm_kept _ _ _ _ _ _ _ Hm) as HK1.
  assert (tx_out_ring t1 = tx_out_ring t) as -> by (by rewrite (tk_frame _ _ HK1)).
  assert (HL : L = B - 1 ∨ B < L < E).
  { destruct (tm_last _ _ _ _ _ _ _ Hm) as [[? _]|(k & _ & ? & ? & _)]; [by left|right; lia]. }
  rewrite (ring_contains _ _ _ Hr), (ring_slotsUsed _ _ _ Hr), (ra_begin _ _ _ Hr) by lia.
  assert (Hat1 : ∀ q b, B ≤ q < E → tx_out_buffers t !! tx_slot t q = Some b →
    tx_out_buffers t1 !! tx_slot t q = Some (if named B bitmap q then OutBuffer_ack b else b)).
  { intros q b Hq Hbq. rewrite (tm_at _ _ _ _ _ _ _ Hm), Hbq, named_marked by lia. done. }
  destruct (Z.leb_spec B L) as [HBL|HBL]; cbn [andb].
  2: { assert (Hnil : missed t B E bitmap = []).
       { apply missed_nil. intros q b Hq _. rewrite (overtaken_last bitmap L t t1 q Hm Hq), bool_decide_false by lia.
         by rewrite andb_false_r. }
       exists t1. rewrite Hnil. split; [done|]. split; [done|]. split; [|apply Hm].
       intros q b Hq Hbq. rewrite (Hat1 q b Hq Hbq). unfold ack_effect.
       rewrite (overtaken_last bitmap L t t1 q Hm Hq), bool_decide_false by lia. by destruct (named _ _ _). }
  rewrite (proj2 (Z.ltb_lt L E)) by lia.
  destruct (tx_ack_rush_exact (S (Z.to_nat (E - B))) L t1 B false false (tx_kept_wf _ _ _ _ Hwf _ HK1))
    as (r & t' & Hl & [K A S]); [lia..|]. pose proof (tx_kept_slot _ _ HK1) as Hslot.
  assert (Hdue : ∀ q b1, B ≤ q < L → tx_out_buffers t1 !! tx_slot t1 q = Some b1 →
    ∃ b, tx_out_buffers t !! tx_slot t q = Some b
      ∧ rush_due b1 = negb (named B bitmap q) && overtaken B E bitmap q && rush_due b).
  { intros q b1 Hq Hb1. rewrite Hslot in Hb1.
    destruct (missed_after bitmap L t t1 q b1 Hm ltac:(lia) Hb1) as (b & Hbq & _ & ->). exists b. split; [done|].
    rewrite (overtaken_last bitmap L t t1 q Hm), bool_decide_true, andb_true_r by lia. done. }
  assert (Hmissed : r = bool_decide (missed t B E bitmap ≠ [])
    ∧ tx_next_to_send t' = default (tx_next_to_send t) (u16 <$> head (missed t B E bitmap))).
  { rewrite <- (tm_next _ _ _ _ _ _ _ Hm). destruct S as [(q & b1 & Hq & Hb1 & Hd & Hbefore & -> & ->)|(Hno & -> & ->)].
    - destruct (Hdue q b1 Hq Hb1) as (b & Hbq & Hd'). rewrite Hd in Hd'.
      destruct (missed_head t bitmap q b ltac:(lia) Hbq (eq_sym Hd')) as [rest ->]; [|done].
      intros q' b' Hq' Hb'. specialize (Hat1 q' b' ltac:(lia) Hb'). rewrite <- Hslot in Hat1.
      destruct (Hdue q' _ ltac:(lia) Hat1) as (b2 & Hb2 & Hd2). rewrite Hb' in Hb2. injection Hb2 as <-.
      rewrite <- Hd2. by apply (Hbefore q'); [lia|].
    - rewrite missed_nil; [done|]. intros q b Hq Hbq. destruct (decide (q < L)).
      + specialize (Hat1 q b Hq Hbq). rewrite <- Hslot in Hat1.
        destruct (Hdue q _ ltac:(lia) Hat1) as (b2 & Hb2 & Hd2). rewrite Hbq in Hb2. injection Hb2 as <-.
        rewrite <- Hd2. by apply (Hno q); [lia|].
      + rewrite (overtaken_last bitmap L t t1 q Hm Hq), bool_decide_false by lia. by rewrite andb_false_r. }
  destruct Hmissed as [<- Hnx]. exists t'. split; [exact Hl|]. split; [by eapply tx_kept_trans|]. split; [|done].
  intros q b Hq Hbq. rewrite <- Hslot, A, Hslot, (Hat1 q b Hq Hbq) by done. cbn. unfold ack_effect.
  rewrite (overtaken_last bitmap L t t1 q Hm Hq), (bool_decide_ext (B ≤ q < L) (q < L)) by lia.
  destruct (named _ _ _); [|done]. by rewrite andb_false_r.
Qed.

End Queue.

(** ** The whole acknowledgment *)

Lemma tx_ack_pop_next fuel seq : ∀ t t', Transmitter_ack_pop fuel t seq = Some t' → tx_next_to_send t' = tx_next_to_send t.
Proof.
  induction fuel as [|fuel IH]; intros t t'; cbn [Transmitter_ack_pop]; [done|].
  destruct (_ && _); [|by intros [= <-]]. intros Hx. inv_bind Hx. rewrite (IH _ _ Hx).
  unfold Transmitter_popAcked in E. inv_bind E. destruct p as [p ring]. cbn beta iota zeta in E.
  destruct (tx_has_pending_eof _); [|by injection E as <-]. inv_bind E. injection E as <-. cbn.
  unfold Transmitter_addEosPacket in E1. inv_bind E1. destruct p0 as [pos ring']. inv_bind E1. by injection E1 as <-.
Qed.

(** The end-of-stream packet that may have entered the queue is not missed. *)
Lemma missed_ext t t1 M E E' bitmap :
  tx_queue_ext t t1 M E E' → M ≤ E → (∀ q, named M bitmap q = true → q < E) →
  missed t1 M E' bitmap = missed t M E bitmap
  ∧ ∀ q b, M ≤ q < E → ack_effect M E' bitmap q b = ack_effect M E bitmap q b.
Proof.
  intros Hq HME Hn. pose proof (qe_grow _ _ _ _ _ Hq).
  assert (Ho : ∀ q, overtaken M E' bitmap q = overtaken M E bitmap q).
  { intros q. apply eq_bool_prop_intro. rewrite !Is_true_true, !overtaken_true.
    split; intros (q' & Hq' & Hn'); exists q'; (split; [|done]); specialize (Hn q' Hn'); lia. }
  split; [|intros q b _; unfold ack_effect; by rewrite Ho].
  unfold missed. replace (E' - M) with ((E - M) + (E' - E)) by lia. rewrite seqZ_app, filter_app by lia.
  rewrite (filter_none _ (seqZ (M + (E - M)) _)), app_nil_r.
  - assert (Hsame : ∀ l : list Z, (∀ q, q ∈ l → M ≤ q < E) →
      filter (λ q, match tx_out_buffers t1 !! tx_slot t1 q with
                   | Some b => negb (named M bitmap q) && overtaken M E' bitmap q && rush_due b
                   | None => false end = true) l
      = filter (λ q, match tx_out_buffers t !! tx_slot t q with
                   | Some b => negb (named M bitmap q) && overtaken M E bitmap q && rush_due b
                   | None => false end = true) l).
    { intros l. induction l as [|q l IH]; intros Hl; [done|]. rewrite !filter_cons, IH by set_solver.
      rewrite (qe_same _ _ _ _ _ Hq q) by set_solver. rewrite Ho. done. }
    apply Hsame. intros q Hq'%elem_of_seqZ. lia.
  - apply Forall_forall. intros q Hq'%elem_of_seqZ. destruct (tx_out_buffers t1 !! tx_slot t1 q); [|done].
    rewrite Ho. destruct (overtaken M E bitmap q) eqn:Hov; [|by rewrite andb_false_r].
    apply overtaken_true in Hov as (q' & Hq2 & _). lia.
Qed.


End Exact.

(** ** Witness *)

Definition demo_send (x : byte) (t : Transmitter) : option Transmitter :=
  '(_, _, t) ← Transmitter_tryWrite t [x];
  '(_, t) ← Transmitter_flush t;
  '(_, _, t) ← Transmitter_send t 1000 5 0;
  Some t.

(** The packets 65535, 65536 and 65537 have been sent once. *)
Definition tx_demo_three : option Transmitter :=
  t ← tx_demo_connected; t ← demo_send 1 t; t ← demo_send 2 t; demo_send 3 t.

Lemma demo_send_inv x t B E H F :
  tx_inv t B E H F → ∃ t' E' F', demo_send x t = Some t' ∧ tx_inv t' B E' H F'.
Proof.
  intros Hinv. destruct (tx_tryWrite_spec t B E H F [x] Hinv) as (n & r & t1 & E' & Hw & _ & Hinv1 & _).
  destruct (tx_flush_spec t1 _ _ _ _ Hinv1) as (r2 & t2 & Hf & Hinv2 & _).
  destruct (tx_send_spec t2 _ _ _ _ 1000 5 0 Hinv2 ltac:(cbn; lia)) as (p & nx & t3 & F' & Hs & Hinv3 & _).
  exists t3, E', F'. split; [|done]. unfold demo_send.
  by rewrite (bind_step _ _ _ Hw), (bind_step _ _ _ Hf), (bind_step _ _ _ Hs).
Qed.

Lemma tx_demo_three_ok :
  ∃ t F, tx_demo_three = Some t ∧ tx_inv t 65535 65538 65539 F.
Proof.
  destruct tx_demo_connected_ok as (t0 & Ht & Hinv & _).
  destruct (demo_send_inv 1 t0 _ _ _ _ Hinv) as (t1 & E1 & F1 & H1 & Hinv1).
  destruct (demo_send_inv 2 t1 _ _ _ _ Hinv1) as (t2 & E2 & F2 & H2 & Hinv2).
  destruct (demo_send_inv 3 t2 _ _ _ _ Hinv2) as (t3 & E3 & F3 & H3 & Hinv3).
  assert (Hd : tx_demo_three = Some t3)
    by (unfold tx_demo_three; by rewrite (bind_step _ _ _ Ht), (bind_step _ _ _ H1), (bind_step _ _ _ H2)).
  exists t3, F3. split; [done|].
  assert (Hend : rb_end (tx_out_ring t3) = 2)
    by (apply (demo_fact _ (λ t, rb_end (tx_out_ring t)) _ _ Hd); vm_compute; reflexivity).
  pose proof (tw_ring _ _ _ _ (ti_wf _ _ _ _ _ Hinv3)) as Hr. rewrite (ra_end _ _ _ Hr) in Hend.
  pose proof (ring_size_bounds _ _ _ Hr). by replace E3 with 65538 in Hinv3 by (clear Hinv3; wrap_lia).
Qed.

#[local] Opaque tx_demo_three.

