(* ===== verification/TransmitterLive.v ===== *)
(** * TransmitterLive: what makes the queue drain

    Facts about [Transmitter] that progress needs on top of the invariant: every queued
    packet has a payload (the receiver drops an empty one), the only packet that is still
    open is the one being filled (so that [flush] releases everything), and nothing but
    an acknowledgment marks a packet as acknowledged. *)

From S2P Require Import Prelude.
From S2P Require Import SeqNum.
From S2P Require Import RingBuffer.
From S2P Require Import RooIo.
From S2P Require Import Protocol.
From S2P Require Import Buffers.
From S2P Require Import Transmitter.
From S2P Require Import TransmitterSpec.
From S2P Require Import TransmitterProofs.
From S2P Require Import TransmitterCorrect.

Local Open Scope Z_scope.
Local Open Scope roo_scope.

(** A stream that is not closed. *)
Definition tx_live (t : Transmitter) (B E : Z) : Prop :=
  ∀ p b, B ≤ p < E → tx_out_buffers t !! tx_slot t p = Some b →
  ob_body b ≠ [] ∧ (ob_finished b = false → tx_current_out_buffer t = Some (tx_slot t p)).

(** The acknowledged packets of [t'] are among those of [t]. *)
Definition tx_acks_from (t t' : Transmitter) (B E E' : Z) : Prop :=
  ∀ p, B ≤ p < E' → tx_acked t' p → p < E ∧ tx_acked t p.

Section Live.

Context {io : RooIo} {io_laws : RooIoLaws} {pf : Platform} {pf_laws : PlatformLaws}.

Lemma tx_acks_from_same t t' B E :
  tx_kept t t' → tx_acks_same t t' → tx_acks_from t t' B E E.
Proof. intros HK Hs p Hp Ha. split; [lia|]. by eapply tx_acked_same. Qed.

Lemma tx_handed_out_acks t t' B E now p : tx_handed_out t t' B E now p → tx_acks_from t t' B E E.
Proof.
  intros [Hp HK Hun (b' & Hb' & _ & _ & Ha' & _) Ho] q Hq (bq & Hbq & Ha). split; [lia|].
  rewrite (tx_kept_slot _ _ HK) in Hbq. exists bq. split; [|done].
  destruct (decide (tx_slot t q = tx_slot t p)) as [Heq|Hne].
  - rewrite Heq in *. congruence.
  - by rewrite <- (Ho _ Hne).
Qed.

(** ** Writing *)

Lemma OutBuffer_write_fills b buf n b' :
  out_buffer_wf b → buf ≠ [] → OutBuffer_write b buf = Some (n, b') →
  ob_acked b' = ob_acked b ∧ if ob_finished b then b' = b else ob_body b' ≠ [].
Proof.
  intros Hwb Hbuf Hw. destruct (ob_finished b) eqn:Hfin.
  { unfold OutBuffer_write in Hw. rewrite Hfin in Hw. by injection Hw as <- <-. }
  destruct (OutBuffer_write_spec b buf Hwb Hfin) as (b2 & Hw2 & _ & _ & Hbody & _ & _ & Ha & _).
  rewrite Hw in Hw2. injection Hw2 as -> ->. split; [done|]. rewrite Hbody.
  pose proof (obw_open _ Hwb Hfin). destruct buf as [|x buf]; [done|].
  replace (Z.to_nat _) with (S (Z.to_nat (Z.min (Z.of_nat (length buf)) (247 - ob_size b)))) by (cbn [length]; lia).
  cbn. by intros [_ ?]%app_nil.
Qed.

(** The second half of an iteration fills the current buffer [i]. *)
Lemma tx_writeTo_live t B E H i b buf n finished t' :
  tx_wf t B E H → tx_current_out_buffer t = Some i → tx_out_buffers t !! i = Some b → buf ≠ [] →
  (∀ p bp, B ≤ p < E → tx_out_buffers t !! tx_slot t p = Some bp →
     (ob_body bp ≠ [] ∨ i = tx_slot t p ∧ ob_finished b = false)
     ∧ (ob_finished bp = false → i = tx_slot t p)) →
  Transmitter_writeTo t i buf = Some (n, finished, t') →
  tx_live t' B E ∧ tx_acks_from t t' B E E.
Proof.
  intros Hwf Hcur Hi Hbuf Hweak. unfold Transmitter_writeTo. rewrite (bind_step _ _ _ Hi).
  intros Heq. inv_bind Heq. destruct p as [written b']. injection Heq as <- <- <-.
  assert (Hwb : out_buffer_wf b) by (eapply Forall_lookup_1, Hi; apply Hwf).
  destruct (OutBuffer_write_fills _ _ _ _ Hwb Hbuf E0) as [Ha Hb'].
  assert (Hlook : ∀ p bp, tx_out_buffers (tx_set_buffer i b' t) !! tx_slot t p = Some bp →
    if decide (i = tx_slot t p) then bp = b' else tx_out_buffers t !! tx_slot t p = Some bp).
  { intros p bp. cbn. case_decide as Heq; [subst i|by rewrite list_lookup_insert_ne].
    rewrite list_lookup_insert_eq by (by eapply lookup_lt_Some). by intros [= <-]. }
  assert (Hslot : ∀ p, tx_slot (if ob_finished b' then tx_with_current_out_buffer None (tx_set_buffer i b' t)
      else tx_set_buffer i b' t) p = tx_slot t p) by (intros; by destruct (ob_finished b')).
  assert (Hbufs : tx_out_buffers (if ob_finished b' then tx_with_current_out_buffer None (tx_set_buffer i b' t)
      else tx_set_buffer i b' t) = tx_out_buffers (tx_set_buffer i b' t)) by (by destruct (ob_finished b')).
  split.
  - intros p bp Hp Hbp. rewrite Hbufs, Hslot in Hbp. apply Hlook in Hbp. rewrite Hslot.
    case_decide as Heq.
    + subst bp i. destruct (Hweak p b Hp Hi) as [Hbody _]. split.
      * destruct (ob_finished b); [|done]. subst b'. by destruct Hbody as [?|[_ ?]].
      * intros ->. cbn. by rewrite Hcur.
    + destruct (Hweak p bp Hp Hbp) as [Hbody Hopen]. split; [by destruct Hbody as [?|[? _]]|].
      intros Hf. by destruct Heq, Hopen.
  - intros p Hp (bp & Hbp & Hap). split; [lia|]. rewrite Hbufs, Hslot in Hbp. apply Hlook in Hbp.
    case_decide as Heq; [|by exists bp]. subst. exists b. split; [done|congruence].
Qed.

(** The first half finds it, or opens it. *)
Lemma tx_acquire_live t B E H i t1 :
  tx_wf t B E H → tx_active t → tx_end_of_stream t = false → tx_live t B E →
  Transmitter_acquire t = Some (Some (i, t1)) →
  ∃ E1 b, tx_wf t1 B E1 H ∧ E ≤ E1 ∧ tx_current_out_buffer t1 = Some i ∧ tx_out_buffers t1 !! i = Some b
    ∧ tx_acks_from t t1 B E E1
    ∧ ∀ p bp, B ≤ p < E1 → tx_out_buffers t1 !! tx_slot t1 p = Some bp →
        (ob_body bp ≠ [] ∨ i = tx_slot t1 p ∧ ob_finished b = false)
        ∧ (ob_finished bp = false → i = tx_slot t1 p).
Proof using io_laws.
  intros Hwf Hact Heos Hl Hacq. destruct (tx_current_out_buffer t) as [j|] eqn:Hcur.
  { unfold Transmitter_acquire in Hacq. rewrite Hcur in Hacq. injection Hacq as <- <-.
    destruct (tx_current_lookup _ _ _ _ Hwf j Hcur) as (b & Hb & _).
    exists E, b. split_and!; auto; [lia|intros p Hp ?; split; [lia|done]|]. intros p bp Hp Hbp.
    destruct (Hl p bp Hp Hbp) as [Hbody Hopen]. split; [by left|]. intros Hf%Hopen. congruence. }
  destruct (decide (H = E ∨ E - B = 2 ^ rb_log2 (tx_out_ring t))) as [Hblk|Hnb].
  { rewrite (tx_acquire_blocked t B E H) in Hacq; done. }
  pose proof (ra_size _ _ _ (tw_ring _ _ _ _ Hwf)).
  destruct (tw_credit _ _ _ _ Hwf Hact) as [Hc _]. rewrite Heos in Hc.
  destruct (tx_acquire_new _ _ _ _ Hwf Hact Heos Hcur) as (b & ring & t2 & Hacq2 & Ht2 & Hwf2 & Hlog & Hfresh);
    [lia|lia|]. rewrite Hacq in Hacq2. injection Hacq2 as -> ->.
  assert (Hslot : ∀ p, tx_slot t2 p = tx_slot t p) by (intros p; rewrite Ht2; unfold tx_slot; cbn; by rewrite Hlog).
  assert (Hnew : tx_out_buffers t2 !! tx_slot t E = Some b).
  { rewrite Ht2. cbn. apply list_lookup_insert_eq. by eapply tx_slot_lt. }
  assert (Hother : ∀ p, B ≤ p < E → tx_out_buffers t2 !! tx_slot t p = tx_out_buffers t !! tx_slot t p).
  { intros p Hp. rewrite Ht2. cbn. apply list_lookup_insert_ne. rewrite <- !Hslot.
    intros Heq%(tx_slot_inj _ _ _ _ Hwf2); lia. }
  exists (E + 1), b. split; [done|]. split; [lia|]. split; [by rewrite Ht2|]. split; [done|]. split.
  - intros p Hp (bp & Hbp & Hap). rewrite Hslot in Hbp. destruct (decide (p = E)) as [->|].
    + rewrite Hnew in Hbp. injection Hbp as <-. rewrite (obf_acked _ _ Hfresh) in Hap. done.
    + split; [lia|]. exists bp. split; [|done]. by rewrite <- Hother by lia.
  - intros p bp Hp. rewrite Hslot. destruct (decide (p = E)) as [->|].
    + rewrite Hnew. intros [= <-]. split; [right|done]. split; [done|]. apply Hfresh.
    + rewrite Hother by lia. intros Hbp. destruct (Hl p bp ltac:(lia) Hbp) as [Hbody Hopen].
      split; [by left|]. intros Hf%Hopen. congruence.
Qed.

Lemma tx_acks_from_trans t1 t2 t3 B E1 E2 E3 :
  tx_acks_from t1 t2 B E1 E2 → tx_acks_from t2 t3 B E2 E3 → tx_acks_from t1 t3 B E1 E3.
Proof. intros H1 H2 p Hp Ha. destruct (H2 p Hp Ha) as [? Ha2]. apply H1; [lia|done]. Qed.

Lemma tx_tryWrite_loop_live fuel :
  ∀ t B E H buf total ready n r t',
  tx_wf t B E H → tx_active t → tx_end_of_stream t = false → tx_live t B E → buf ≠ [] →
  Transmitter_tryWrite_loop fuel t buf total ready = Some (n, r, t') →
  ∃ E', tx_wf t' B E' H ∧ tx_live t' B E' ∧ tx_acks_from t t' B E E'.
Proof using io_laws.
  induction fuel as [|fuel IH]; intros t B E H buf total ready n r t' Hwf Hact Heos Hl Hbuf Hloop; [done|].
  cbn [Transmitter_tryWrite_loop] in Hloop. unfold check in Hloop. destruct (SeqNum_ge _ _); [|done].
  destruct (Transmitter_acquire t) as [acquired|] eqn:Hacq; [|done].
  cbn [mbind option_bind] in Hloop. destruct acquired as [[i t1]|].
  2: { injection Hloop as <- <- <-. exists E. split_and!; auto. intros p Hp ?. split; [lia|done]. }
  destruct (tx_acquire_live _ _ _ _ _ _ Hwf Hact Heos Hl Hacq) as (E1 & b & Hwf1 & HE1 & Hcur & Hi & Ha1 & Hweak).
  destruct (tx_writeTo_wrote _ _ _ _ _ _ _ Hwf1 Hcur Hi Hbuf) as (k & fin & t2 & Hw & _ & _ & _ & _ & W).
  destruct (tx_writeTo_live _ _ _ _ _ _ _ _ _ _ Hwf1 Hcur Hi Hbuf Hweak Hw) as [Hl2 Ha2].
  rewrite (bind_step _ _ _ Hw) in Hloop. cbn beta iota in Hloop.
  pose proof (tx_acks_from_trans _ _ _ _ _ _ _ Ha1 Ha2) as Ha.
  destruct (drop (Z.to_nat k) buf) as [|x rest] eqn:Hdrop.
  { injection Hloop as <- <- <-. exists E1. split; [apply W|]. done. }
  assert (Ht1 : tx_state t1 = tx_state t ∧ tx_end_of_stream t1 = tx_end_of_stream t).
  { revert Hacq. unfold Transmitter_acquire. destruct (tx_current_out_buffer t); [by intros [= <- <-]|].
    destruct (SeqNum_eq _ _); [done|]. destruct (_ =? 0); [done|]. intros Heq. inv_bind Heq.
    destruct p. inv_bind Heq. by injection Heq as <- <-. }
  destruct Ht1 as [Hst1 Heos1].
  edestruct (IH t2 B E1 H (x :: rest)) as (E' & Hwf' & Hl' & Ha'); [apply W| | |done|done|exact Hloop|].
  - apply (tx_wrote_active _ _ _ _ _ _ _ W). unfold tx_active. by rewrite Hst1.
  - rewrite (tx_wrote_eos _ _ _ _ _ _ _ W). congruence.
  - exists E'. split; [done|]. split; [done|]. by eapply tx_acks_from_trans.
Qed.

Lemma tx_wf_end t B E E' H H' : tx_wf t B E H → tx_wf t B E' H' → E = E'.
Proof.
  intros [Hr _ _ _ _ _ _ _ _ _] [Hr' _ _ _ _ _ _ _ _ _].
  pose proof (ring_size_bounds _ _ _ Hr). pose proof (ring_size_bounds _ _ _ Hr').
  pose proof (ra_end _ _ _ Hr) as He. rewrite (ra_end _ _ _ Hr') in He. apply u16_inj in He; lia.
Qed.

Lemma tx_tryWrite_live t B E E' H F buf n r t' :
  tx_inv t B E H F → tx_active t → tx_end_of_stream t = false → tx_live t B E →
  Transmitter_tryWrite t buf = Some (n, r, t') → tx_wf t' B E' H →
  tx_live t' B E' ∧ tx_acks_from t t' B E E'.
Proof using io_laws.
  intros Hinv Hact Heos Hl Hw Hwf'. pose proof (ti_wf _ _ _ _ _ Hinv) as Hwf. unfold Transmitter_tryWrite in Hw.
  destruct buf as [|x buf].
  { injection Hw as <- <- <-. rewrite <- (tx_wf_end _ _ _ _ _ _ Hwf Hwf'). split; [done|].
    intros p Hp ?. split; [lia|done]. }
  rewrite Heos in Hw. assert (Hne : x :: buf ≠ []) by done.
  assert (Hloop : Transmitter_tryWrite_loop (S (S (length (x :: buf)))) t (x :: buf) 0 false = Some (n, r, t')).
  { destruct Hact as [Hst|Hst]; by rewrite Hst in Hw. }
  destruct (tx_tryWrite_loop_live _ _ _ _ _ _ _ _ _ _ _ Hwf Hact Heos Hl Hne Hloop)
    as (E2 & Hwf2 & Hl2 & Ha2). by rewrite (tx_wf_end _ _ _ _ _ _ Hwf' Hwf2).
Qed.

End Live.
