(* ===== verification/TransmitterSession.v ===== *)
(** * TransmitterSession: a connected transmitter, until its stream has ended

    What each operation of a transmitter does to the packets of a session: [tx_open] is
    a connected transmitter, whose stream may have been closed; [tx_done] is one whose
    closed stream was acknowledged in full, which does nothing any more. The end of the
    stream takes a position of its own, [fin], behind the data. [LinkDelivery] joins
    this to a receiver. *)

From S2P Require Import Prelude.
From S2P Require Import SeqNum.
From S2P Require Import RingBuffer.
From S2P Require Import RooIo.
From S2P Require Import Protocol.
From S2P Require Import Buffers.
From S2P Require Import Transmitter.
From S2P Require Import TransmitterSpec.
From S2P Require Import TransmitterProofs.
From S2P Require Import TransmitterCorrect.
From S2P Require Import TransmitterLive.

Local Open Scope Z_scope.
Local Open Scope roo_scope.

(** The kind of packet of position [p]. *)
Definition stream_type (fin : option Z) (p : Z) : PacketType :=
  if decide (fin = Some p) then kFinPacket else kDataPacket.

Lemma stream_type_named fin p : named (stream_type fin p) = true.
Proof. unfold stream_type. by case_decide. Qed.

Definition is_closed (fin : option Z) : bool := match fin with Some _ => true | None => false end.

Section Session.

Context {io : RooIo} {io_laws : RooIoLaws} {pf : Platform} {pf_laws : PlatformLaws}.

(** Each packet of the queue has the header of its position, and a body unless it ends the
    stream; only the current one can grow. *)
Definition tx_kinds (fin : option Z) (t : Transmitter) (B E : Z) : Prop :=
  ∀ p b, B ≤ p < E → tx_out_buffers t !! tx_slot t p = Some b →
  (ob_finished b = false → tx_current_out_buffer t = Some (tx_slot t p))
  ∧ ob_header b = StoreBeU16 (FormatPacketHeader (u16 p) (stream_type fin p) (tx_control_bit t))
  ∧ (ob_body b = [] ↔ fin = Some p).

(** A connected transmitter. When the stream was closed, what ends it is the last of the
    queue, or waits for a free slot; so the queue is not empty. *)
Record tx_open (fin : option Z) (t : Transmitter) (B E H F : Z) : Prop := {
  to_inv : tx_inv t B E H F;
  to_state : tx_state t = TkConnected;
  to_eos : tx_end_of_stream t = is_closed fin;
  to_kinds : tx_kinds fin t B E;
  to_fin : ∀ f, fin = Some f → B < E ∧ E + Z.b2z (tx_has_pending_eof t) = f + 1;
}.

(** All of a closed stream was acknowledged. *)
Record tx_done (fin : option Z) (t : Transmitter) (B E H F : Z) : Prop := {
  dn_inv : tx_inv t B E H F;
  dn_state : tx_state t = TkIdle;
  dn_current : tx_current_out_buffer t = None;
  dn_empty : B = E;
  dn_fin : fin = Some (E - 1);
}.

Definition tx_side (fin : option Z) (t : Transmitter) (B E H F : Z) : Prop :=
  tx_open fin t B E H F ∨ tx_done fin t B E H F.

Lemma side_inv fin t B E H F : tx_side fin t B E H F → tx_inv t B E H F.
Proof. by intros [[]|[]]. Qed.

Lemma side_wf fin t B E H F : tx_side fin t B E H F → tx_wf t B E H.
Proof. intros Hs. by eapply ti_wf, side_inv. Qed.

(** Nothing is behind the end of the stream, and at most that is not queued yet. *)
Lemma side_fin fin t B E H F f : tx_side fin t B E H F → fin = Some f → f ≤ E ≤ f + 1.
Proof.
  intros [Ho|Hd] Hf.
  - destruct (to_fin _ _ _ _ _ _ Ho f Hf). destruct (tx_has_pending_eof t); cbn in *; lia.
  - rewrite (dn_fin _ _ _ _ _ _ Hd) in Hf. injection Hf as <-. lia.
Qed.

(** An open stream stays within the credit; its end may be one packet beyond. *)
Lemma open_credit fin t B E H F :
  tx_open fin t B E H F → B ≤ H ≤ B + 2048 ∧ E ≤ H + 1 ∧ (fin = None → E ≤ H) ∧ (∀ f, fin = Some f → f ≤ H).
Proof.
  intros [Hinv Hst Heos _ Hfin]. pose proof (ti_wf _ _ _ _ _ Hinv) as Hwf. assert (Hact : tx_active t) by (by right).
  destruct (tw_credit _ _ _ _ Hwf Hact) as [Hc1 Hc2]. pose proof (tw_pending _ _ _ _ Hwf) as Hp.
  pose proof (ra_size _ _ _ (tw_ring _ _ _ _ Hwf)). rewrite Heos in Hc1. destruct fin as [f|]; cbn in Hc1.
  - destruct (Hfin f eq_refl) as [HB HE]. destruct (tx_has_pending_eof t); cbn in HE.
    + destruct (Hp eq_refl) as [_ HEH]. specialize (HEH Hact). split_and!; [lia..|done|]. intros f' [= <-]. lia.
    + split_and!; [lia..|done|]. intros f' [= <-]. lia.
  - split_and!; [lia..|done].
Qed.

(** The packet of position [p] was sent with body [body], and is still queued. *)
Definition tx_holds (t : Transmitter) (p : Z) (body : list byte) : Prop :=
  ∃ b, tx_out_buffers t !! tx_slot t p = Some b ∧ ob_body b = body ∧ 0 < ob_send_counter b.

(** From [t] to [t'] the packets before [B'] left the queue, those sent and not acknowledged
    stayed as they were, and the bytes [bs] were appended. *)
Record tx_step (t t' : Transmitter) (B' E E' : Z) (bs : list byte) : Prop := {
  tp_control : tx_control_bit t' = tx_control_bit t;
  tp_peer : tx_peer_receive_buffer_size t' = tx_peer_receive_buffer_size t;
  tp_grow : E ≤ E';
  tp_holds : ∀ p body, B' ≤ p < E → tx_holds t p body → tx_holds t' p body;
  tp_stream : tx_stream t' B' E' = tx_stream t B' E ++ bs;
}.

Lemma tx_step_refl t B E : tx_step t t B E E [].
Proof. constructor; [done|done|lia|done|by rewrite app_nil_r]. Qed.

Lemma tx_kept_holds t t' p body : tx_kept t t' → tx_holds t p body → tx_holds t' p body.
Proof.
  intros HK (b & Hb & Hbody & Hc). destruct (tk_buffers _ _ HK _ _ Hb) as (b' & Hb' & Hk).
  exists b'. rewrite (tx_kept_slot _ _ HK). split; [done|].
  split; [by rewrite (same_bytes_body _ _ (bk_bytes _ _ Hk))|]. pose proof (bk_counter _ _ Hk). lia.
Qed.

(** ** The kinds *)

Lemma tx_kinds_kept fin t t' B E : tx_kept t t' → tx_kinds fin t B E → tx_kinds fin t' B E.
Proof.
  intros HK Hl p b' Hp Hb'. assert (∃ b, tx_out_buffers t !! tx_slot t p = Some b) as [b Hb].
  { apply lookup_lt_is_Some. rewrite <- (tk_length _ _ HK), <- (tx_kept_slot _ _ HK). by eapply lookup_lt_Some. }
  destruct (tk_buffers _ _ HK _ _ Hb) as (b2 & Hb2 & Hk). rewrite (tx_kept_slot _ _ HK) in *.
  replace b2 with b' in * by congruence. destruct (Hl p b Hp Hb) as (Hcur & Hh & Hbody).
  rewrite (same_bytes_body _ _ (bk_bytes _ _ Hk)).
  replace (ob_header b') with (ob_header b) by (unfold ob_header; by rewrite (proj1 (bk_bytes _ _ Hk))).
  rewrite (tk_frame _ _ HK). split; [|done]. intros Hf. apply Hcur. destruct (ob_finished b) eqn:Hfb; [|done].
  rewrite (bk_finished _ _ Hk Hfb) in Hf. done.
Qed.

(** What is added at the end of a closed queue ends the stream. *)
Lemma tx_kinds_ext fin t t' B B' E E' :
  tx_queue_ext t t' B' E E' → B ≤ B' → (∀ p, E ≤ p < E' → fin = Some p) →
  tx_kinds fin t B E → tx_kinds fin t' B' E'.
Proof.
  intros [Hs _ Hsame Hnew] HB Hfin Hl p b Hp Hb. rewrite (ts_current _ _ Hs), (ts_control _ _ Hs).
  assert (Hslot : tx_slot t' p = tx_slot t p) by (unfold tx_slot; by rewrite (ts_log2 _ _ Hs)).
  destruct (decide (p < E)).
  - rewrite Hsame in Hb by lia. rewrite Hslot. by apply Hl; [lia|].
  - destruct (Hnew p b ltac:(lia) Hb) as (Hbody & _ & Hh & Hf). rewrite (Hfin p) by lia.
    unfold stream_type. rewrite decide_True by done. split; [congruence|]. by split.
Qed.

(** An open stream has data only. *)
Lemma tx_kinds_live t B E :
  tx_end_of_stream t = false → tx_kinds None t B E ↔ tx_live t B E ∧ tx_labelled t B E.
Proof.
  intros Heos. split.
  - intros Hk. split; intros p b Hp Hb; destruct (Hk p b Hp Hb) as (Hcur & Hh & Hbody).
    + split; [|done]. by intros ?%Hbody.
    + by left.
  - intros [Hlive Hlab] p b Hp Hb. destruct (Hlive p b Hp Hb) as [Hne Hcur].
    split; [done|]. split; [|by split]. destruct (Hlab p b Hp Hb) as [?|(_ & ? & _)]; done.
Qed.

(** Closing adds the end of the stream. *)
Lemma tx_kinds_close t B E : tx_kinds None t B E → tx_kinds (Some E) t B E.
Proof.
  intros Hk p b Hp Hb. destruct (Hk p b Hp Hb) as (? & Hh & Hbody). split; [done|].
  unfold stream_type. rewrite decide_False by (intros [= ->]; lia). split; [done|].
  rewrite Hbody. split; [done|]. intros [= ->]. lia.
Qed.

(** ** The operations *)

Lemma tx_kept_open fin t t' B E H F F' :
  tx_open fin t B E H F → tx_inv t' B E H F' → tx_kept t t' →
  tx_open fin t' B E H F' ∧ tx_step t t' B E E [].
Proof.
  intros [Hinv Hst Heos Hk Hfin] Hinv' HK. pose proof (tx_kept_session _ _ HK) as [].
  pose proof (ti_wf _ _ _ _ _ Hinv) as Hwf. split.
  - constructor; [done|congruence|congruence|by eapply tx_kinds_kept|].
    intros f Hf. rewrite (tk_frame _ _ HK). by apply Hfin.
  - constructor; [done|done|lia|intros; by eapply tx_kept_holds|].
    by rewrite app_nil_r, (tx_kept_stream _ _ _ _ Hwf _ HK).
Qed.

Lemma tx_acks_from_refl t B E : tx_acks_from t t B E E.
Proof. intros p Hp ?. split; [lia|done]. Qed.

Lemma done_inactive fin t B E H F : tx_done fin t B E H F → ¬ tx_active t.
Proof. intros Hd [Hst|Hst]; rewrite (dn_state _ _ _ _ _ _ Hd) in Hst; done. Qed.

Lemma side_write fin t B E H F buf :
  tx_side fin t B E H F →
  ∃ n ready t' E', Transmitter_tryWrite t buf = Some (n, ready, t') ∧ 0 ≤ n ≤ Z.of_nat (length buf)
    ∧ tx_side fin t' B E' H F ∧ tx_step t t' B E E' (take (Z.to_nat n) buf) ∧ tx_acks_from t t' B E E'
    ∧ (is_closed fin = true → n = 0 ∧ E' = E).
Proof using io_laws.
  intros Hside. pose proof (side_inv _ _ _ _ _ _ Hside) as Hinv.
  destruct (tx_tryWrite_spec t B E H F buf Hinv) as (n & ready & t' & E' & Hw & Hn & Hinv' & Hres).
  exists n, ready, t', E'. split; [done|]. split; [done|].
  destruct (decide (tx_active t ∧ tx_end_of_stream t = false)) as [[Hact Heos]|Hno].
  2: { destruct Hres as (-> & -> & ->). split; [done|]. rewrite take_0. auto using tx_step_refl, tx_acks_from_refl. }
  destruct Hside as [Ho|Hd]; [|by apply done_inactive in Hd].
  destruct Ho as [_ Hst Heos' Hk Hfin]. rewrite Heos in Heos'. destruct fin; [done|].
  apply (tx_kinds_live _ _ _ Heos) in Hk as [Hlive Hlab].
  destruct (tx_tryWrite_live t B E E' H F buf n ready t' Hinv Hact Heos Hlive Hw (ti_wf _ _ _ _ _ Hinv'))
    as [Hlive' Hacks].
  destruct Hres as [W _]. pose proof (wr_upd _ _ _ _ _ _ _ W) as Hupd.
  destruct (wr_stream _ _ _ _ _ _ _ W) as [_ Hstr]; [by apply (ti_cur _ _ _ _ _ Hinv)|].
  assert (Heos2 : tx_end_of_stream t' = false) by (by rewrite Hupd).
  split; [left|split; [|done]].
  - constructor; [done|by rewrite Hupd|done| |done]. apply (tx_kinds_live _ _ _ Heos2). split; [done|].
    eapply tx_wrote_labelled; eauto. apply (ti_wf _ _ _ _ _ Hinv).
  - constructor; [by rewrite Hupd|by rewrite Hupd|apply (wr_grow _ _ _ _ _ _ _ W)| |done].
    intros p body Hp (b & Hb & Hbody & Hc).
    destruct (wr_old _ _ _ _ _ _ _ W p b Hp Hb) as (b' & Hb' & _ & Hsame). exists b'. split; [done|].
    rewrite Hsame; [done|]. by apply (sc_sent _ _ _ _ (ti_sched _ _ _ _ _ Hinv Hact) p b Hp Hb).
Qed.

(** Flushing releases everything that is queued. *)
Definition tx_flushed (t : Transmitter) (B E : Z) : Prop :=
  ∀ p b, B ≤ p < E → tx_out_buffers t !! tx_slot t p = Some b → ob_flushed b = true.

Lemma side_flush fin t B E H F :
  tx_side fin t B E H F →
  ∃ r t', Transmitter_flush t = Some (r, t') ∧ tx_side fin t' B E H F ∧ tx_step t t' B E E []
    ∧ tx_acks_from t t' B E E ∧ tx_flushed t' B E.
Proof.
  intros Hside. destruct Hside as [Ho|Hd].
  2: { exists false, t. unfold Transmitter_flush. rewrite (dn_current _ _ _ _ _ _ Hd). split; [done|].
       split; [by right|]. split; [apply tx_step_refl|]. split; [apply tx_acks_from_refl|].
       pose proof (dn_empty _ _ _ _ _ _ Hd). intros p b Hp. lia. }
  pose proof (to_inv _ _ _ _ _ _ Ho) as Hinv.
  destruct (tx_flush_spec t B E H F Hinv) as (r & t' & Hfl & Hinv' & HK & _).
  exists r, t'. split; [done|]. destruct (tx_kept_open _ _ _ _ _ _ _ _ Ho Hinv' HK) as [Ho' Hst].
  split; [by left|]. split; [done|]. pose proof (ti_wf _ _ _ _ _ Hinv) as Hwf. unfold Transmitter_flush in Hfl.
  assert (Hdone : ∀ p b, B ≤ p < E → tx_out_buffers t !! tx_slot t p = Some b →
    tx_current_out_buffer t ≠ Some (tx_slot t p) → ob_flushed b = true).
  { intros p b Hp Hb Hne. assert (Hwb : out_buffer_wf b) by (eapply Forall_lookup_1, Hb; apply Hwf).
    apply (obw_flushed _ Hwb). destruct (ob_finished b) eqn:Hf; [done|].
    by destruct Hne, (to_kinds _ _ _ _ _ _ Ho p b Hp Hb) as [-> _]. }
  destruct (tx_current_out_buffer t) as [i|] eqn:Hcur.
  2: { injection Hfl as <- <-. split; [apply tx_acks_from_refl|]. intros p b Hp Hb. by eapply Hdone. }
  inv_bind Hfl. rename o into bi. injection Hfl as <- <-. split.
  - apply tx_acks_from_same; [done|]. by eapply tx_acks_same_set.
  - intros p b Hp. change (tx_slot (tx_set_buffer _ _ t) p) with (tx_slot t p). cbn.
    destruct (decide (i = tx_slot t p)) as [->|Hne].
    + rewrite list_lookup_insert_eq by (by eapply lookup_lt_Some). by intros [= <-].
    + rewrite list_lookup_insert_ne by done. intros Hb. eapply Hdone; eauto. congruence.
Qed.

(** What [send] hands to the network, and which packet it is. *)
Lemma side_send fin t B E H F now draw next :
  tx_side fin t B E H F → 0 ≤ draw ≤ RANDOM_INTEGER_MAX →
  ∃ packet next' t' F', Transmitter_send t now draw next = Some (packet, next', t')
    ∧ tx_side fin t' B E H F' ∧ tx_step t t' B E E [] ∧ tx_acks_from t t' B E E ∧ tx_kept t t'
    ∧ (packet = []
       ∨ ∃ p body, B ≤ p < E ∧ (length body ≤ 248)%nat ∧ (body = [] ↔ fin = Some p) ∧ tx_holds t' p body
           ∧ packet = StoreBeU16 (FormatPacketHeader (u16 p) (stream_type fin p) (tx_control_bit t)) ++ body
           ∧ tx_handed_out t t' B E now p).
Proof using io_laws pf_laws.
  intros Hside Hd. pose proof (side_inv _ _ _ _ _ _ Hside) as Hinv. pose proof (ti_wf _ _ _ _ _ Hinv) as Hwf.
  destruct (tx_send_spec t B E H F now draw next Hinv Hd)
    as (packet & next' & t' & F' & Hs & Hinv' & HK & _ & Hres). exists packet, next', t', F'.
  split; [done|]. destruct Hside as [Ho|Hdn].
  2: { assert (Hidle : Transmitter_send t now draw next = Some ([], next, t)).
       { unfold Transmitter_send, Transmitter_getBufferToSend. by rewrite (dn_state _ _ _ _ _ _ Hdn). }
       rewrite Hs in Hidle. injection Hidle as -> -> ->.
       split; [right; by destruct Hdn|]. auto using tx_step_refl, tx_acks_from_refl. }
  destruct (tx_kept_open _ _ _ _ _ _ _ _ Ho Hinv' HK) as [Ho' Hstep].
  split; [by left|]. split; [done|].
  destruct Hres as [(-> & _ & Hsame & _)|(_ & p & b & b' & Hp & _ & _ & Hb & _ & -> & Hb' & _ & Hc & HO)].
  { split; [by apply tx_acks_from_same|]. split; [done|]. by left. }
  split; [by eapply tx_handed_out_acks|]. split; [done|]. right.
  destruct (tk_buffers _ _ HK _ _ Hb) as (b2 & Hb2 & Hk). replace b2 with b' in * by congruence.
  destruct (to_kinds _ _ _ _ _ _ Ho p b Hp Hb) as (_ & Hh & Hbody).
  exists p, (ob_body b). split; [done|]. split.
  { assert (Hwb : out_buffer_wf b) by (eapply Forall_lookup_1, Hb; apply Hwf).
    pose proof (obw_size _ Hwb). pose proof (length_ob_body _ Hwb). lia. }
  split; [done|]. split; [|split; [by rewrite Hh|done]].
  exists b'. rewrite (tx_kept_slot _ _ HK). split; [done|]. split; [|done].
  by rewrite (same_bytes_body _ _ (bk_bytes _ _ Hk)).
Qed.

(** The positions that the bitmap of an acknowledgment of everything before [u] names. *)
Definition skips (u : Z) (bitmap : list byte) (p : Z) : Prop :=
  ∃ k, skip_ack bitmap k = true ∧ p = u + 1 + Z.of_nat k.

(** An acknowledgment of everything up to the end of a closed stream is the last one. *)
Lemma side_ack fin t B E H F S bitmap cb :
  tx_side fin t B E H F → cb ≠ tx_control_bit t → B ≤ S ≤ E → tx_honest_ack t B E S bitmap →
  (length bitmap ≤ 248)%nat →
  ∃ r t' E', Transmitter_ack t cb (S mod 4096) bitmap = Some (r, t')
    ∧ tx_side fin t' S E' H F ∧ tx_step t t' S E E' [] ∧ (fin = None → E' = E)
    ∧ ∀ p, S ≤ p < E' → tx_acked t' p → p < E ∧ (tx_acked t p ∨ skips S bitmap p).
Proof using io_laws.
  intros [[Hinv Hst Heos Hk Hfin]|Hd] Hcb HS Hhon Hlen.
  2: { exists false, t, E. pose proof (dn_empty _ _ _ _ _ _ Hd). assert (S = B) as -> by lia.
       unfold Transmitter_ack. rewrite (dn_state _ _ _ _ _ _ Hd). split; [done|]. split; [by right|].
       split; [apply tx_step_refl|]. split; [done|]. lia. }
  destruct (tx_ack_spec t B E H F S bitmap cb Hinv Hst Hcb ltac:(lia) Hhon Hlen)
    as (r & t' & Hack & Hres).
  rewrite Z.max_r in Hres by lia. set (E' := E + Z.b2z ((B <? S) && tx_has_pending_eof t)) in *.
  exists r, t', E'. split; [done|].
  assert (HE' : E ≤ E') by (unfold E'; destruct ((B <? S) && tx_has_pending_eof t); cbn; lia).
  assert (Hnone : fin = None → E' = E).
  { intros ->. destruct (tx_has_pending_eof t) eqn:Hp; [|unfold E'; rewrite andb_false_r; cbn; lia].
    destruct (tw_pending _ _ _ _ (ti_wf _ _ _ _ _ Hinv) Hp). rewrite Heos in *. done. }
  destruct (decide (S = E' ∧ tx_end_of_stream t = true)) as [[HSE Hclosed]|Hgo].
  - destruct Hres as (Hinv' & _ & [Hst' Hcur' Hcb' Hp']). rewrite Hclosed in Heos. destruct fin as [f|]; [|done].
    destruct (Hfin f eq_refl) as [HB HE]. assert (E' = E ∧ f = E - 1) as [HEE ->].
    { destruct (Z.ltb_spec B S), (tx_has_pending_eof t); unfold E' in *; cbn in *; lia. }
    rewrite HSE. split; [right; constructor; auto; by rewrite HEE|]. split; [|split; [done|lia]].
    constructor; [done|done|lia|lia|]. unfold tx_stream. by rewrite HEE, Z.sub_diag.
  - destruct Hres as (Hinv' & Hstr & Hses & Hpend & _ & (t1 & Hq & HK) & Hacked).
    pose proof (ra_size _ _ _ (tw_ring _ _ _ _ (ti_wf _ _ _ _ _ Hinv'))) as Hsize.
    assert (Hfin' : ∀ f, fin = Some f → S < E' ∧ E' + Z.b2z (tx_has_pending_eof t') = f + 1).
    { intros f ->. destruct (Hfin f eq_refl) as [HB HE]. rewrite Hpend. unfold E' in *.
      assert (S ≠ E + Z.b2z ((B <? S) && tx_has_pending_eof t)) by (intros ?; by destruct Hgo).
      destruct (Z.ltb_spec B S), (tx_has_pending_eof t); cbn in *; lia. }
    split; [left|split; [|split; [done|]]].
    + constructor; [done|by rewrite (ts_state _ _ Hses)|by rewrite (ts_eos _ _ Hses)| |done].
      eapply tx_kinds_kept; [done|]. eapply (tx_kinds_ext _ t _ B); [exact Hq|lia| |done].
      intros p Hp. destruct fin as [f|]; [|specialize (Hnone eq_refl); lia]. destruct (Hfin f eq_refl).
      unfold E' in Hp. f_equal. destruct (B <? S), (tx_has_pending_eof t); cbn in *; lia.
    + constructor; [by destruct Hses|by destruct Hses|lia| |by rewrite app_nil_r].
      intros p body Hp (b & Hb & Hrest). eapply tx_kept_holds; [done|]. exists b.
      by rewrite (qe_same _ _ _ _ _ Hq).
    + intros p Hp Ha. destruct (decide (p < E)); [split; [done|by apply Hacked; [lia|]]|]. exfalso.
      destruct Ha as (b & Hb & Hab). assert (Hact' : tx_active t') by (right; by rewrite (ts_state _ _ Hses)).
      pose proof (ti_sched _ _ _ _ _ Hinv' Hact') as Hsc.
      pose proof (sc_frontier _ _ _ _ (ti_sched _ _ _ _ _ Hinv ltac:(by right))).
      destruct (sc_unsent _ _ _ _ Hsc p b ltac:(lia) Hb). congruence.
Qed.

Lemma side_himark fin t B E H F cb seq :
  tx_side fin t B E H F → 0 ≤ seq < 4096 →
  ∃ r t' H', Transmitter_updateRecvHimark t cb seq = Some (r, t')
    ∧ tx_side fin t' B E H' F ∧ tx_step t t' B E E [] ∧ tx_acks_from t t' B E E
    ∧ (H' = H ∨ tx_open fin t B E H F ∧ tx_open fin t' B E H' F ∧ H' mod 4096 = seq).
Proof.
  intros [Ho|Hd] Hseq.
  2: { exists false, t, H. unfold Transmitter_updateRecvHimark. rewrite (dn_state _ _ _ _ _ _ Hd). split; [done|].
       split; [by right|]. auto using tx_step_refl, tx_acks_from_refl. }
  pose proof Ho as [Hinv Hst Heos Hk Hfin].
  destruct (tx_updateRecvHimark_spec t B E H F cb seq Hinv Hseq)
    as (r & t' & H' & Hup & Hinv' & _ & Hstr & Hno & Hyes).
  destruct r; [|rewrite (Hno eq_refl) in Hup; exists false, t, H; split; [done|];
    split; [by left|]; auto using tx_step_refl, tx_acks_from_refl].
  exists true, t', H'. split; [done|].
  assert (Ht : ∃ h, t' = tx_with_recv_himark h t).
  { unfold Transmitter_updateRecvHimark in Hup. rewrite Hst in Hup.
    destruct (Bool.eqb _ _); [done|]. inv_bind Hup. destruct (_ || _); [done|]. inv_bind Hup. injection Hup as <-. eauto. }
  destruct Ht as [h ->]. assert (Ho' : tx_open fin (tx_with_recv_himark h t) B E H' F) by (by constructor).
  split; [by left|]. split; [|split; [exact (tx_acks_from_refl t B E)|right; split; [done|]; split; [done|by apply Hyes]]].
  constructor; [done|done|lia|done|]. by rewrite app_nil_r.
Qed.

(** A himark is taken if it is not behind the credit. *)
Lemma tx_himark_taken fin t B E H F h cb :
  tx_open fin t B E H F → cb ≠ tx_control_bit t → H ≤ h ≤ E + tx_peer_receive_buffer_size t → h < B + 2048 →
  Transmitter_updateRecvHimark t cb (h mod 4096) = Some (true, tx_with_recv_himark (u16 h) t).
Proof.
  intros Ho Hcb Hh Hfar. pose proof (open_credit _ _ _ _ _ _ Ho) as (HH & HE & _).
  destruct Ho as [Hinv Hst _ _ _]. unfold Transmitter_updateRecvHimark. rewrite Hst.
  rewrite (proj2 (eqb_false_iff _ _)) by congruence. pose proof (ti_wf _ _ _ _ _ Hinv) as Hwf.
  pose proof (tw_ring _ _ _ _ Hwf) as Hr. pose proof (ring_size_bounds _ _ _ Hr).
  pose proof (tw_peer _ _ _ _ Hwf).
  rewrite !(bind_step _ _ _ (ring_restore _ _ _ Hr h ltac:(lia))).
  rewrite (tw_himark _ _ _ _ Hwf), (ra_end _ _ _ Hr), SeqNum_add_pos, SeqNum_lt_pos, SeqNum_gt_pos by lia.
  rewrite (proj2 (Z.ltb_ge _ _)), (proj2 (Z.ltb_ge _ _)) by lia. done.
Qed.

(** Closing ends the stream behind what is queued; closing again does nothing. *)
Lemma side_close fin t B E H F :
  tx_side fin t B E H F →
  ∃ t' E', Transmitter_close t = Some t'
    ∧ tx_side (match fin with None => Some E | Some _ => fin end) t' B E' H F
    ∧ tx_step t t' B E E' [] ∧ tx_acks_from t t' B E E' ∧ (is_closed fin = true → t' = t ∧ E' = E).
Proof using io_laws.
  intros Hside. pose proof (side_inv _ _ _ _ _ _ Hside) as Hinv.
  assert (Hagain : is_closed fin = true → Transmitter_close t = Some t).
  { intros Hc. unfold Transmitter_close. destruct Hside as [Ho|Hd].
    - rewrite decide_False by (by rewrite (to_state _ _ _ _ _ _ Ho)). by rewrite (to_eos _ _ _ _ _ _ Ho), Hc.
    - rewrite decide_False, bool_decide_true by (by rewrite (dn_state _ _ _ _ _ _ Hd)). by rewrite orb_true_r. }
  destruct fin as [f|].
  { exists t, E. split; [by apply Hagain|]. split; [done|]. auto using tx_step_refl, tx_acks_from_refl. }
  destruct Hside as [[_ Hst Heos Hk _]|Hd]; [|by pose proof (dn_fin _ _ _ _ _ _ Hd)].
  assert (Hact : tx_active t) by (by right).
  destruct (tx_close_active_spec _ _ _ _ _ Hinv Hact Heos)
    as (t' & E' & Hc & Hinv' & Hstr & Heos' & Hst' & (t1 & HK & Hsame & Hq) & Hfull). exists t', E'. split; [done|].
  pose proof (qe_session _ _ _ _ _ Hq) as [? ? Hcb ? ? Hpeer ?]. cbn in Hcb, Hpeer.
  pose proof (tk_frame _ _ HK) as Hfr. pose proof (ra_size _ _ _ (tw_ring _ _ _ _ (ti_wf _ _ _ _ _ Hinv))) as Hsize.
  pose proof (ring_capacity_bounds _ _ _ (tw_ring _ _ _ _ (ti_wf _ _ _ _ _ Hinv))) as Hcap.
  assert (HE' : E' + Z.b2z (tx_has_pending_eof t') = E + 1 ∧ E ≤ E' ∧ B < E').
  { case_decide; [destruct Hfull as [-> ->]|destruct Hfull as (-> & -> & _)]; cbn; lia. }
  split; [left|split; [|split; [|done]]].
  - constructor; [done|congruence|done| |intros f [= <-]; lia].
    eapply tx_kinds_ext; [exact Hq|reflexivity| |].
    + intros p Hp. f_equal. destruct (tx_has_pending_eof t'); cbn in *; lia.
    + apply tx_kinds_close. by eapply (tx_kinds_kept None t t1).
  - constructor; [rewrite Hcb, Hfr; done|rewrite Hpeer, Hfr; done|lia| |by rewrite app_nil_r].
    intros p body Hp Hh. destruct (tx_kept_holds _ _ _ _ HK Hh) as (b & Hb & Hrest). exists b.
    by rewrite (qe_same _ _ _ _ _ Hq).
  - intros p Hp (b & Hb & Ha). assert (Hact' : tx_active t') by (right; congruence).
    pose proof (sc_frontier _ _ _ _ (ti_sched _ _ _ _ _ Hinv Hact)).
    destruct (decide (p < E)); [split; [done|]|].
    + rewrite (qe_same _ _ _ _ _ Hq) in Hb by lia. eapply tx_acked_same; [exact HK|exact Hsame|by exists b].
    + destruct (sc_unsent _ _ _ _ (ti_sched _ _ _ _ _ Hinv' Hact') p b ltac:(lia) Hb). congruence.
Qed.

End Session.
