(* ===== verification/Receiver.v ===== *)
(** * Receiver: the incoming half of a link

    [link/internal/receiver.h] and [link/internal/receiver.cpp]. The buffer array is
    a list indexed by ring slot and [current_in_buffer_] an index into it, so that a
    pointer into a reused slot is a pointer into a reused slot here too. [None] is a
    failed [CHECK], an access outside an array, or a loop that runs on. *)

From S2P Require Import Prelude.
From S2P Require Import SeqNum.
From S2P Require Import RingBuffer.
From S2P Require Import RooIo.
From S2P Require Import Protocol.
From S2P Require Import Buffers.

Local Open Scope Z_scope.
Local Open Scope roo_scope.

Inductive ReceiverState := RkIdle | RkConnecting | RkConnected | RkBroken.

#[export] Instance ReceiverState_eq_dec : EqDecision ReceiverState.
Proof. solve_decision. Defined.

Record Receiver := mkReceiver {
  rx_my_stream_id : Z;
  rx_state : ReceiverState;
  rx_self_closed : bool;
  rx_peer_closed : bool;
  rx_end_of_stream : bool;
  rx_in_buffers : list InBuffer;
  rx_current_in_buffer : option nat;
  rx_current_in_buffer_pos : Z;
  rx_in_ring : RingBuffer;
  rx_needs_ack : bool;
  rx_unack_seq : Z;
  rx_recv_himark : SeqNum;
  rx_recv_himark_update_expiration : Z;
  rx_packets_received : Z;
  rx_control_bit : bool;
}.

Definition rx_with_my_stream_id (v : Z) (r : Receiver) : Receiver :=
  mkReceiver v (rx_state r) (rx_self_closed r) (rx_peer_closed r) (rx_end_of_stream r)
    (rx_in_buffers r) (rx_current_in_buffer r) (rx_current_in_buffer_pos r) (rx_in_ring r)
    (rx_needs_ack r) (rx_unack_seq r) (rx_recv_himark r)
    (rx_recv_himark_update_expiration r) (rx_packets_received r) (rx_control_bit r).
Definition rx_with_state (v : ReceiverState) (r : Receiver) : Receiver :=
  mkReceiver (rx_my_stream_id r) v (rx_self_closed r) (rx_peer_closed r)
    (rx_end_of_stream r) (rx_in_buffers r) (rx_current_in_buffer r)
    (rx_current_in_buffer_pos r) (rx_in_ring r) (rx_needs_ack r) (rx_unack_seq r)
    (rx_recv_himark r) (rx_recv_himark_update_expiration r) (rx_packets_received r)
    (rx_control_bit r).
Definition rx_with_self_closed (v : bool) (r : Receiver) : Receiver :=
  mkReceiver (rx_my_stream_id r) (rx_state r) v (rx_peer_closed r) (rx_end_of_stream r)
    (rx_in_buffers r) (rx_current_in_buffer r) (rx_current_in_buffer_pos r) (rx_in_ring r)
    (rx_needs_ack r) (rx_unack_seq r) (rx_recv_himark r)
    (rx_recv_himark_update_expiration r) (rx_packets_received r) (rx_control_bit r).
Definition rx_with_peer_closed (v : bool) (r : Receiver) : Receiver :=
  mkReceiver (rx_my_stream_id r) (rx_state r) (rx_self_closed r) v (rx_end_of_stream r)
    (rx_in_buffers r) (rx_current_in_buffer r) (rx_current_in_buffer_pos r) (rx_in_ring r)
    (rx_needs_ack r) (rx_unack_seq r) (rx_recv_himark r)
    (rx_recv_himark_update_expiration r) (rx_packets_received r) (rx_control_bit r).
Definition rx_with_end_of_stream (v : bool) (r : Receiver) : Receiver :=
  mkReceiver (rx_my_stream_id r) (rx_state r) (rx_self_closed r) (rx_peer_closed r) v
    (rx_in_buffers r) (rx_current_in_buffer r) (rx_current_in_buffer_pos r) (rx_in_ring r)
    (rx_needs_ack r) (rx_unack_seq r) (rx_recv_himark r)
    (rx_recv_himark_update_expiration r) (rx_packets_received r) (rx_control_bit r).
Definition rx_with_in_buffers (v : list InBuffer) (r : Receiver) : Receiver :=
  mkReceiver (rx_my_stream_id r) (rx_state r) (rx_self_closed r) (rx_peer_closed r)
    (rx_end_of_stream r) v (rx_current_in_buffer r) (rx_current_in_buffer_pos r)
    (rx_in_ring r) (rx_needs_ack r) (rx_unack_seq r) (rx_recv_himark r)
    (rx_recv_himark_update_expiration r) (rx_packets_received r) (rx_control_bit r).
Definition rx_with_current_in_buffer (v : option nat) (r : Receiver) : Receiver :=
  mkReceiver (rx_my_stream_id r) (rx_state r) (rx_self_closed r) (rx_peer_closed r)
    (rx_end_of_stream r) (rx_in_buffers r) v (rx_current_in_buffer_pos r) (rx_in_ring r)
    (rx_needs_ack r) (rx_unack_seq r) (rx_recv_himark r)
    (rx_recv_himark_update_expiration r) (rx_packets_received r) (rx_control_bit r).
Definition rx_with_current_in_buffer_pos (v : Z) (r : Receiver) : Receiver :=
  mkReceiver (rx_my_stream_id r) (rx_state r) (rx_self_closed r) (rx_peer_closed r)
    (rx_end_of_stream r) (rx_in_buffers r) (rx_current_in_buffer r) v (rx_in_ring r)
    (rx_needs_ack r) (rx_unack_seq r) (rx_recv_himark r)
    (rx_recv_himark_update_expiration r) (rx_packets_received r) (rx_control_bit r).
Definition rx_with_in_ring (v : RingBuffer) (r : Receiver) : Receiver :=
  mkReceiver (rx_my_stream_id r) (rx_state r) (rx_self_closed r) (rx_peer_closed r)
    (rx_end_of_stream r) (rx_in_buffers r) (rx_current_in_buffer r)
    (rx_current_in_buffer_pos r) v (rx_needs_ack r) (rx_unack_seq r) (rx_recv_himark r)
    (rx_recv_himark_update_expiration r) (rx_packets_received r) (rx_control_bit r).
Definition rx_with_needs_ack (v : bool) (r : Receiver) : Receiver :=
  mkReceiver (rx_my_stream_id r) (rx_state r) (rx_self_closed r) (rx_peer_closed r)
    (rx_end_of_stream r) (rx_in_buffers r) (rx_current_in_buffer r)
    (rx_current_in_buffer_pos r) (rx_in_ring r) v (rx_unack_seq r) (rx_recv_himark r)
    (rx_recv_himark_update_expiration r) (rx_packets_received r) (rx_control_bit r).
Definition rx_with_unack_seq (v : Z) (r : Receiver) : Receiver :=
  mkReceiver (rx_my_stream_id r) (rx_state r) (rx_self_closed r) (rx_peer_closed r)
    (rx_end_of_stream r) (rx_in_buffers r) (rx_current_in_buffer r)
    (rx_current_in_buffer_pos r) (rx_in_ring r) (rx_needs_ack r) v (rx_recv_himark r)
    (rx_recv_himark_update_expiration r) (rx_packets_received r) (rx_control_bit r).
Definition rx_with_recv_himark (v : SeqNum) (r : Receiver) : Receiver :=
  mkReceiver (rx_my_stream_id r) (rx_state r) (rx_self_closed r) (rx_peer_closed r)
    (rx_end_of_stream r) (rx_in_buffers r) (rx_current_in_buffer r)
    (rx_current_in_buffer_pos r) (rx_in_ring r) (rx_needs_ack r) (rx_unack_seq r) v
    (rx_recv_himark_update_expiration r) (rx_packets_received r) (rx_control_bit r).
Definition rx_with_recv_himark_update_expiration (v : Z) (r : Receiver) : Receiver :=
  mkReceiver (rx_my_stream_id r) (rx_state r) (rx_self_closed r) (rx_peer_closed r)
    (rx_end_of_stream r) (rx_in_buffers r) (rx_current_in_buffer r)
    (rx_current_in_buffer_pos r) (rx_in_ring r) (rx_needs_ack r) (rx_unack_seq r)
    (rx_recv_himark r) v (rx_packets_received r) (rx_control_bit r).
Definition rx_with_packets_received (v : Z) (r : Receiver) : Receiver :=
  mkReceiver (rx_my_stream_id r) (rx_state r) (rx_self_closed r) (rx_peer_closed r)
    (rx_end_of_stream r) (rx_in_buffers r) (rx_current_in_buffer r)
    (rx_current_in_buffer_pos r) (rx_in_ring r) (rx_needs_ack r) (rx_unack_seq r)
    (rx_recv_himark r) (rx_recv_himark_update_expiration r) v (rx_control_bit r).
Definition rx_with_control_bit (v : bool) (r : Receiver) : Receiver :=
  mkReceiver (rx_my_stream_id r) (rx_state r) (rx_self_closed r) (rx_peer_closed r)
    (rx_end_of_stream r) (rx_in_buffers r) (rx_current_in_buffer r)
    (rx_current_in_buffer_pos r) (rx_in_ring r) (rx_needs_ack r) (rx_unack_seq r)
    (rx_recv_himark r) (rx_recv_himark_update_expiration r) (rx_packets_received r) v.

Section Operations.

Context {io : RooIo} {pf : Platform}.

(** [memory] is the uninitialised content of the packet arrays, and [garbage] that
    of [control_bit_], which the constructor leaves unset. *)
Definition Receiver_new (recvbuf_log2 : Z) (memory : list byte) (garbage : bool)
    : option Receiver :=
  ring ← RingBuffer_new recvbuf_log2 0;
  Some (mkReceiver 0 RkIdle false false false
          (replicate (Z.to_nat (Z.shiftl 1 recvbuf_log2)) (InBuffer_new memory))
          None 0 ring false 0
          (SeqNum_add (rb_begin ring) (Z.shiftl 1 recvbuf_log2))
          Uptime_Start 0 garbage).

(** [getInBuffer], as the index of the buffer. *)
Definition Receiver_getInBuffer (r : Receiver) (seq : SeqNum) : option nat :=
  i ← RingBuffer_offset_for (rx_in_ring r) seq;
  Some (Z.to_nat i).

Definition rx_set_buffer (i : nat) (b : InBuffer) (r : Receiver) : Receiver :=
  rx_with_in_buffers (<[i:=b]> (rx_in_buffers r)) r.

Definition Receiver_empty (r : Receiver) : bool := RingBuffer_empty (rx_in_ring r).

Definition Receiver_setConnected (r : Receiver) (peer_seq_num : SeqNum) (control_bit : bool)
    : option Receiver :=
  CHECK (RingBuffer_empty (rx_in_ring r)) ;;
  ring ← RingBuffer_reset (rx_in_ring r) peer_seq_num;
  Some (rx_with_control_bit control_bit
         (rx_with_state RkConnected
           (rx_with_unack_seq (SeqNum_raw peer_seq_num) (rx_with_in_ring ring r)))).

Definition Receiver_setIdle (r : Receiver) : Receiver :=
  rx_with_end_of_stream false
    (rx_with_self_closed false (rx_with_peer_closed false (rx_with_state RkIdle r))).

Definition Receiver_setBroken (r : Receiver) : Receiver :=
  if RingBuffer_empty (rx_in_ring r) then Receiver_setIdle r
  else rx_with_end_of_stream false (rx_with_self_closed false (rx_with_peer_closed true r)).

Definition Receiver_done (r : Receiver) : bool :=
  Receiver_empty r && (rx_end_of_stream r || rx_self_closed r || rx_peer_closed r).

(** [tryRead], first part of the body of its loop: the buffer to read from; the
    boolean is [break]. *)
Definition Receiver_select (r : Receiver) : option (option nat * Receiver) :=
  match rx_current_in_buffer r with
  | Some i => Some (Some i, r)
  | None =>
      if RingBuffer_empty (rx_in_ring r)
      then Some (None, if decide (rx_state r = RkBroken) then Receiver_setIdle r else r)
      else
        i ← Receiver_getInBuffer r (rb_begin (rx_in_ring r));
        Some (Some i, rx_with_current_in_buffer_pos 0 (rx_with_current_in_buffer (Some i) r))
  end.

(** The end of that body: the buffer [i] is read in full and leaves the window. The
    boolean says whether to go on. *)
Definition Receiver_consume (r : Receiver) (i : nat) (b : InBuffer) : option (bool * Receiver) :=
  let r := rx_set_buffer i (InBuffer_clear b) r in
  let r := rx_with_current_in_buffer None r in
  let r := rx_with_recv_himark_update_expiration Uptime_Start r in
  '(_, ring) ← RingBuffer_pop (rx_in_ring r);
  let r := rx_with_in_ring ring r in
  if decide (ib_type b = kFin) then
    CHECK (RingBuffer_empty (rx_in_ring r)) ;;
    Some (false, rx_with_end_of_stream true r)
  else Some (true, r).

(** Returns what is read, and [outgoing_data_ready]. *)
Fixpoint Receiver_tryRead_loop (fuel : nat) (r : Receiver) (count : Z)
    (total_read : list byte) (outgoing_data_ready : bool)
    : option (list byte * bool * Receiver) :=
  match fuel with
  | O => None
  | S fuel =>
      '(selected, r) ← Receiver_select r;
      match selected with
      | None => Some (total_read, outgoing_data_ready, r)
      | Some i =>
          b ← rx_in_buffers r !! i;
          if decide (ib_type b = kUnset) then Some (total_read, outgoing_data_ready, r)
          else
            let pos := rx_current_in_buffer_pos r in
            CHECK (pos <=? ib_size b) ;;
            let available := ib_size b - pos in
            if count <? available then
              bytes ← slice (ib_payload b) (Z.to_nat pos) (Z.to_nat count);
              Some (total_read ++ bytes, outgoing_data_ready,
                    rx_with_current_in_buffer_pos (u8 (pos + count)) r)
            else
              bytes ← slice (ib_payload b) (Z.to_nat pos) (Z.to_nat available);
              '(continue, r) ← Receiver_consume r i b;
              if continue && (0 <? count - available)
              then Receiver_tryRead_loop fuel r (count - available) (total_read ++ bytes) true
              else Some (total_read ++ bytes, true, r)
      end
  end.

(** Every iteration but the last frees a slot. *)
Definition Receiver_tryRead (r : Receiver) (count : Z) : option (list byte * bool * Receiver) :=
  match rx_state r with
  | RkConnecting | RkIdle => Some ([], false, r)
  | _ => Receiver_tryRead_loop (S (S (Z.to_nat (RingBuffer_slotsUsed (rx_in_ring r))))) r count
           [] false
  end.

(** Returns [outgoing_data_ready], which the caller passes in. *)
Definition Receiver_markInputClosed (r : Receiver) (outgoing_data_ready : bool)
    : option (bool * Receiver) :=
  let r := rx_with_self_closed true r in
  if RingBuffer_empty (rx_in_ring r) then Some (outgoing_data_ready, r)
  else
    ring ← RingBuffer_drain_all (rx_in_ring r);
    Some (true, rx_with_in_ring ring (rx_with_recv_himark_update_expiration Uptime_Start r)).

(** The start of [peek] and [availableForRead]: the current buffer. *)
Definition Receiver_current (r : Receiver) : option (option nat * Receiver) :=
  match rx_current_in_buffer r with
  | Some i => Some (Some i, r)
  | None =>
      if RingBuffer_empty (rx_in_ring r) then Some (None, r)
      else
        i ← Receiver_getInBuffer r (rb_begin (rx_in_ring r));
        Some (Some i, rx_with_current_in_buffer_pos 0 (rx_with_current_in_buffer (Some i) r))
  end.

Definition Receiver_peek (r : Receiver) : option (Z * Receiver) :=
  '(current, r) ← Receiver_current r;
  match current with
  | None => Some (-1, r)
  | Some i =>
      b ← rx_in_buffers r !! i;
      if decide (ib_type b = kData) then
        DCHECK (rx_current_in_buffer_pos r <? ib_size b) ;;
        x ← ib_payload b !! Z.to_nat (rx_current_in_buffer_pos r);
        Some (x, r)
      else Some (-1, r)
  end.

Definition Receiver_availableForRead (r : Receiver) : option (Z * Receiver) :=
  '(current, r) ← Receiver_current r;
  match current with
  | None => Some (0, r)
  | Some i =>
      b ← rx_in_buffers r !! i;
      match ib_type b with
      | kUnset => Some (0, r)
      | kFin => Some (1, r)
      | kData =>
          DCHECK (rx_current_in_buffer_pos r <? ib_size b) ;;
          Some (ib_size b - rx_current_in_buffer_pos r, r)
      end
  end.

(** The loop of [reset]. *)
Fixpoint Receiver_discard (fuel : nat) (r : Receiver) : option Receiver :=
  match fuel with
  | O => None
  | S fuel =>
      if RingBuffer_empty (rx_in_ring r) then Some r
      else
        i ← Receiver_getInBuffer r (rb_begin (rx_in_ring r));
        b ← rx_in_buffers r !! i;
        let r := rx_set_buffer i (InBuffer_clear b) r in
        '(_, ring) ← RingBuffer_pop (rx_in_ring r);
        Receiver_discard fuel (rx_with_in_ring ring r)
  end.

Definition Receiver_reset (r : Receiver) : option Receiver :=
  let r := rx_with_end_of_stream false
            (rx_with_self_closed false
              (rx_with_peer_closed false (rx_with_state RkIdle (rx_with_my_stream_id 0 r)))) in
  r ← Receiver_discard (S (Z.to_nat (RingBuffer_slotsUsed (rx_in_ring r)))) r;
  Some (rx_with_recv_himark_update_expiration Uptime_Start
         (rx_with_needs_ack false
           (rx_with_current_in_buffer_pos 0 (rx_with_current_in_buffer None r)))).

Definition Receiver_init (r : Receiver) (my_stream_id : Z) : option Receiver :=
  ring ← RingBuffer_drain_all (rx_in_ring r);
  Some (rx_with_state RkConnecting
         (rx_with_end_of_stream false
           (rx_with_self_closed false
             (rx_with_peer_closed false
               (rx_with_my_stream_id my_stream_id (rx_with_in_ring ring r)))))).

Definition kRecvHimarkExpirationTimeoutUs : Z := 100000.

(** [now] is the clock. Returns the packet, empty if there is none, and
    [next_send_micros]. *)
Definition Receiver_updateRecvHimark (r : Receiver) (now next_send_micros : Z)
    : list byte * Z * Receiver :=
  match rx_state r with
  | RkConnecting | RkIdle => ([], next_send_micros, r)
  | _ =>
      if now <? rx_recv_himark_update_expiration r then
        ([], Z.min next_send_micros (to_long (rx_recv_himark_update_expiration r - now)), r)
      else
        let recv_himark :=
          SeqNum_add (rb_begin (rx_in_ring r)) (RingBuffer_capacity (rx_in_ring r)) in
        (StoreBeU16 (FormatPacketHeader recv_himark kFlowControlPacket (rx_control_bit r)),
         Z.min next_send_micros kRecvHimarkExpirationTimeoutUs,
         rx_with_recv_himark_update_expiration (now + kRecvHimarkExpirationTimeoutUs)
           (rx_with_recv_himark recv_himark r))
  end.

(** [ack]: the loop over the window after the first missing packet; [n] is
    [idx + 1]. *)
Fixpoint Receiver_ack_bitmask (n : nat) (r : Receiver) (in_pos : SeqNum) (ack_bitmask : Z)
    : option Z :=
  match n with
  | O => Some ack_bitmask
  | S idx =>
      if RingBuffer_contains (rx_in_ring r) in_pos then
        i ← Receiver_getInBuffer r in_pos;
        b ← rx_in_buffers r !! i;
        Receiver_ack_bitmask idx r (SeqNum_incr in_pos)
          (if decide (ib_type b = kUnset) then ack_bitmask
           else Z.lor ack_bitmask (Z.shiftl 1 (Z.of_nat idx)))
      else Some ack_bitmask
  end.

(** [while (buf[len - 1] == 0) --len;] *)
Fixpoint Receiver_trim (len : nat) (buf : list byte) : option nat :=
  match len with
  | O => None
  | S len' => x ← buf !! len'; if x =? 0 then Receiver_trim len' buf else Some len
  end.

(** Returns the packet, empty if there is none. *)
Definition Receiver_ack (r : Receiver) : option (list byte * Receiver) :=
  if (bool_decide (rx_state r ≠ RkConnected) && bool_decide (rx_state r ≠ RkIdle))
     || negb (rx_needs_ack r)
  then Some ([], r)
  else
    let header := StoreBeU16 (FormatPacketHeader (rx_unack_seq r) kDataAckPacket (rx_control_bit r)) in
    ack_bitmask ← Receiver_ack_bitmask 64 r (SeqNum_make (rx_unack_seq r + 1)) 0;
    let r := rx_with_needs_ack false r in
    if ack_bitmask =? 0 then Some (header, r)
    else
      let buf := header ++ StoreBeU64 ack_bitmask in
      len ← Receiver_trim 10 buf;
      Some (take len buf, r).

(** [handleDataPacket]: [for (i = 0; i < advance; ++i)
    getInBuffer(in_ring_.push()).clear();] *)
Fixpoint Receiver_extend (advance : nat) (r : Receiver) : option Receiver :=
  match advance with
  | O => Some r
  | S advance =>
      '(pos, ring) ← RingBuffer_push (rx_in_ring r);
      let r := rx_with_in_ring ring r in
      i ← Receiver_getInBuffer r pos;
      b ← rx_in_buffers r !! i;
      Receiver_extend advance (rx_set_buffer i (InBuffer_clear b) r)
  end.

(** [handleDataPacket]: the loop that moves [unack_seq_] past what has arrived. *)
Fixpoint Receiver_advance (fuel : nat) (r : Receiver) : option Receiver :=
  match fuel with
  | O => None
  | S fuel =>
      let r := rx_with_packets_received (u32 (rx_packets_received r + 1))
                 (rx_with_unack_seq (u16 (rx_unack_seq r + 1)) r) in
      if RingBuffer_contains (rx_in_ring r) (SeqNum_make (rx_unack_seq r)) then
        i ← Receiver_getInBuffer r (SeqNum_make (rx_unack_seq r));
        b ← rx_in_buffers r !! i;
        if decide (ib_type b = kUnset) then Some r else Receiver_advance fuel r
      else Some r
  end.

(** [handleDataPacket]: [while (!in_ring_.empty() && in_ring_.begin() < unack_seq_)
    in_ring_.pop();] *)
Fixpoint Receiver_skip (fuel : nat) (r : Receiver) : option Receiver :=
  match fuel with
  | O => None
  | S fuel =>
      if negb (RingBuffer_empty (rx_in_ring r))
         && SeqNum_lt (rb_begin (rx_in_ring r)) (SeqNum_make (rx_unack_seq r))
      then '(_, ring) ← RingBuffer_pop (rx_in_ring r);
           Receiver_skip fuel (rx_with_in_ring ring r)
      else Some r
  end.

(** [handleDataPacket], first part: room for [seq] in the window. [inl] is an early
    return, with its value. *)
Definition Receiver_makeRoom (r : Receiver) (seq : SeqNum)
    : option (bool * Receiver + Receiver) :=
  if RingBuffer_contains (rx_in_ring r) seq then Some (inr r)
  else if SeqNum_lt seq (rb_begin (rx_in_ring r)) then
    Some (inl (true, rx_with_needs_ack true r))
  else if rx_peer_closed r then Some (inl (false, r))
  else
    let advance := u64 (SeqNum_dist seq (rb_end (rx_in_ring r)) + 1) in
    if RingBuffer_slotsFree (rx_in_ring r) <? advance then Some (inl (false, r))
    else
      r ← Receiver_extend (Z.to_nat advance) r;
      DCHECK (RingBuffer_contains (rx_in_ring r) seq) ;;
      Some (inr r).

(** The rest: stores the packet and moves on. Returns [has_new_data_to_read]. *)
Definition Receiver_store (r : Receiver) (seq : SeqNum) (payload : list byte) (len : Z)
    (is_final : bool) : option (bool * Receiver) :=
  i ← Receiver_getInBuffer r seq;
  b ← rx_in_buffers r !! i;
  b' ← (if decide (ib_type b = kUnset)
        then InBuffer_set b (if is_final then kFin else kData) payload len
        else Some b);
  let r := rx_set_buffer i b' r in
  let r := if is_final then rx_with_peer_closed true r else r in
  let r := rx_with_needs_ack true r in
  if SeqNum_eq seq (SeqNum_make (rx_unack_seq r)) then
    let fuel := S (S (Z.to_nat (RingBuffer_slotsUsed (rx_in_ring r)))) in
    r ← Receiver_advance fuel r;
    if rx_self_closed r then r ← Receiver_skip fuel r; Some (false, r)
    else Some (true, r)
  else Some (false, r).

(** Returns whether there is an acknowledgment to send, and
    [has_new_data_to_read]. *)
Definition Receiver_handleDataPacket (r : Receiver) (control_bit : bool) (seq_id : Z)
    (payload : list byte) (len : Z) (is_final : bool) : option (bool * bool * Receiver) :=
  match rx_state r with
  | RkConnecting | RkIdle => Some (false, false, r)
  | _ =>
      if Bool.eqb control_bit (rx_control_bit r) then Some (false, false, r)
      else
        seq ← RingBuffer_restorePosHighBits (rx_in_ring r) seq_id 12;
        room ← Receiver_makeRoom r seq;
        match room with
        | inl (has_ack_to_send, r) => Some (has_ack_to_send, false, r)
        | inr r =>
            '(has_new_data_to_read, r) ← Receiver_store r seq payload len is_final;
            Some (true, has_new_data_to_read, r)
        end
  end.

End Operations.
