(* ===== verification/ReceiverProofs.v ===== *)
(** * ReceiverProofs: the invariant of the receiver and what its operations do

    The peer's stream is a function from positions to packet bodies and, once the
    peer has closed, the position of the end-of-stream packet. [rx_inv] says that the
    window [B, E) holds packets of that stream, complete up to U. *)

From S2P Require Import Prelude.
From S2P Require Import SeqNum.
From S2P Require Import RingBuffer.
From S2P Require Import RooIo.
From S2P Require Import Protocol.
From S2P Require Import Buffers.
From S2P Require Import Receiver.

Local Open Scope Z_scope.
Local Open Scope roo_scope.

Definition rx_slot (r : Receiver) (p : Z) : nat :=
  Z.to_nat (p mod 2 ^ rb_log2 (rx_in_ring r)).

(** The buffer of position [p]. *)
Definition rx_at (r : Receiver) (p : Z) : option InBuffer := rx_in_buffers r !! rx_slot r p.

Record rx_wf (r : Receiver) (B E : Z) : Prop := {
  rw_ring : ring_abs (rx_in_ring r) B E;
  rw_length : length (rx_in_buffers r) = Z.to_nat (2 ^ rb_log2 (rx_in_ring r));
  rw_buffers : Forall in_buffer_wf (rx_in_buffers r);
}.

(** What reading leaves alone. *)
Record rx_session (r r' : Receiver) : Prop := {
  rs_state : rx_state r' = rx_state r;
  rs_self_closed : rx_self_closed r' = rx_self_closed r;
  rs_peer_closed : rx_peer_closed r' = rx_peer_closed r;
  rs_control : rx_control_bit r' = rx_control_bit r;
  rs_id : rx_my_stream_id r' = rx_my_stream_id r;
  rs_log2 : rb_log2 (rx_in_ring r') = rb_log2 (rx_in_ring r);
}.

#[export] Instance rx_session_preorder : PreOrder rx_session.
Proof. split; [by constructor|]. intros r1 r2 r3 [] []. constructor; congruence. Qed.

Section Slots.

Context (r : Receiver) (B E : Z) (Hwf : rx_wf r B E).

Lemma rx_slot_lt p : (rx_slot r p < length (rx_in_buffers r))%nat.
Proof using Hwf.
  rewrite (rw_length _ _ _ Hwf). unfold rx_slot.
  pose proof (ring_capacity_bounds _ _ _ (rw_ring _ _ _ Hwf)).
  pose proof (Z.mod_pos_bound p (2 ^ rb_log2 (rx_in_ring r))). lia.
Qed.

Lemma rx_at_lookup p : ∃ b, rx_at r p = Some b ∧ in_buffer_wf b.
Proof using Hwf.
  destruct (lookup_lt_is_Some_2 _ _ (rx_slot_lt p)) as [b Hb].
  exists b. split; [done|]. eapply Forall_lookup_1, Hb. apply (rw_buffers _ _ _ Hwf).
Qed.

Lemma rx_getInBuffer p : B ≤ p < E → Receiver_getInBuffer r (u16 p) = Some (rx_slot r p).
Proof using Hwf.
  intros. unfold Receiver_getInBuffer.
  by rewrite (ring_offset_for _ _ _ (rw_ring _ _ _ Hwf)) by done.
Qed.

Lemma rx_slot_inj p q : B ≤ p < E → B ≤ q < E → rx_slot r p = rx_slot r q → p = q.
Proof using Hwf.
  intros Hp Hq Heq. pose proof (ring_capacity_bounds _ _ _ (rw_ring _ _ _ Hwf)).
  eapply (ring_offset_inj _ _ _ _ _ (rw_ring _ _ _ Hwf) Hp Hq). unfold rx_slot in Heq.
  pose proof (Z.mod_pos_bound p (2 ^ rb_log2 (rx_in_ring r))).
  pose proof (Z.mod_pos_bound q (2 ^ rb_log2 (rx_in_ring r))). lia.
Qed.

Lemma rx_set_buffer_wf i b : in_buffer_wf b → rx_wf (rx_set_buffer i b r) B E.
Proof using Hwf.
  intros Hb. destruct Hwf. constructor; cbn; auto; [by rewrite length_insert|].
  by apply Forall_insert.
Qed.

Lemma rx_at_set_eq p b : rx_at (rx_set_buffer (rx_slot r p) b r) p = Some b.
Proof using Hwf. unfold rx_at. cbn. apply list_lookup_insert_eq, rx_slot_lt. Qed.

Lemma rx_at_set_ne p q b :
  B ≤ p < E → B ≤ q < E → p ≠ q → rx_at (rx_set_buffer (rx_slot r p) b r) q = rx_at r q.
Proof using Hwf.
  intros Hp Hq Hne. unfold rx_at. cbn. rewrite list_lookup_insert_ne; [done|].
  intros Heq. by apply Hne, rx_slot_inj.
Qed.

End Slots.

(** ** The invariant *)

Section Peer.

Context {io : RooIo} {io_laws : RooIoLaws} {pf : Platform}.

(** What the peer sends: the bytes of each position, and where its stream ends. *)
Context (peer : Z → list byte) (fin : option Z).

Definition rx_type (p : Z) : InBufferType := if decide (fin = Some p) then kFin else kData.

Record rx_inv (r : Receiver) (B E U : Z) : Prop := {
  ri_wf : rx_wf r B E;
  ri_unack : rx_unack_seq r = u16 U;
  ri_window : B ≤ U ≤ E;
  ri_received : ∀ p b, B ≤ p < U → rx_at r p = Some b → ib_type b ≠ kUnset;
  ri_next : ∀ b, U < E → rx_at r U = Some b → ib_type b = kUnset;
  ri_content : ∀ p b, B ≤ p < E → rx_at r p = Some b → ib_type b ≠ kUnset →
    InBuffer_bytes b 0 = peer p ∧ ib_type b = rx_type p;
  ri_fin : ∀ f, fin = Some f → E ≤ f + 1;
  ri_closed : rx_peer_closed r = true → fin = Some (E - 1);
  ri_eos : rx_self_closed r = false → rx_end_of_stream r = true ↔ fin = Some (B - 1);
  ri_cur : rx_self_closed r = false → ∀ i, rx_current_in_buffer r = Some i →
    B < E ∧ i = rx_slot r B
    ∧ (rx_current_in_buffer_pos r = 0
       ∨ ∃ b, rx_at r B = Some b ∧ 0 < rx_current_in_buffer_pos r < ib_size b);
}.

(** The bytes of the positions [B, U), and those not read yet. *)
Definition peer_stream (B U : Z) : list byte := concat (peer <$> seqZ B (U - B)).

Definition rx_read_pos (r : Receiver) : nat :=
  match rx_current_in_buffer r with
  | Some _ => Z.to_nat (rx_current_in_buffer_pos r)
  | None => 0%nat
  end.

Definition rx_unread (r : Receiver) (B U : Z) : list byte :=
  drop (rx_read_pos r) (peer_stream B U).

Lemma peer_stream_cons B U : B < U → peer_stream B U = peer B ++ peer_stream (B + 1) U.
Proof.
  intros. unfold peer_stream. rewrite seqZ_cons by lia. cbn.
  do 4 f_equal; lia.
Qed.

Lemma peer_stream_app B M U : B ≤ M ≤ U → peer_stream B U = peer_stream B M ++ peer_stream M U.
Proof.
  intros. unfold peer_stream. replace (U - B) with ((M - B) + (U - M)) by lia.
  rewrite seqZ_app, fmap_app, concat_app by lia. do 4 f_equal. lia.
Qed.

Lemma peer_stream_nil B : peer_stream B B = [].
Proof. unfold peer_stream. by rewrite Z.sub_diag. Qed.

(** ** Reading *)

(** The receiver looking at the first packet of the window, [pos] bytes into it. *)
Definition rx_looking (r : Receiver) (B pos : Z) : Receiver :=
  rx_with_current_in_buffer_pos pos (rx_with_current_in_buffer (Some (rx_slot r B)) r).

Lemma rx_read_pos_spec r B E U :
  rx_inv r B E U → rx_self_closed r = false →
  rx_read_pos r = 0%nat
  ∨ ∃ b, rx_at r B = Some b ∧ B < E ∧ 0 < Z.of_nat (rx_read_pos r) < ib_size b.
Proof.
  intros Hinv Hsc. unfold rx_read_pos. destruct (rx_current_in_buffer r) as [i|] eqn:Hc; [|by left].
  destruct (ri_cur _ _ _ _ Hinv Hsc i Hc) as (HBE & -> & [->|(b & Hb & Hp)]); [by left|].
  right. exists b. split; [done|]. split; [done|]. lia.
Qed.

Lemma rx_looking_inv r B E U pos :
  rx_inv r B E U → B < E → pos = 0 ∨ (∃ b, rx_at r B = Some b ∧ 0 < pos < ib_size b) →
  rx_inv (rx_looking r B pos) B E U.
Proof.
  intros Hinv HBE Hpos. destruct Hinv as [[] ? ? ? ? ? ? ? ? ?]. constructor; auto.
  - by constructor.
  - intros _ i [= <-]. auto.
Qed.

Lemma rx_looking_eq r B E U :
  rx_inv r B E U → rx_self_closed r = false → ∀ i, rx_current_in_buffer r = Some i →
  i = rx_slot r B ∧ rx_looking r B (Z.of_nat (rx_read_pos r)) = r ∧ B < E.
Proof.
  intros Hinv Hsc i Hi. destruct (ri_cur _ _ _ _ Hinv Hsc i Hi) as (HBE & -> & Hpos).
  split; [done|]. split; [|done]. unfold rx_looking, rx_read_pos. rewrite Hi, Z2Nat.id.
  - rewrite <- Hi. by destruct r.
  - destruct Hpos as [->|(? & _ & ?)]; lia.
Qed.

Lemma rx_select_spec r B E U :
  rx_inv r B E U → rx_self_closed r = false → rx_state r = RkConnected →
  Receiver_select r
  = if decide (B = E) then Some (None, r)
    else Some (Some (rx_slot r B), rx_looking r B (Z.of_nat (rx_read_pos r))).
Proof.
  intros Hinv Hsc Hst. unfold Receiver_select.
  destruct (rx_current_in_buffer r) as [i|] eqn:Hc.
  - destruct (rx_looking_eq _ _ _ _ Hinv Hsc i Hc) as (-> & Heq & ?).
    rewrite decide_False by lia. by rewrite Heq.
  - pose proof (rw_ring _ _ _ (ri_wf _ _ _ _ Hinv)) as Hr.
    rewrite (ring_empty _ _ _ Hr). pose proof (ri_window _ _ _ _ Hinv).
    rewrite (decide_False (P := rx_state r = RkBroken)) by congruence.
    destruct (Z.eqb_spec B E); case_decide; try done.
    rewrite (ra_begin _ _ _ Hr).
    rewrite (bind_step _ _ _ (rx_getInBuffer _ _ _ (ri_wf _ _ _ _ Hinv) B ltac:(lia))).
    unfold rx_read_pos. by rewrite Hc.
Qed.

(** The first packet of the window is read in full. *)
Lemma rx_consume_spec r B E U b pos :
  rx_inv r B E U → rx_self_closed r = false → B < U → rx_at r B = Some b →
  ∃ r', Receiver_consume (rx_looking r B pos) (rx_slot r B) b
        = Some (bool_decide (fin ≠ Some B), r')
    ∧ rx_inv r' (B + 1) E U ∧ rx_current_in_buffer r' = None ∧ rx_session r r'
    ∧ ∀ p, B + 1 ≤ p < E → rx_at r' p = rx_at r p.
Proof.
  intros Hinv Hsc HBU Hb. pose proof (ri_wf _ _ _ _ Hinv) as Hwf. pose proof (rw_ring _ _ _ Hwf) as Hr.
  pose proof (ri_window _ _ _ _ Hinv) as Hw. unfold Receiver_consume. cbv zeta.
  cbn [rx_in_ring rx_with_recv_himark_update_expiration rx_with_current_in_buffer rx_set_buffer
       rx_with_in_buffers rx_looking rx_with_current_in_buffer_pos].
  destruct (ring_pop _ _ _ Hr) as (ring & Hpop & Hr' & Hl); [lia|]. rewrite (bind_step _ _ _ Hpop).
  cbn beta iota.
  assert (Hty : ib_type b = rx_type B).
  { eapply (ri_content _ _ _ _ Hinv); [|done|]; [lia|]. eapply (ri_received _ _ _ _ Hinv); [|done]. lia. }
  assert (Hat : ∀ p, rx_slot (rx_with_in_ring ring r) p = rx_slot r p)
    by (intros; unfold rx_slot; cbn; by rewrite Hl).
  set (r1 := rx_with_recv_himark_update_expiration Uptime_Start
        (rx_with_current_in_buffer None
          (rx_set_buffer (rx_slot r B) (InBuffer_clear b) (rx_looking r B pos)))).
  assert (Hother : ∀ p, B + 1 ≤ p < E → rx_at (rx_with_in_ring ring r1) p = rx_at r p).
  { intros p Hp. transitivity (rx_at (rx_set_buffer (rx_slot r B) (InBuffer_clear b) r) p);
      [|eapply rx_at_set_ne; eauto; lia]. unfold rx_at.
    change (rx_slot (rx_with_in_ring ring r1) p) with (rx_slot (rx_with_in_ring ring r) p).
    by rewrite Hat. }
  assert (Hwf1 : rx_wf (rx_with_in_ring ring r1) (B + 1) E).
  { destruct (rx_set_buffer_wf _ _ _ Hwf (rx_slot r B) (InBuffer_clear b)) as [_ ? ?].
    { apply InBuffer_clear_wf. eapply Forall_lookup_1, Hb. apply (rw_buffers _ _ _ Hwf). }
    constructor; [done| |done]. change (rb_log2 (rx_in_ring _)) with (rb_log2 ring). by rewrite Hl. }
  assert (Hinv1 : ∀ e, (e = true ↔ fin = Some B) →
    rx_inv (rx_with_end_of_stream e (rx_with_in_ring ring r1)) (B + 1) E U).
  { intros e He. constructor; [by destruct Hwf1; constructor|apply (ri_unack _ _ _ _ Hinv)|lia|..].
    - intros p bp Hp Hbp. eapply (ri_received _ _ _ _ Hinv p); [lia|]. rewrite <- Hother by lia. exact Hbp.
    - intros bp Hp Hbp. eapply (ri_next _ _ _ _ Hinv); [lia|]. rewrite <- Hother by lia. exact Hbp.
    - intros p bp Hp Hbp. eapply (ri_content _ _ _ _ Hinv); [lia|]. rewrite <- Hother by lia. exact Hbp.
    - apply (ri_fin _ _ _ _ Hinv).
    - apply (ri_closed _ _ _ _ Hinv).
    - intros _. cbn. replace (B + 1 - 1) with B by lia. done.
    - intros _ i [=]. }
  unfold rx_type in Hty. destruct (decide (fin = Some B)) as [Hf|Hnf]; rewrite Hty; cbn [decide].
  - rewrite decide_True by done. change (rx_in_ring (rx_with_in_ring ring _)) with ring.
    pose proof (ri_fin _ _ _ _ Hinv B Hf). assert (E = B + 1) as HE by lia.
    rewrite (ring_empty _ _ _ Hr'), (proj2 (Z.eqb_eq _ _)) by lia. cbn [check mbind option_bind].
    rewrite bool_decide_false by (by intros ?). eexists. split; [done|].
    split; [by apply Hinv1|]. split; [done|]. split; [by constructor|exact Hother].
  - rewrite decide_False by done. rewrite bool_decide_true by done. eexists. split; [done|].
    split; [|split; [done|split; [by constructor|exact Hother]]].
    assert (He : rx_end_of_stream r = false).
    { destruct (rx_end_of_stream r) eqn:He; [|done]. apply (ri_eos _ _ _ _ Hinv Hsc) in He.
      pose proof (ri_fin _ _ _ _ Hinv _ He). lia. }
    assert (Hfalse : false = true ↔ fin = Some B) by done.
    specialize (Hinv1 false Hfalse). fold r1. replace (rx_with_in_ring ring r1)
      with (rx_with_end_of_stream false (rx_with_in_ring ring r1)); [done|].
    unfold rx_with_end_of_stream, rx_with_in_ring. cbn. by rewrite He.
Qed.

(** One buffer of the stream, [pos] bytes into it. *)
Lemma rx_current_bytes r B E U b :
  rx_inv r B E U → B < U → rx_at r B = Some b →
  in_buffer_wf b ∧ InBuffer_bytes b 0 = peer B ∧ ib_size b = Z.of_nat (length (peer B)).
Proof.
  intros Hinv HBU Hb. pose proof (ri_window _ _ _ _ Hinv).
  assert (Hwb : in_buffer_wf b)
    by (eapply Forall_lookup_1, Hb; apply (rw_buffers _ _ _ (ri_wf _ _ _ _ Hinv))).
  destruct (ri_content _ _ _ _ Hinv B b) as [Hc _]; [lia|done| |].
  { eapply (ri_received _ _ _ _ Hinv B); [lia|done]. }
  split; [done|]. split; [done|]. by rewrite <- Hc, length_InBuffer_bytes.
Qed.

Lemma rx_tryRead_loop_spec fuel E U :
  ∀ r B count total ready,
  rx_inv r B E U → rx_self_closed r = false → rx_state r = RkConnected → 0 ≤ count →
  (Z.to_nat (E - B) < fuel)%nat →
  ∃ bytes ready' r' B',
    Receiver_tryRead_loop fuel r count total ready = Some (total ++ bytes, ready', r')
    ∧ rx_inv r' B' E U ∧ rx_session r r' ∧ B ≤ B'
    ∧ bytes ++ rx_unread r' B' U = rx_unread r B U
    ∧ Z.of_nat (length bytes) ≤ count
    ∧ (Z.of_nat (length bytes) < count → B' = U)
    ∧ ∀ p, B' ≤ p < E → rx_at r' p = rx_at r p.
Proof.
  induction fuel as [|fuel IH]; intros r B count total ready Hinv Hsc Hst Hcount Hfuel; [lia|].
  cbn [Receiver_tryRead_loop]. pose proof (ri_window _ _ _ _ Hinv) as Hw.
  rewrite (rx_select_spec _ _ _ _ Hinv Hsc Hst).
  assert (Hstop : ∀ r1, rx_inv r1 B E U → rx_session r r1 → rx_read_pos r1 = rx_read_pos r → B = U →
    (∀ p, rx_at r1 p = rx_at r p) →
    ∃ bytes ready' r' B', Some (total, ready, r1) = Some (total ++ bytes, ready', r')
    ∧ rx_inv r' B' E U ∧ rx_session r r' ∧ B ≤ B'
    ∧ bytes ++ rx_unread r' B' U = rx_unread r B U
    ∧ Z.of_nat (length bytes) ≤ count ∧ (Z.of_nat (length bytes) < count → B' = U)
    ∧ ∀ p, B' ≤ p < E → rx_at r' p = rx_at r p).
  { intros r1 Hi Hs Hpos -> Hat. exists [], ready, r1, U. rewrite app_nil_r. unfold rx_unread.
    rewrite Hpos. cbn. split_and!; auto; lia. }
  case_decide as HBE; cbn [mbind option_bind].
  { apply Hstop; [done|done|done|lia|done]. }
  set (pos := Z.of_nat (rx_read_pos r)).
  pose proof (rx_read_pos_spec _ _ _ _ Hinv Hsc) as Hrp.
  assert (Hlook : rx_inv (rx_looking r B pos) B E U).
  { apply rx_looking_inv; [done|lia|]. unfold pos. destruct Hrp as [->|(b & ? & _ & ?)]; [by left|eauto]. }
  assert (Hses : rx_session r (rx_looking r B pos)) by (by constructor).
  destruct (rx_at_lookup _ _ _ (ri_wf _ _ _ _ Hinv) B) as (b & Hb & Hwb).
  change (rx_in_buffers (rx_looking r B pos) !! rx_slot r B) with (rx_at r B).
  rewrite (bind_step _ _ _ Hb). case_decide as Hty.
  { apply Hstop; [done|done|unfold rx_read_pos at 1; cbn; lia| |done].
    destruct (decide (B < U)); [|lia]. by destruct (ri_received _ _ _ _ Hinv B b ltac:(lia) Hb). }
  assert (HBU : B < U).
  { destruct (decide (B < U)); [done|]. exfalso. apply Hty, (ri_next _ _ _ _ Hinv); [lia|].
    by replace U with B by lia. }
  destruct (rx_current_bytes _ _ _ _ _ Hinv HBU Hb) as (_ & Hbytes & Hsize).
  change (rx_current_in_buffer_pos (rx_looking r B pos)) with pos. cbv zeta.
  pose proof (ibw_size _ Hwb) as Hsz. assert (Hpos : 0 ≤ pos ≤ ib_size b).
  { unfold pos. destruct Hrp as [->|(b2 & Hb2 & _ & ?)]; [lia|]. replace b2 with b in * by congruence. lia. }
  run_checks. unfold rx_unread. rewrite (peer_stream_cons B U HBU), <- Hbytes.
  replace (rx_read_pos r) with (Z.to_nat pos) by lia.
  destruct (Z.ltb_spec count (ib_size b - pos)).
  - rewrite (InBuffer_slice b pos count Hwb Hpos ltac:(lia)). cbn [mbind option_bind].
    rewrite u8_small by lia. eexists _, ready, _, B. split; [done|].
    split; [apply (rx_looking_inv r B E U (pos + count)); [done|lia|]|].
    { destruct (decide (pos + count = 0)); [by left|right]. exists b. split; [done|lia]. }
    split; [by constructor|]. split; [lia|].
    rewrite (peer_stream_cons B U HBU), <- Hbytes. unfold rx_read_pos. cbn.
    assert (Hlen : (length (InBuffer_bytes b 0) = Z.to_nat (ib_size b))%nat)
      by (pose proof (length_InBuffer_bytes b Hwb); lia).
    rewrite !drop_app_le by lia. rewrite app_assoc. replace (Z.to_nat (pos + count)) with
      (Z.to_nat pos + Z.to_nat count)%nat by lia.
    rewrite <- drop_drop, take_drop. split; [done|].
    rewrite length_take, length_drop. split; [lia|]. split; [lia|done].
  - rewrite (InBuffer_slice b pos (ib_size b - pos) Hwb Hpos ltac:(lia)). cbn [mbind option_bind].
    pose proof (length_InBuffer_bytes b Hwb) as Hlen.
    rewrite (take_ge (drop _ _)) by (rewrite length_drop; lia).
    destruct (rx_consume_spec r B E U b pos Hinv Hsc HBU Hb) as (r1 & Hcons & Hinv1 & Hc1 & Hs1 & Hat1).
    rewrite (bind_step _ _ _ Hcons). cbn beta iota.
    assert (Hun : ∀ M, rx_unread r1 (B + 1) M = peer_stream (B + 1) M)
      by (intros; unfold rx_unread, rx_read_pos; by rewrite Hc1).
    rewrite drop_app_le by lia.
    assert (Hlb : Z.of_nat (length (drop (Z.to_nat pos) (InBuffer_bytes b 0))) = ib_size b - pos)
      by (rewrite length_drop; lia).
    destruct (bool_decide_reflect (fin ≠ Some B)) as [Hnf|Hf]; cbn [andb].
    2: { eexists _, true, r1, (B + 1). split; [done|]. split; [done|]. split; [done|].
         split; [lia|]. fold (rx_unread r1 (B + 1) U). rewrite Hun. split; [done|]. rewrite Hlb.
         assert (Hfin : fin = Some B) by (destruct (decide (fin = Some B)); tauto).
         pose proof (ri_fin _ _ _ _ Hinv B Hfin). split; [lia|]. split; [lia|exact Hat1]. }
    destruct (Z.ltb_spec 0 (count - (ib_size b - pos))).
    + destruct (IH r1 (B + 1) (count - (ib_size b - pos)) (total ++ drop (Z.to_nat pos) (InBuffer_bytes b 0)) true Hinv1)
        as (bytes & ready' & r' & B' & Hl & Hinv' & Hs' & HB' & Hcat & Hlen' & Hall & Hat');
        [by rewrite (rs_self_closed _ _ Hs1)|by rewrite (rs_state _ _ Hs1)|lia|lia|].
      rewrite Hl, <- app_assoc. do 4 eexists. split; [done|]. split; [done|].
      split; [by etrans|]. split; [lia|].
      rewrite <- app_assoc. fold (rx_unread r' B' U). rewrite Hcat, Hun, length_app. split; [done|].
      split; [lia|]. split; [intros; apply Hall; lia|]. intros p Hp. rewrite Hat' by lia. apply Hat1. lia.
    + eexists _, true, r1, (B + 1). split; [done|]. split; [done|]. split; [done|].
      split; [lia|]. fold (rx_unread r1 (B + 1) U). rewrite Hun. split; [done|]. rewrite Hlb. split; [lia|]. split; [lia|exact Hat1].
Qed.

(** Reading makes a himark due at once, or leaves it due when it was. *)
Lemma Receiver_tryRead_loop_himark fuel :
  ∀ r count total ready bytes ready' r',
  Receiver_tryRead_loop fuel r count total ready = Some (bytes, ready', r') →
  rx_recv_himark_update_expiration r' = rx_recv_himark_update_expiration r
  ∨ rx_recv_himark_update_expiration r' = Uptime_Start.
Proof.
  induction fuel as [|fuel IH]; intros r count total ready bytes ready' r'; [done|].
  cbn [Receiver_tryRead_loop]. intros Heq. inv_bind Heq. destruct p as [selected r1].
  assert (Hsel : rx_recv_himark_update_expiration r1 = rx_recv_himark_update_expiration r).
  { revert E. unfold Receiver_select. destruct (rx_current_in_buffer r); [by intros [= <- <-]|].
    destruct (RingBuffer_empty _); [intros [= <- <-]; by case_decide|]. intros E. inv_bind E. by injection E as <- <-. }
  rewrite <- Hsel. destruct selected as [i|]; [|injection Heq as <- <- <-; by left].
  inv_bind Heq. case_decide; [injection Heq as <- <- <-; by left|]. unfold check in Heq.
  destruct (_ <=? _); [|done]. cbn [mbind option_bind] in Heq.
  destruct (_ <? _).
  { inv_bind Heq. injection Heq as <- <- <-. by left. }
  inv_bind Heq. destruct p as [continue r2].
  assert (Hcons : rx_recv_himark_update_expiration r2 = Uptime_Start).
  { revert E2. unfold Receiver_consume. cbv zeta. intros E2. inv_bind E2. destruct p as [? ring].
    case_decide; [unfold check in E2; destruct (RingBuffer_empty _); [|done]; cbn [mbind option_bind] in E2|];
      by injection E2 as <- <-. }
  right. destruct (_ && _); [|injection Heq as <- <- <-; done].
  destruct (IH _ _ _ _ _ _ _ Heq); congruence.
Qed.

(** ** Receiving *)

(** Only the window and its buffers differ. *)
Definition rx_reframed (r r' : Receiver) : Prop :=
  r' = rx_with_in_buffers (rx_in_buffers r') (rx_with_in_ring (rx_in_ring r') r)
  ∧ rb_log2 (rx_in_ring r') = rb_log2 (rx_in_ring r).

Lemma rx_reframed_refl r : rx_reframed r r.
Proof. split; [by destruct r|done]. Qed.

Lemma rx_reframed_trans r1 r2 r3 : rx_reframed r1 r2 → rx_reframed r2 r3 → rx_reframed r1 r3.
Proof. intros [H1 L1] [H2 L2]. split; [|congruence]. rewrite H2, H1. done. Qed.

Lemma rx_slot_log2 r r' p :
  rb_log2 (rx_in_ring r') = rb_log2 (rx_in_ring r) → rx_slot r' p = rx_slot r p.
Proof. intros Hl. unfold rx_slot. by rewrite Hl. Qed.

(** The window grows by empty slots. *)
Lemma rx_extend_spec n B :
  ∀ r E, rx_wf r B E → E - B + Z.of_nat n ≤ 2 ^ rb_log2 (rx_in_ring r) →
  ∃ r', Receiver_extend n r = Some r' ∧ rx_wf r' B (E + Z.of_nat n) ∧ rx_reframed r r'
    ∧ (∀ p, B ≤ p < E → rx_at r' p = rx_at r p)
    ∧ (∀ p b, E ≤ p < E + Z.of_nat n → rx_at r' p = Some b → ib_type b = kUnset).
Proof.
  induction n as [|n IH]; intros r E Hwf Hfree; cbn [Receiver_extend].
  { exists r. rewrite Z.add_0_r. split_and!; auto using rx_reframed_refl. lia. }
  pose proof (rw_ring _ _ _ Hwf) as Hr. pose proof (ring_size_bounds _ _ _ Hr).
  destruct (ring_push _ _ _ Hr) as (ring & Hp & Hr' & Hl); [lia|]. rewrite (bind_step _ _ _ Hp).
  cbn beta iota zeta. set (r1 := rx_with_in_ring ring r).
  assert (Hwf1 : rx_wf r1 B (E + 1)).
  { destruct Hwf. constructor; [done| |done]. change (rb_log2 (rx_in_ring r1)) with (rb_log2 ring).
    by rewrite Hl. }
  rewrite (bind_step _ _ _ (rx_getInBuffer _ _ _ Hwf1 E ltac:(lia))).
  destruct (rx_at_lookup _ _ _ Hwf1 E) as (b & Hb & Hwb).
  change (rx_in_buffers r1 !! rx_slot r1 E) with (rx_at r1 E). rewrite (bind_step _ _ _ Hb).
  set (r2 := rx_set_buffer (rx_slot r1 E) (InBuffer_clear b) r1).
  assert (Hwf2 : rx_wf r2 B (E + 1)) by (apply rx_set_buffer_wf; auto using InBuffer_clear_wf).
  destruct (IH r2 (E + 1) Hwf2) as (r' & Hex & Hwf' & Hre & Hold & Hnew).
  { change (rb_log2 (rx_in_ring r2)) with (rb_log2 ring). rewrite Hl. lia. }
  exists r'. replace (E + Z.of_nat (S n)) with (E + 1 + Z.of_nat n) by lia.
  split; [done|]. split; [done|].
  split; [eapply rx_reframed_trans; [|done]; split; [by destruct r|done]|]. split.
  - intros p Hp'. rewrite Hold by lia. unfold r2. rewrite (rx_at_set_ne _ _ _ Hwf1) by lia.
    unfold rx_at. by rewrite (rx_slot_log2 r r1).
  - intros p bp Hp' Hbp. destruct (decide (p = E)) as [->|]; [|apply (Hnew p bp); [lia|done]].
    rewrite Hold in Hbp by lia. unfold r2 in Hbp. rewrite (rx_at_set_eq _ _ _ Hwf1) in Hbp.
    by injection Hbp as <-.
Qed.

(** The first missing position after the one that just arrived. *)
Lemma rx_advance_spec fuel B E :
  ∀ r U, rx_wf r B E → rx_unack_seq r = u16 U → B ≤ U < E → (Z.to_nat (E - U) < fuel)%nat →
  ∃ r' U' k, Receiver_advance fuel r = Some r'
    ∧ r' = rx_with_packets_received k (rx_with_unack_seq (u16 U') r) ∧ U < U' ≤ E
    ∧ (∀ p b, U < p < U' → rx_at r p = Some b → ib_type b ≠ kUnset)
    ∧ (∀ b, U' < E → rx_at r U' = Some b → ib_type b = kUnset).
Proof.
  induction fuel as [|fuel IH]; intros r U Hwf HU HUE Hfuel; [lia|].
  cbn [Receiver_advance]. cbv zeta. set (k := u32 _). rewrite HU.
  cbn [rx_unack_seq rx_with_packets_received rx_with_unack_seq].
  unfold SeqNum_make. rewrite u16_add_l, u16_idemp.
  set (r1 := rx_with_packets_received k (rx_with_unack_seq (u16 (U + 1)) r)).
  assert (Hwf1 : rx_wf r1 B E) by (destruct Hwf; by constructor).
  pose proof (rw_ring _ _ _ Hwf1) as Hr1. pose proof (ring_size_bounds _ _ _ Hr1).
  rewrite (ring_contains _ _ _ Hr1), (proj2 (Z.leb_le B (U + 1))) by lia. cbn [andb].
  destruct (Z.ltb_spec (U + 1) E).
  2: { exists r1, (U + 1), k. split_and!; try done; lia. }
  rewrite (bind_step _ _ _ (rx_getInBuffer _ _ _ Hwf1 (U + 1) ltac:(lia))).
  destruct (rx_at_lookup _ _ _ Hwf1 (U + 1)) as (b & Hb & _).
  change (rx_in_buffers r1 !! rx_slot r1 (U + 1)) with (rx_at r1 (U + 1)).
  rewrite (bind_step _ _ _ Hb). change (rx_at r1) with (rx_at r) in Hb. case_decide as Hty.
  - exists r1, (U + 1), k. split_and!; [done|done|lia|lia|intros; lia|]. intros b' _ Hb'. congruence.
  - destruct (IH r1 (U + 1) Hwf1 eq_refl) as (r' & U' & k' & Hl & -> & HU' & Hset & Hun); [lia|lia|].
    exists (rx_with_packets_received k' (rx_with_unack_seq (u16 U') r)), U', k'.
    split; [exact Hl|]. split; [done|]. split; [lia|]. split; [|done].
    intros p bp Hp Hbp. destruct (decide (p = U + 1)) as [->|]; [congruence|].
    apply (Hset p bp); [lia|done].
Qed.

(** A closed reader drops what is complete. *)
Lemma rx_skip_spec fuel E U :
  ∀ r B, rx_wf r B E → rx_unack_seq r = u16 U → B ≤ U ≤ E → (Z.to_nat (U - B) < fuel)%nat →
  ∃ r' ring, Receiver_skip fuel r = Some r' ∧ r' = rx_with_in_ring ring r ∧ rx_wf r' U E
             ∧ rb_log2 ring = rb_log2 (rx_in_ring r).
Proof.
  induction fuel as [|fuel IH]; intros r B Hwf HU HBU Hfuel; [lia|].
  cbn [Receiver_skip]. pose proof (rw_ring _ _ _ Hwf) as Hr. pose proof (ring_size_bounds _ _ _ Hr).
  rewrite HU. unfold SeqNum_make. rewrite u16_idemp, (ring_empty _ _ _ Hr), (ra_begin _ _ _ Hr).
  rewrite SeqNum_lt_pos by lia. destruct (Z.ltb_spec B U).
  2: { rewrite andb_false_r. exists r, (rx_in_ring r). replace U with B by lia.
       split_and!; [done|by destruct r|done|done]. }
  rewrite (proj2 (Z.eqb_neq B E)) by lia. cbn [negb andb].
  destruct (ring_pop _ _ _ Hr) as (ring & Hp & Hr' & Hl); [lia|]. rewrite (bind_step _ _ _ Hp).
  destruct (IH (rx_with_in_ring ring r) (B + 1)) as (r' & ring' & Hs & -> & Hwf' & Hl').
  - destruct Hwf. constructor; [done| |done]. cbn. by rewrite Hl.
  - done.
  - lia.
  - lia.
  - exists (rx_with_in_ring ring' r), ring'. split; [exact Hs|]. split; [done|].
    split; [by destruct Hwf'|]. cbn in Hl'. congruence.
Qed.

(** A genuine packet of the peer for position [p]. *)
Record genuine (p : Z) (payload : list byte) (is_final : bool) : Prop := {
  ge_payload : payload = peer p;
  ge_length : (length payload ≤ 248)%nat;
  ge_final : is_final = bool_decide (fin = Some p);
  ge_before : ∀ f, fin = Some f → p ≤ f;
}.

Lemma rx_makeRoom_spec r B E U p :
  rx_inv r B E U → B - 2048 ≤ p < B + 2048 → (∀ f, fin = Some f → p ≤ f) →
  ∃ room, Receiver_makeRoom r (u16 p) = Some room
    ∧ match room with
      | inl (ack, r') => r' = (if ack then rx_with_needs_ack true r else r)
          ∧ (ack = true ↔ p < B) ∧ (ack = false → 2 ^ rb_log2 (rx_in_ring r) ≤ p - B)
      | inr r' => B ≤ p < B + 2 ^ rb_log2 (rx_in_ring r) ∧ rx_reframed r r'
          ∧ rx_inv r' B (Z.max E (p + 1)) U ∧ (∀ q, B ≤ q < E → rx_at r' q = rx_at r q)
          ∧ ∀ q b, E ≤ q < Z.max E (p + 1) → rx_at r' q = Some b → ib_type b = kUnset
      end.
Proof.
  intros Hinv Hp Hf. pose proof (ri_wf _ _ _ _ Hinv) as Hwf. pose proof (rw_ring _ _ _ Hwf) as Hr.
  pose proof (ring_size_bounds _ _ _ Hr). pose proof (ring_capacity_bounds _ _ _ Hr).
  pose proof (ra_size _ _ _ Hr). pose proof (ri_window _ _ _ _ Hinv) as Hw.
  unfold Receiver_makeRoom. rewrite (ring_contains _ _ _ Hr) by lia.
  destruct (Z.leb_spec B p); cbn [andb].
  2: { rewrite (ra_begin _ _ _ Hr), SeqNum_lt_pos, (proj2 (Z.ltb_lt p B)) by lia.
       eexists. split; [done|]. split; [done|]. split; [done|done]. }
  destruct (Z.ltb_spec p E).
  { eexists. split; [done|]. split; [lia|]. replace (Z.max E (p + 1)) with E by lia.
    split_and!; auto using rx_reframed_refl. lia. }
  rewrite (ra_begin _ _ _ Hr), SeqNum_lt_pos, (proj2 (Z.ltb_ge p B)) by lia.
  destruct (rx_peer_closed r) eqn:Hpc.
  { pose proof (ri_closed _ _ _ _ Hinv Hpc) as Hfin. specialize (Hf _ Hfin). lia. }
  rewrite (ra_end _ _ _ Hr), SeqNum_dist_pos, u64_small, (ring_slotsFree _ _ _ Hr) by lia.
  destruct (Z.ltb_spec (2 ^ rb_log2 (rx_in_ring r) - (E - B)) (p - E + 1)).
  { eexists. split; [done|]. split; [done|]. split; [split; [done|lia]|lia]. }
  destruct (rx_extend_spec (Z.to_nat (p - E + 1)) B r E Hwf) as (r' & Hex & Hwf' & Hre & Hold & Hnew);
    [lia|]. rewrite (bind_step _ _ _ Hex).
  replace (E + Z.of_nat (Z.to_nat (p - E + 1))) with (p + 1) in * by lia.
  rewrite dcheck_true.
  2: { rewrite (ring_contains _ _ _ (rw_ring _ _ _ Hwf')) by lia. case_bool; lia || done. }
  eexists. split; [done|]. split; [lia|]. split; [done|]. replace (Z.max E (p + 1)) with (p + 1) by lia.
  split; [|done]. destruct Hre as [Hre Hl]. rewrite Hre in Hwf', Hold, Hnew |- *.
  constructor; [done|apply (ri_unack _ _ _ _ Hinv)|lia|..].
  - intros q b Hq Hb. rewrite Hold in Hb by lia. by eapply (ri_received _ _ _ _ Hinv q).
  - intros b HU Hb. destruct (decide (U < E)); [|apply (Hnew U b); [lia|done]].
    rewrite Hold in Hb by lia. by eapply (ri_next _ _ _ _ Hinv).
  - intros q b Hq Hb Hty. destruct (decide (q < E)); [|by destruct Hty; eapply (Hnew q b); [lia|]].
    rewrite Hold in Hb by lia. eapply (ri_content _ _ _ _ Hinv); eauto; lia.
  - intros f Hfin. specialize (Hf f Hfin). lia.
  - cbn. congruence.
  - apply (ri_eos _ _ _ _ Hinv).
  - intros Hsc i Hi. destruct (ri_cur _ _ _ _ Hinv Hsc i Hi) as (? & -> & Hpos).
    split; [lia|]. split; [symmetry; by apply rx_slot_log2|].
    rewrite Hold by lia. done.
Qed.

(** The slot of [p] filled: everything but the position of the first gap. *)
Definition rx_filled (r : Receiver) (p : Z) (b' : InBuffer) (is_final : bool) : Receiver :=
  let r := rx_set_buffer (rx_slot r p) b' r in
  rx_with_needs_ack true (if is_final then rx_with_peer_closed true r else r).

Lemma rx_filled_inv r B E U p b b' is_final payload U' k :
  rx_inv r B E U → B ≤ p < E → genuine p payload is_final →
  rx_at r p = Some b → in_buffer_wf b' → ib_type b' ≠ kUnset →
  (if decide (ib_type b = kUnset)
   then ib_type b' = (if is_final then kFin else kData) ∧ InBuffer_bytes b' 0 = payload
   else b' = b) →
  U ≤ U' ≤ E → (∀ q bq, U ≤ q < U' → rx_at (rx_filled r p b' is_final) q = Some bq → ib_type bq ≠ kUnset) →
  (∀ bq, U' < E → rx_at (rx_filled r p b' is_final) U' = Some bq → ib_type bq = kUnset) →
  rx_inv (rx_with_packets_received k (rx_with_unack_seq (u16 U') (rx_filled r p b' is_final))) B E U'.
Proof.
  intros Hinv Hp [Hpay Hlen Hfin Hbef] Hb Hwb' Hty' Hb' HU' Hset Hun.
  pose proof (ri_wf _ _ _ _ Hinv) as Hwf. pose proof (ri_window _ _ _ _ Hinv) as Hw.
  set (r2 := rx_with_packets_received k (rx_with_unack_seq (u16 U') (rx_filled r p b' is_final))).
  assert (Hother : ∀ q, B ≤ q < E → q ≠ p → rx_at r2 q = rx_at r q).
  { intros q Hq Hne. rewrite <- (rx_at_set_ne _ _ _ Hwf p q b') by (done || lia).
    unfold rx_at, rx_slot, r2, rx_filled. by destruct is_final. }
  assert (Hself : rx_at r2 p = Some b').
  { rewrite <- (rx_at_set_eq _ _ _ Hwf p b'). unfold rx_at, rx_slot, r2, rx_filled. by destruct is_final. }
  assert (Hslot : ∀ q, rx_slot r2 q = rx_slot r q) by (intros; by destruct is_final).
  constructor.
  - destruct (rx_set_buffer_wf _ _ _ Hwf (rx_slot r p) b' Hwb'). unfold r2, rx_filled.
    by destruct is_final.
  - done.
  - lia.
  - intros q bq Hq Hbq. destruct (decide (q = p)) as [->|Hne]; [congruence|].
    destruct (decide (q < U)); [|apply (Hset q bq); [lia|done]].
    rewrite Hother in Hbq by (done || lia). eapply (ri_received _ _ _ _ Hinv q); [lia|done].
  - intros bq HUE Hbq. by apply (Hun bq).
  - intros q bq Hq Hbq Htq. destruct (decide (q = p)) as [->|Hne].
    2: { rewrite Hother in Hbq by done. eapply (ri_content _ _ _ _ Hinv); eauto. }
    replace bq with b' in * by congruence. case_decide as Hub.
    + destruct Hb' as [Ht' Hby]. split; [congruence|]. rewrite Ht', Hfin. unfold rx_type.
      by destruct (decide (fin = Some p)); [rewrite bool_decide_true|rewrite bool_decide_false].
    + subst b'. eapply (ri_content _ _ _ _ Hinv); eauto.
  - apply (ri_fin _ _ _ _ Hinv).
  - unfold r2, rx_filled. destruct is_final; [intros _|apply (ri_closed _ _ _ _ Hinv)].
    symmetry in Hfin. apply bool_decide_eq_true in Hfin.
    pose proof (ri_fin _ _ _ _ Hinv p Hfin). by replace (E - 1) with p by lia.
  - unfold r2, rx_filled. destruct is_final; apply (ri_eos _ _ _ _ Hinv).
  - intros Hsc i Hi. assert (Hsc0 : rx_self_closed r = false) by (by destruct is_final).
    assert (Hi0 : rx_current_in_buffer r = Some i) by (by destruct is_final).
    destruct (ri_cur _ _ _ _ Hinv Hsc0 i Hi0) as (HBE & -> & Hpos). split; [done|].
    rewrite Hslot. split; [done|].
    assert (Hcp : rx_current_in_buffer_pos r2 = rx_current_in_buffer_pos r) by (by destruct is_final).
    rewrite Hcp. destruct Hpos as [?|(b2 & Hb2 & Hpos)]; [by left|right].
    destruct (decide (B = p)) as [->|Hne]; [|exists b2; rewrite Hother by (done || lia); auto].
    replace b2 with b in * by congruence. exists b. case_decide as Hub; [|by subst b'].
    pose proof (ibw_unset b). rewrite (ibw_unset b) in Hpos; [lia| |done].
    eapply Forall_lookup_1, Hb. apply (rw_buffers _ _ _ Hwf).
Qed.

(** Position [q] of the window has arrived. *)
Definition rx_has (r : Receiver) (q : Z) : Prop :=
  ∃ b, rx_at r q = Some b ∧ ib_type b ≠ kUnset.

(** What receiving leaves alone. *)
Record rx_same_reader (r r' : Receiver) : Prop := {
  sr_state : rx_state r' = rx_state r;
  sr_self_closed : rx_self_closed r' = rx_self_closed r;
  sr_control : rx_control_bit r' = rx_control_bit r;
  sr_id : rx_my_stream_id r' = rx_my_stream_id r;
  sr_current : rx_current_in_buffer r' = rx_current_in_buffer r;
  sr_pos : rx_current_in_buffer_pos r' = rx_current_in_buffer_pos r;
  sr_log2 : rb_log2 (rx_in_ring r') = rb_log2 (rx_in_ring r);
  sr_himark : rx_recv_himark_update_expiration r' = rx_recv_himark_update_expiration r;
}.

#[local] Instance rx_same_reader_preorder : PreOrder rx_same_reader.
Proof. split; [by constructor|]. intros r1 r2 r3 [] []. constructor; congruence. Qed.

Lemma rx_reframed_same_reader r r' : rx_reframed r r' → rx_same_reader r r'.
Proof. intros [-> Hl]. by constructor. Qed.

(** What [handleDataPacket] has done when it stored position [p]. *)
Record rx_stored (r r' : Receiver) (B E U B' U' p : Z) : Prop := {
  st_inv : rx_inv r' B' E U';
  st_grow : U ≤ U';
  st_gap : if decide (p = U) then U < U' else U' = U;
  st_begin : B' = if rx_self_closed r && bool_decide (p = U) then U' else B;
  st_needs_ack : rx_needs_ack r' = true;
  st_reader : rx_same_reader r r';
  st_has : ∀ q, B' ≤ q < E → rx_has r' q ↔ q = p ∨ rx_has r q;
}.

Lemma rx_filled_has r B E p b b' is_final q :
  rx_wf r B E → B ≤ p < E → B ≤ q < E → ib_type b' ≠ kUnset → rx_at r p = Some b →
  rx_has (rx_filled r p b' is_final) q ↔ q = p ∨ rx_has r q.
Proof.
  intros Hwf Hp Hq Hty Hb. unfold rx_has.
  assert (rx_at (rx_filled r p b' is_final) q = rx_at (rx_set_buffer (rx_slot r p) b' r) q) as ->.
  { unfold rx_at, rx_slot, rx_filled. by destruct is_final. }
  destruct (decide (q = p)) as [->|Hne].
  - rewrite (rx_at_set_eq _ _ _ Hwf). split; eauto.
  - rewrite (rx_at_set_ne _ _ _ Hwf) by (done || lia). split; [by right|by intros [?|?]].
Qed.

(** The buffer that ends up in the slot of [p]. *)
Lemma rx_fill_buffer p payload is_final b :
  genuine p payload is_final → in_buffer_wf b →
  ∃ b', (if decide (ib_type b = kUnset)
         then InBuffer_set b (if is_final then kFin else kData) payload (Z.of_nat (length payload))
         else Some b) = Some b'
    ∧ in_buffer_wf b' ∧ ib_type b' ≠ kUnset
    ∧ (if decide (ib_type b = kUnset)
       then ib_type b' = (if is_final then kFin else kData) ∧ InBuffer_bytes b' 0 = payload
       else b' = b).
Proof.
  intros [_ Hlen _ _] Hwb. case_decide as Hty; [|by eauto].
  destruct (InBuffer_set_spec b (if is_final then kFin else kData) payload Hwb)
    as (b' & Hs & Hwb' & Ht & _ & Hby); [lia|by destruct is_final|].
  exists b'. split; [done|]. split; [done|]. rewrite Ht. by destruct is_final.
Qed.

(** A closed reader's window, once what is complete has been dropped. *)
Lemma rx_skip_inv r B E U ring :
  rx_inv r B E U → rx_self_closed r = true → rx_wf (rx_with_in_ring ring r) U E →
  rb_log2 ring = rb_log2 (rx_in_ring r) → rx_inv (rx_with_in_ring ring r) U E U.
Proof.
  intros Hinv Hsc Hwf Hl. pose proof (ri_window _ _ _ _ Hinv).
  assert (Hat : ∀ q, rx_at (rx_with_in_ring ring r) q = rx_at r q)
    by (intros q; unfold rx_at; by rewrite (rx_slot_log2 r) by done).
  constructor; [done|apply (ri_unack _ _ _ _ Hinv)|lia|lia|..].
  - intros b. rewrite Hat. apply (ri_next _ _ _ _ Hinv).
  - intros q b Hq. rewrite Hat. apply (ri_content _ _ _ _ Hinv). lia.
  - apply (ri_fin _ _ _ _ Hinv).
  - apply (ri_closed _ _ _ _ Hinv).
  - cbn. congruence.
  - cbn. congruence.
Qed.

Lemma rx_store_spec r B E U p payload is_final :
  rx_inv r B E U → B ≤ p < E → genuine p payload is_final →
  ∃ r' B' U', Receiver_store r (u16 p) payload (Z.of_nat (length payload)) is_final
              = Some (bool_decide (p = U) && negb (rx_self_closed r), r')
              ∧ rx_stored r r' B E U B' U' p.
Proof.
  intros Hinv Hp Hge. pose proof (ri_wf _ _ _ _ Hinv) as Hwf. pose proof (ri_window _ _ _ _ Hinv) as Hw.
  pose proof (ring_size_bounds _ _ _ (rw_ring _ _ _ Hwf)).
  unfold Receiver_store. rewrite (bind_step _ _ _ (rx_getInBuffer _ _ _ Hwf p Hp)).
  destruct (rx_at_lookup _ _ _ Hwf p) as (b & Hb & Hwb).
  change (rx_in_buffers r !! rx_slot r p) with (rx_at r p). rewrite (bind_step _ _ _ Hb).
  destruct (rx_fill_buffer p payload is_final b Hge Hwb) as (b' & Hset & Hwb' & Hty' & Hb').
  rewrite (bind_step _ _ _ Hset). cbv zeta. fold (rx_filled r p b' is_final).
  set (r2 := rx_filled r p b' is_final).
  pose proof (λ q Hq, rx_filled_has r B E p b b' is_final q Hwf Hp Hq Hty' Hb) as Hhas. fold r2 in Hhas.
  assert (Hinv2 : ∀ U' k, U ≤ U' ≤ E →
    (∀ q bq, U ≤ q < U' → rx_at r2 q = Some bq → ib_type bq ≠ kUnset) →
    (∀ bq, U' < E → rx_at r2 U' = Some bq → ib_type bq = kUnset) →
    rx_inv (rx_with_packets_received k (rx_with_unack_seq (u16 U') r2)) B E U')
    by (intros; by eapply (rx_filled_inv r B E U p b b' is_final payload)).
  assert (Hwf2 : rx_wf r2 B E).
  { destruct (rx_set_buffer_wf _ _ _ Hwf (rx_slot r p) b' Hwb'). unfold r2, rx_filled. by destruct is_final. }
  assert (Hun2 : rx_unack_seq r2 = u16 U).
  { rewrite <- (ri_unack _ _ _ _ Hinv). unfold r2, rx_filled. by destruct is_final. }
  assert (Hrd : rx_same_reader r r2) by (unfold r2, rx_filled; destruct is_final; by constructor).
  assert (Hna : rx_needs_ack r2 = true) by done.
  assert (Hself : rx_at r2 p = Some b').
  { rewrite <- (rx_at_set_eq _ _ _ Hwf p b'). unfold rx_at, rx_slot, r2, rx_filled. by destruct is_final. }
  assert (Hother : ∀ q, B ≤ q < E → q ≠ p → rx_at r2 q = rx_at r q).
  { intros q Hq Hne. rewrite <- (rx_at_set_ne _ _ _ Hwf p q b') by (done || lia).
    unfold rx_at, rx_slot, r2, rx_filled. by destruct is_final. }
  clearbody r2. rewrite Hun2. unfold SeqNum_make. rewrite u16_idemp, SeqNum_eq_pos by lia.
  destruct (Z.eqb_spec p U) as [->|Hne].
  2: { rewrite bool_decide_false by done. exists r2, B, U. split; [done|].
       constructor; auto; [|lia|by rewrite decide_False|by rewrite bool_decide_false, andb_false_r].
       assert (Heq : r2 = rx_with_packets_received (rx_packets_received r2) (rx_with_unack_seq (u16 U) r2))
         by (rewrite <- Hun2; by destruct r2).
       rewrite Heq. apply Hinv2; [lia|intros; lia|]. intros bq HUE Hbq. rewrite Hother in Hbq by (done || lia).
       by eapply (ri_next _ _ _ _ Hinv). }
  rewrite (ring_slotsUsed _ _ _ (rw_ring _ _ _ Hwf2)), bool_decide_true by done.
  destruct (rx_advance_spec (S (S (Z.to_nat (E - B)))) B E r2 U Hwf2 Hun2 Hp)
    as (r3 & U' & k & Hadv & Hr3 & HU' & Hset3 & Hun3); [lia|]. rewrite (bind_step _ _ _ Hadv).
  assert (Hinv3 : rx_inv r3 B E U').
  { rewrite Hr3. apply Hinv2; [lia| |done]. intros q bq Hq Hbq.
    destruct (decide (q = U)) as [->|]; [congruence|]. apply (Hset3 q bq); [lia|done]. }
  assert (Hrd3 : rx_same_reader r r3) by (etrans; [done|]; rewrite Hr3; by constructor).
  assert (Hhas3 : ∀ q, B ≤ q < E → rx_has r3 q ↔ q = U ∨ rx_has r q)
    by (rewrite Hr3; exact Hhas).
  assert (Hna3 : rx_needs_ack r3 = true) by (by rewrite Hr3).
  clear Hr3 Hinv2 Hhas Hset3 Hun3. rewrite (sr_self_closed _ _ Hrd3).
  destruct (rx_self_closed r) eqn:Hsc; cbn [negb andb].
  2: { exists r3, B, U'. split; [done|]. constructor; auto; [lia|rewrite decide_True by done; lia|by rewrite Hsc]. }
  destruct (rx_skip_spec (S (S (Z.to_nat (E - B)))) E U' r3 B (ri_wf _ _ _ _ Hinv3)
    (ri_unack _ _ _ _ Hinv3)) as (r4 & ring & Hskip & -> & Hwf4 & Hl4); [lia|lia|].
  rewrite (bind_step _ _ _ Hskip). exists (rx_with_in_ring ring r3), U', U'. split; [done|].
  constructor; [|lia|rewrite decide_True by done; lia|by rewrite Hsc, bool_decide_true|done| |].
  - eapply rx_skip_inv; eauto. by rewrite (sr_self_closed _ _ Hrd3).
  - destruct Hrd3. constructor; cbn; congruence.
  - intros q Hq. rewrite <- Hhas3 by lia. unfold rx_has, rx_at.
    by rewrite (rx_slot_log2 r3) by done.
Qed.

(** [handleDataPacket] on a genuine packet. *)
Definition rx_handled (r r' : Receiver) (B E U p : Z) (ack new : bool) : Prop :=
  if decide (p < B) then ack = true ∧ new = false ∧ r' = rx_with_needs_ack true r
  else if decide (B + 2 ^ rb_log2 (rx_in_ring r) ≤ p) then ack = false ∧ new = false ∧ r' = r
  else ack = true ∧ new = bool_decide (p = U) && negb (rx_self_closed r)
       ∧ ∃ r1 B' U', rx_reframed r r1 ∧ rx_inv r1 B (Z.max E (p + 1)) U
         ∧ (∀ q, B ≤ q < E → rx_at r1 q = rx_at r q)
         ∧ (∀ q b, E ≤ q < Z.max E (p + 1) → rx_at r1 q = Some b → ib_type b = kUnset)
         ∧ rx_stored r1 r' B (Z.max E (p + 1)) U B' U' p.

Lemma rx_handle_spec r B E U p payload is_final cb :
  rx_inv r B E U → rx_state r = RkConnected → cb ≠ rx_control_bit r →
  B - 2048 ≤ p < B + 2048 → genuine p payload is_final →
  ∃ ack new r', Receiver_handleDataPacket r cb (p mod 4096) payload (Z.of_nat (length payload)) is_final
                = Some (ack, new, r') ∧ rx_handled r r' B E U p ack new.
Proof.
  intros Hinv Hst Hcb Hp Hge. unfold Receiver_handleDataPacket. rewrite Hst.
  rewrite (proj2 (eqb_false_iff _ _)) by done.
  pose proof (rw_ring _ _ _ (ri_wf _ _ _ _ Hinv)) as Hr. pose proof (ring_capacity_bounds _ _ _ Hr).
  rewrite (bind_step _ _ _ (ring_restore _ _ _ Hr p ltac:(lia))).
  destruct (rx_makeRoom_spec r B E U p Hinv Hp (ge_before _ _ _ Hge)) as ([[ack r1]|r1] & Hm & Hres);
    rewrite (bind_step _ _ _ Hm); unfold rx_handled.
  - destruct Hres as (-> & Hack & Hfull). do 3 eexists. split; [done|].
    destruct ack.
    + rewrite decide_True by (by apply Hack). done.
    + rewrite decide_False by (intros Hlt; by apply Hack in Hlt). specialize (Hfull eq_refl).
      rewrite decide_True by lia. done.
  - destruct Hres as (HpB & Hre & Hinv1 & Hold & Hnew).
    destruct (rx_store_spec r1 B (Z.max E (p + 1)) U p payload is_final Hinv1)
      as (r' & B' & U' & Hs & Hst'); [lia|done|]. rewrite (bind_step _ _ _ Hs).
    do 3 eexists. split; [done|]. rewrite !decide_False by lia. split; [done|].
    rewrite (sr_self_closed _ _ (rx_reframed_same_reader _ _ Hre)). split; [done|].
    exists r1, B', U'. auto.
Qed.

End Peer.
