(* ===== verification/ReceiverCorrect.v ===== *)
(** * ReceiverCorrect: what the receiver promises

    Acknowledgments say what has arrived, the reader gets the peer's stream in order
    and without gaps whatever the network does to the packets, and no operation
    aborts. *)

From S2P Require Import Prelude.
From S2P Require Import SeqNum.
From S2P Require Import RingBuffer.
From S2P Require Import RooIo.
From S2P Require Import Protocol.
From S2P Require Import Buffers.
From S2P Require Import Receiver.
From S2P Require Import ReceiverProofs.

Local Open Scope Z_scope.
Local Open Scope roo_scope.

Section Correct.

Context {io : RooIo} {io_laws : RooIoLaws} {pf : Platform}.
Context (peer : Z → list byte) (fin : option Z).

(** ** Acknowledgments *)

Lemma rx_ack_bitmask_spec n r B E :
  ∀ P m, rx_wf r B E → B ≤ P ≤ B + 2000 → 0 ≤ m →
  ∃ m', Receiver_ack_bitmask n r (u16 P) m = Some m' ∧ 0 ≤ m'
    ∧ ∀ i, 0 ≤ i → Z.testbit m' i = true ↔
        Z.testbit m i = true
        ∨ i < Z.of_nat n ∧ P + (Z.of_nat n - 1 - i) < E ∧ rx_has r (P + (Z.of_nat n - 1 - i)).
Proof.
  induction n as [|idx IH]; intros P m Hwf HP Hm; cbn [Receiver_ack_bitmask].
  { exists m. split; [done|]. split; [done|]. intros i Hi. split; [by left|]. intros [?|[? _]]; [done|lia]. }
  pose proof (rw_ring _ _ _ Hwf) as Hr. pose proof (ring_size_bounds _ _ _ Hr).
  rewrite (ring_contains _ _ _ Hr), (proj2 (Z.leb_le B P)) by lia. cbn [andb].
  destruct (Z.ltb_spec P E).
  2: { exists m. split; [done|]. split; [done|]. intros i Hi. split; [by left|]. intros [?|[? [? _]]]; [done|lia]. }
  rewrite (bind_step _ _ _ (rx_getInBuffer _ _ _ Hwf P ltac:(lia))).
  destruct (rx_at_lookup _ _ _ Hwf P) as (b & Hb & _).
  change (rx_in_buffers r !! rx_slot r P) with (rx_at r P). rewrite (bind_step _ _ _ Hb), SeqNum_incr_pos.
  set (m1 := if decide _ then m else _).
  assert (Hm1 : 0 ≤ m1 ∧ ∀ i, 0 ≤ i → Z.testbit m1 i = true ↔
    Z.testbit m i = true ∨ i = Z.of_nat idx ∧ rx_has r P).
  { unfold m1, rx_has. rewrite Z.shiftl_1_l. case_decide as Hty.
    - split; [done|]. intros i Hi. split; [by left|]. intros [?|(_ & b2 & ? & ?)]; [done|congruence].
    - split; [apply Z.lor_nonneg; split; [done|]; apply Z.pow_nonneg; lia|].
      intros i Hi. rewrite Z.lor_spec, orb_true_iff, Z.pow2_bits_eqb, Z.eqb_eq by lia.
      split; intros [?|?]; auto; right; [split; eauto|]; by intuition. }
  destruct Hm1 as [Hm1 Hbits1].
  destruct (IH (P + 1) m1 Hwf ltac:(lia) Hm1) as (m' & Heq & Hm' & Hbits).
  exists m'. split; [done|]. split; [done|]. intros i Hi. rewrite Hbits, Hbits1 by done.
  replace (P + 1 + (Z.of_nat idx - 1 - i)) with (P + (Z.of_nat (S idx) - 1 - i)) by lia. split.
  - intros [[?|[-> ?]]|(? & ? & ?)]; [by left|right..]; [|split; [lia|done]].
    replace (P + (Z.of_nat (S idx) - 1 - Z.of_nat idx)) with P by lia. split; [lia|done].
  - intros [?|(? & ? & ?)]; [by left; left|]. destruct (decide (i = Z.of_nat idx)) as [->|].
    + left. right. replace (P + (Z.of_nat (S idx) - 1 - Z.of_nat idx)) with P in * by lia. done.
    + right. split; [lia|done].
Qed.

(** Trimming the zero bytes of a mask that is not zero. *)
Lemma Receiver_trim_spec buf :
  ∀ len, (len ≤ length buf)%nat → (∃ i x, (i < len)%nat ∧ buf !! i = Some x ∧ x ≠ 0) →
  ∃ n, Receiver_trim len buf = Some n ∧ (n ≤ len)%nat
    ∧ (∀ i x, (n ≤ i < len)%nat → buf !! i = Some x → x = 0)
    ∧ ∀ i x, (i < len)%nat → buf !! i = Some x → x ≠ 0 → (i < n)%nat.
Proof.
  induction len as [|len IH]; intros Hlen (i & x & Hi & Hx & Hne); [lia|]. cbn [Receiver_trim].
  destruct (lookup_lt_is_Some_2 buf len ltac:(lia)) as [y Hy]. rewrite (bind_step _ _ _ Hy).
  destruct (Z.eqb_spec y 0) as [->|Hny].
  - assert (i < len)%nat by (destruct (decide (i = len)) as [->|]; [congruence|lia]).
    destruct IH as (n & Ht & Hn & Hz & Hlt); [lia|eauto|]. exists n. split; [done|]. split; [lia|].
    split; intros j z Hj Hz'; (destruct (decide (j = len)) as [->|]; [try congruence|]).
    + apply (Hz j z); [lia|done].
    + apply (Hlt j z); [lia|done].
  - exists (S len). split_and!; [done|lia|intros; lia|intros; lia].
Qed.

Lemma testbit_bound m : 0 ≤ m → (∀ i, 64 ≤ i → Z.testbit m i = false) → m < 2 ^ 64.
Proof.
  intros Hm Hb. assert (m = m mod 2 ^ 64) as ->; [|apply Z.mod_pos_bound; lia].
  apply Z.bits_inj'. intros i Hi. destruct (decide (i < 64)).
  - by rewrite Z.mod_pow2_bits_low by lia.
  - rewrite Z.mod_pow2_bits_high by lia. apply Hb. lia.
Qed.

(** The acknowledgment packet: the first missing position, and a bitmap of the 64
    after it. *)
Lemma rx_ack_packet r B E U :
  rx_inv peer fin r B E U → (rx_state r = RkConnected ∨ rx_state r = RkIdle) →
  rx_needs_ack r = true →
  ∃ bitmap, Receiver_ack r
    = Some (StoreBeU16 (FormatPacketHeader (u16 U) kDataAckPacket (rx_control_bit r)) ++ bitmap,
            rx_with_needs_ack false r)
    ∧ (length bitmap ≤ 8)%nat
    ∧ ∀ k, skip_ack bitmap k = true ↔
        (k < 64)%nat ∧ U + 1 + Z.of_nat k < E ∧ rx_has r (U + 1 + Z.of_nat k).
Proof using io_laws.
  intros Hinv Hst Hna. unfold Receiver_ack. rewrite Hna, orb_false_r.
  assert (bool_decide (rx_state r ≠ RkConnected) && bool_decide (rx_state r ≠ RkIdle) = false) as ->.
  { by destruct Hst as [->| ->]. }
  pose proof (ri_wf _ _ _ _ _ _ Hinv) as Hwf. pose proof (ri_window _ _ _ _ _ _ Hinv).
  pose proof (ring_size_bounds _ _ _ (rw_ring _ _ _ Hwf)).
  rewrite (ri_unack _ _ _ _ _ _ Hinv). unfold SeqNum_make. rewrite u16_add_l.
  destruct (rx_ack_bitmask_spec 64 r B E (U + 1) 0 Hwf) as (m & Hm & Hm0 & Hbits); [lia|lia|].
  rewrite (bind_step _ _ _ Hm). cbv zeta.
  assert (Hhas : ∀ k, (k < 64)%nat → Z.testbit m (63 - Z.of_nat k) = true ↔
    U + 1 + Z.of_nat k < E ∧ rx_has r (U + 1 + Z.of_nat k)).
  { intros k Hk. rewrite Hbits by lia. rewrite Z.bits_0.
    replace (U + 1 + (Z.of_nat 64 - 1 - (63 - Z.of_nat k))) with (U + 1 + Z.of_nat k) by lia.
    split; [by intros [?|(_ & ?)]|]. intros [? ?]. right. split; [lia|done]. }
  destruct (Z.eqb_spec m 0) as [->|Hne].
  { exists []. rewrite app_nil_r. split; [done|]. split; [cbn; lia|]. intros k.
    rewrite skip_ack_short by (cbn; lia). split; [done|]. intros (Hk & HkE & Hh).
    assert (Z.testbit 0 (63 - Z.of_nat k) = true) by (by apply Hhas). by rewrite Z.bits_0 in *. }
  assert (Hlt : m < 2 ^ 64).
  { apply testbit_bound; [done|]. intros i Hi. destruct (Z.testbit m i) eqn:Hb; [|done].
    apply Hbits in Hb; [|lia]. rewrite Z.bits_0 in Hb. destruct Hb as [?|[? _]]; [done|lia]. }
  assert (Hlen2 : length (StoreBeU16 (FormatPacketHeader (u16 U) kDataAckPacket (rx_control_bit r))) = 2%nat)
    by exact (length_StoreBeU16 _ (FormatPacketHeader_range _ _ _)).
  rewrite (StoreBeU64_be m) by lia. set (h := StoreBeU16 _) in *.
  destruct (Receiver_trim_spec (h ++ be_bytes 8 m) 10) as (n & Ht & Hn & Hz & Hin).
  - rewrite length_app, length_be_bytes. lia.
  - destruct (be_bytes_nonzero 8 m) as (i & x & Hi & Hx & Hnz); [cbn; lia|].
    exists (2 + i)%nat, x. split; [lia|]. split; [|done]. rewrite lookup_app_r by lia.
    rewrite Hlen2. by replace (2 + i - 2)%nat with i by lia.
  - rewrite (bind_step _ _ _ Ht).
    assert (2 ≤ n)%nat.
    { destruct (be_bytes_nonzero 8 m) as (i & x & Hi & Hx & Hnz); [cbn; lia|].
      assert (2 + i < n)%nat; [|lia]. apply (Hin _ x); [lia| |done].
      rewrite lookup_app_r by lia. rewrite Hlen2. by replace (2 + i - 2)%nat with i by lia. }
    exists (take (n - 2) (be_bytes 8 m)).
    rewrite take_app, Hlen2, (take_ge h) by lia. split; [done|].
    split; [rewrite length_take; lia|]. intros k.
    rewrite skip_ack_trimmed.
    2: { intros i x Hi Hx. apply (Hz (2 + i)%nat x).
         - apply lookup_lt_Some in Hx. rewrite length_be_bytes in Hx. lia.
         - rewrite lookup_app_r by lia. rewrite Hlen2. by replace (2 + i - 2)%nat with i by lia. }
    destruct (decide (k < 64)%nat) as [Hk|Hk].
    + rewrite skip_ack_be, Hhas by done. tauto.
    + rewrite skip_ack_short by (rewrite length_be_bytes; lia). split; [done|]. by intros [? _].
Qed.

(** ** The operations, on the invariant *)

Lemma rx_tryRead_spec r B E U count :
  rx_inv peer fin r B E U → rx_self_closed r = false → rx_state r = RkConnected → 0 ≤ count →
  ∃ bytes ready r' B', Receiver_tryRead r count = Some (bytes, ready, r')
    ∧ rx_inv peer fin r' B' E U ∧ rx_session r r' ∧ B ≤ B'
    ∧ bytes ++ rx_unread peer r' B' U = rx_unread peer r B U
    ∧ Z.of_nat (length bytes) ≤ count
    ∧ (Z.of_nat (length bytes) < count → B' = U)
    ∧ ∀ p, B' ≤ p < E → rx_at r' p = rx_at r p.
Proof.
  intros Hinv Hsc Hst Hc. unfold Receiver_tryRead. rewrite Hst.
  rewrite (ring_slotsUsed _ _ _ (rw_ring _ _ _ (ri_wf _ _ _ _ _ _ Hinv))).
  destruct (rx_tryRead_loop_spec peer fin (S (S (Z.to_nat (E - B)))) E U r B count [] false Hinv Hsc Hst Hc)
    as (bytes & ready & r' & B' & Hl & Hrest); [lia|]. exists bytes, ready, r', B'. done.
Qed.

(** A change of fields the invariant does not mention. *)
Definition rx_cosmetic (r r' : Receiver) : Prop :=
  ∃ a h e, r' = rx_with_needs_ack a
                  (rx_with_recv_himark h (rx_with_recv_himark_update_expiration e r)).

Lemma rx_cosmetic_inv r r' B E U :
  rx_cosmetic r r' → rx_inv peer fin r B E U → rx_inv peer fin r' B E U.
Proof. intros (a & h & e & ->) [[] ? ? ? ? ? ? ? ? ?]. constructor; auto. by constructor. Qed.

Lemma rx_ack_total r B E U :
  rx_inv peer fin r B E U →
  ∃ packet r', Receiver_ack r = Some (packet, r') ∧ rx_cosmetic r r'.
Proof using io_laws.
  intros Hinv. destruct (decide ((rx_state r = RkConnected ∨ rx_state r = RkIdle)
    ∧ rx_needs_ack r = true)) as [[Hst Hna]|Hno].
  - destruct (rx_ack_packet r B E U Hinv Hst Hna) as (bitmap & -> & _).
    do 2 eexists. split; [done|]. exists false, (rx_recv_himark r), (rx_recv_himark_update_expiration r).
    by destruct r.
  - exists [], r. split.
    + unfold Receiver_ack. destruct (rx_needs_ack r); [|by rewrite orb_true_r].
      destruct (rx_state r); try done; exfalso; auto.
    + exists (rx_needs_ack r), (rx_recv_himark r), (rx_recv_himark_update_expiration r). by destruct r.
Qed.

Lemma rx_himark_total r now next :
  rx_cosmetic r (Receiver_updateRecvHimark r now next).2.
Proof.
  unfold Receiver_updateRecvHimark.
  assert (rx_cosmetic r r).
  { exists (rx_needs_ack r), (rx_recv_himark r), (rx_recv_himark_update_expiration r). by destruct r. }
  destruct (rx_state r); cbn; auto; destruct (now <? _); cbn; auto;
    exists (rx_needs_ack r),
      (SeqNum_add (rb_begin (rx_in_ring r)) (RingBuffer_capacity (rx_in_ring r))),
      (now + kRecvHimarkExpirationTimeoutUs); reflexivity.
Qed.

(** Looking at the first packet. *)
Lemma rx_current_spec r B E U :
  rx_inv peer fin r B E U → rx_self_closed r = false →
  Receiver_current r
  = if decide (B = E) then Some (None, r)
    else Some (Some (rx_slot r B), rx_looking r B (Z.of_nat (rx_read_pos r))).
Proof.
  intros Hinv Hsc. unfold Receiver_current.
  destruct (rx_current_in_buffer r) as [i|] eqn:Hc.
  - destruct (rx_looking_eq peer fin _ _ _ _ Hinv Hsc i Hc) as (-> & Heq & ?).
    rewrite decide_False by lia. by rewrite Heq.
  - pose proof (rw_ring _ _ _ (ri_wf _ _ _ _ _ _ Hinv)) as Hr.
    rewrite (ring_empty _ _ _ Hr). pose proof (ri_window _ _ _ _ _ _ Hinv).
    destruct (Z.eqb_spec B E); case_decide; try done. rewrite (ra_begin _ _ _ Hr).
    rewrite (bind_step _ _ _ (rx_getInBuffer _ _ _ (ri_wf _ _ _ _ _ _ Hinv) B ltac:(lia))).
    unfold rx_read_pos. by rewrite Hc.
Qed.

(** The receiver after a look: nothing the reader can tell has changed. *)
Definition rx_looked (r r' : Receiver) (B : Z) : Prop :=
  r' = r ∨ r' = rx_looking r B (Z.of_nat (rx_read_pos r)).

Context (Hpeer : ∀ p, fin ≠ Some p → peer p ≠ []).

(** The first unread byte, if there is one. *)
Lemma rx_first_byte r B E U b :
  rx_inv peer fin r B E U → rx_self_closed r = false → B < E → rx_at r B = Some b →
  ib_type b = kData →
  Z.of_nat (rx_read_pos r) < ib_size b ∧ B < U
  ∧ ib_payload b !! rx_read_pos r = head (rx_unread peer r B U).
Proof using Hpeer.
  intros Hinv Hsc HBE Hb Hty. pose proof (ri_window _ _ _ _ _ _ Hinv).
  assert (HBU : B < U).
  { destruct (decide (B < U)); [done|]. assert (ib_type b = kUnset); [|congruence].
    apply (ri_next _ _ _ _ _ _ Hinv); [lia|]. by replace U with B by lia. }
  destruct (rx_current_bytes _ _ _ _ _ _ _ Hinv HBU Hb) as (Hwb & Hby & Hsz).
  assert (Hpos : Z.of_nat (rx_read_pos r) < ib_size b).
  { destruct (rx_read_pos_spec _ _ _ _ _ _ Hinv Hsc) as [->|(b2 & Hb2 & _ & ?)].
    - assert (Hne : peer B ≠ []).
      { apply Hpeer. intros Hf. destruct (ri_content _ _ _ _ _ _ Hinv B b) as [_ Ht]; [lia|done|congruence|].
        unfold rx_type in Ht. rewrite decide_True in Ht by done. congruence. }
      rewrite Hsz. destruct (peer B); [done|cbn; lia].
    - replace b with b2 by congruence. lia. }
  split; [done|]. split; [done|]. unfold rx_unread. rewrite peer_stream_cons, <- Hby by done.
  assert (Hlen : (rx_read_pos r < length (InBuffer_bytes b 0))%nat)
    by (pose proof (length_InBuffer_bytes b Hwb); lia).
  rewrite drop_app_le by lia. unfold InBuffer_bytes in *. rewrite drop_0, Z.sub_0_r in *.
  rewrite <- (lookup_take_lt _ (Z.to_nat (ib_size b))) by lia.
  set (l := take _ (ib_payload b)) in *. set (k := rx_read_pos r) in *. clearbody k l.
  rewrite <- (Nat.add_0_r k) at 1. rewrite <- lookup_drop.
  destruct (drop k l) eqn:Hd; [|done].
  apply (f_equal length) in Hd. rewrite length_drop in Hd. cbn in Hd. lia.
Qed.

Context (Hfin : ∀ f, fin = Some f → peer f = []).

(** Looking at a window: the state it leaves. *)
Lemma rx_looked_inv r B E U :
  rx_inv peer fin r B E U → rx_self_closed r = false → B ≠ E →
  rx_inv peer fin (rx_looking r B (Z.of_nat (rx_read_pos r))) B E U
  ∧ rx_session r (rx_looking r B (Z.of_nat (rx_read_pos r)))
  ∧ rx_read_pos (rx_looking r B (Z.of_nat (rx_read_pos r))) = rx_read_pos r.
Proof.
  intros Hinv Hsc HBE. pose proof (ri_window _ _ _ _ _ _ Hinv).
  split; [|split; [by constructor|unfold rx_read_pos at 1; cbn; lia]].
  apply rx_looking_inv; [done|lia|].
  destruct (rx_read_pos_spec _ _ _ _ _ _ Hinv Hsc) as [->|(b & ? & _ & ?)]; [by left|eauto].
Qed.

(** The three things the first packet of the window can be. *)
Lemma rx_first_packet r B E U :
  rx_inv peer fin r B E U → rx_self_closed r = false → B ≠ E →
  ∃ b, rx_at r B = Some b
    ∧ match ib_type b with
      | kUnset => U = B ∧ rx_unread peer r B U = []
      | kFin => B < U ∧ fin = Some B ∧ rx_unread peer r B U = []
      | kData => B < U ∧ fin ≠ Some B ∧ Z.of_nat (rx_read_pos r) < ib_size b
                 ∧ ib_payload b !! rx_read_pos r = head (rx_unread peer r B U)
                 ∧ head (rx_unread peer r B U) ≠ None
                 ∧ ib_size b - Z.of_nat (rx_read_pos r) ≤ Z.of_nat (length (rx_unread peer r B U))
      end.
Proof using Hpeer Hfin.
  intros Hinv Hsc HBE. pose proof (ri_window _ _ _ _ _ _ Hinv) as Hw.
  destruct (rx_at_lookup _ _ _ (ri_wf _ _ _ _ _ _ Hinv) B) as (b & Hb & Hwb).
  exists b. split; [done|].
  assert (Hset : ib_type b ≠ kUnset → B < U).
  { intros Hty. destruct (decide (B < U)); [done|]. destruct Hty.
    apply (ri_next _ _ _ _ _ _ Hinv); [lia|]. by replace U with B by lia. }
  destruct (ib_type b) eqn:Hty.
  - assert (U = B) as ->.
    { destruct (decide (B < U)); [|lia]. by destruct (ri_received _ _ _ _ _ _ Hinv B b ltac:(lia) Hb). }
    split; [done|]. unfold rx_unread. by rewrite peer_stream_nil, drop_nil.
  - destruct (rx_first_byte r B E U b Hinv Hsc ltac:(lia) Hb Hty) as (Hpos & HBU & Hhd).
    split; [done|]. split.
    { intros Hf. destruct (ri_content _ _ _ _ _ _ Hinv B b) as [_ Ht]; [lia|done|congruence|].
      unfold rx_type in Ht. rewrite decide_True in Ht by done. congruence. }
    split; [done|]. split; [done|]. split.
    { rewrite <- Hhd. destruct (lookup_lt_is_Some_2 (ib_payload b) (rx_read_pos r)) as [x ->]; [|done].
      pose proof (ibw_length _ Hwb). pose proof (ibw_size _ Hwb). lia. }
    destruct (rx_current_bytes _ _ _ _ _ _ _ Hinv HBU Hb) as (_ & Hby & Hsz).
    unfold rx_unread. rewrite peer_stream_cons, length_drop, length_app by done. lia.
  - specialize (Hset ltac:(done)).
    destruct (ri_content _ _ _ _ _ _ Hinv B b) as [Hby Ht]; [lia|done|congruence|].
    assert (Hf : fin = Some B).
    { unfold rx_type in Ht. destruct (decide (fin = Some B)); [done|congruence]. }
    split; [done|]. split; [done|]. pose proof (ri_fin _ _ _ _ _ _ Hinv B Hf).
    unfold rx_unread. rewrite peer_stream_cons, (Hfin B Hf) by done. replace U with (B + 1) by lia.
    rewrite peer_stream_nil. cbn [app]. apply drop_nil.
Qed.

Lemma rx_peek_spec r B E U :
  rx_inv peer fin r B E U → rx_self_closed r = false →
  ∃ r', Receiver_peek r = Some (default (-1) (head (rx_unread peer r B U)), r')
    ∧ rx_inv peer fin r' B E U ∧ rx_session r r' ∧ rx_unread peer r' B U = rx_unread peer r B U.
Proof using Hpeer Hfin.
  intros Hinv Hsc. unfold Receiver_peek. rewrite (rx_current_spec _ _ _ _ Hinv Hsc).
  pose proof (ri_window _ _ _ _ _ _ Hinv). case_decide as HBE; cbn [mbind option_bind].
  { exists r. split; [|done]. unfold rx_unread. replace U with B by lia. by rewrite peer_stream_nil, drop_nil. }
  destruct (rx_looked_inv _ _ _ _ Hinv Hsc HBE) as (Hinv' & Hses & Hpos).
  set (r1 := rx_looking r B (Z.of_nat (rx_read_pos r))) in *. exists r1.
  destruct (rx_first_packet _ _ _ _ Hinv Hsc HBE) as (b & Hb & Hcase).
  change (rx_in_buffers r1 !! rx_slot r B) with (rx_at r B). rewrite (bind_step _ _ _ Hb).
  change (rx_current_in_buffer_pos r1) with (Z.of_nat (rx_read_pos r)). rewrite Nat2Z.id.
  split; [|split; [done|split; [done|by unfold rx_unread; rewrite Hpos]]].
  case_decide as Hty.
  - rewrite Hty in Hcase. destruct Hcase as (_ & _ & Hlt & Hhd & Hne & _).
    rewrite dcheck_true by (by apply Z.ltb_lt). rewrite Hhd. by destruct (head _).
  - destruct (ib_type b); [destruct Hcase as (_ & ->)|done|destruct Hcase as (_ & _ & ->)]; done.
Qed.

Lemma rx_available_spec r B E U :
  rx_inv peer fin r B E U → rx_self_closed r = false →
  ∃ n r', Receiver_availableForRead r = Some (n, r')
    ∧ rx_inv peer fin r' B E U ∧ rx_session r r' ∧ rx_unread peer r' B U = rx_unread peer r B U
    ∧ (if decide (fin = Some B ∧ B < U) then n = 1
       else 0 ≤ n ≤ Z.of_nat (length (rx_unread peer r B U))
            ∧ (n = 0 → rx_unread peer r B U = [])).
Proof using Hpeer Hfin.
  intros Hinv Hsc. unfold Receiver_availableForRead. rewrite (rx_current_spec _ _ _ _ Hinv Hsc).
  pose proof (ri_window _ _ _ _ _ _ Hinv). case_decide as HBE; cbn [mbind option_bind].
  { exists 0, r. split; [done|]. do 3 (split; [done|]). rewrite decide_False by lia.
    unfold rx_unread. replace U with B by lia. rewrite peer_stream_nil, drop_nil. done. }
  destruct (rx_looked_inv _ _ _ _ Hinv Hsc HBE) as (Hinv' & Hses & Hpos).
  set (r1 := rx_looking r B (Z.of_nat (rx_read_pos r))) in *.
  destruct (rx_first_packet _ _ _ _ Hinv Hsc HBE) as (b & Hb & Hcase).
  change (rx_in_buffers r1 !! rx_slot r B) with (rx_at r B). rewrite (bind_step _ _ _ Hb).
  change (rx_current_in_buffer_pos r1) with (Z.of_nat (rx_read_pos r)).
  assert (Hun : rx_unread peer r1 B U = rx_unread peer r B U) by (unfold rx_unread; by rewrite Hpos).
  destruct (ib_type b).
  - exists 0, r1. split; [done|]. do 3 (split; [done|]). destruct Hcase as (-> & ->).
    rewrite decide_False by lia. done.
  - destruct Hcase as (_ & Hnf & Hlt & _ & _ & Hle). rewrite dcheck_true by (by apply Z.ltb_lt).
    eexists _, r1. split; [done|]. do 3 (split; [done|]). rewrite decide_False by tauto. lia.
  - exists 1, r1. split; [done|]. do 3 (split; [done|]). destruct Hcase as (? & ? & _).
    by rewrite decide_True by done.
Qed.

(** ** The transition system *)

Inductive rx_event :=
  | RxPacket (p : Z) (payload : list byte) (is_final : bool)
  | RxRead (count : Z)
  | RxPeek
  | RxAvailable
  | RxAck
  | RxRecvHimark (now next_send_micros : Z).

(** The bytes the reader gets, and the next state. A packet carries the low 12 bits
    of its position and the peer's control bit. *)
Definition rx_exec (r : Receiver) (e : rx_event) : option (list byte * Receiver) :=
  match e with
  | RxPacket p payload is_final =>
      '(_, _, r) ← Receiver_handleDataPacket r (negb (rx_control_bit r)) (p mod 4096) payload
                     (Z.of_nat (length payload)) is_final;
      Some ([], r)
  | RxRead count => '(bytes, _, r) ← Receiver_tryRead r count; Some (bytes, r)
  | RxPeek => '(_, r) ← Receiver_peek r; Some ([], r)
  | RxAvailable => '(_, r) ← Receiver_availableForRead r; Some ([], r)
  | RxAck => '(_, r) ← Receiver_ack r; Some ([], r)
  | RxRecvHimark now next => Some ([], (Receiver_updateRecvHimark r now next).2)
  end.

(** Packets are the peer's, lost, repeated or out of order, but not older or newer
    than the 12-bit positions can tell from the start of the window. *)
Definition rx_env (B : Z) (e : rx_event) : Prop :=
  match e with
  | RxPacket p payload is_final => B - 2048 ≤ p < B + 2048 ∧ genuine peer fin p payload is_final
  | RxRead count => 0 ≤ count
  | _ => True
  end.

(** A receiver that was just connected. *)
Record rx_ready (r : Receiver) (start : Z) : Prop := {
  rr_wf : rx_wf r start start;
  rr_unack : rx_unack_seq r = u16 start;
  rr_state : rx_state r = RkConnected;
  rr_self_closed : rx_self_closed r = false;
  rr_peer_closed : rx_peer_closed r = false;
  rr_eos : rx_end_of_stream r = false;
  rr_current : rx_current_in_buffer r = None;
}.

Inductive rx_runs (start : Z) : Receiver → Z → list byte → Prop :=
  | rx_runs_start r : rx_ready r start → rx_runs start r start []
  | rx_runs_step r B out e bytes r' :
      rx_runs start r B out → rx_env B e → rx_exec r e = Some (bytes, r') →
      rx_runs start r' (B + SeqNum_dist (rb_begin (rx_in_ring r')) (rb_begin (rx_in_ring r)))
        (out ++ bytes).

(** A connected reader that has read [out] of a stream that begins at [start]. *)
Record rx_sys (start : Z) (r : Receiver) (B : Z) (out : list byte) (E U : Z) : Prop := {
  sy_inv : rx_inv peer fin r B E U;
  sy_state : rx_state r = RkConnected;
  sy_open : rx_self_closed r = false;
  sy_start : start ≤ B;
  sy_out : out ++ rx_unread peer r B U = peer_stream peer start U;
}.

Lemma rx_sys_session start r B out E U r' B' bytes :
  rx_sys start r B out E U → rx_inv peer fin r' B' E U → rx_session r r' → B ≤ B' →
  bytes ++ rx_unread peer r' B' U = rx_unread peer r B U →
  rx_sys start r' B' (out ++ bytes) E U.
Proof.
  intros [Hinv Hst Hsc HB Hout] Hinv' [] HBB Hcat.
  constructor; [done|congruence|congruence|lia|].
  by rewrite <- app_assoc, Hcat.
Qed.

Lemma rx_session_cosmetic r r' :
  rx_cosmetic r r' → rx_session r r' ∧ rx_read_pos r' = rx_read_pos r.
Proof. intros (a & h & e & ->). split; [by constructor|done]. Qed.

(** What a packet of the peer for position [p] does to a reader whose window starts at [B]:
    whatever was there stays, and if there is room the packet is kept, unless it was read
    before, and acknowledged. *)
Record rx_took (r r' : Receiver) (B E E' p : Z) : Prop := {
  rt_control : rx_control_bit r' = rx_control_bit r;
  rt_log2 : rb_log2 (rx_in_ring r') = rb_log2 (rx_in_ring r);
  rt_himark : rx_recv_himark_update_expiration r' = rx_recv_himark_update_expiration r;
  rt_grow : E ≤ E' ≤ Z.max E (p + 1);
  rt_has : ∀ q, B ≤ q < E → rx_has r q → rx_has r' q;
  rt_kept : p < B + 2 ^ rb_log2 (rx_in_ring r) →
    rx_needs_ack r' = true ∧ (B ≤ p → p < E' ∧ rx_has r' p);
  rt_needs_ack : rx_needs_ack r = true → rx_needs_ack r' = true;
}.

Lemma rx_sys_packet start r B out E U p payload is_final :
  rx_sys start r B out E U → rx_env B (RxPacket p payload is_final) →
  ∃ r' E' U', rx_exec r (RxPacket p payload is_final) = Some ([], r')
              ∧ rx_sys start r' B out E' U' ∧ U ≤ U' ∧ rx_took r r' B E E' p.
Proof.
  intros [Hinv Hst Hsc HB Hout] [Hp Hge]. cbn [rx_exec].
  destruct (rx_handle_spec peer fin r B E U p payload is_final (negb (rx_control_bit r)) Hinv Hst)
    as (ack & new & r' & Hh & Hres); [by destruct (rx_control_bit r)|done|done|].
  rewrite (bind_step _ _ _ Hh). unfold rx_handled in Hres. pose proof (ri_window _ _ _ _ _ _ Hinv).
  case_decide; [|case_decide].
  - destruct Hres as (_ & _ & ->). exists (rx_with_needs_ack true r), E, U. split; [done|].
    split; [|split; [reflexivity|constructor; [done|done|done|lia|done|intros; split; [done|lia]|done]]].
    constructor; [|done..].
    eapply rx_cosmetic_inv; [|done].
    exists true, (rx_recv_himark r), (rx_recv_himark_update_expiration r). done.
  - destruct Hres as (_ & _ & ->). exists r, E, U. split; [done|].
    split; [by constructor|]. split; [reflexivity|]. constructor; [done|done|done|lia|done|lia|done].
  - destruct Hres as (_ & _ & r1 & B' & U' & Hre & Hinv1 & Hat & _ & Hst').
    pose proof (rx_reframed_same_reader _ _ Hre) as Hrd.
    destruct Hst' as [Hinv' Hgrow _ HB' Hna Hrd' Hhas].
    assert (B' = B) as -> by (by rewrite (sr_self_closed _ _ Hrd), Hsc in HB').
    assert (Hpos : rx_read_pos r' = rx_read_pos r).
    { unfold rx_read_pos. by rewrite (sr_current _ _ Hrd'), (sr_pos _ _ Hrd'), (sr_current _ _ Hrd), (sr_pos _ _ Hrd). }
    exists r', (Z.max E (p + 1)), U'. split; [done|]. split; [|split; [exact Hgrow|]].
    2: { constructor; [by rewrite (sr_control _ _ Hrd'), (sr_control _ _ Hrd)
                      |by rewrite (sr_log2 _ _ Hrd'), (sr_log2 _ _ Hrd)
                      |by rewrite (sr_himark _ _ Hrd'), (sr_himark _ _ Hrd)|lia| | |done].
         - intros q Hq Hr. apply Hhas; [lia|]. right. unfold rx_has in *. by rewrite Hat.
         - intros _. split; [done|]. intros _. split; [lia|]. apply Hhas; [lia|by left]. }
    constructor; [done| | |done|].
    + by rewrite (sr_state _ _ Hrd'), (sr_state _ _ Hrd).
    + by rewrite (sr_self_closed _ _ Hrd'), (sr_self_closed _ _ Hrd).
    + unfold rx_unread in *. rewrite Hpos.
      rewrite (peer_stream_app peer start U U'), <- Hout, <- app_assoc by lia. f_equal.
      rewrite (peer_stream_app peer B U U') by lia. apply drop_app_le.
      destruct (rx_read_pos_spec _ _ _ _ _ _ Hinv Hsc) as [->|(b & Hb & HBE & Hlt)]; [lia|].
      assert (HBU : B < U).
      { destruct (decide (B < U)); [done|]. exfalso.
        assert (Hun : ib_type b = kUnset) by (apply (ri_next _ _ _ _ _ _ Hinv); [lia|by replace U with B by lia]).
        rewrite (ibw_unset b) in Hlt; [lia| |done].
        eapply Forall_lookup_1, Hb. apply (rw_buffers _ _ _ (ri_wf _ _ _ _ _ _ Hinv)). }
      destruct (rx_current_bytes _ _ _ _ _ _ _ Hinv HBU Hb) as (_ & _ & Hsz).
      rewrite peer_stream_cons, length_app by done. lia.
Qed.

(** Every operation completes, and keeps the account of the stream. *)
Lemma rx_sys_exec start r B out E U e :
  rx_sys start r B out E U → rx_env B e →
  ∃ bytes r' B' E' U', rx_exec r e = Some (bytes, r') ∧ rx_sys start r' B' (out ++ bytes) E' U'
    ∧ B ≤ B' ≤ B + 2048.
Proof using io_laws Hpeer Hfin.
  intros Hsys Henv. destruct Hsys as [Hinv Hst Hsc HB Hout] eqn:Hs. clear Hs.
  pose proof (ring_size_bounds _ _ _ (rw_ring _ _ _ (ri_wf _ _ _ _ _ _ Hinv))).
  destruct e as [p payload is_final|count| | | |now next]; cbn [rx_exec].
  - destruct (rx_sys_packet _ _ _ _ _ _ _ _ _ Hsys Henv) as (r' & E' & U' & Hex & Hsys' & _).
    exists [], r', B, E', U'. rewrite app_nil_r. split; [exact Hex|]. split; [done|lia].
  - destruct (rx_tryRead_spec r B E U count Hinv Hsc Hst Henv)
      as (bytes & ready & r' & B' & Hr & Hinv' & Hses & HBB & Hcat & _). rewrite (bind_step _ _ _ Hr).
    do 5 eexists. split; [done|]. split; [by eapply rx_sys_session|].
    pose proof (ri_window _ _ _ _ _ _ Hinv'). lia.
  - destruct (rx_peek_spec r B E U Hinv Hsc) as (r' & Hp & Hinv' & Hses & Hun).
    rewrite (bind_step _ _ _ Hp). do 5 eexists. split; [done|].
    split; [eapply rx_sys_session; eauto; lia|lia].
  - destruct (rx_available_spec r B E U Hinv Hsc) as (n & r' & Hp & Hinv' & Hses & Hun & _).
    rewrite (bind_step _ _ _ Hp). do 5 eexists. split; [done|].
    split; [eapply rx_sys_session; eauto; lia|lia].
  - destruct (rx_ack_total r B E U Hinv) as (packet & r' & Ha & Hcos). rewrite (bind_step _ _ _ Ha).
    destruct (rx_session_cosmetic _ _ Hcos) as [Hses Hpos]. do 5 eexists. split; [done|].
    split; [eapply rx_sys_session; eauto using rx_cosmetic_inv; [lia|by unfold rx_unread; rewrite Hpos]|lia].
  - pose proof (rx_himark_total r now next) as Hcos.
    destruct (rx_session_cosmetic _ _ Hcos) as [Hses Hpos]. do 5 eexists. split; [done|].
    split; [eapply rx_sys_session; eauto using rx_cosmetic_inv; [lia|by unfold rx_unread; rewrite Hpos]|lia].
Qed.

Context (start : Z) (Hstart : ∀ f, fin = Some f → start ≤ f).

Lemma rx_runs_sys r B out : rx_runs start r B out → ∃ E U, rx_sys start r B out E U.
Proof using io_laws Hpeer Hfin Hstart.
  induction 1 as [r [Hwf Hun Hst Hsc Hpc He Hc]|r B out e bytes r' _ (E & U & Hsys) Henv Hex].
  - exists start, start. constructor; [|done|done|lia|].
    + constructor; auto; try lia; try congruence.
      * intros f Hf. specialize (Hstart f Hf). lia.
      * intros _. rewrite He. split; [done|]. intros Hf. specialize (Hstart _ Hf). lia.
    + unfold rx_unread. rewrite peer_stream_nil, drop_nil. done.
  - destruct (rx_sys_exec _ _ _ _ _ _ _ Hsys Henv) as (bytes1 & r1 & B' & E' & U' & Hex1 & Hsys' & HB').
    rewrite Hex in Hex1. injection Hex1 as <- <-. exists E', U'.
    rewrite (ra_begin _ _ _ (rw_ring _ _ _ (ri_wf _ _ _ _ _ _ (sy_inv _ _ _ _ _ _ Hsys')))).
    rewrite (ra_begin _ _ _ (rw_ring _ _ _ (ri_wf _ _ _ _ _ _ (sy_inv _ _ _ _ _ _ Hsys)))).
    rewrite SeqNum_dist_pos by lia. by replace (B + (B' - B)) with B' by lia.
Qed.

(** ** The contract *)


(** [tryRead] returns the next bytes of the stream: exactly the first bytes of
    what is unread, never more than asked for, and less only when everything that
    has arrived in order has been read. *)
Theorem Receiver_tryRead_exact (r : Receiver) (B E U count : Z)
    (Hinv : rx_inv peer fin r B E U) (Hst : rx_state r = RkConnected)
    (Hopen : rx_self_closed r = false) (Hcount : 0 ≤ count) :
  ∃ bytes ready r' B', Receiver_tryRead r count = Some (bytes, ready, r')
    ∧ rx_inv peer fin r' B' E U ∧ B ≤ B'
    ∧ rx_unread peer r B U = bytes ++ rx_unread peer r' B' U
    ∧ Z.of_nat (length bytes) = Z.min count (Z.of_nat (length (rx_unread peer r B U))).
Proof.
  destruct (rx_tryRead_spec r B E U count Hinv Hopen Hst Hcount)
    as (bytes & ready & r' & B' & Hr & Hinv' & _ & HB & Hcat & Hle & Hall & _).
  exists bytes, ready, r', B'. do 4 (split; [done|]). rewrite <- Hcat, length_app.
  destruct (decide (Z.of_nat (length bytes) < count)) as [Hlt|]; [|lia].
  specialize (Hall Hlt). subst B'. unfold rx_unread at 1. rewrite peer_stream_nil, drop_nil. cbn. lia.
Qed.

(** C19: [handleDataPacket] on a packet of the peer, of a position p at most 2048 away from
    the start B of the window (12 bits tell no more), while this side has not closed its
    input. An old packet is only acknowledged again, one beyond the window is dropped without a
    trace, and any other is stored: afterwards its buffer holds its bytes and its kind, and
    the window, which grows up to p if need be, holds exactly the packets it held before and
    this one. When it is the first missing one the stream that can be read grows, and only
    then the reader is told of new data. *)
Theorem Receiver_handleDataPacket_stores (r : Receiver) (B E U p : Z) (payload : list byte)
    (is_final cb : bool)
    (Hinv : rx_inv peer fin r B E U) (Hst : rx_state r = RkConnected)
    (Hopen : rx_self_closed r = false) (Hcb : cb ≠ rx_control_bit r)
    (Hp : B - 2048 ≤ p < B + 2048) (Hge : genuine peer fin p payload is_final) :
  ∃ ack new r', Receiver_handleDataPacket r cb (p mod 4096) payload
                  (Z.of_nat (length payload)) is_final = Some (ack, new, r')
    ∧ if decide (p < B) then ack = true ∧ new = false ∧ r' = rx_with_needs_ack true r
      else if decide (B + RingBuffer_capacity (rx_in_ring r) ≤ p)
      then ack = false ∧ new = false ∧ r' = r
      else ack = true ∧ new = bool_decide (p = U) ∧ rx_needs_ack r' = true
           ∧ ∃ U', rx_inv peer fin r' B (Z.max E (p + 1)) U'
             ∧ (if decide (p = U) then U < U' else U' = U)
             ∧ (∀ q, B ≤ q < Z.max E (p + 1) → rx_has r' q ↔ q = p ∨ q < E ∧ rx_has r q)
             ∧ ∃ b, rx_at r' p = Some b ∧ InBuffer_bytes b 0 = payload
                 ∧ ib_type b = if is_final then kFin else kData.
Proof.
  destruct (rx_handle_spec peer fin r B E U p payload is_final cb Hinv Hst Hcb Hp Hge)
    as (ack & new & r' & Hh & Hres). exists ack, new, r'. split; [done|]. unfold rx_handled in Hres.
  rewrite (ring_capacity _ _ _ (rw_ring _ _ _ (ri_wf _ _ _ _ _ _ Hinv))).
  case_decide; [done|]. case_decide; [done|].
  destruct Hres as (-> & -> & r1 & B' & U' & Hre & _ & Hold & Hnew & [Hinv' _ Hgap HB' Hna _ Hhas]).
  rewrite Hopen, andb_true_r. do 3 (split; [done|]).
  rewrite (sr_self_closed _ _ (rx_reframed_same_reader _ _ Hre)), Hopen in HB'. cbn in HB'. subst B'.
  exists U'. do 2 (split; [done|]). split.
  - intros q Hq. rewrite Hhas by lia. unfold rx_has at 1. destruct (decide (q < E)) as [Hlt|Hge'].
    + rewrite Hold by lia. tauto.
    + split; [|intros [?|[? _]]; [by left|lia]]. intros [?|(b & Hb & Hty)]; [by left|].
      by destruct Hty; apply (Hnew q b); [lia|].
  - assert (Hhp : rx_has r' p) by (apply Hhas; [lia|by left]). destruct Hhp as (b & Hb & Hty). exists b. split; [done|].
    destruct (ri_content _ _ _ _ _ _ Hinv' p b ltac:(lia) Hb Hty) as [-> ->].
    rewrite (ge_payload _ _ _ _ _ Hge), (ge_final _ _ _ _ _ Hge). split; [done|]. unfold rx_type.
    destruct (decide (fin = Some p)); [by rewrite bool_decide_true|by rewrite bool_decide_false].
Qed.

(** Packets that are not for this receiver change nothing: when there is no
    connection, or when they carry this side's own control bit (cross-talk). *)
Theorem Receiver_handleDataPacket_ignores (r : Receiver) (cb : bool) (seq_id : Z)
    (payload : list byte) (len : Z) (is_final : bool)
    (Hforeign : rx_state r = RkIdle ∨ rx_state r = RkConnecting ∨ cb = rx_control_bit r) :
  Receiver_handleDataPacket r cb seq_id payload len is_final = Some (false, false, r).
Proof.
  unfold Receiver_handleDataPacket. destruct Hforeign as [->|[->|Hcb]]; [done|done|].
  rewrite <- Hcb, eqb_reflx. by destruct (rx_state r).
Qed.

(** The acknowledgment tells the truth. It names the first position that has not
    arrived, and its bitmap has a bit set exactly for those of the 64 positions after
    it that have. *)
Theorem Receiver_ack_reports (r : Receiver) (B E U : Z)
    (Hinv : rx_inv peer fin r B E U) (Hst : rx_state r = RkConnected ∨ rx_state r = RkIdle)
    (Hneeds : rx_needs_ack r = true) :
  ∃ bitmap, Receiver_ack r
    = Some (StoreBeU16 (FormatPacketHeader (u16 U) kDataAckPacket (rx_control_bit r)) ++ bitmap,
            rx_with_needs_ack false r)
    ∧ (∀ p, B ≤ p < U → rx_has r p)
    ∧ (U < E → ¬ rx_has r U)
    ∧ ∀ k, skip_ack bitmap k = true ↔
        (k < 64)%nat ∧ U + 1 + Z.of_nat k < E ∧ rx_has r (U + 1 + Z.of_nat k).
Proof using io_laws.
  destruct (rx_ack_packet r B E U Hinv Hst Hneeds) as (bitmap & Ha & _ & Hk).
  exists bitmap. split; [done|]. split; [|split; [|done]].
  - intros p Hp. destruct (rx_at_lookup _ _ _ (ri_wf _ _ _ _ _ _ Hinv) p) as (b & Hb & _).
    exists b. split; [done|]. by eapply (ri_received _ _ _ _ _ _ Hinv p).
  - intros HUE (b & Hb & Hty). by apply Hty, (ri_next _ _ _ _ _ _ Hinv).
Qed.

(** The flow-control packet advertises the free room: the first position that
    does not fit the window. It is sent when its timer has expired, and again every
    100 ms; before that nothing happens. *)
Theorem Receiver_updateRecvHimark_advertises (r : Receiver) (B E U now next : Z)
    (Hinv : rx_inv peer fin r B E U) (Hst : rx_state r = RkConnected) :
  Receiver_updateRecvHimark r now next
  = if decide (rx_recv_himark_update_expiration r ≤ now)
    then (StoreBeU16 (FormatPacketHeader (u16 (B + 2 ^ rb_log2 (rx_in_ring r))) kFlowControlPacket
            (rx_control_bit r)),
          Z.min next 100000,
          rx_with_recv_himark_update_expiration (now + 100000)
            (rx_with_recv_himark (u16 (B + 2 ^ rb_log2 (rx_in_ring r))) r))
    else ([], Z.min next (to_long (rx_recv_himark_update_expiration r - now)), r).
Proof.
  unfold Receiver_updateRecvHimark. rewrite Hst.
  pose proof (rw_ring _ _ _ (ri_wf _ _ _ _ _ _ Hinv)) as Hr.
  rewrite (ra_begin _ _ _ Hr), SeqNum_add_pos, (ring_capacity _ _ _ Hr).
  destruct (Z.ltb_spec now (rx_recv_himark_update_expiration r)); case_decide; done || lia.
Qed.

End Correct.

(** ** A new connection *)

Section Reconnect.

Context {io : RooIo} {pf : Platform}.

Lemma rx_discard_spec fuel E :
  ∀ r B, rx_wf r B E → (Z.to_nat (E - B) < fuel)%nat →
  ∃ r', Receiver_discard fuel r = Some r' ∧ rx_wf r' E E ∧ rx_reframed r r'.
Proof.
  induction fuel as [|fuel IH]; intros r B Hwf Hfuel; [lia|]. cbn [Receiver_discard].
  pose proof (rw_ring _ _ _ Hwf) as Hr. pose proof (ring_size_bounds _ _ _ Hr).
  rewrite (ring_empty _ _ _ Hr). destruct (Z.eqb_spec B E) as [->|Hne].
  { exists r. auto using rx_reframed_refl. }
  rewrite (ra_begin _ _ _ Hr), (bind_step _ _ _ (rx_getInBuffer _ _ _ Hwf B ltac:(lia))).
  destruct (rx_at_lookup _ _ _ Hwf B) as (b & Hb & Hwb).
  change (rx_in_buffers r !! rx_slot r B) with (rx_at r B). rewrite (bind_step _ _ _ Hb). cbv zeta.
  cbn [rx_in_ring rx_set_buffer rx_with_in_buffers].
  destruct (ring_pop _ _ _ Hr) as (ring & Hp & Hr' & Hl); [lia|]. rewrite (bind_step _ _ _ Hp).
  cbn beta iota. destruct (rx_set_buffer_wf _ _ _ Hwf (rx_slot r B) (InBuffer_clear b)) as [_ Hlen Hbs];
    [by apply InBuffer_clear_wf|].
  destruct (IH (rx_with_in_ring ring (rx_set_buffer (rx_slot r B) (InBuffer_clear b) r)) (B + 1))
    as (r' & Hd & Hwf' & Hre); [|lia|].
  { constructor; [done| |done]. cbn in *. by rewrite Hl. }
  exists r'. split; [done|]. split; [done|].
  eapply rx_reframed_trans; [|done]. split; [by destruct r|done].
Qed.

Lemma rx_reset_spec r B E :
  rx_wf r B E →
  ∃ r', Receiver_reset r = Some r' ∧ rx_wf r' E E ∧ rx_state r' = RkIdle
        ∧ rx_current_in_buffer r' = None ∧ rx_my_stream_id r' = 0 ∧ rx_needs_ack r' = false
        ∧ rx_self_closed r' = false ∧ rx_peer_closed r' = false ∧ rx_end_of_stream r' = false.
Proof.
  intros Hwf. unfold Receiver_reset. cbv zeta.
  set (r1 := rx_with_end_of_stream false _).
  assert (Hwf1 : rx_wf r1 B E) by (destruct Hwf; by constructor).
  rewrite (ring_slotsUsed _ _ _ (rw_ring _ _ _ Hwf1)).
  destruct (rx_discard_spec (S (Z.to_nat (E - B))) E r1 B Hwf1) as (r2 & Hd & Hwf2 & [Hre _]); [lia|].
  rewrite (bind_step _ _ _ Hd). eexists. split; [done|].
  split; [destruct Hwf2; by constructor|]. rewrite Hre. done.
Qed.

Lemma rx_init_spec r B E id :
  rx_wf r B E →
  ∃ r', Receiver_init r id = Some r' ∧ rx_wf r' E E ∧ rx_state r' = RkConnecting
        ∧ rx_current_in_buffer r' = rx_current_in_buffer r ∧ rx_my_stream_id r' = id
        ∧ rx_self_closed r' = false ∧ rx_peer_closed r' = false ∧ rx_end_of_stream r' = false.
Proof.
  intros Hwf. unfold Receiver_init.
  destruct (ring_drain_all _ _ _ (rw_ring _ _ _ Hwf)) as (ring & Hd & Hr & Hl).
  rewrite (bind_step _ _ _ Hd). eexists. split; [done|]. split; [|done].
  destruct Hwf. constructor; cbn; auto. by rewrite Hl.
Qed.

Lemma rx_setConnected_spec r B start cb :
  rx_wf r B B → rx_current_in_buffer r = None → rx_self_closed r = false →
  rx_peer_closed r = false → rx_end_of_stream r = false →
  ∃ r', Receiver_setConnected r (u16 start) cb = Some r' ∧ rx_ready r' start
        ∧ rx_control_bit r' = cb ∧ rb_log2 (rx_in_ring r') = rb_log2 (rx_in_ring r).
Proof.
  intros Hwf Hc Hsc Hpc He. unfold Receiver_setConnected. pose proof (rw_ring _ _ _ Hwf) as Hr.
  rewrite (ring_empty _ _ _ Hr), Z.eqb_refl. cbn [check mbind option_bind].
  destruct (ring_reset _ _ _ Hr start eq_refl) as (ring & Hrs & Hr' & Hl).
  rewrite (bind_step _ _ _ Hrs). eexists. split; [done|]. split; [|done].
  constructor; try done. destruct Hwf. constructor; cbn; auto. by rewrite Hl.
Qed.

(** A receiver can be reused. From any state, [reset], [init] and [setConnected]
    complete and leave a receiver ready for a new stream, with nothing of the old
    one. *)
Theorem Receiver_reconnects (r : Receiver) (B E start id : Z) (cb : bool) (Hwf : rx_wf r B E) :
  ∃ r1 r2 r3, Receiver_reset r = Some r1 ∧ Receiver_init r1 id = Some r2
    ∧ Receiver_setConnected r2 (u16 start) cb = Some r3
    ∧ rx_ready r3 start ∧ rx_control_bit r3 = cb.
Proof.
  destruct (rx_reset_spec r B E Hwf) as (r1 & Heq1 & Hwf1 & _ & Hc1 & _).
  destruct (rx_init_spec r1 E E id Hwf1) as (r2 & Heq2 & Hwf2 & _ & Hc2 & _ & ? & ? & ?).
  destruct (rx_setConnected_spec r2 E start cb Hwf2) as (r3 & Heq3 & ? & ? & _); [congruence|done..|].
  eauto 10.
Qed.

Lemma rx_new_spec log2 memory garbage :
  0 ≤ log2 ≤ kMaxLinkBufferSizeLog2 → length memory = 248%nat →
  ∃ r, Receiver_new log2 memory garbage = Some r ∧ rx_wf r 0 0 ∧ rx_state r = RkIdle
       ∧ rx_current_in_buffer r = None.
Proof.
  intros Hl Hm. unfold Receiver_new. destruct (ring_new log2 0 Hl) as [Hn Hr].
  rewrite (bind_step _ _ _ Hn). eexists. split; [done|]. split; [|done].
  constructor; cbn; [done| |].
  - rewrite length_replicate, Z.shiftl_1_l. done.
  - apply Forall_replicate. constructor; cbn; done || lia.
Qed.

End Reconnect.

(** ** Witnesses *)

(** A receiver with a window of four packets, connected at 65535; the peer sends
    one, two and three bytes and closes. *)
Definition rx_demo_connected : option Receiver :=
  r ← Receiver_new 2 (replicate 248 0) false;
  r ← Receiver_init r 9;
  Receiver_setConnected r 65535 true.

Definition demo_peer (p : Z) : list byte :=
  if p =? 65535 then [1] else if p =? 65536 then [2; 3] else if p =? 65537 then [4; 5; 6]
  else if p =? 65538 then [] else [7].

Definition demo_fin : option Z := Some 65538.

Lemma demo_peer_nonempty p : demo_fin ≠ Some p → demo_peer p ≠ [].
Proof.
  unfold demo_fin, demo_peer. intros Hp.
  do 3 (destruct (p =? _); [done|]). destruct (Z.eqb_spec p 65538) as [->|]; done.
Qed.

Lemma demo_peer_fin f : demo_fin = Some f → demo_peer f = [].
Proof. by intros [= <-]. Qed.

Lemma rx_demo_ready :
  ∃ r, rx_demo_connected = Some r ∧ rx_ready r 65535 ∧ rx_control_bit r = true.
Proof.
  unfold rx_demo_connected.
  destruct (rx_new_spec 2 (replicate 248 0) false) as (r1 & Heq1 & Hwf1 & _ & Hc1); [done|done|].
  rewrite (bind_step _ _ _ Heq1).
  destruct (rx_init_spec r1 0 0 9 Hwf1) as (r2 & Heq2 & Hwf2 & _ & Hc2 & _ & ? & ? & ?).
  rewrite (bind_step _ _ _ Heq2).
  destruct (rx_setConnected_spec r2 0 65535 true Hwf2) as (r3 & Heq3 & ? & ? & _); [congruence|done..|].
  eauto.
Qed.

Lemma rx_demo_inv :
  ∃ r, rx_demo_connected = Some r ∧ rx_inv demo_peer demo_fin r 65535 65535 65535
       ∧ rx_state r = RkConnected ∧ rx_self_closed r = false ∧ rx_control_bit r = true.
Proof.
  destruct rx_demo_ready as (r & Hr & Hready & Hcb). exists r. split; [done|].
  destruct (rx_runs_sys demo_peer demo_fin demo_peer_nonempty demo_peer_fin 65535) with r 65535 (@nil Z)
    as (E & U & Hsys).
  { intros f [= <-]. lia. }
  { by constructor. }
  pose proof Hsys as [Hinv Hst Hsc _ _].
  assert (HE : E = 65535).
  { pose proof (rw_ring _ _ _ (ri_wf _ _ _ _ _ _ Hinv)) as Hra.
    pose proof (rw_ring _ _ _ (rr_wf _ _ Hready)) as Hrb.
    pose proof (ra_end _ _ _ Hra) as H1. rewrite (ra_end _ _ _ Hrb) in H1.
    pose proof (ring_size_bounds _ _ _ Hra). apply u16_inj in H1; lia. }
  pose proof (ri_window _ _ _ _ _ _ Hinv). assert (U = 65535) as HU by lia. by rewrite HE, HU in Hinv.
Qed.

Lemma Receiver_handleDataPacket_stores_witness :
  ∃ r ack new r' U', rx_demo_connected = Some r
    ∧ Receiver_handleDataPacket r false 0 [2; 3] 2 false = Some (ack, new, r')
    ∧ ack = true ∧ new = false ∧ rx_inv demo_peer demo_fin r' 65535 65537 U' ∧ U' = 65535
    ∧ ∃ b, rx_at r' 65536 = Some b ∧ InBuffer_bytes b 0 = [2; 3].
Proof.
  destruct rx_demo_inv as (r & Hr & Hinv & Hst & Hsc & Hcb).
  destruct (Receiver_handleDataPacket_stores demo_peer demo_fin r 65535 65535 65535 65536 [2; 3] false
    false Hinv Hst Hsc) as (ack & new & r' & Hh & Hres).
  - by rewrite Hcb.
  - lia.
  - constructor; [done|cbn; lia|done|intros f [= <-]; lia].
  - exists r, ack, new, r'. rewrite decide_False in Hres by lia.
    rewrite (ring_capacity _ _ _ (rw_ring _ _ _ (ri_wf _ _ _ _ _ _ Hinv))) in Hres.
    assert (Hl : rb_log2 (rx_in_ring r) = 2).
    { assert (Hf : option_map (λ r, rb_log2 (rx_in_ring r)) rx_demo_connected = Some 2)
        by (vm_compute; reflexivity). rewrite Hr in Hf. by injection Hf. }
    rewrite Hl in Hres. rewrite decide_False in Hres by lia.
    destruct Hres as (Ha & Hn & _ & U' & Hi & Hg & Hh' & b & Hb & Hby & _). rewrite decide_False in Hg by lia.
    exists U'. split; [done|]. split; [exact Hh|]. split; [done|].
    split; [rewrite Hn; by apply bool_decide_false|]. split; [exact Hi|]. split; [exact Hg|]. by exists b.
Defined.


(** The same receiver with the peer's first packet in. *)
Definition rx_demo_filled : option Receiver :=
  r ← rx_demo_connected; '(_, _, r) ← Receiver_handleDataPacket r false 4095 [1] 1 false; Some r.

Lemma rx_demo_filled_inv :
  ∃ r, rx_demo_filled = Some r ∧ rx_inv demo_peer demo_fin r 65535 65536 65536
       ∧ rx_state r = RkConnected ∧ rx_self_closed r = false ∧ rx_read_pos r = 0%nat.
Proof.
  destruct rx_demo_inv as (r & Hr & Hinv & Hst & Hsc & Hcb).
  destruct (rx_handle_spec demo_peer demo_fin r 65535 65535 65535 65535 [1] false false Hinv Hst)
    as (ack & new & r' & Hh & Hres); [by rewrite Hcb|lia|constructor; [done|cbn; lia|done|intros f [= <-]; lia]|].
  change (65535 mod 4096) with 4095 in Hh. change (Z.of_nat (length [1])) with 1 in Hh.
  assert (Hd : rx_demo_filled = Some r')
    by (unfold rx_demo_filled; by rewrite (bind_step _ _ _ Hr), (bind_step _ _ _ Hh)).
  exists r'. split; [done|].
  unfold rx_handled in Hres. rewrite decide_False in Hres by lia.
  pose proof (ring_capacity_bounds _ _ _ (rw_ring _ _ _ (ri_wf _ _ _ _ _ _ Hinv))).
  rewrite decide_False in Hres by lia. destruct Hres as (_ & _ & r1 & B' & U' & Hre & _ & _ & _ & [Hi _ Hgap HB _ Hrd _]).
  pose proof (rx_reframed_same_reader _ _ Hre) as Hrd1. rewrite decide_True in Hgap by lia.
  rewrite (sr_self_closed _ _ Hrd1), Hsc in HB. cbn in HB. subst B'. pose proof (ri_window _ _ _ _ _ _ Hi).
  replace U' with 65536 in Hi by lia. split; [exact Hi|].
  assert (Hf : option_map (λ r, (rx_state r, rx_self_closed r, rx_read_pos r)) rx_demo_filled
    = Some (RkConnected, false, 0%nat)) by (vm_compute; reflexivity).
  rewrite Hd in Hf. by injection Hf.
Qed.

Lemma Receiver_tryRead_exact_witness :
  ∃ r ready r', rx_demo_filled = Some r ∧ Receiver_tryRead r 10 = Some ([1], ready, r').
Proof.
  destruct rx_demo_filled_inv as (r & Hr & Hinv & Hst & Hsc & Hpos).
  destruct (Receiver_tryRead_exact demo_peer demo_fin r _ _ _ 10 Hinv Hst Hsc ltac:(lia))
    as (bytes & ready & r' & B' & Ht & _ & _ & Hcat & Hlen).
  assert (Hun : rx_unread demo_peer r 65535 65536 = [1]) by (unfold rx_unread; rewrite Hpos; reflexivity).
  rewrite Hun in Hcat, Hlen. exists r, ready, r'. split; [exact Hr|]. rewrite Ht.
  destruct bytes as [|x [|y bytes]]; cbn in Hlen; [lia| |lia]. by injection Hcat as <- _.
Defined.

Lemma Receiver_handleDataPacket_ignores_witness :
  ∃ r, rx_demo_connected = Some r
    ∧ Receiver_handleDataPacket r true 5 [1; 2] 2 false = Some (false, false, r).
Proof.
  destruct rx_demo_inv as (r & Hr & _ & _ & _ & Hcb). exists r. split; [done|].
  apply Receiver_handleDataPacket_ignores. right. right. by rewrite Hcb.
Defined.

Lemma Receiver_ack_reports_witness :
  ∃ r bitmap, rx_demo_connected = Some r
    ∧ Receiver_ack (rx_with_needs_ack true r)
      = Some (StoreBeU16 (FormatPacketHeader 65535 kDataAckPacket true) ++ bitmap,
              rx_with_needs_ack false (rx_with_needs_ack true r)).
Proof.
  destruct rx_demo_inv as (r & Hr & Hinv & Hst & _ & Hcb).
  assert (Hinv' : rx_inv demo_peer demo_fin (rx_with_needs_ack true r) 65535 65535 65535).
  { eapply rx_cosmetic_inv, Hinv.
    exists true, (rx_recv_himark r), (rx_recv_himark_update_expiration r). done. }
  destruct (Receiver_ack_reports demo_peer demo_fin _ _ _ _ Hinv' (or_introl Hst) eq_refl)
    as (bitmap & Ha & _). exists r, bitmap. split; [done|]. rewrite Ha. cbn [rx_control_bit rx_with_needs_ack].
  rewrite Hcb. reflexivity.
Defined.

Lemma Receiver_updateRecvHimark_advertises_witness :
  ∃ r, rx_demo_connected = Some r
    ∧ (Receiver_updateRecvHimark r 0 500).1.2 = 500.
Proof.
  destruct rx_demo_inv as (r & Hr & Hinv & Hst & _). exists r. split; [done|].
  assert (Hx : rx_recv_himark_update_expiration r = 0).
  { assert (Hf : option_map rx_recv_himark_update_expiration rx_demo_connected = Some 0)
      by (vm_compute; reflexivity). rewrite Hr in Hf. by injection Hf. }
  rewrite (Receiver_updateRecvHimark_advertises demo_peer demo_fin r _ _ _ 0 500 Hinv Hst), Hx.
  reflexivity.
Defined.

Lemma Receiver_reconnects_witness :
  ∃ r r1 r2 r3, rx_demo_connected = Some r ∧ Receiver_reset r = Some r1
    ∧ Receiver_init r1 3 = Some r2 ∧ Receiver_setConnected r2 77 false = Some r3 ∧ rx_ready r3 77.
Proof.
  destruct rx_demo_ready as (r & Hr & Hready & _).
  destruct (Receiver_reconnects r _ _ 77 3 false (rr_wf _ _ Hready)) as (r1 & r2 & r3 & ? & ? & ? & ? & _).
  exists r, r1, r2, r3. auto.
Defined.

(** ** Where the code falls short *)

(** [init] keeps the reader's place in the buffer of the previous connection: after a
    partial read and a reconnection without [reset], the first byte of the new
    connection's stream 7 8 9 is lost. *)
Theorem Receiver_init_stale_position :
  (r ← rx_demo_connected;
   '(_, _, r) ← Receiver_handleDataPacket r false 4095 [1; 2; 3] 3 false;
   '(first, _, r) ← Receiver_tryRead r 1;
   r ← Receiver_init r 10;
   r ← Receiver_setConnected r 4095 true;
   '(_, _, r) ← Receiver_handleDataPacket r false 4095 [7; 8; 9] 3 false;
   '(second, _, _) ← Receiver_tryRead r 10;
   Some (first, second)) = Some ([1], [8; 9]).
Proof. vm_compute. reflexivity. Qed.

(** [markInputClosed] with a packet missing drops the window past the gap, after which
    the missing packet is taken for an old one: the acknowledged position 65535 stays
    behind for good, whatever arrives. *)
Theorem Receiver_markInputClosed_gap :
  (r ← rx_demo_connected;
   '(_, _, r) ← Receiver_handleDataPacket r false 0 [2; 3] 2 false;
   '(_, r) ← Receiver_markInputClosed r false;
   '(_, _, r) ← Receiver_handleDataPacket r false 4095 [1] 1 false;
   '(_, _, r) ← Receiver_handleDataPacket r false 0 [2; 3] 2 false;
   '(_, _, r) ← Receiver_handleDataPacket r false 1 [4; 5; 6] 3 false;
   Some (rx_unack_seq r)) = Some 65535.
Proof. vm_compute. reflexivity. Qed.
