(* ===== verification/ThreadSafe.v ===== *)
(** * ThreadSafe: the two link halves behind their locks

    [link/internal/thread_safe/thread_safe_transmitter.{h,cpp}],
    [link/internal/thread_safe/thread_safe_receiver.{h,cpp}] and
    [link/internal/thread_safe/outgoing_data_ready_notification.h]. Every method
    holds the object's mutex from start to end or to a wait, so that it is one atomic
    step: a function from the state to the result, the new state, and the condition
    variables it notifies. A method that blocks is the step up to the wait
    ([Blocked]), repeated when the condition is notified. *)

From S2P Require Import Prelude.
From S2P Require Import SeqNum.
From S2P Require Import RingBuffer.
From S2P Require Import RooIo.
From S2P Require Import Protocol.
From S2P Require Import Buffers.
From S2P Require Import Transmitter.
From S2P Require Import Receiver.

Local Open Scope Z_scope.
Local Open Scope roo_scope.

(** The statuses of roo_io that the transport uses. *)
Inductive Status := kOk | kEndOfStream | kClosed | kConnectionError.

#[export] Instance Status_eq_dec : EqDecision Status.
Proof. solve_decision. Defined.

(** The condition variables that threads wait on. *)
Inductive Condition := has_space | all_acked | has_data | connected_cv.

#[export] Instance Condition_eq_dec : EqDecision Condition.
Proof. solve_decision. Defined.

(** The outcome of a step of a method that may wait for a condition. *)
Inductive Blocking (A : Type) := Returned (a : A) | Blocked (c : Condition).
Arguments Returned {A} a.
Arguments Blocked {A} c.

Section Operations.

Context {io : RooIo} {pf : Platform}.

(** ** ThreadSafeTransmitter *)

Definition ThreadSafeTransmitter_checkConnectionStatus (t : Transmitter) (my_stream_id : Z) : Status :=
  if (bool_decide (tx_state t = TkConnected) || bool_decide (tx_state t = TkConnecting))
     && (my_stream_id =? tx_my_stream_id t)
  then kOk else kConnectionError.

(** One round of the loop of [write]. Returns the count, the status and
    [outgoing_data_ready]. *)
Definition ThreadSafeTransmitter_write_round (t : Transmitter) (buf : list byte)
    (my_stream_id : Z) : option (Blocking (Z * Status) * bool * Transmitter) :=
  '(total_written, outgoing_data_ready, t) ← Transmitter_tryWrite t buf;
  if 0 <? total_written then Some (Returned (total_written, kOk), outgoing_data_ready, t)
  else match ThreadSafeTransmitter_checkConnectionStatus t my_stream_id with
       | kOk => Some (Blocked has_space, outgoing_data_ready, t)
       | status => Some (Returned (0, status), outgoing_data_ready, t)
       end.

Definition ThreadSafeTransmitter_write (t : Transmitter) (buf : list byte) (my_stream_id : Z)
    : option (Blocking (Z * Status) * bool * Transmitter) :=
  match ThreadSafeTransmitter_checkConnectionStatus t my_stream_id with
  | kOk => ThreadSafeTransmitter_write_round t buf my_stream_id
  | status => Some (Returned (0, status), false, t)
  end.

Definition ThreadSafeTransmitter_tryWrite (t : Transmitter) (buf : list byte) (my_stream_id : Z)
    : option (Z * Status * bool * Transmitter) :=
  match ThreadSafeTransmitter_checkConnectionStatus t my_stream_id with
  | kOk => '(n, ready, t) ← Transmitter_tryWrite t buf; Some (n, kOk, ready, t)
  | status => Some (0, status, false, t)
  end.

Definition ThreadSafeTransmitter_flush (t : Transmitter) (my_stream_id : Z)
    : option (Status * bool * Transmitter) :=
  match ThreadSafeTransmitter_checkConnectionStatus t my_stream_id with
  | kOk => '(ready, t) ← Transmitter_flush t; Some (kOk, ready, t)
  | status => Some (status, false, t)
  end.

(** The check is made before the lock is taken. *)
Definition ThreadSafeTransmitter_hasPendingData (t : Transmitter) (my_stream_id : Z) : bool * Status :=
  match ThreadSafeTransmitter_checkConnectionStatus t my_stream_id with
  | kOk => (Transmitter_hasPendingData t, kOk)
  | status => (false, status)
  end.

(** [close], up to its first wait. *)
Definition ThreadSafeTransmitter_close (t : Transmitter) (my_stream_id : Z)
    : option (Blocking Status * bool * Transmitter) :=
  match ThreadSafeTransmitter_checkConnectionStatus t my_stream_id with
  | kOk =>
      t ← Transmitter_close t;
      Some (if Transmitter_hasPendingData t then Blocked all_acked else Returned kOk, true, t)
  | status => Some (Returned status, false, t)
  end.

(** The loop of [close], after a wait. *)
Definition ThreadSafeTransmitter_close_round (t : Transmitter) (my_stream_id : Z) : Blocking Status :=
  if negb (Transmitter_hasPendingData t) then Returned kOk
  else match ThreadSafeTransmitter_checkConnectionStatus t my_stream_id with
       | kOk => Blocked all_acked
       | status => Returned status
       end.

Definition ThreadSafeTransmitter_availableForWrite (t : Transmitter) (my_stream_id : Z) : Z * Status :=
  match ThreadSafeTransmitter_checkConnectionStatus t my_stream_id with
  | kOk => (Transmitter_availableForWrite t, kOk)
  | status => (0, status)
  end.

(** [send] copies the packet into the caller's 250 bytes. *)
Definition ThreadSafeTransmitter_send (t : Transmitter) (now draw next_send_micros : Z)
    : option (list byte * Z * Transmitter) :=
  Transmitter_send t now draw next_send_micros.

Definition ThreadSafeTransmitter_setBroken (t : Transmitter) : option (list Condition * Transmitter) :=
  t ← Transmitter_setBroken t; Some ([all_acked; has_space], t).

Definition ThreadSafeTransmitter_reset (t : Transmitter) : option (list Condition * Transmitter) :=
  t ← Transmitter_reset t; Some ([all_acked], t).

Definition ThreadSafeTransmitter_init (t : Transmitter) (my_stream_id : Z) (new_start : SeqNum)
    : option (list Condition * Transmitter) :=
  t ← Transmitter_init t my_stream_id new_start; Some ([all_acked], t).

(** Returns [outgoing_data_ready]. *)
Definition ThreadSafeTransmitter_ack (t : Transmitter) (control_bit : bool) (seq_id : Z)
    (ack_bitmap : list byte) : option (bool * list Condition * Transmitter) :=
  let writable_before := Transmitter_availableForWrite t in
  '(rushed, t) ← Transmitter_ack t control_bit seq_id ack_bitmap;
  let writable_after := Transmitter_availableForWrite t in
  Some (rushed,
        (if writable_before <? writable_after then [has_space] else [])
        ++ (if negb (Transmitter_hasPendingData t) then [all_acked] else []), t).

Definition ThreadSafeTransmitter_updateRecvHimark (t : Transmitter) (control_bit : bool)
    (recv_himark : Z) : option (list Condition * Transmitter) :=
  '(updated, t) ← Transmitter_updateRecvHimark t control_bit recv_himark;
  Some (if (updated : bool) then [has_space] else [], t).

(** ** ThreadSafeReceiver *)

Definition ThreadSafeReceiver_checkConnectionStatus (r : Receiver) (my_stream_id : Z) : Status :=
  if negb (my_stream_id =? rx_my_stream_id r) then kConnectionError
  else if decide (rx_state r = RkIdle) then kConnectionError
  else if rx_end_of_stream r then kEndOfStream
  else kOk.

(** One round of the loop of [read]. *)
Definition ThreadSafeReceiver_read_round (r : Receiver) (count my_stream_id : Z)
    : option (Blocking (list byte * Status) * bool * Receiver) :=
  '(total_read, outgoing_data_ready, r) ← Receiver_tryRead r count;
  match total_read with
  | _ :: _ => Some (Returned (total_read, kOk), outgoing_data_ready, r)
  | [] =>
      match ThreadSafeReceiver_checkConnectionStatus r my_stream_id with
      | kOk => Some (Blocked has_data, outgoing_data_ready, r)
      | status => Some (Returned ([], status), outgoing_data_ready, r)
      end
  end.

(** The status is the caller's when nothing is asked for. *)
Definition ThreadSafeReceiver_read (r : Receiver) (count my_stream_id : Z) (stream_status : Status)
    : option (Blocking (list byte * Status) * bool * Receiver) :=
  if count =? 0 then Some (Returned ([], stream_status), false, r)
  else match ThreadSafeReceiver_checkConnectionStatus r my_stream_id with
       | kOk => ThreadSafeReceiver_read_round r count my_stream_id
       | status => Some (Returned ([], status), false, r)
       end.

Definition ThreadSafeReceiver_tryRead (r : Receiver) (count my_stream_id : Z) (stream_status : Status)
    : option (list byte * Status * bool * Receiver) :=
  if count =? 0 then Some ([], stream_status, false, r)
  else match ThreadSafeReceiver_checkConnectionStatus r my_stream_id with
       | kOk => '(bytes, ready, r) ← Receiver_tryRead r count; Some (bytes, kOk, ready, r)
       | status => Some ([], status, false, r)
       end.

Definition ThreadSafeReceiver_peek (r : Receiver) (my_stream_id : Z) : option (Z * Status * Receiver) :=
  match ThreadSafeReceiver_checkConnectionStatus r my_stream_id with
  | kOk => '(x, r) ← Receiver_peek r; Some (x, kOk, r)
  | status => Some (-1, status, r)
  end.

Definition ThreadSafeReceiver_availableForRead (r : Receiver) (my_stream_id : Z)
    : option (Z * Status * Receiver) :=
  match ThreadSafeReceiver_checkConnectionStatus r my_stream_id with
  | kOk => '(n, r) ← Receiver_availableForRead r; Some (n, kOk, r)
  | status => Some (0, status, r)
  end.

Definition ThreadSafeReceiver_markInputClosed (r : Receiver) (my_stream_id : Z)
    : option (Status * bool * Receiver) :=
  match ThreadSafeReceiver_checkConnectionStatus r my_stream_id with
  | kOk => '(ready, r) ← Receiver_markInputClosed r false; Some (kOk, ready, r)
  | status => Some (status, false, r)
  end.

Definition ThreadSafeReceiver_setBroken (r : Receiver) : list Condition * Receiver :=
  ([has_data], Receiver_setBroken r).

Definition ThreadSafeReceiver_reset (r : Receiver) : option (list Condition * Receiver) :=
  r ← Receiver_reset r; Some ([has_data], r).

Definition ThreadSafeReceiver_init (r : Receiver) (my_stream_id : Z)
    : option (list Condition * Receiver) :=
  r ← Receiver_init r my_stream_id; Some ([has_data], r).

(** Returns whether there is an acknowledgment to send. *)
Definition ThreadSafeReceiver_handleDataPacket (r : Receiver) (control_bit : bool) (seq_id : Z)
    (payload : list byte) (len : Z) (is_final : bool)
    : option (bool * list Condition * Receiver) :=
  '(has_ack_to_send, has_new_data_to_read, r) ←
    Receiver_handleDataPacket r control_bit seq_id payload len is_final;
  Some (has_ack_to_send, if (has_new_data_to_read : bool) then [has_data] else [], r).

(** ** OutgoingDataReadyNotification

    The pending flag. [notify] wakes the sender only on the transition, and [await]
    returns whether it was set, within the timeout, and clears it. *)

Definition OutgoingDataReadyNotification_notify (has_data_to_send : bool) : bool * bool :=
  (true, negb has_data_to_send).

Definition OutgoingDataReadyNotification_await (has_data_to_send : bool) : bool * bool :=
  (false, has_data_to_send).

End Operations.
