(* ===== verification/SendLoop.v ===== *)
(** * SendLoop: the sender thread and its wake-up call

    [Channel::sendLoop] and [Channel::end] of link/internal/thread_safe/channel.cpp with
    [OutgoingDataReadyNotification], one atomic operation at a time: the flag, the mutex
    and the condition variable, any number of threads that notify, and a sender that may
    also be woken by its timer or for no reason. [sl_work] counts the things there
    are to do (data to send, an acknowledgment, the end), and [sl_seen] how many there were
    when the sender last began a round. *)

From S2P Require Import Prelude.

Local Open Scope Z_scope.

(** Where the sender is: not started by [Channel::begin], at the test of [active_], in [trySend], and in [await]: at the lock, at
    the test of the predicate (after a timeout or not), about to sleep, asleep, at the lock
    again, and at the end, with the lock still held. *)
Inductive sender_pc :=
  | SNotStarted
  | SLoop
  | STrySend
  | SLock
  | SCheck (timed_out : bool)
  | SWillSleep
  | SAsleep
  | SRelock (timed_out : bool)
  | SClear
  | SDone.

(** Where a thread in [notify] is: before the exchange, at the lock, before [notify_one]. *)
Inductive notifier_pc := NExchange | NLock | NNotify | NDone.

Inductive mutex_owner := Free | HeldBySender | HeldByNotifier (i : nat).

Record SendLoop := mkSendLoop {
  sl_sender : sender_pc;
  sl_notifiers : list notifier_pc;
  sl_mutex : mutex_owner;
  sl_has_data : bool;
  sl_active : bool;
  sl_work : Z;
  sl_seen : Z;
}.

(** Who takes a step. *)
Inductive actor := Sender | Notifier | Application | Timer.

Definition sl_at (p : sender_pc) (s : SendLoop) : SendLoop :=
  mkSendLoop p (sl_notifiers s) (sl_mutex s) (sl_has_data s) (sl_active s) (sl_work s) (sl_seen s).

Definition sl_with_mutex (m : mutex_owner) (s : SendLoop) : SendLoop :=
  mkSendLoop (sl_sender s) (sl_notifiers s) m (sl_has_data s) (sl_active s) (sl_work s) (sl_seen s).

Definition sl_with_has_data (b : bool) (s : SendLoop) : SendLoop :=
  mkSendLoop (sl_sender s) (sl_notifiers s) (sl_mutex s) b (sl_active s) (sl_work s) (sl_seen s).

Definition sl_look (s : SendLoop) : SendLoop :=
  mkSendLoop (sl_sender s) (sl_notifiers s) (sl_mutex s) (sl_has_data s) (sl_active s) (sl_work s) (sl_work s).

Definition sl_notifier (i : nat) (p : notifier_pc) (s : SendLoop) : SendLoop :=
  mkSendLoop (sl_sender s) (<[i:=p]> (sl_notifiers s)) (sl_mutex s) (sl_has_data s) (sl_active s)
    (sl_work s) (sl_seen s).

(** Something to do, followed by a call of [notify]; [active] is cleared by [end]. *)
Definition sl_produce (active : bool) (s : SendLoop) : SendLoop :=
  mkSendLoop (sl_sender s) (sl_notifiers s ++ [NExchange]) (sl_mutex s) (sl_has_data s) active
    (sl_work s + 1) (sl_seen s).

(** [Channel::begin]. *)
Definition sl_start_thread (s : SendLoop) : SendLoop := sl_at SLoop s.

(** [notify_one]: the sender is the only thread that waits. *)
Definition sl_wake (p : sender_pc) : sender_pc :=
  match p with SAsleep => SRelock false | _ => p end.

Inductive sl_step : actor → SendLoop → SendLoop → Prop :=
  | sl_round s : sl_sender s = SLoop → sl_active s = true → sl_step Sender s (sl_look (sl_at STrySend s))
  | sl_stop s : sl_sender s = SLoop → sl_active s = false → sl_step Sender s (sl_at SDone s)
  | sl_again s : sl_sender s = STrySend → sl_step Sender s (sl_at SLoop s)
  | sl_await s : sl_sender s = STrySend → sl_step Sender s (sl_at SLock s)
  | sl_lock s : sl_sender s = SLock → sl_mutex s = Free →
      sl_step Sender s (sl_with_mutex HeldBySender (sl_at (SCheck false) s))
  | sl_ready s timed_out : sl_sender s = SCheck timed_out → sl_has_data s || timed_out = true →
      sl_step Sender s (sl_at SClear s)
  | sl_not_ready s : sl_sender s = SCheck false → sl_has_data s = false → sl_step Sender s (sl_at SWillSleep s)
  | sl_sleep s : sl_sender s = SWillSleep → sl_step Sender s (sl_with_mutex Free (sl_at SAsleep s))
  | sl_timeout s timed_out : sl_sender s = SAsleep → sl_step Timer s (sl_at (SRelock timed_out) s)
  | sl_relock s timed_out : sl_sender s = SRelock timed_out → sl_mutex s = Free →
      sl_step Sender s (sl_with_mutex HeldBySender (sl_at (SCheck timed_out) s))
  | sl_clear s : sl_sender s = SClear →
      sl_step Sender s (sl_with_mutex Free (sl_with_has_data false (sl_at SLoop s)))
  | sl_begin s : sl_sender s = SNotStarted → sl_step Application s (sl_start_thread s)
  | sl_new_work s : sl_step Application s (sl_produce (sl_active s) s)
  | sl_end s : sl_step Application s (sl_produce false s)
  | sl_exchange s i : sl_notifiers s !! i = Some NExchange →
      sl_step Notifier s (sl_with_has_data true (sl_notifier i (if sl_has_data s then NDone else NLock) s))
  | sl_notify_lock s i : sl_notifiers s !! i = Some NLock → sl_mutex s = Free →
      sl_step Notifier s (sl_with_mutex (HeldByNotifier i) (sl_notifier i NNotify s))
  | sl_notify_one s i : sl_notifiers s !! i = Some NNotify →
      sl_step Notifier s (sl_with_mutex Free (sl_notifier i NDone (sl_at (sl_wake (sl_sender s)) s))).

(** [Channel::end] returns: there is no thread to join, or it has ended. *)
Definition sl_joined (s : SendLoop) : bool :=
  match sl_sender s with SNotStarted | SDone => true | _ => false end.

Definition sl_init : SendLoop := mkSendLoop SNotStarted [] Free false true 0 0.

Inductive sl_reachable : SendLoop → Prop :=
  | sl_start : sl_reachable sl_init
  | sl_next a s s' : sl_reachable s → sl_step a s s' → sl_reachable s'.

(** ** The invariant *)

Definition holds_mutex (p : sender_pc) : bool :=
  match p with SCheck _ | SWillSleep | SClear => true | _ => false end.

(** The sender has begun a round and not yet decided to begin another. *)
Definition in_round (p : sender_pc) : bool :=
  match p with STrySend | SLock | SCheck _ | SWillSleep | SAsleep | SRelock _ => true | _ => false end.

Definition sleeps (p : sender_pc) : bool :=
  match p with SWillSleep | SAsleep => true | _ => false end.

Definition has_notifier (s : SendLoop) (p : notifier_pc) : Prop := ∃ i, sl_notifiers s !! i = Some p.

Record sl_inv (s : SendLoop) : Prop := {
  sv_sender : sl_mutex s = HeldBySender ↔ holds_mutex (sl_sender s) = true;
  sv_notifier : ∀ i, sl_mutex s = HeldByNotifier i ↔ sl_notifiers s !! i = Some NNotify;
  sv_pending : in_round (sl_sender s) = true → sl_seen s < sl_work s →
    sl_has_data s = true ∨ has_notifier s NExchange;
  sv_wake : sleeps (sl_sender s) = true → sl_has_data s = true →
    has_notifier s NLock ∨ has_notifier s NNotify;
  sv_end : in_round (sl_sender s) = true → sl_active s = false → sl_seen s < sl_work s;
  sv_seen : sl_seen s ≤ sl_work s;
}.

(** A notifier that moves leaves the others where they are. *)
Lemma has_notifier_move s i p q r :
  sl_notifiers s !! i = Some p → has_notifier s q → q ≠ p → has_notifier (sl_notifier i r s) q.
Proof.
  intros Hi [j Hj] Hne. exists j. cbn. rewrite list_lookup_insert_ne; [done|]. intros ->. congruence.
Qed.

Lemma has_notifier_new s i p r : sl_notifiers s !! i = Some p → has_notifier (sl_notifier i r s) r.
Proof. intros Hi. exists i. cbn. apply list_lookup_insert_eq. by eapply lookup_lt_Some. Qed.

(** Notifiers that move between other points do not hold the mutex. *)
Lemma notifier_lookup s i p q j :
  sl_notifiers s !! i = Some p →
  sl_notifiers (sl_notifier i q s) !! j = if decide (i = j) then Some q else sl_notifiers s !! j.
Proof.
  intros Hi. cbn. case_decide as Heq; [subst; apply list_lookup_insert_eq; by eapply lookup_lt_Some|].
  by apply list_lookup_insert_ne.
Qed.

(** Opens a state whose sender is at a known point, and closes what follows from the
    invariant by case analysis. *)
Ltac sl_cases s := destruct s as [pc ns m has active work seen]; cbn in *; subst.

Ltac sl_close :=
  constructor; cbn in *;
  [intuition congruence
  |let i := fresh "i" in intros i; repeat match goal with H : ∀ _ : nat, _ ↔ _ |- _ => specialize (H i) end;
   intuition congruence
  |try (intros; lia); intuition (congruence || eauto)
  |intuition (congruence || eauto)
  |intuition congruence
  |lia].

Lemma sl_sender_inv a s s' : sl_inv s → a = Sender ∨ a = Timer → sl_step a s s' → sl_inv s'.
Proof.
  intros [Hs Hn Hp Hw He Hse] Ha Hstep. destruct Hstep; destruct Ha; try discriminate; sl_cases s; by sl_close.
Qed.

Lemma sl_produce_inv active s : sl_inv s → sl_inv (sl_produce active s).
Proof.
  intros [Hs Hn Hp Hw He Hse]. assert (Hkeep : ∀ p, has_notifier s p → has_notifier (sl_produce active s) p).
  { intros p [i Hi]. exists i. cbn. rewrite lookup_app_l; [done|]. by eapply lookup_lt_Some. }
  constructor; cbn; [done| | | |lia|lia].
  - intros i. rewrite Hn. destruct (decide (i < length (sl_notifiers s))%nat).
    + by rewrite lookup_app_l.
    + rewrite lookup_app_r by lia. rewrite lookup_ge_None_2 by lia.
      destruct (i - length (sl_notifiers s))%nat as [|k]; cbn; [done|]. by destruct k.
  - intros _ _. right. exists (length (sl_notifiers s)). cbn. rewrite lookup_app_r by lia. by rewrite Nat.sub_diag.
  - intros Hsl Hd. destruct (Hw Hsl Hd); auto.
Qed.

Lemma sl_exchange_inv s i :
  sl_inv s → sl_notifiers s !! i = Some NExchange →
  sl_inv (sl_with_has_data true (sl_notifier i (if sl_has_data s then NDone else NLock) s)).
Proof.
  intros [Hs Hn Hp Hw He Hse] Hi. constructor; [done| |by left| |done|done].
  - intros j. change (sl_notifiers (sl_with_has_data true ?s)) with (sl_notifiers s). cbn [sl_mutex sl_with_has_data sl_notifier].
    rewrite Hn, (notifier_lookup _ _ _ _ j Hi). case_decide; [|done]. subst j. rewrite Hi. by destruct (sl_has_data s).
  - cbn [sl_sender sl_with_has_data sl_notifier sl_has_data]. intros Hsl _.
    change (has_notifier (sl_with_has_data true ?s)) with (has_notifier s). destruct (sl_has_data s) eqn:Hd.
    + destruct (Hw Hsl eq_refl) as [H|H]; [left|right]; by eapply has_notifier_move.
    + left. by eapply has_notifier_new.
Qed.

Lemma sl_notify_lock_inv s i :
  sl_inv s → sl_notifiers s !! i = Some NLock → sl_mutex s = Free →
  sl_inv (sl_with_mutex (HeldByNotifier i) (sl_notifier i NNotify s)).
Proof.
  intros [Hs Hn Hp Hw He Hse] Hi Hm. constructor; [| | | |done|done].
  - cbn. split; [done|]. intros Hh. apply Hs in Hh. congruence.
  - intros j. cbn [sl_mutex sl_with_mutex]. change (sl_notifiers (sl_with_mutex _ ?s)) with (sl_notifiers s).
    rewrite (notifier_lookup _ _ _ _ j Hi). case_decide; [by subst|]. rewrite <- Hn, Hm. split; congruence.
  - cbn. intros Hr Hlt. destruct (Hp Hr Hlt) as [?|H]; [by left|right].
    eapply (has_notifier_move s i); [done|done|done].
  - intros _ _. right. exact (has_notifier_new s i NLock NNotify Hi).
Qed.

Lemma sl_notify_one_inv s i :
  sl_inv s → sl_notifiers s !! i = Some NNotify →
  sl_inv (sl_with_mutex Free (sl_notifier i NDone (sl_at (sl_wake (sl_sender s)) s))).
Proof.
  intros [Hs Hn Hp Hw He Hse] Hi. assert (Hm : sl_mutex s = HeldByNotifier i) by (by apply Hn).
  assert (Hh : holds_mutex (sl_sender s) = false).
  { destruct (holds_mutex (sl_sender s)); [|done]. assert (sl_mutex s = HeldBySender) by (by apply Hs). congruence. }
  constructor; [| | | | |done].
  - cbn. split; [done|]. by destruct (sl_sender s).
  - intros j. cbn [sl_mutex sl_with_mutex]. change (sl_notifiers (sl_with_mutex _ ?s)) with (sl_notifiers s).
    rewrite (notifier_lookup (sl_at _ s) _ _ _ j Hi). case_decide; [done|]. cbn. rewrite <- Hn, Hm.
    split; congruence.
  - cbn [sl_sender sl_with_mutex sl_notifier sl_at sl_seen sl_work sl_has_data]. intros Hr Hlt.
    destruct Hp as [?|H]; [by destruct (sl_sender s)|done|by left|right].
    eapply (has_notifier_move (sl_at (sl_wake (sl_sender s)) s) i); [done|exact H|done].
  - cbn. by destruct (sl_sender s).
  - cbn. intros Hr. apply He. by destruct (sl_sender s).
Qed.

Lemma sl_begin_inv s : sl_inv s → sl_sender s = SNotStarted → sl_inv (sl_start_thread s).
Proof. intros [Hs Hn Hp Hw He Hse] Hst. sl_cases s. by sl_close. Qed.

Lemma sl_step_inv a s s' : sl_inv s → sl_step a s s' → sl_inv s'.
Proof.
  intros Hi Hstep. destruct a.
  - by eapply sl_sender_inv; [done|left|].
  - inversion Hstep; subst; auto using sl_exchange_inv, sl_notify_lock_inv, sl_notify_one_inv.
  - inversion Hstep; subst; auto using sl_produce_inv, sl_begin_inv.
  - by eapply sl_sender_inv; [done|right|].
Qed.

Lemma sl_reachable_inv s : sl_reachable s → sl_inv s.
Proof.
  induction 1; [|by eapply sl_step_inv]. by constructor.
Qed.

(** ** No wake-up is lost *)

(** Steps of the sender and of the threads that are in [notify]. *)
Definition sl_moves (s s' : SendLoop) : Prop := sl_step Sender s s' ∨ sl_step Notifier s s'.

(** The sender begins a round in which it sees all there is to do, or has ended. *)
Definition sl_served (s : SendLoop) : Prop :=
  sl_sender s = STrySend ∧ sl_seen s = sl_work s ∧ sl_active s = true ∨ sl_sender s = SDone.

Lemma sl_woken s :
  sl_inv s → sl_sender s = SAsleep → sl_has_data s = true →
  ∃ s', rtc sl_moves s s' ∧ sl_sender s' = SRelock false ∧ sl_mutex s' = Free
        ∧ sl_has_data s' = true ∧ sl_work s' = sl_work s ∧ sl_active s' = sl_active s.
Proof.
  intros Hi Hs Hd. assert (Hone : ∀ s1 i, sl_sender s1 = SAsleep → sl_has_data s1 = true → sl_work s1 = sl_work s →
    sl_active s1 = sl_active s → sl_notifiers s1 !! i = Some NNotify → rtc sl_moves s s1 →
    ∃ s', rtc sl_moves s s' ∧ sl_sender s' = SRelock false ∧ sl_mutex s' = Free
          ∧ sl_has_data s' = true ∧ sl_work s' = sl_work s ∧ sl_active s' = sl_active s).
  { intros s1 i Hs1 Hd1 Hw1 Ha1 Hn1 Hr1. eexists. split; [eapply rtc_r; [done|]; right; by eapply sl_notify_one|].
    cbn. rewrite Hs1. auto. }
  destruct (sv_wake _ Hi) as [[i Hl]|[i Hn]]; [by rewrite Hs|done| |by eapply (Hone s i)].
  destruct (sl_mutex s) as [| |j] eqn:Hm.
  - eapply (Hone (sl_with_mutex (HeldByNotifier i) (sl_notifier i NNotify s)) i); [done|done|done|done| |].
    + cbn. apply list_lookup_insert_eq. by eapply lookup_lt_Some.
    + apply rtc_once. right. by apply sl_notify_lock.
  - apply (sv_sender _ Hi) in Hm. by rewrite Hs in Hm.
  - apply (sv_notifier _ Hi) in Hm. by eapply (Hone s j).
Qed.

(** The sender runs to its next round. *)
Lemma sl_next_round s :
  sl_sender s = SRelock false → sl_mutex s = Free → sl_has_data s = true →
  ∃ s', rtc sl_moves s s' ∧ sl_work s' = sl_work s ∧ sl_active s' = sl_active s ∧ sl_served s'.
Proof.
  intros Hs Hm Hd. sl_cases s. unfold sl_served.
  assert (Hto : rtc sl_moves (mkSendLoop (SRelock false) ns Free true active work seen)
                  (mkSendLoop SLoop ns Free false active work seen)).
  { eapply rtc_l; [left; by eapply sl_relock|]. eapply rtc_l; [left; by eapply sl_ready|].
    apply rtc_once. left. by apply (sl_clear (mkSendLoop SClear ns HeldBySender true active work seen)). }
  destruct active.
  - eexists. split; [eapply rtc_r; [exact Hto|]; left; by apply sl_round|]. cbn. auto 10.
  - eexists. split; [eapply rtc_r; [exact Hto|]; left; by apply sl_stop|]. cbn. auto 10.
Qed.

(** From its sleep the sender is woken, if there is work it has not seen. *)
Lemma sl_wakes s :
  sl_inv s → sl_sender s = SAsleep → sl_seen s < sl_work s →
  ∃ s', rtc sl_moves s s' ∧ sl_work s' = sl_work s ∧ sl_active s' = sl_active s ∧ sl_served s'.
Proof.
  intros Hi Hasleep Hwork.
  assert (Hset : ∃ s1, rtc sl_moves s s1 ∧ sl_inv s1 ∧ sl_sender s1 = SAsleep ∧ sl_has_data s1 = true
                       ∧ sl_work s1 = sl_work s ∧ sl_active s1 = sl_active s).
  { destruct (sl_has_data s) eqn:Hd; [by exists s|].
    destruct (sv_pending _ Hi) as [?|[i Hx]]; [by rewrite Hasleep|done|congruence|].
    exists (sl_with_has_data true (sl_notifier i (if sl_has_data s then NDone else NLock) s)).
    split; [apply rtc_once; right; by apply sl_exchange|]. split; [by apply sl_exchange_inv|done]. }
  destruct Hset as (s1 & Hr1 & Hi1 & Hs1 & Hd1 & Hw1 & Ha1).
  destruct (sl_woken s1 Hi1 Hs1 Hd1) as (s2 & Hr2 & Hs2 & Hm2 & Hd2 & Hw2 & Ha2).
  destruct (sl_next_round s2 Hs2 Hm2 Hd2) as (s3 & Hr3 & Hw3 & Ha3 & Hserved).
  exists s3. split; [by do 2 (etrans; [done|])|]. split; [congruence|]. split; [congruence|done].
Qed.

Lemma sl_moves_inv s s' : sl_inv s → rtc sl_moves s s' → sl_inv s' ∧ sl_active s' = sl_active s.
Proof.
  intros Hi Hr. induction Hr as [|s s1 s' Hm _ IH]; [done|].
  assert (Hi1 : sl_inv s1) by (destruct Hm; by eapply sl_step_inv).
  assert (Ha1 : sl_active s1 = sl_active s) by (destruct Hm as [Hm|Hm]; inversion Hm; subst; done).
  destruct (IH Hi1) as [? ?]. split; [done|congruence].
Qed.

(** Who holds the mutex lets go of it, and the sender stays where it waits for it. *)
Lemma sl_frees s :
  sl_inv s → holds_mutex (sl_sender s) = false → sl_sender s ≠ SAsleep →
  ∃ s', rtc sl_moves s s' ∧ sl_mutex s' = Free ∧ sl_sender s' = sl_sender s.
Proof.
  intros Hi Hh Hne. destruct (sl_mutex s) as [| |i] eqn:Hm; [by exists s|apply (sv_sender _ Hi) in Hm; congruence|].
  apply (sv_notifier _ Hi) in Hm. eexists. split; [apply rtc_once; right; by apply (sl_notify_one s i)|].
  split; [done|]. cbn. by destruct (sl_sender s).
Qed.

(** The threads that are under way bring the sender to its end. *)
Definition sl_joins (s : SendLoop) : Prop := ∃ s', rtc sl_moves s s' ∧ sl_joined s' = true.

Lemma sl_joins_rtc s s1 : rtc sl_moves s s1 → sl_joins s1 → sl_joins s.
Proof. intros Hr (s' & Hr' & Hj). exists s'. split; [by etrans|done]. Qed.

(** Once [active_] is false, from a point of the sender, and from one a step before. *)
Definition sl_ends (pc : sender_pc) : Prop :=
  ∀ s, sl_inv s → sl_active s = false → sl_sender s = pc → sl_joins s.

Lemma sl_ends_before pc s s1 :
  sl_ends pc → sl_inv s → sl_active s = false → sl_step Sender s s1 → sl_sender s1 = pc → sl_joins s.
Proof.
  intros Hpc Hi Ha Hstep Hs1. assert (Hr : rtc sl_moves s s1) by (apply rtc_once; by left).
  destruct (sl_moves_inv _ _ Hi Hr) as [Hi1 Ha1]. apply (sl_joins_rtc _ _ Hr), Hpc; congruence.
Qed.

Lemma sl_ends_loop : sl_ends SLoop.
Proof. intros s _ Ha Hs. eexists. split; [apply rtc_once; left; by apply sl_stop|done]. Qed.

Lemma sl_ends_clear : sl_ends SClear.
Proof. intros s Hi Ha Hs. eapply (sl_ends_before _ _ _ sl_ends_loop); [done|done|by apply sl_clear|done]. Qed.

Lemma sl_ends_asleep : sl_ends SAsleep.
Proof.
  intros s Hi Ha Hs. destruct (sl_wakes s Hi Hs) as (s' & Hr & _ & Ha' & Hserved).
  { apply (sv_end _ Hi); [by rewrite Hs|done]. }
  exists s'. split; [done|]. destruct Hserved as [(_ & _ & ?)|Hd]; [congruence|]. unfold sl_joined. by rewrite Hd.
Qed.

Lemma sl_ends_check b : sl_ends (SCheck b).
Proof.
  intros s Hi Ha Hs. destruct (sl_has_data s || b) eqn:Hd.
  - eapply (sl_ends_before _ _ _ sl_ends_clear); [done|done|by eapply sl_ready|done].
  - apply orb_false_iff in Hd as [Hd ->].
    assert (Hsleep : sl_ends SWillSleep).
    { intros s1 Hi1 Ha1 Hs1. eapply (sl_ends_before _ _ _ sl_ends_asleep); [done|done|by apply sl_sleep|done]. }
    eapply (sl_ends_before _ _ _ Hsleep); [done|done|by apply sl_not_ready|done].
Qed.

(** At the mutex, which a thread in [notify] may hold. *)
Lemma sl_ends_mutex pc b :
  holds_mutex pc = false → pc ≠ SAsleep →
  (∀ s, sl_sender s = pc → sl_mutex s = Free → sl_step Sender s (sl_with_mutex HeldBySender (sl_at (SCheck b) s))) →
  sl_ends pc.
Proof.
  intros Hh Hne Hstep s Hi Ha Hs. destruct (sl_frees s Hi) as (s1 & Hr & Hm & Hs1); [by rewrite Hs|by rewrite Hs|].
  destruct (sl_moves_inv _ _ Hi Hr) as [Hi1 Ha1]. apply (sl_joins_rtc _ _ Hr).
  eapply (sl_ends_before _ _ _ (sl_ends_check b)); [done|congruence|apply Hstep; congruence|done].
Qed.

Lemma sl_ends_all pc : sl_ends pc.
Proof.
  assert (Hlock : sl_ends SLock) by (apply (sl_ends_mutex _ false); [done..|apply sl_lock]).
  destruct pc as [| | | |b| | |b| |]; auto using sl_ends_loop, sl_ends_clear, sl_ends_asleep, sl_ends_check.
  - intros s _ _ Hs. exists s. split; [done|]. unfold sl_joined. by rewrite Hs.
  - intros s Hi Ha Hs. eapply (sl_ends_before _ _ _ Hlock); [done|done|by apply sl_await|done].
  - intros s Hi Ha Hs. eapply (sl_ends_before _ _ _ sl_ends_asleep); [done|done|by apply sl_sleep|done].
  - apply (sl_ends_mutex _ b); [done..|intros; by apply sl_relock].
  - intros s _ _ Hs. exists s. split; [done|]. unfold sl_joined. by rewrite Hs.
Qed.

(** C28: no wake-up is lost, and end() returns. Whatever the interleaving of the sender with
    any number of threads that produce work and notify, timers and spurious wake-ups
    included: if the sender sleeps while there is work it has not seen, then the threads
    that are already in [notify] will wake it, without the timer and without any further
    call, and it begins a round that sees all the work, or ends. And from every state after
    end() was called, before or after begin(), wherever the sender is, it and those threads
    get to the point where end() has nothing left to wait for. *)
Theorem SendLoop_no_lost_wakeup (s : SendLoop) (Hreach : sl_reachable s) :
  (sl_sender s = SAsleep → sl_seen s < sl_work s →
   ∃ s', rtc sl_moves s s' ∧ sl_work s' = sl_work s ∧ sl_served s')
  ∧ (sl_active s = false → ∃ s', rtc sl_moves s s' ∧ sl_joined s' = true).
Proof.
  apply sl_reachable_inv in Hreach as Hi. split.
  - intros Hs Hw. destruct (sl_wakes s Hi Hs Hw) as (s' & Hr & Hw' & _ & Hserved). by exists s'.
  - intros Ha. by apply (sl_ends_all (sl_sender s)).
Qed.

(** ** Witness *)

(** The sender has gone to sleep; then there is something to send. *)
Lemma SendLoop_no_lost_wakeup_witness :
  ∃ s s', sl_reachable s ∧ sl_sender s = SAsleep ∧ rtc sl_moves s s' ∧ sl_served s'.
Proof.
  set (s := mkSendLoop SAsleep [NExchange] Free false true 1 0).
  assert (Hr : sl_reachable s).
  { apply (sl_next Application (mkSendLoop SAsleep [] Free false true 0 0)); [|by apply sl_new_work].
    apply (sl_next Sender (mkSendLoop SWillSleep [] HeldBySender false true 0 0)); [|by apply sl_sleep].
    apply (sl_next Sender (mkSendLoop (SCheck false) [] HeldBySender false true 0 0)); [|by apply sl_not_ready].
    apply (sl_next Sender (mkSendLoop SLock [] Free false true 0 0)); [|by apply sl_lock].
    apply (sl_next Sender (mkSendLoop STrySend [] Free false true 0 0)); [|by apply sl_await].
    apply (sl_next Sender (sl_at SLoop sl_init)); [|by apply sl_round].
    apply (sl_next Application sl_init); [constructor|by apply sl_begin]. }
  destruct (SendLoop_no_lost_wakeup s Hr) as [Hwake _].
  destruct (Hwake eq_refl ltac:(cbn; lia)) as (s' & Hm & _ & Hs).
  exists s, s'. auto.
Defined.
