(* ===== verification/Channel.v ===== *)
(** * Channel: the handshake and the packet switch

    [link/internal/thread_safe/channel.h] and [channel.cpp]. A channel owns a
    transmitter, a receiver and the state of the handshake, guarded by one mutex.
    Each operation runs in a small monad over that state: it can abort ([None]), and
    it emits the packets it sends, the condition variables it notifies and the calls
    of the disconnect callback, in order. Callbacks are identified by a number.
    [trySend] composes its locked sections in the order of the code. *)

From S2P Require Import Prelude.
From S2P Require Import SeqNum.
From S2P Require Import RingBuffer.
From S2P Require Import RooIo.
From S2P Require Import Protocol.
From S2P Require Import RetryBackoff.
From S2P Require Import Buffers.
From S2P Require Import Transmitter.
From S2P Require Import Receiver.
From S2P Require Import ThreadSafe.

Local Open Scope Z_scope.
Local Open Scope roo_scope.

(** [PacketSender::kMaxPacketSize]. *)
Definition kMaxPacketSize : Z := 250.

Inductive LinkStatus := kIdle | kConnecting | kConnected | kBroken.

#[export] Instance LinkStatus_eq_dec : EqDecision LinkStatus.
Proof. solve_decision. Defined.

(** What an operation does to the outside: sends a packet, wakes waiting threads,
    wakes the sender thread, calls the disconnect callback. *)
Inductive Effect :=
  | Send (packet : list byte)
  | Notify (c : Condition)
  | NotifySender
  | Disconnected (fn : Z).

Record Channel := mkChannel {
  ch_transmitter : Transmitter;
  ch_receiver : Receiver;
  ch_my_stream_id : Z;
  ch_my_stream_id_acked_by_peer : bool;
  ch_peer_stream_id : Z;
  ch_needs_handshake_ack : bool;
  ch_successive_handshake_retries : Z;
  ch_next_scheduled_handshake_update : Z;
  ch_disconnect_fn : option Z;
  ch_has_data_to_send : bool;
}.

Definition ch_with_transmitter (v : Transmitter) (c : Channel) : Channel :=
  mkChannel v (ch_receiver c) (ch_my_stream_id c) (ch_my_stream_id_acked_by_peer c)
    (ch_peer_stream_id c) (ch_needs_handshake_ack c) (ch_successive_handshake_retries c)
    (ch_next_scheduled_handshake_update c) (ch_disconnect_fn c) (ch_has_data_to_send c).
Definition ch_with_receiver (v : Receiver) (c : Channel) : Channel :=
  mkChannel (ch_transmitter c) v (ch_my_stream_id c) (ch_my_stream_id_acked_by_peer c)
    (ch_peer_stream_id c) (ch_needs_handshake_ack c) (ch_successive_handshake_retries c)
    (ch_next_scheduled_handshake_update c) (ch_disconnect_fn c) (ch_has_data_to_send c).
Definition ch_with_my_stream_id (v : Z) (c : Channel) : Channel :=
  mkChannel (ch_transmitter c) (ch_receiver c) v (ch_my_stream_id_acked_by_peer c)
    (ch_peer_stream_id c) (ch_needs_handshake_ack c) (ch_successive_handshake_retries c)
    (ch_next_scheduled_handshake_update c) (ch_disconnect_fn c) (ch_has_data_to_send c).
Definition ch_with_my_stream_id_acked_by_peer (v : bool) (c : Channel) : Channel :=
  mkChannel (ch_transmitter c) (ch_receiver c) (ch_my_stream_id c) v (ch_peer_stream_id c)
    (ch_needs_handshake_ack c) (ch_successive_handshake_retries c)
    (ch_next_scheduled_handshake_update c) (ch_disconnect_fn c) (ch_has_data_to_send c).
Definition ch_with_peer_stream_id (v : Z) (c : Channel) : Channel :=
  mkChannel (ch_transmitter c) (ch_receiver c) (ch_my_stream_id c)
    (ch_my_stream_id_acked_by_peer c) v (ch_needs_handshake_ack c)
    (ch_successive_handshake_retries c) (ch_next_scheduled_handshake_update c)
    (ch_disconnect_fn c) (ch_has_data_to_send c).
Definition ch_with_needs_handshake_ack (v : bool) (c : Channel) : Channel :=
  mkChannel (ch_transmitter c) (ch_receiver c) (ch_my_stream_id c)
    (ch_my_stream_id_acked_by_peer c) (ch_peer_stream_id c) v
    (ch_successive_handshake_retries c) (ch_next_scheduled_handshake_update c)
    (ch_disconnect_fn c) (ch_has_data_to_send c).
Definition ch_with_successive_handshake_retries (v : Z) (c : Channel) : Channel :=
  mkChannel (ch_transmitter c) (ch_receiver c) (ch_my_stream_id c)
    (ch_my_stream_id_acked_by_peer c) (ch_peer_stream_id c) (ch_needs_handshake_ack c) v
    (ch_next_scheduled_handshake_update c) (ch_disconnect_fn c) (ch_has_data_to_send c).
Definition ch_with_next_scheduled_handshake_update (v : Z) (c : Channel) : Channel :=
  mkChannel (ch_transmitter c) (ch_receiver c) (ch_my_stream_id c)
    (ch_my_stream_id_acked_by_peer c) (ch_peer_stream_id c) (ch_needs_handshake_ack c)
    (ch_successive_handshake_retries c) v (ch_disconnect_fn c) (ch_has_data_to_send c).
Definition ch_with_disconnect_fn (v : option Z) (c : Channel) : Channel :=
  mkChannel (ch_transmitter c) (ch_receiver c) (ch_my_stream_id c)
    (ch_my_stream_id_acked_by_peer c) (ch_peer_stream_id c) (ch_needs_handshake_ack c)
    (ch_successive_handshake_retries c) (ch_next_scheduled_handshake_update c) v
    (ch_has_data_to_send c).
Definition ch_with_has_data_to_send (v : bool) (c : Channel) : Channel :=
  mkChannel (ch_transmitter c) (ch_receiver c) (ch_my_stream_id c)
    (ch_my_stream_id_acked_by_peer c) (ch_peer_stream_id c) (ch_needs_handshake_ack c)
    (ch_successive_handshake_retries c) (ch_next_scheduled_handshake_update c)
    (ch_disconnect_fn c) v.

(** ** The monad *)

Definition ChM (A : Type) : Type := Channel → option (A * list Effect * Channel).

Section Monad.

Definition ch_ret {A} (a : A) : ChM A := λ c, Some (a, [], c).

Definition ch_bind {A B} (m : ChM A) (k : A → ChM B) : ChM B := λ c,
  '(a, es, c) ← m c;
  '(b, es', c) ← k a c;
  Some (b, es ++ es', c).

Definition ch_gets {A} (f : Channel → A) : ChM A := λ c, Some (f c, [], c).
Definition ch_modify (f : Channel → Channel) : ChM unit := λ c, Some (tt, [], f c).
Definition ch_emit (es : list Effect) : ChM unit := λ c, Some (tt, es, c).
Definition ch_check (b : bool) : ChM unit := λ c, CHECK b ;; Some (tt, [], c).

(** Runs an operation of the transmitter or of the receiver. *)
Definition ch_on_transmitter {A} (f : Transmitter → option (A * list Condition * Transmitter)) : ChM A :=
  λ c, '(a, cs, t) ← f (ch_transmitter c); Some (a, Notify <$> (cs : list Condition), ch_with_transmitter t c).

Definition ch_on_receiver {A} (f : Receiver → option (A * list Condition * Receiver)) : ChM A :=
  λ c, '(a, cs, r) ← f (ch_receiver c); Some (a, Notify <$> (cs : list Condition), ch_with_receiver r c).

Definition ch_when (b : bool) (m : ChM unit) : ChM unit := if b then m else ch_ret tt.

End Monad.

Notation "x <~ m ;; k" := (ch_bind m (λ x, k))
  (at level 20, m at level 99, k at level 200, only parsing) : roo_scope.
Notation "' x <~ m ;; k" := (ch_bind m (λ x : _, k))
  (at level 20, x pattern, m at level 99, k at level 200, only parsing) : roo_scope.
Notation "m ;;; k" := (ch_bind m (λ _, k))
  (at level 100, k at level 200, right associativity) : roo_scope.

(** Adapts a method that returns nothing. *)
Definition unit_result {S} (x : option (list Condition * S)) : option (unit * list Condition * S) :=
  '(cs, s) ← x; Some (tt, cs, s).

Definition no_conditions {A S} (x : option (A * S)) : option (A * list Condition * S) :=
  '(a, s) ← x; Some (a, [], s).

Section Operations.

Context {io : RooIo} {pf : Platform}.

Definition ValidateBufferSizes (sendbuf recvbuf : Z) : option Z :=
  CHECK (u32 sendbuf <=? kMaxLinkBufferSizeLog2) ;;
  CHECK (u32 recvbuf <=? kMaxLinkBufferSizeLog2) ;;
  CHECK (u32 sendbuf <=? u32 recvbuf) ;;
  Some (u32 sendbuf).

Definition Channel_Backoff (retry_count draw : Z) : option Z :=
  RetryBackoffMicros RANDOM_INTEGER_MAX 1000 1000000 retry_count draw.

(** The memories are the uninitialised contents of the buffers and members. *)
Definition Channel_new (sendbuf recvbuf : Z) (out_memory in_memory : list byte) (garbage_id : Z)
    (garbage_bit : bool) : option Channel :=
  sendbuf ← ValidateBufferSizes sendbuf recvbuf;
  t ← Transmitter_new sendbuf out_memory garbage_id;
  r ← Receiver_new (u32 recvbuf) in_memory garbage_bit;
  Some (mkChannel t r 0 false 0 false 0 Uptime_Start None false).

Definition Channel_my_control_bit (c : Channel) : bool := ch_peer_stream_id c <? ch_my_stream_id c.

(** [outgoing_data_ready_.notify()] *)
Definition Channel_notify : ChM unit :=
  pending <~ ch_gets ch_has_data_to_send ;;
  let '(flag, wake) := OutgoingDataReadyNotification_notify pending in
  ch_modify (ch_with_has_data_to_send flag) ;;;
  ch_when wake (ch_emit [NotifySender]).

(** *** The application's side *)

(** Up to the wait; [Channel_write_round] is what follows a wake-up. *)
Definition Channel_write (buf : list byte) (my_stream_id : Z) : ChM (Blocking (Z * Status)) :=
  '(result, ready) <~ ch_on_transmitter (λ t, no_conditions (ThreadSafeTransmitter_write t buf my_stream_id)) ;;
  ch_when ready Channel_notify ;;;
  ch_ret result.

Definition Channel_write_round (buf : list byte) (my_stream_id : Z) : ChM (Blocking (Z * Status)) :=
  '(result, ready) <~ ch_on_transmitter (λ t, no_conditions (ThreadSafeTransmitter_write_round t buf my_stream_id)) ;;
  ch_when ready Channel_notify ;;;
  ch_ret result.

Definition Channel_tryWrite (buf : list byte) (my_stream_id : Z) : ChM (Z * Status) :=
  '(result, ready) <~ ch_on_transmitter (λ t, no_conditions (ThreadSafeTransmitter_tryWrite t buf my_stream_id)) ;;
  ch_when ready Channel_notify ;;;
  ch_ret result.

Definition Channel_read (count my_stream_id : Z) (stream_status : Status)
    : ChM (Blocking (list byte * Status)) :=
  '(result, ready) <~ ch_on_receiver (λ r, no_conditions (ThreadSafeReceiver_read r count my_stream_id stream_status)) ;;
  ch_when ready Channel_notify ;;;
  ch_ret result.

Definition Channel_tryRead (count my_stream_id : Z) (stream_status : Status)
    : ChM (list byte * Status) :=
  '(result, ready) <~ ch_on_receiver (λ r, no_conditions (ThreadSafeReceiver_tryRead r count my_stream_id stream_status)) ;;
  ch_when ready Channel_notify ;;;
  ch_ret result.

Definition Channel_peek (my_stream_id : Z) : ChM (Z * Status) :=
  ch_on_receiver (λ r, no_conditions (ThreadSafeReceiver_peek r my_stream_id)).

Definition Channel_availableForRead (my_stream_id : Z) : ChM (Z * Status) :=
  ch_on_receiver (λ r, no_conditions (ThreadSafeReceiver_availableForRead r my_stream_id)).

Definition Channel_flush (my_stream_id : Z) : ChM Status :=
  '(status, ready) <~ ch_on_transmitter (λ t, no_conditions (ThreadSafeTransmitter_flush t my_stream_id)) ;;
  ch_when ready Channel_notify ;;;
  ch_ret status.

(** [close] notifies the sender only when the transmitter's [close] has returned. *)
Definition Channel_close (my_stream_id : Z) : ChM (Blocking Status) :=
  '(status, ready) <~ ch_on_transmitter (λ t, no_conditions (ThreadSafeTransmitter_close t my_stream_id)) ;;
  match status with
  | Returned _ => ch_when ready Channel_notify ;;; ch_ret status
  | Blocked _ => ch_ret status
  end.

Definition Channel_closeInput (my_stream_id : Z) : ChM Status :=
  '(status, ready) <~ ch_on_receiver (λ r, no_conditions (ThreadSafeReceiver_markInputClosed r my_stream_id)) ;;
  ch_when ready Channel_notify ;;;
  ch_ret status.

Definition Channel_availableForWrite (my_stream_id : Z) : ChM (Z * Status) :=
  ch_gets (λ c, ThreadSafeTransmitter_availableForWrite (ch_transmitter c) my_stream_id).

(** [while (my_stream_id_ == 0) my_stream_id_ = RANDOM_INTEGER();] over a sequence of
    draws; [None] if they are all zero. *)
Fixpoint draw_stream_id (draws : list Z) : option Z :=
  match draws with
  | [] => None
  | d :: draws => if d =? 0 then draw_stream_id draws else Some d
  end.

Definition call_disconnect_fn (fn : option Z) : ChM unit :=
  match fn with Some f => ch_emit [Disconnected f] | None => ch_ret tt end.

(** [id_draws] and [start_draw] are what the random generator returns. *)
Definition Channel_connect (disconnect_fn : option Z) (id_draws : list Z) (start_draw : Z) : ChM Z :=
  old_disconnect_fn <~ ch_gets ch_disconnect_fn ;;
  ch_modify (ch_with_disconnect_fn disconnect_fn) ;;;
  ch_modify (ch_with_my_stream_id_acked_by_peer false) ;;;
  ch_modify (ch_with_peer_stream_id 0) ;;;
  (λ c, id ← draw_stream_id id_draws; Some (tt, [], ch_with_my_stream_id id c)) ;;;
  my_stream_id <~ ch_gets ch_my_stream_id ;;
  ch_on_transmitter (λ t, unit_result
    (ThreadSafeTransmitter_init t my_stream_id (SeqNum_make (start_draw mod 0x0FFF)))) ;;;
  ch_on_receiver (λ r, unit_result (ThreadSafeReceiver_init r my_stream_id)) ;;;
  ch_modify (ch_with_needs_handshake_ack false) ;;;
  ch_modify (ch_with_successive_handshake_retries 0) ;;;
  ch_modify (ch_with_next_scheduled_handshake_update Uptime_Start) ;;;
  ch_emit [Notify connected_cv] ;;;
  Channel_notify ;;;
  call_disconnect_fn old_disconnect_fn ;;;
  ch_ret my_stream_id.

Definition Channel_disconnect (my_stream_id : Z) : ChM unit :=
  id <~ ch_gets ch_my_stream_id ;;
  if negb (id =? my_stream_id) then ch_ret tt
  else
    ch_modify (ch_with_my_stream_id 0) ;;;
    ch_modify (ch_with_my_stream_id_acked_by_peer false) ;;;
    ch_modify (ch_with_peer_stream_id 0) ;;;
    ch_on_transmitter (λ t, unit_result (ThreadSafeTransmitter_reset t)) ;;;
    ch_on_receiver (λ r, unit_result (ThreadSafeReceiver_reset r)) ;;;
    ch_emit [Notify connected_cv] ;;;
    disconnect_fn <~ ch_gets ch_disconnect_fn ;;
    ch_modify (ch_with_disconnect_fn None) ;;;
    Channel_notify ;;;
    call_disconnect_fn disconnect_fn.

Definition Channel_getLinkStatusInternal (c : Channel) (stream_id : Z) : LinkStatus :=
  if stream_id =? 0 then kIdle
  else if negb (ch_my_stream_id c =? stream_id) then kBroken
  else if (ch_peer_stream_id c =? 0) || negb (ch_my_stream_id_acked_by_peer c)
  then kConnecting else kConnected.

(** [awaitConnected]: the test before each wait. *)
Definition Channel_awaitConnected (stream_id : Z) : ChM (Blocking unit) :=
  status <~ ch_gets (λ c, Channel_getLinkStatusInternal c stream_id) ;;
  ch_ret (if decide (status = kConnecting) then Blocked connected_cv else Returned tt).

(** *** The sender thread's side *)

(** The packet of [conn]. *)
Definition Channel_handshake_packet (c : Channel) (we_need_ack : bool) : list byte :=
  StoreBeU16 (FormatPacketHeader (Transmitter_front (ch_transmitter c)) kHandshakePacket false)
  ++ StoreBeU32 (ch_my_stream_id c)
  ++ StoreBeU32 (ch_peer_stream_id c)
  ++ StoreU8 (Z.lor (if we_need_ack then 0x80 else 0x00) (rb_log2 (rx_in_ring (ch_receiver c)))).

(** Returns the packet, empty if there is none, and [next_send_micros]. *)
Definition Channel_conn (now draw next_send_micros : Z) : ChM (list byte * Z) :=
  transmitter_state <~ ch_gets (λ c, tx_state (ch_transmitter c)) ;;
  needs_handshake_ack <~ ch_gets ch_needs_handshake_ack ;;
  next_update <~ ch_gets ch_next_scheduled_handshake_update ;;
  match transmitter_state with
  | TkIdle | TkBroken => ch_ret ([], next_send_micros)
  | TkConnected =>
      if negb needs_handshake_ack then ch_ret ([], next_send_micros)
      else
        ch_modify (ch_with_needs_handshake_ack false) ;;;
        packet <~ ch_gets (λ c, Channel_handshake_packet c false) ;;
        ch_ret (packet, Z.min next_send_micros LONG_MAX)
  | TkConnecting =>
      if now <? next_update then ch_ret ([], Z.min next_send_micros (to_long (next_update - now)))
      else
        retries <~ ch_gets ch_successive_handshake_retries ;;
        delay <~ (λ c, d ← Channel_Backoff retries draw; Some (d, [], c)) ;;
        ch_modify (ch_with_successive_handshake_retries (u32 (retries + 1))) ;;;
        ch_modify (ch_with_next_scheduled_handshake_update (now + delay)) ;;;
        ch_modify (ch_with_needs_handshake_ack false) ;;;
        packet <~ ch_gets (λ c, Channel_handshake_packet c true) ;;
        ch_ret (packet, Z.min next_send_micros delay)
  end.

Definition send_packet (packet : list byte) : ChM unit :=
  match packet with [] => ch_ret tt | _ => ch_emit [Send packet] end.

(** The burst of data packets. [env k] is the clock and the random draw of the k-th
    packet. *)
Fixpoint Channel_burst (n : nat) (env : nat → Z * Z) (next_send_micros : Z) : ChM Z :=
  match n with
  | O => ch_ret next_send_micros
  | S n =>
      '(packet, next_send_micros) <~ ch_on_transmitter (λ t,
        no_conditions (ThreadSafeTransmitter_send t (env 0%nat).1 (env 0%nat).2 next_send_micros)) ;;
      match packet with
      | [] => ch_ret next_send_micros
      | _ => ch_emit [Send packet] ;;; Channel_burst n (λ k, env (S k)) next_send_micros
      end
  end.

Definition kMaxDataPacketsPerBurst : nat := 8.

(** [now] and [draw] are what [conn] reads, [now'] what [updateRecvHimark] reads. *)
Definition Channel_trySend (now draw now' : Z) (env : nat → Z * Z) : ChM Z :=
  '(packet, next_send_micros) <~ Channel_conn now draw LONG_MAX ;;
  send_packet packet ;;;
  state <~ ch_gets (λ c, tx_state (ch_transmitter c)) ;;
  if decide (state = TkConnecting) then ch_ret next_send_micros
  else
    packet <~ ch_on_receiver (λ r, no_conditions (Receiver_ack r)) ;;
    send_packet packet ;;;
    '(packet, next_send_micros) <~ ch_on_receiver (λ r,
      no_conditions (Some (Receiver_updateRecvHimark r now' next_send_micros))) ;;
    send_packet packet ;;;
    Channel_burst kMaxDataPacketsPerBurst env next_send_micros.

(** *** The receiving thread's side *)

(** [receiver_.setBroken(); transmitter_.setBroken(); my_stream_id_ = 0;], when the
    peer has our stream id. *)
Definition Channel_abort : ChM unit :=
  ch_on_receiver (λ r, unit_result (Some (ThreadSafeReceiver_setBroken r))) ;;;
  ch_on_transmitter (λ t, unit_result (ThreadSafeTransmitter_setBroken t)) ;;;
  ch_modify (ch_with_my_stream_id 0) ;;;
  ch_emit [Notify connected_cv].

Definition take_disconnect_fn : ChM (option Z) :=
  fn <~ ch_gets ch_disconnect_fn ;;
  ch_modify (ch_with_disconnect_fn None) ;;;
  ch_ret fn.

(** [handleHandshakePacket], while the receiver is connecting. Returns
    [outgoing_data_ready] and the callback to call. *)
Definition Channel_handshake_connecting (peer_seq_num peer_stream_id ack_stream_id : Z)
    (want_ack : bool) (peer_receive_buffer_size : Z) : ChM (bool * option Z) :=
  my_id <~ ch_gets ch_my_stream_id ;;
  if negb (ack_stream_id =? 0) && negb (ack_stream_id =? my_id) then ch_ret (false, None)
  else if peer_stream_id =? my_id then
    fn <~ take_disconnect_fn ;;
    Channel_abort ;;;
    ch_ret (false, fn)
  else
    ch_modify (ch_with_peer_stream_id peer_stream_id) ;;;
    empty <~ ch_gets (λ c, Receiver_empty (ch_receiver c)) ;;
    ch_check empty ;;;
    bit <~ ch_gets Channel_my_control_bit ;;
    ch_on_receiver (λ r, r ← Receiver_setConnected r (SeqNum_make peer_seq_num) bit; Some (tt, [], r)) ;;;
    ch_when (ack_stream_id =? my_id)
      (ch_modify (ch_with_my_stream_id_acked_by_peer true) ;;;
       ch_on_transmitter (λ t, Some (tt, [], Transmitter_setConnected peer_receive_buffer_size bit t))) ;;;
    ch_modify (ch_with_needs_handshake_ack want_ack) ;;;
    ch_emit [Notify connected_cv] ;;;
    ch_ret (true, None).

(** The peer opened a new stream while the receiver was connected to the old one. *)
Definition Channel_peer_reset : ChM (option Z) :=
  fn <~ take_disconnect_fn ;;
  done <~ ch_gets (λ c, Receiver_done (ch_receiver c)) ;;
  state <~ ch_gets (λ c, tx_state (ch_transmitter c)) ;;
  (if negb done then
     (if decide (state = TkConnected)
      then ch_on_transmitter (λ t, unit_result (ThreadSafeTransmitter_setBroken t))
      else ch_on_transmitter (λ t, unit_result (ThreadSafeTransmitter_reset t))) ;;;
     ch_modify (ch_with_my_stream_id 0) ;;;
     ch_emit [Notify connected_cv] ;;;
     ch_on_receiver (λ r, unit_result (Some (ThreadSafeReceiver_setBroken r)))
   else
     ch_on_transmitter (λ t, unit_result (ThreadSafeTransmitter_reset t)) ;;;
     ch_modify (ch_with_my_stream_id 0) ;;;
     ch_on_receiver (λ r, unit_result (ThreadSafeReceiver_reset r)) ;;;
     ch_emit [Notify connected_cv]) ;;;
  ch_ret fn.

(** [handleHandshakePacket], while the receiver is connected. *)
Definition Channel_handshake_connected (peer_stream_id ack_stream_id : Z) (want_ack : bool)
    (peer_receive_buffer_size : Z) : ChM (bool * option Z) :=
  peer_id <~ ch_gets ch_peer_stream_id ;;
  if want_ack && negb (peer_id =? peer_stream_id) && (ack_stream_id =? 0) then
    fn <~ Channel_peer_reset ;; ch_ret (false, fn)
  else
    my_id <~ ch_gets ch_my_stream_id ;;
    acked <~ ch_gets ch_my_stream_id_acked_by_peer ;;
    bit <~ ch_gets Channel_my_control_bit ;;
    let accept := (ack_stream_id =? my_id) && negb acked in
    ch_when accept
      (ch_check (negb (my_id =? 0)) ;;;
       ch_modify (ch_with_my_stream_id_acked_by_peer true) ;;;
       ch_on_transmitter (λ t, Some (tt, [], Transmitter_setConnected peer_receive_buffer_size bit t)) ;;;
       ch_emit [Notify connected_cv]) ;;;
    ch_modify (ch_with_needs_handshake_ack want_ack) ;;;
    ch_ret (accept, None).

(** Returns [outgoing_data_ready]. *)
Definition Channel_handleHandshakePacket (peer_seq_num peer_stream_id ack_stream_id : Z)
    (want_ack : bool) (peer_receive_buffer_size : Z) : ChM bool :=
  my_id <~ ch_gets ch_my_stream_id ;;
  front <~ ch_gets (λ c, Transmitter_front (ch_transmitter c)) ;;
  if (peer_stream_id =? my_id) && (peer_seq_num =? SeqNum_raw front) then ch_ret false
  else
    state <~ ch_gets (λ c, rx_state (ch_receiver c)) ;;
    '(outgoing_data_ready, disconnect_fn) <~
      match state with
      | RkConnecting => Channel_handshake_connecting peer_seq_num peer_stream_id ack_stream_id
                          want_ack peer_receive_buffer_size
      | RkConnected => Channel_handshake_connected peer_stream_id ack_stream_id want_ack
                         peer_receive_buffer_size
      | RkIdle | RkBroken => ch_ret (false, None)
      end ;;
    call_disconnect_fn disconnect_fn ;;;
    ch_ret outgoing_data_ready.

(** [buf + from], [n] bytes of the packet. *)
Definition field (buf : list byte) (from n : nat) : list byte := take n (drop from buf).

Definition Channel_packetReceived (buf : list byte) : ChM unit :=
  let len := Z.of_nat (length buf) in
  if (len <? 2) || (kMaxPacketSize <? len) then ch_ret tt
  else
    let header := LoadBeU16 (field buf 0 2) in
    let control_bit := GetPacketControlBit header in
    let seq := Z.land header 0x0FFF in
    match GetPacketType header with
    | kDataAckPacket =>
        ready <~ ch_on_transmitter (λ t, ThreadSafeTransmitter_ack t control_bit seq (drop 2 buf)) ;;
        ch_when ready Channel_notify
    | kFlowControlPacket =>
        if negb (len =? 2) then ch_ret tt
        else ch_on_transmitter (λ t, unit_result
               (ThreadSafeTransmitter_updateRecvHimark t control_bit seq))
    | kHandshakePacket =>
        if negb (len =? 11) then ch_ret tt
        else
          let peer_stream_id := LoadBeU32 (field buf 2 4) in
          let ack_stream_id := LoadBeU32 (field buf 6 4) in
          let last_byte := LoadU8 (field buf 10 1) in
          if negb (Z.land last_byte 0x70 =? 0) then ch_ret tt
          else
            let want_ack := negb (Z.land last_byte 0x80 =? 0) in
            let log2 := Z.land last_byte 0x0F in
            if kMaxLinkBufferSizeLog2 <? log2 then ch_ret tt
            else
              ready <~ Channel_handleHandshakePacket seq peer_stream_id ack_stream_id want_ack
                         (u16 (Z.shiftl 1 log2)) ;;
              ch_when ready Channel_notify
    | kDataPacket =>
        if len =? 2 then ch_ret tt
        else
          ready <~ ch_on_receiver (λ r,
            ThreadSafeReceiver_handleDataPacket r control_bit seq (drop 2 buf) (len - 2) false) ;;
          ch_when ready Channel_notify
    | kFinPacket =>
        ready <~ ch_on_receiver (λ r,
          ThreadSafeReceiver_handleDataPacket r control_bit seq (drop 2 buf) (len - 2) true) ;;
        ch_when ready Channel_notify
    | kUnnamedPacket _ => ch_ret tt
    end.

End Operations.
