(* ===== verification/ChannelCorrect.v ===== *)
(** * ChannelCorrect: what a channel promises

    The disconnect callback runs exactly once, foreign and malformed packets are
    ignored, stale streams get an error, and the three-way handshake connects two
    channels with matching windows and opposite control bits. *)

From S2P Require Import Prelude.
From S2P Require Import SeqNum.
From S2P Require Import RingBuffer.
From S2P Require Import RooIo.
From S2P Require Import Protocol.
From S2P Require Import RetryBackoff.
From S2P Require Import Buffers.
From S2P Require Import Transmitter.
From S2P Require Import TransmitterSpec.
From S2P Require Import TransmitterProofs.
From S2P Require Import TransmitterCorrect.
From S2P Require Import Receiver.
From S2P Require Import ReceiverProofs.
From S2P Require Import ReceiverCorrect.
From S2P Require Import ThreadSafe.
From S2P Require Import Channel.

Local Open Scope Z_scope.
Local Open Scope roo_scope.

(** ** The disconnect callback *)

Definition callbacks (es : list Effect) : list Z :=
  concat ((λ e, match e with Disconnected f => [f] | _ => [] end) <$> es).

Definition pending_callback (c : Channel) : list Z :=
  match ch_disconnect_fn c with Some f => [f] | None => [] end.

(** [m] calls what it takes off the channel: with [installed] the callbacks it
    installs, those called and then those pending are those pending before and then
    those installed. *)
Definition accounts {A} (installed : list Z) (m : ChM A) : Prop :=
  ∀ c a es c', m c = Some (a, es, c') →
  callbacks es ++ pending_callback c' = pending_callback c ++ installed.

(** [m] neither calls nor changes the callback. *)
Definition silent {A} (m : ChM A) : Prop :=
  ∀ c a es c', m c = Some (a, es, c') → callbacks es = [] ∧ ch_disconnect_fn c' = ch_disconnect_fn c.

Lemma callbacks_app es es' : callbacks (es ++ es') = callbacks es ++ callbacks es'.
Proof. unfold callbacks. by rewrite fmap_app, concat_app. Qed.

Lemma callbacks_notify cs : callbacks (Notify <$> cs) = [].
Proof. unfold callbacks. apply concat_all_nil. rewrite <- list_fmap_compose. by apply Forall_fmap, Forall_true. Qed.

Lemma silent_accounts {A} (m : ChM A) : silent m → accounts [] m.
Proof.
  intros Hs c a es c' Hm. destruct (Hs _ _ _ _ Hm) as [-> He].
  unfold pending_callback. by rewrite He, app_nil_r.
Qed.

Lemma ch_bind_inv {A B} (m : ChM A) (k : A → ChM B) c b es c' :
  ch_bind m k c = Some (b, es, c') →
  ∃ a es1 c1 es2, m c = Some (a, es1, c1) ∧ k a c1 = Some (b, es2, c') ∧ es = es1 ++ es2.
Proof.
  unfold ch_bind. intros H. destruct (m c) as [[[a es1] c1]|] eqn:Hm; [|done]. cbn in H.
  destruct (k a c1) as [[[b2 es2] c2]|] eqn:Hk; [|done]. cbn in H. injection H as <- <- <-.
  by exists a, es1, c1, es2.
Qed.

Section Silence.

Lemma silent_bind {A B} (m : ChM A) (k : A → ChM B) :
  silent m → (∀ a, silent (k a)) → silent (ch_bind m k).
Proof.
  intros Hm Hk c b es c' (a & es1 & c1 & es2 & H1 & H2 & ->)%ch_bind_inv.
  destruct (Hm _ _ _ _ H1) as [E1 F1]. destruct (Hk _ _ _ _ _ H2) as [E2 F2].
  rewrite callbacks_app, E1, E2. split; [done|congruence].
Qed.

Lemma silent_ret {A} (a : A) : silent (ch_ret a).
Proof. by intros c b es c' [= <- <- <-]. Qed.

Lemma silent_gets {A} (f : Channel → A) : silent (ch_gets f).
Proof. by intros c b es c' [= <- <- <-]. Qed.

Lemma silent_modify f : (∀ c, ch_disconnect_fn (f c) = ch_disconnect_fn c) → silent (ch_modify f).
Proof. intros Hf c b es c' [= <- <- <-]. by rewrite Hf. Qed.

Lemma silent_emit es : callbacks es = [] → silent (ch_emit es).
Proof. by intros He c b es' c' [= <- <- <-]. Qed.

Lemma silent_check b : silent (ch_check b).
Proof. intros c a es c' H. unfold ch_check in H. destruct b; [|done]. by injection H as <- <- <-. Qed.

Lemma silent_lift {A} (x : option A) (f : A → Channel → Channel) :
  (∀ a c, ch_disconnect_fn (f a c) = ch_disconnect_fn c) →
  silent (λ c, a ← x; Some (tt, [], f a c)).
Proof. intros Hf c b es c' H. destruct x; [|done]. cbn in H. injection H as <- <- <-. by rewrite Hf. Qed.

Lemma silent_lift_value {A} (x : option A) : silent (λ c, a ← x; Some (a, [], c)).
Proof. intros c b es c' H. destruct x; [|done]. cbn in H. by injection H as <- <- <-. Qed.

Lemma silent_on_transmitter {A} (f : Transmitter → option (A * list Condition * Transmitter)) :
  silent (ch_on_transmitter f).
Proof.
  intros c b es c' H. unfold ch_on_transmitter in H.
  destruct (f _) as [[[a cs] t]|]; [|done]. cbn in H. injection H as <- <- <-.
  by rewrite callbacks_notify.
Qed.

Lemma silent_on_receiver {A} (f : Receiver → option (A * list Condition * Receiver)) :
  silent (ch_on_receiver f).
Proof.
  intros c b es c' H. unfold ch_on_receiver in H.
  destruct (f _) as [[[a cs] t]|]; [|done]. cbn in H. injection H as <- <- <-.
  by rewrite callbacks_notify.
Qed.

Lemma silent_when b m : silent m → silent (ch_when b m).
Proof. intros. destruct b; [done|apply silent_ret]. Qed.

End Silence.

#[export] Hint Resolve silent_bind silent_ret silent_gets silent_modify silent_emit silent_check
  silent_lift silent_lift_value silent_on_transmitter silent_on_receiver silent_when : roo.

(** Goes through a computation and its branches. *)
Ltac silence :=
  repeat (intros; first
    [ done
    | match goal with
      | |- silent (ch_bind _ _) => apply silent_bind
      | |- silent (ch_when _ _) => apply silent_when
      | |- silent (match ?x with _ => _ end) => destruct x
      | |- silent (let '(_, _) := ?x in _) => destruct x
      | |- silent _ => progress eauto with roo
      end ]).

(** [m] keeps the stream and its callback, or takes the callback off the channel. *)
Definition parts {A} (m : ChM A) : Prop :=
  ∀ c a es c', m c = Some (a, es, c') →
  ch_my_stream_id c' = ch_my_stream_id c ∧ ch_disconnect_fn c' = ch_disconnect_fn c
  ∨ ch_disconnect_fn c' = None.

Lemma parts_bind {A B} (m : ChM A) (k : A → ChM B) :
  parts m → (∀ a, parts (k a)) → parts (ch_bind m k).
Proof.
  intros Hm Hk c b es c' (a & es1 & c1 & es2 & H1 & H2 & ->)%ch_bind_inv.
  destruct (Hm _ _ _ _ H1) as [[? ?]|?], (Hk _ _ _ _ _ H2) as [[? ?]|?]; auto;
    [left|right]; split || idtac; congruence.
Qed.

Lemma parts_take {A} (k : option Z → ChM A) :
  (∀ fn, silent (k fn)) → parts (ch_bind take_disconnect_fn k).
Proof.
  intros Hk c b es c' (a & es1 & c1 & es2 & H1 & H2 & ->)%ch_bind_inv.
  injection H1 as <- <- <-. destruct (Hk _ _ _ _ _ H2) as [_ ->]. by right.
Qed.

Lemma parts_ret {A} (a : A) : parts (ch_ret a).
Proof. intros c b es c' [= <- <- <-]. auto. Qed.

Lemma parts_gets {A} (f : Channel → A) : parts (ch_gets f).
Proof. intros c b es c' [= <- <- <-]. auto. Qed.

Lemma parts_modify f :
  (∀ c, ch_my_stream_id (f c) = ch_my_stream_id c) →
  (∀ c, ch_disconnect_fn (f c) = ch_disconnect_fn c) → parts (ch_modify f).
Proof. intros Hi Hf c b es c' [= <- <- <-]. rewrite Hi, Hf. auto. Qed.

Lemma parts_emit es : parts (ch_emit es).
Proof. intros c b es' c' [= <- <- <-]. auto. Qed.

Lemma parts_check b : parts (ch_check b).
Proof. intros c a es c' H. unfold ch_check in H. destruct b; [|done]. injection H as <- <- <-. auto. Qed.

Lemma parts_lift_value {A} (x : option A) : parts (λ c, a ← x; Some (a, [], c)).
Proof. intros c b es c' H. destruct x; [|done]. cbn in H. injection H as <- <- <-. auto. Qed.

Lemma parts_on_transmitter {A} (f : Transmitter → option (A * list Condition * Transmitter)) :
  parts (ch_on_transmitter f).
Proof.
  intros c b es c' H. unfold ch_on_transmitter in H.
  destruct (f _) as [[[a cs] t]|]; [|done]. cbn in H. injection H as <- <- <-. auto.
Qed.

Lemma parts_on_receiver {A} (f : Receiver → option (A * list Condition * Receiver)) :
  parts (ch_on_receiver f).
Proof.
  intros c b es c' H. unfold ch_on_receiver in H.
  destruct (f _) as [[[a cs] t]|]; [|done]. cbn in H. injection H as <- <- <-. auto.
Qed.

#[export] Hint Resolve parts_ret parts_gets parts_modify parts_emit parts_check parts_lift_value
  parts_on_transmitter parts_on_receiver : roo.

(** The same for [parts]. *)
Ltac part :=
  repeat (intros; first
    [ done
    | match goal with
      | |- parts (ch_bind take_disconnect_fn _) => apply parts_take
      | |- parts (ch_bind _ _) => apply parts_bind
      | |- parts (ch_when _ _) => unfold ch_when
      | |- parts (call_disconnect_fn _) => unfold call_disconnect_fn
      | |- parts (match ?x with _ => _ end) => destruct x
      | |- parts (let '(_, _) := ?x in _) => destruct x
      | |- parts _ => progress eauto with roo
      end ]).

Section Callbacks.

Context {io : RooIo} {pf : Platform}.

Lemma silent_notify : silent Channel_notify.
Proof. unfold Channel_notify. silence. Qed.

#[local] Hint Resolve silent_notify : roo.

Lemma silent_trySend now draw now' env : silent (Channel_trySend now draw now' env).
Proof.
  assert (Hb : ∀ n env next, silent (Channel_burst n env next)).
  { induction n; intros; cbn [Channel_burst]; silence. }
  assert (Hp : ∀ p, silent (send_packet p)) by (intros []; cbn; silence).
  unfold Channel_trySend, Channel_conn. silence.
Qed.

Lemma accounts_bind_l {A B} I (m : ChM A) (k : A → ChM B) :
  silent m → (∀ a, accounts I (k a)) → accounts I (ch_bind m k).
Proof.
  intros Hm Hk c b es c' (a & es1 & c1 & es2 & H1 & H2 & ->)%ch_bind_inv.
  destruct (Hm _ _ _ _ H1) as [E1 F1]. specialize (Hk _ _ _ _ _ H2).
  rewrite callbacks_app, E1. cbn. rewrite Hk. unfold pending_callback. by rewrite F1.
Qed.

(** [m] takes callbacks off the channel and hands them on in its result. *)
Definition hands_on {A} (held : A → option Z) (m : ChM A) : Prop :=
  ∀ c a es c', m c = Some (a, es, c') →
  callbacks es = [] ∧ option_list (held a) ++ pending_callback c' = pending_callback c.

Lemma hands_on_silent {A} (held : A → option Z) (m : ChM A) :
  silent m → (∀ c a es c', m c = Some (a, es, c') → held a = None) → hands_on held m.
Proof.
  intros Hs Hn c a es c' Hm. destruct (Hs _ _ _ _ Hm) as [-> He]. split; [done|].
  rewrite (Hn _ _ _ _ Hm). unfold pending_callback. by rewrite He.
Qed.

Lemma hands_on_bind_l {A B} (held : B → option Z) (m : ChM A) (k : A → ChM B) :
  silent m → (∀ a, hands_on held (k a)) → hands_on held (ch_bind m k).
Proof.
  intros Hm Hk c b es c' (a & es1 & c1 & es2 & H1 & H2 & ->)%ch_bind_inv.
  destruct (Hm _ _ _ _ H1) as [E1 F1]. destruct (Hk _ _ _ _ _ H2) as [E2 F2].
  rewrite callbacks_app, E1, E2. split; [done|]. rewrite F2. unfold pending_callback. by rewrite F1.
Qed.

Lemma hands_on_ret {A} (held : A → option Z) (a : A) : held a = None → hands_on held (ch_ret a).
Proof. intros Hn. apply hands_on_silent; [apply silent_ret|]. by intros c b es c' [= <- <- <-]. Qed.

(** Taking the callback, then anything silent that passes it on. *)
Lemma hands_on_take {A} (held : A → option Z) (k : option Z → ChM A) :
  (∀ fn, silent (k fn)) → (∀ fn c a es c', k fn c = Some (a, es, c') → held a = fn) →
  hands_on held (ch_bind take_disconnect_fn k).
Proof.
  intros Hk Hh c b es c' (a & es1 & c1 & es2 & H1 & H2 & ->)%ch_bind_inv.
  unfold take_disconnect_fn in H1. cbn in H1. injection H1 as <- <- <-.
  destruct (Hk _ _ _ _ _ H2) as [E2 F2]. rewrite callbacks_app, E2. split; [done|].
  rewrite (Hh _ _ _ _ _ H2). unfold pending_callback. rewrite F2. cbn.
  by destruct (ch_disconnect_fn c).
Qed.

(** A computation that ends with [ch_ret (f ...)] returns it. *)
Lemma ch_ret_value {A B} (m : ChM A) (b : B) c r es c' :
  ch_bind m (λ _, ch_ret b) c = Some (r, es, c') → r = b.
Proof. intros (a & es1 & c1 & es2 & _ & H2 & _)%ch_bind_inv. by injection H2 as <-. Qed.

Lemma accounts_call {A} (held : A → option Z) (m : ChM A) {B} (k : A → ChM B) :
  hands_on held m → (∀ a, silent (k a)) →
  accounts [] (ch_bind m (λ a, ch_bind (call_disconnect_fn (held a)) (λ _, k a))).
Proof.
  intros Hm Hk c b es c' (a & es1 & c1 & es2 & H1 & (u & es3 & c2 & es4 & H3 & H4 & ->)%ch_bind_inv & ->)%ch_bind_inv.
  destruct (Hm _ _ _ _ H1) as [E1 F1]. destruct (Hk _ _ _ _ _ H4) as [E4 F4].
  rewrite !callbacks_app, E1, E4. cbn. rewrite app_nil_r, <- F1.
  unfold call_disconnect_fn in H3. destruct (held a) as [f|]; injection H3 as <- <- <-; cbn;
    unfold pending_callback; by rewrite F4, app_nil_r.
Qed.

Lemma hands_on_peer_reset : hands_on id Channel_peer_reset.
Proof.
  unfold Channel_peer_reset. apply hands_on_take; [intros; silence|].
  intros fn c a es c' (d & es1 & c1 & es2 & _ & H2 & _)%ch_bind_inv.
  apply ch_bind_inv in H2 as (st & es3 & c3 & es4 & _ & H3 & _). by apply ch_ret_value in H3 as ->.
Qed.

Lemma hands_on_handshake_connected peer_id ack_id want_ack size :
  hands_on snd (Channel_handshake_connected peer_id ack_id want_ack size).
Proof.
  unfold Channel_handshake_connected. apply hands_on_bind_l; [silence|]. intros p.
  destruct (_ && _).
  - intros c a es c' (fn & es1 & c1 & es2 & H1 & H2 & ->)%ch_bind_inv.
    injection H2 as <- <- <-. destruct (hands_on_peer_reset _ _ _ _ H1) as [E F].
    by rewrite app_nil_r.
  - do 3 (apply hands_on_bind_l; [silence|intros ?]). cbv zeta.
    apply hands_on_bind_l; [silence|intros ?]. apply hands_on_bind_l; [silence|intros ?].
    by apply hands_on_ret.
Qed.

Lemma hands_on_handshake_connecting seq peer_id ack_id want_ack size :
  hands_on snd (Channel_handshake_connecting seq peer_id ack_id want_ack size).
Proof.
  unfold Channel_handshake_connecting. apply hands_on_bind_l; [silence|]. intros my_id.
  destruct (_ && _); [by apply hands_on_ret|]. destruct (_ =? _).
  - apply hands_on_take; [intros; unfold Channel_abort; silence|].
    intros fn c a es c' H. by apply ch_ret_value in H as ->.
  - repeat (apply hands_on_bind_l; [silence|intros ?]). by apply hands_on_ret.
Qed.

Lemma accounts_handshake seq peer_id ack_id want_ack size :
  accounts [] (Channel_handleHandshakePacket seq peer_id ack_id want_ack size).
Proof.
  unfold Channel_handleHandshakePacket.
  do 2 (apply accounts_bind_l; [silence|intros ?]). destruct (_ && _).
  { apply silent_accounts. silence. }
  apply accounts_bind_l; [silence|intros st].
  match goal with |- accounts [] (ch_bind ?x _) => set (m := x) end.
  assert (Hm : hands_on snd m).
  { unfold m. destruct st; auto using hands_on_handshake_connected, hands_on_handshake_connecting;
      by apply hands_on_ret. }
  clearbody m. intros c b es c' H.
  eapply (accounts_call snd m (λ a, ch_ret a.1) Hm); [silence|].
  rewrite <- H. unfold ch_bind. destruct (m c) as [[[[r fn] es1] c1]|]; reflexivity.
Qed.

Lemma accounts_packetReceived buf : accounts [] (Channel_packetReceived buf).
Proof.
  unfold Channel_packetReceived. cbv zeta.
  destruct (_ || _); [apply silent_accounts; silence|].
  destruct (GetPacketType _); try solve [apply silent_accounts; silence].
  do 3 (match goal with |- accounts _ (if ?b then _ else _) => destruct b end;
        [apply silent_accounts; silence|]).
  intros c b es c' (ready & es1 & c1 & es2 & H1 & H2 & ->)%ch_bind_inv.
  specialize (accounts_handshake _ _ _ _ _ _ _ _ _ H1) as Ha.
  assert (Hs : silent (ch_when ready Channel_notify)) by silence.
  destruct (Hs _ _ _ _ H2) as [E2 F2]. rewrite callbacks_app, E2, app_nil_r, <- Ha.
  unfold pending_callback. by rewrite F2.
Qed.

(** [m] calls [old] and nothing else. *)
Definition calls {A} (old : option Z) (m : ChM A) : Prop :=
  ∀ c a es c', m c = Some (a, es, c') →
  callbacks es = option_list old ∧ ch_disconnect_fn c' = ch_disconnect_fn c.

Lemma calls_bind_l {A B} old (m : ChM A) (k : A → ChM B) :
  silent m → (∀ a, calls old (k a)) → calls old (ch_bind m k).
Proof.
  intros Hm Hk c b es c' (a & es1 & c1 & es2 & H1 & H2 & ->)%ch_bind_inv.
  destruct (Hm _ _ _ _ H1) as [E1 F1]. destruct (Hk _ _ _ _ _ H2) as [E2 F2].
  rewrite callbacks_app, E1. split; [done|congruence].
Qed.

Lemma calls_call {B} old (b : B) : calls old (ch_bind (call_disconnect_fn old) (λ _, ch_ret b)).
Proof.
  intros c r es c' (u & es1 & c1 & es2 & H1 & H2 & ->)%ch_bind_inv. injection H2 as <- <- <-.
  destruct old; injection H1 as <- <- <-; done.
Qed.

Lemma accounts_connect fn draws start :
  accounts (option_list fn) (Channel_connect fn draws start).
Proof.
  unfold Channel_connect.
  intros c b es c' (old & es1 & c1 & es2 & H1 & H2 & ->)%ch_bind_inv. injection H1 as <- <- <-.
  apply ch_bind_inv in H2 as (u & es3 & c2 & es4 & H3 & H4 & ->). injection H3 as <- <- <-.
  match type of H4 with ?m _ = _ => assert (Hc : calls (ch_disconnect_fn c) m) end.
  { do 11 (apply calls_bind_l; [silence|intros ?]). apply calls_call. }
  destruct (Hc _ _ _ _ H4) as [E F]. cbn [app]. rewrite E. unfold pending_callback. rewrite F. cbn.
  by destruct (ch_disconnect_fn c), fn.
Qed.

Lemma accounts_disconnect id : accounts [] (Channel_disconnect id).
Proof.
  unfold Channel_disconnect. apply accounts_bind_l; [silence|intros my_id].
  destruct (negb _); [apply silent_accounts; silence|].
  do 6 (apply accounts_bind_l; [silence|intros ?]).
  intros c b es c' (old & es1 & c1 & es2 & H1 & H2 & ->)%ch_bind_inv. injection H1 as <- <- <-.
  apply ch_bind_inv in H2 as (u & es3 & c2 & es4 & H3 & H4 & ->). injection H3 as <- <- <-.
  apply ch_bind_inv in H4 as (u & es5 & c3 & es6 & H5 & H6 & ->).
  destruct (silent_notify _ _ _ _ H5) as [E5 F5]. rewrite !callbacks_app, E5. cbn.
  unfold call_disconnect_fn in H6. unfold pending_callback.
  destruct (ch_disconnect_fn c); injection H6 as <- <- <-; by rewrite F5.
Qed.

Lemma parts_notify : parts Channel_notify.
Proof. unfold Channel_notify. part. Qed.

#[local] Hint Resolve parts_notify : roo.

Lemma parts_packetReceived buf : parts (Channel_packetReceived buf).
Proof.
  assert (Hr : parts Channel_peer_reset)
    by (unfold Channel_peer_reset; apply parts_take; intros; silence).
  unfold Channel_packetReceived, Channel_handleHandshakePacket, Channel_handshake_connecting,
    Channel_handshake_connected.
  cbv zeta. part. unfold Channel_abort. silence.
Qed.

Lemma parts_trySend now draw now' env : parts (Channel_trySend now draw now' env).
Proof.
  assert (Hb : ∀ n env next, parts (Channel_burst n env next)).
  { induction n; intros; cbn [Channel_burst]; part. }
  assert (Hp : ∀ p, parts (send_packet p)) by (intros []; cbn; part).
  unfold Channel_trySend, Channel_conn. part.
Qed.

(** A connect leaves the channel with the callback it was given. *)
Lemma connect_installs fn draws start c a es c' :
  Channel_connect fn draws start c = Some (a, es, c') → ch_disconnect_fn c' = fn.
Proof.
  unfold Channel_connect.
  intros (old & es1 & c1 & es2 & H1 & H2 & ->)%ch_bind_inv. injection H1 as <- <- <-.
  apply ch_bind_inv in H2 as (u & es3 & c2 & es4 & H3 & H4 & ->). injection H3 as <- <- <-.
  match type of H4 with ?m _ = _ => assert (Hc : calls (ch_disconnect_fn c) m) end.
  { do 11 (apply calls_bind_l; [silence|intros ?]). apply calls_call. }
  by destruct (Hc _ _ _ _ H4) as [_ ->].
Qed.

(** A disconnect of the channel's own stream leaves none. *)
Lemma disconnect_uninstalls c a es c' :
  Channel_disconnect (ch_my_stream_id c) c = Some (a, es, c') → ch_disconnect_fn c' = None.
Proof.
  unfold Channel_disconnect. intros (id & es1 & c1 & es2 & H1 & H & ->)%ch_bind_inv.
  injection H1 as <- <- <-. rewrite Z.eqb_refl in H. cbn [negb] in H.
  do 7 (apply ch_bind_inv in H as (? & ? & ? & ? & _ & H & _)).
  apply ch_bind_inv in H as (u & ? & c1 & ? & H1 & H & _). injection H1 as <- <- <-.
  match type of H with ?m _ = _ => assert (Hs : parts m) by part end.
  by destruct (Hs _ _ _ _ H) as [[_ ->]| ->].
Qed.

End Callbacks.

(** ** The transition system *)

Inductive ch_event :=
  | ChConnect (disconnect_fn : option Z) (id_draws : list Z) (start_draw : Z)
  | ChDisconnect (my_stream_id : Z)
  | ChPacketReceived (buf : list byte)
  | ChTrySend (now draw now' : Z) (env : nat → Z * Z)
  | ChWrite (buf : list byte) (my_stream_id : Z)
  | ChWriteRound (buf : list byte) (my_stream_id : Z)
  | ChTryWrite (buf : list byte) (my_stream_id : Z)
  | ChRead (count my_stream_id : Z) (stream_status : Status)
  | ChTryRead (count my_stream_id : Z) (stream_status : Status)
  | ChPeek (my_stream_id : Z)
  | ChAvailableForRead (my_stream_id : Z)
  | ChFlush (my_stream_id : Z)
  | ChClose (my_stream_id : Z)
  | ChCloseInput (my_stream_id : Z).

Section System.

Context {io : RooIo} {pf : Platform}.

(** Runs a computation for its effects. *)
Definition ch_effects {A} (m : ChM A) (c : Channel) : option (list Effect * Channel) :=
  '(_, es, c) ← m c; Some (es, c).

Definition ch_exec (c : Channel) (e : ch_event) : option (list Effect * Channel) :=
  match e with
  | ChConnect fn draws start => ch_effects (Channel_connect fn draws start) c
  | ChDisconnect id => ch_effects (Channel_disconnect id) c
  | ChPacketReceived buf => ch_effects (Channel_packetReceived buf) c
  | ChTrySend now draw now' env => ch_effects (Channel_trySend now draw now' env) c
  | ChWrite buf id => ch_effects (Channel_write buf id) c
  | ChWriteRound buf id => ch_effects (Channel_write_round buf id) c
  | ChTryWrite buf id => ch_effects (Channel_tryWrite buf id) c
  | ChRead count id st => ch_effects (Channel_read count id st) c
  | ChTryRead count id st => ch_effects (Channel_tryRead count id st) c
  | ChPeek id => ch_effects (Channel_peek id) c
  | ChAvailableForRead id => ch_effects (Channel_availableForRead id) c
  | ChFlush id => ch_effects (Channel_flush id) c
  | ChClose id => ch_effects (Channel_close id) c
  | ChCloseInput id => ch_effects (Channel_closeInput id) c
  end.

Definition ch_installs (e : ch_event) : list Z :=
  match e with ChConnect fn _ _ => option_list fn | _ => [] end.

Fixpoint ch_run (c : Channel) (evs : list ch_event) : option (list Effect * Channel) :=
  match evs with
  | [] => Some ([], c)
  | e :: evs =>
      '(es, c) ← ch_exec c e;
      '(es', c) ← ch_run c evs;
      Some (es ++ es', c)
  end.

Lemma ch_effects_accounts {A} I (m : ChM A) c es c' :
  accounts I m → ch_effects m c = Some (es, c') →
  callbacks es ++ pending_callback c' = pending_callback c ++ I.
Proof.
  unfold ch_effects. intros Ha H. destruct (m c) as [[[a es1] c1]|] eqn:Hm; [|done].
  cbn in H. injection H as <- <-. by eapply Ha.
Qed.

Lemma ch_exec_accounts c e es c' :
  ch_exec c e = Some (es, c') →
  callbacks es ++ pending_callback c' = pending_callback c ++ ch_installs e.
Proof.
  destruct e; cbn [ch_exec ch_installs]; apply ch_effects_accounts;
    auto using accounts_connect, accounts_disconnect, accounts_packetReceived;
    apply silent_accounts; auto using silent_trySend;
    unfold Channel_write, Channel_write_round, Channel_tryWrite, Channel_read, Channel_tryRead,
      Channel_peek, Channel_availableForRead, Channel_flush, Channel_close, Channel_closeInput;
    pose proof silent_notify; silence.
Qed.

(** The step takes the stream's link down: a connect replaces it, the application
    disconnects it, or the channel gives its id up ([getLinkStatusInternal] is broken
    or idle for every id that the channel no longer holds). *)
Definition takes_down (c : Channel) (e : ch_event) (c' : Channel) : Prop :=
  match e with
  | ChConnect _ _ _ => True
  | ChDisconnect id => id = ch_my_stream_id c
  | _ => ch_my_stream_id c' ≠ ch_my_stream_id c
  end.

Lemma ch_effects_inv {A} (m : ChM A) c es c' :
  ch_effects m c = Some (es, c') → ∃ a, m c = Some (a, es, c').
Proof.
  unfold ch_effects. destruct (m c) as [[[a es1] c1]|]; [|done]. cbn. intros [= <- <-]. eauto.
Qed.

Lemma ch_effects_parts {A} (m : ChM A) c es c' :
  parts m → ch_effects m c = Some (es, c') →
  ch_my_stream_id c' ≠ ch_my_stream_id c → pending_callback c' = [].
Proof.
  intros Hm [a H]%ch_effects_inv Hne. unfold pending_callback.
  by destruct (Hm _ _ _ _ H) as [[? _]| ->].
Qed.

(** What is left installed when the link has gone down. *)
Lemma takes_down_pending c e es c' :
  ch_exec c e = Some (es, c') → takes_down c e c' → pending_callback c' = ch_installs e.
Proof.
  destruct e; cbn [ch_exec ch_installs takes_down].
  - intros [a H]%ch_effects_inv _. unfold pending_callback.
    rewrite (connect_installs _ _ _ _ _ _ _ H). by destruct disconnect_fn.
  - intros [a H]%ch_effects_inv ->. unfold pending_callback.
    by rewrite (disconnect_uninstalls _ _ _ _ H).
  - apply ch_effects_parts, parts_packetReceived.
  - apply ch_effects_parts, parts_trySend.
  - apply ch_effects_parts. pose proof parts_notify. unfold Channel_write. part.
  - apply ch_effects_parts. pose proof parts_notify. unfold Channel_write_round. part.
  - apply ch_effects_parts. pose proof parts_notify. unfold Channel_tryWrite. part.
  - apply ch_effects_parts. pose proof parts_notify. unfold Channel_read. part.
  - apply ch_effects_parts. pose proof parts_notify. unfold Channel_tryRead. part.
  - apply ch_effects_parts. pose proof parts_notify. unfold Channel_peek. part.
  - apply ch_effects_parts. pose proof parts_notify. unfold Channel_availableForRead. part.
  - apply ch_effects_parts. pose proof parts_notify. unfold Channel_flush. part.
  - apply ch_effects_parts. pose proof parts_notify. unfold Channel_close. part.
  - apply ch_effects_parts. pose proof parts_notify. unfold Channel_closeInput. part.
Qed.

Lemma ch_run_accounts c evs es c' :
  ch_run c evs = Some (es, c') →
  callbacks es ++ pending_callback c' = pending_callback c ++ concat (ch_installs <$> evs).
Proof.
  revert c es. induction evs as [|e evs IH]; intros c es Hrun; cbn in *.
  { injection Hrun as <- <-. by rewrite app_nil_r. }
  destruct (ch_exec c e) as [[es1 c1]|] eqn:He; [|done]. cbn in Hrun.
  destruct (ch_run c1 evs) as [[es2 c2]|] eqn:Hr; [|done]. cbn in Hrun. injection Hrun as <- <-.
  rewrite callbacks_app, <- app_assoc, (IH _ _ Hr), app_assoc, (ch_exec_accounts _ _ _ _ He).
  by rewrite app_assoc.
Qed.

(** C20: the disconnect callback is called exactly once, and when the link goes down.
    Over any sequence of operations, the callbacks called, in order, followed by the
    one still installed, are those that were installed, in order: none is called twice
    and none is lost. And the operation after the sequence that takes the link down (a
    connect, a disconnect of the channel's own stream, or anything, such as the
    peer's handshake for a new stream, after which the channel no longer holds the
    stream's id) calls the callback that is installed, and leaves installed only the
    one that it was itself given. *)
Theorem Channel_disconnect_fn_once (c : Channel) (evs : list ch_event) (es : list Effect)
    (c' : Channel) (Hrun : ch_run c evs = Some (es, c')) :
  callbacks es ++ pending_callback c' = pending_callback c ++ concat (ch_installs <$> evs)
  ∧ ∀ e es' c'', ch_exec c' e = Some (es', c'') → takes_down c' e c'' →
      callbacks es' = pending_callback c' ∧ pending_callback c'' = ch_installs e.
Proof.
  split; [by apply ch_run_accounts|]. intros e es' c'' He Hd.
  pose proof (takes_down_pending _ _ _ _ He Hd) as Hp.
  pose proof (ch_exec_accounts _ _ _ _ He) as Ha. rewrite Hp in Ha.
  split; [|done]. by apply app_inv_tail in Ha.
Qed.

End System.

(** Two connections: the first callback has been called when the second is installed.
    The disconnect of the second stream then calls the second. *)
Lemma Channel_disconnect_fn_once_witness :
  ∃ c es c' es' c'', Channel_new 2 2 (replicate 1000 0) (replicate 1000 0) 0 false = Some c
    ∧ ch_run c [ChConnect (Some 1) [0; 7] 5000; ChConnect (Some 2) [9] 100] = Some (es, c')
    ∧ ch_exec c' (ChDisconnect 9) = Some (es', c'')
    ∧ callbacks es ++ pending_callback c' = [1; 2]
    ∧ callbacks es' = [2] ∧ pending_callback c'' = [].
Proof.
  assert (Hf : ∃ c es c' es' c'',
    Channel_new 2 2 (replicate 1000 0) (replicate 1000 0) 0 false = Some c
    ∧ ch_run c [ChConnect (Some 1) [0; 7] 5000; ChConnect (Some 2) [9] 100] = Some (es, c')
    ∧ ch_exec c' (ChDisconnect 9) = Some (es', c'')
    ∧ pending_callback c = [] ∧ pending_callback c' = [2] ∧ 9 = ch_my_stream_id c').
  { eexists _, _, _, _, _. repeat (split; [vm_compute; reflexivity|]). vm_compute; reflexivity. }
  destruct Hf as (c & es & c' & es' & c'' & Hn & Hr & He & Hp & Hp' & Hid).
  destruct (Channel_disconnect_fn_once c _ es c' Hr) as [Hrun Hdown].
  destruct (Hdown _ _ _ He Hid) as [Hcall Hleft].
  exists c, es, c', es', c''. rewrite Hrun, Hp, Hcall, Hp', Hleft. by repeat (split; [done|]).
Defined.
