(* ===== verification/ChannelHandshake.v ===== *)
(** * ChannelHandshake: packets in, packets out, and the three-way handshake *)

From S2P Require Import Prelude.
From S2P Require Import SeqNum.
From S2P Require Import RingBuffer.
From S2P Require Import RooIo.
From S2P Require Import Protocol.
From S2P Require Import RetryBackoff.
From S2P Require Import Buffers.
From S2P Require Import Transmitter.
From S2P Require Import TransmitterSpec.
From S2P Require Import TransmitterProofs.
From S2P Require Import Receiver.
From S2P Require Import ReceiverProofs.
From S2P Require Import ReceiverCorrect.
From S2P Require Import ThreadSafe.
From S2P Require Import Channel.

Local Open Scope Z_scope.
Local Open Scope roo_scope.

(** ** Packets *)

Lemma field_at a b rest k n :
  length a = k → length b = n → field (a ++ b ++ rest) k n = b.
Proof.
  intros <- <-. unfold field. rewrite drop_app_length. apply take_app_length.
Qed.

Section Packets.

Context {io : RooIo} {io_laws : RooIoLaws} {pf : Platform}.

(** The fields of the last byte of a handshake packet. *)
Lemma handshake_last_byte (want_ack : bool) log2 :
  0 ≤ log2 ≤ kMaxLinkBufferSizeLog2 →
  let x := Z.lor (if want_ack then 0x80 else 0x00) log2 in
  0 ≤ x < 256 ∧ Z.land x 0x70 = 0 ∧ negb (Z.land x 0x80 =? 0) = want_ack ∧ Z.land x 0x0F = log2.
Proof.
  unfold kMaxLinkBufferSizeLog2. intros Hl. cbv zeta.
  assert (Hk : (Z.to_nat log2 ≤ 10)%nat) by lia.
  replace log2 with (Z.of_nat (Z.to_nat log2)) by lia. revert Hk. generalize (Z.to_nat log2).
  intros k Hk. do 11 (destruct k as [|k]; [destruct want_ack; vm_compute; done|]). lia.
Qed.

(** The range of what a channel puts in its handshake packets. *)
Record ch_ranges (c : Channel) : Prop := {
  cr_my : 0 ≤ ch_my_stream_id c < 4294967296;
  cr_peer : 0 ≤ ch_peer_stream_id c < 4294967296;
  cr_log2 : 0 ≤ rb_log2 (rx_in_ring (ch_receiver c)) ≤ kMaxLinkBufferSizeLog2;
}.

(** A handshake packet is parsed to the fields it was made of. *)
Lemma handshake_packet_received c want_ack :
  ch_ranges c →
  Channel_packetReceived (Channel_handshake_packet c want_ack)
  = ch_bind (Channel_handleHandshakePacket (Transmitter_front (ch_transmitter c) mod 4096)
               (ch_my_stream_id c) (ch_peer_stream_id c) want_ack
               (2 ^ rb_log2 (rx_in_ring (ch_receiver c))))
      (λ ready, ch_when ready Channel_notify).
Proof using io_laws.
  intros [Hmy Hpeer Hlog]. unfold Channel_packetReceived.
  destruct (handshake_last_byte want_ack _ Hlog) as (Hx & H70 & H80 & H0F).
  set (x := Z.lor _ _) in *.
  set (h := FormatPacketHeader (Transmitter_front (ch_transmitter c)) kHandshakePacket false).
  destruct (packet_header_fields (Transmitter_front (ch_transmitter c)) kHandshakePacket false eq_refl)
    as (Hty & Hcb & Hseq). fold h in Hty, Hcb, Hseq.
  assert (Hp : Channel_handshake_packet c want_ack
    = StoreBeU16 h ++ StoreBeU32 (ch_my_stream_id c) ++ StoreBeU32 (ch_peer_stream_id c) ++ StoreU8 x) by done.
  rewrite Hp. clear Hp.
  pose proof (length_StoreBeU16 h (FormatPacketHeader_range _ _ _)) as L1.
  pose proof (length_StoreBeU32 (ch_my_stream_id c) Hmy) as L2.
  pose proof (length_StoreBeU32 (ch_peer_stream_id c) Hpeer) as L3.
  pose proof (length_StoreU8 x Hx) as L4.
  assert (Hlen : Z.of_nat (length (StoreBeU16 h ++ StoreBeU32 (ch_my_stream_id c)
    ++ StoreBeU32 (ch_peer_stream_id c) ++ StoreU8 x)) = 11).
  { rewrite !length_app, L1, L2, L3, L4. done. }
  assert (F1 : field (StoreBeU16 h ++ StoreBeU32 (ch_my_stream_id c)
    ++ StoreBeU32 (ch_peer_stream_id c) ++ StoreU8 x) 0 2 = StoreBeU16 h)
    by exact (field_at [] (StoreBeU16 h) _ 0 2 eq_refl L1).
  assert (F2 : field (StoreBeU16 h ++ StoreBeU32 (ch_my_stream_id c)
    ++ StoreBeU32 (ch_peer_stream_id c) ++ StoreU8 x) 2 4 = StoreBeU32 (ch_my_stream_id c))
    by exact (field_at _ _ _ 2 4 L1 L2).
  assert (F3 : field (StoreBeU16 h ++ StoreBeU32 (ch_my_stream_id c)
    ++ StoreBeU32 (ch_peer_stream_id c) ++ StoreU8 x) 6 4 = StoreBeU32 (ch_peer_stream_id c)).
  { rewrite (app_assoc (StoreBeU16 h)). apply field_at; [rewrite length_app; lia|done]. }
  assert (F4 : field (StoreBeU16 h ++ StoreBeU32 (ch_my_stream_id c)
    ++ StoreBeU32 (ch_peer_stream_id c) ++ StoreU8 x) 10 1 = StoreU8 x).
  { rewrite !app_assoc, <- (app_nil_r (_ ++ StoreU8 x)), <- app_assoc.
    apply field_at; [rewrite !length_app; lia|done]. }
  rewrite Hlen. cbv zeta. rewrite F1, F2, F3, F4. clear F1 F2 F3 F4 L1 L2 L3 L4 Hlen.
  rewrite LoadBeU16_Store by apply FormatPacketHeader_range. rewrite Hty, Hseq.
  rewrite !LoadBeU32_Store, LoadU8_Store by done. rewrite H70, H80, H0F.
  change ((11 <? 2) || (kMaxPacketSize <? 11)) with false. change (negb (11 =? 11)) with false.
  change (negb (0 =? 0)) with false. cbv iota. rewrite (proj2 (Z.ltb_ge _ _)) by lia.
  rewrite Z.shiftl_1_l, u16_small; [done|].
  unfold kMaxLinkBufferSizeLog2 in Hlog. pose proof (pow2_bounds _ Hlog). lia.
Qed.

End Packets.

(** ** The steps of a handshake *)

(** Runs the first step of a computation whose result is known. *)
Lemma ch_bind_run {A B} (m : ChM A) (k : A → ChM B) c a es c1 :
  m c = Some (a, es, c1) →
  ch_bind m k c = '(b, es', c2) ← k a c1; Some (b, es ++ es', c2).
Proof. intros H. unfold ch_bind. by rewrite H. Qed.

Lemma ch_lift_run {A} (x : option A) (a : A) (c : Channel) :
  x = Some a → (λ c : Channel, d ← x; Some (d, @nil Effect, c)) c = Some (a, [], c).
Proof. by intros ->. Qed.

Section Handshake.

Context {io : RooIo} {io_laws : RooIoLaws} {pf : Platform} {pf_laws : PlatformLaws}.

(** The channel after it has sent the handshake packet that asks for an answer. *)
Lemma conn_connecting c now draw next :
  tx_state (ch_transmitter c) = TkConnecting →
  ch_next_scheduled_handshake_update c ≤ now →
  0 ≤ ch_successive_handshake_retries c < 4294967296 → 0 ≤ draw ≤ RANDOM_INTEGER_MAX →
  ∃ d, 800 ≤ d < 1200000
    ∧ Channel_conn now draw next c
      = Some ((Channel_handshake_packet c true, Z.min next d), [],
          ch_with_needs_handshake_ack false
            (ch_with_next_scheduled_handshake_update (now + d)
              (ch_with_successive_handshake_retries
                (u32 (ch_successive_handshake_retries c + 1)) c))).
Proof using pf_laws.
  intros Hst Hnow Hret Hdraw.
  destruct (RetryBackoffMicros_range RANDOM_INTEGER_MAX 1000 1000000
    (ch_successive_handshake_retries c) draw) as (d & Hd & Hr); [lia|lia|done| |done|].
  { pose proof RANDOM_INTEGER_MAX_u32. lia. }
  exists d. split; [change (1000 - 1000 / 5) with 800 in Hr; change (1000000 + 1000000 / 5) with 1200000 in Hr; lia|].
  unfold Channel_conn. do 3 (erewrite ch_bind_run by reflexivity). rewrite Hst.
  rewrite (proj2 (Z.ltb_ge _ _)) by lia. erewrite ch_bind_run by reflexivity.
  rewrite (ch_bind_run _ _ _ _ _ _ (ch_lift_run _ _ _ Hd)). clear Hd. reflexivity.
Qed.

(** The channel after it has confirmed the peer's stream. *)
Lemma conn_connected c now draw next :
  tx_state (ch_transmitter c) = TkConnected → ch_needs_handshake_ack c = true →
  Channel_conn now draw next c
  = Some ((Channel_handshake_packet c false, Z.min next LONG_MAX), [],
          ch_with_needs_handshake_ack false c).
Proof.
  intros Hst Hn. unfold Channel_conn. do 3 (erewrite ch_bind_run by reflexivity).
  rewrite Hst, Hn. reflexivity.
Qed.

(** A handshake packet that arrives while the receiver is connecting. *)
Lemma handshake_connecting c R seq pid ack want size :
  rx_state (ch_receiver c) = RkConnecting → rx_wf (ch_receiver c) R R →
  rx_current_in_buffer (ch_receiver c) = None → rx_self_closed (ch_receiver c) = false →
  rx_peer_closed (ch_receiver c) = false → rx_end_of_stream (ch_receiver c) = false →
  pid ≠ ch_my_stream_id c → ack = 0 ∨ ack = ch_my_stream_id c → 0 ≤ seq < 4096 →
  ∃ r', rx_ready r' seq ∧ rx_control_bit r' = (pid <? ch_my_stream_id c)
    ∧ rb_log2 (rx_in_ring r') = rb_log2 (rx_in_ring (ch_receiver c))
    ∧ Channel_handleHandshakePacket seq pid ack want size c
      = Some (true, [Notify connected_cv],
          ch_with_needs_handshake_ack want
            (let c := ch_with_receiver r' (ch_with_peer_stream_id pid c) in
             if ack =? ch_my_stream_id c
             then ch_with_transmitter
                    (Transmitter_setConnected size (pid <? ch_my_stream_id c) (ch_transmitter c))
                    (ch_with_my_stream_id_acked_by_peer true c)
             else c)).
Proof.
  intros Hst Hwf Hc Hsc Hpc He Hne Hack Hseq.
  destruct (rx_setConnected_spec (ch_receiver c) R seq (pid <? ch_my_stream_id c) Hwf Hc Hsc Hpc He)
    as (r' & Hset & Hready & Hcb & Hl).
  exists r'. do 3 (split; [done|]).
  assert (negb (ack =? 0) && negb (ack =? ch_my_stream_id c) = false) as Hor.
  { destruct Hack as [->| ->]; [done|]. by rewrite Z.eqb_refl, andb_false_r. }
  assert (Hin : ∃ es, Channel_handshake_connecting seq pid ack want size c
    = Some ((true, None), es, ch_with_needs_handshake_ack want
        (let c := ch_with_receiver r' (ch_with_peer_stream_id pid c) in
         if ack =? ch_my_stream_id c
         then ch_with_transmitter
                (Transmitter_setConnected size (pid <? ch_my_stream_id c) (ch_transmitter c))
                (ch_with_my_stream_id_acked_by_peer true c)
         else c)) ∧ es = [Notify connected_cv]).
  { eexists. unfold Channel_handshake_connecting. erewrite ch_bind_run by reflexivity.
    rewrite Hor, (proj2 (Z.eqb_neq pid (ch_my_stream_id c))) by done.
    do 2 (erewrite ch_bind_run by reflexivity).
    unfold Receiver_empty. cbn [ch_receiver ch_with_peer_stream_id].
    rewrite (ring_empty _ _ _ (rw_ring _ _ _ Hwf)), Z.eqb_refl.
    do 2 (erewrite ch_bind_run by reflexivity).
    erewrite ch_bind_run.
    2: { unfold ch_on_receiver, SeqNum_make. cbn [ch_receiver ch_with_peer_stream_id].
         unfold Channel_my_control_bit. cbn [ch_peer_stream_id ch_my_stream_id ch_with_peer_stream_id].
         rewrite Hset. reflexivity. }
    cbv zeta. cbn [ch_my_stream_id ch_with_receiver ch_with_peer_stream_id ch_transmitter].
    destruct (ack =? ch_my_stream_id c); split; reflexivity. }
  destruct Hin as (es & Hin & ->).
  unfold Channel_handleHandshakePacket. do 2 (erewrite ch_bind_run by reflexivity).
  rewrite (proj2 (Z.eqb_neq pid (ch_my_stream_id c))) by done. cbn [andb].
  erewrite ch_bind_run by reflexivity. rewrite Hst. erewrite ch_bind_run by exact Hin. reflexivity.
Qed.

(** The confirmation that arrives when the receiver is connected already. *)
Lemma handshake_confirmed c seq pid size :
  rx_state (ch_receiver c) = RkConnected → pid ≠ ch_my_stream_id c →
  ch_my_stream_id c ≠ 0 → ch_my_stream_id_acked_by_peer c = false →
  Channel_handleHandshakePacket seq pid (ch_my_stream_id c) false size c
  = Some (true, [Notify connected_cv],
      ch_with_needs_handshake_ack false
        (ch_with_transmitter
           (Transmitter_setConnected size (Channel_my_control_bit c) (ch_transmitter c))
           (ch_with_my_stream_id_acked_by_peer true c))).
Proof.
  intros Hst Hne Hid Hack.
  assert (Hin : ∃ es, Channel_handshake_connected pid (ch_my_stream_id c) false size c
    = Some ((true, None), es, ch_with_needs_handshake_ack false
        (ch_with_transmitter
           (Transmitter_setConnected size (Channel_my_control_bit c) (ch_transmitter c))
           (ch_with_my_stream_id_acked_by_peer true c))) ∧ es = [Notify connected_cv]).
  { eexists. unfold Channel_handshake_connected. erewrite ch_bind_run by reflexivity. cbn [andb].
    do 3 (erewrite ch_bind_run by reflexivity). cbv zeta. rewrite Z.eqb_refl, Hack. cbn [negb andb].
    rewrite (proj2 (Z.eqb_neq _ 0)) by done. split; reflexivity. }
  destruct Hin as (es & Hin & ->).
  unfold Channel_handleHandshakePacket. do 2 (erewrite ch_bind_run by reflexivity).
  rewrite (proj2 (Z.eqb_neq pid (ch_my_stream_id c))) by done. cbn [andb].
  erewrite ch_bind_run by reflexivity. rewrite Hst. erewrite ch_bind_run by exact Hin. reflexivity.
Qed.

(** Delivering a handshake packet that the channel acts on. *)
Lemma handshake_delivered d want c es c' :
  ch_ranges d →
  Channel_handleHandshakePacket (Transmitter_front (ch_transmitter d) mod 4096)
    (ch_my_stream_id d) (ch_peer_stream_id d) want (2 ^ rb_log2 (rx_in_ring (ch_receiver d))) c
  = Some (true, es, c') →
  ∃ es', Channel_packetReceived (Channel_handshake_packet d want) c
         = Some (tt, es ++ es', ch_with_has_data_to_send true c').
Proof using io_laws.
  intros Hr Hh. rewrite handshake_packet_received by done.
  rewrite (ch_bind_run _ _ _ _ _ _ Hh). unfold ch_when, Channel_notify.
  erewrite ch_bind_run by reflexivity. destruct (ch_has_data_to_send c'); eexists; reflexivity.
Qed.

(** A channel that has been told to connect and has heard nothing yet; its stream
    starts at [S]. *)
Record ch_dialing (c : Channel) (S : Z) : Prop := {
  cd_tx : tx_inv (ch_transmitter c) S S S S;
  cd_tx_state : tx_state (ch_transmitter c) = TkConnecting;
  cd_tx_eos : tx_end_of_stream (ch_transmitter c) = false;
  cd_tx_current : tx_current_out_buffer (ch_transmitter c) = None;
  cd_start : 0 ≤ S < 4096;
  cd_rx : ∃ R, rx_wf (ch_receiver c) R R;
  cd_rx_state : rx_state (ch_receiver c) = RkConnecting;
  cd_rx_current : rx_current_in_buffer (ch_receiver c) = None;
  cd_rx_flags : rx_self_closed (ch_receiver c) = false ∧ rx_peer_closed (ch_receiver c) = false
    ∧ rx_end_of_stream (ch_receiver c) = false;
  cd_id : 0 < ch_my_stream_id c < 4294967296;
  cd_peer : ch_peer_stream_id c = 0;
  cd_acked : ch_my_stream_id_acked_by_peer c = false;
  cd_retries : 0 ≤ ch_successive_handshake_retries c < 4294967296;
}.

Lemma dialing_ranges c S : ch_dialing c S → ch_ranges c.
Proof.
  intros []. destruct cd_rx0 as [R Hwf]. constructor; [lia|lia|].
  apply (ra_log2 _ _ _ (rw_ring _ _ _ Hwf)).
Qed.

Lemma dialing_front c S : ch_dialing c S → Transmitter_front (ch_transmitter c) = S.
Proof.
  intros []. unfold Transmitter_front.
  rewrite (ra_begin _ _ _ (tw_ring _ _ _ _ (ti_wf _ _ _ _ _ cd_tx0))). apply u16_small. lia.
Qed.

(** Only the pacing of the handshake differs. *)
Definition ch_paced (c c' : Channel) : Prop :=
  ∃ n u a, c' = ch_with_needs_handshake_ack a
                  (ch_with_next_scheduled_handshake_update u (ch_with_successive_handshake_retries n c)).

(** The first packet, received by a dialing peer. *)
Lemma handshake_first a b Sa Sb :
  ch_dialing a Sa → ch_dialing b Sb → ch_my_stream_id a ≠ ch_my_stream_id b →
  ∃ es r, Channel_packetReceived (Channel_handshake_packet a true) b
    = Some (tt, es, ch_with_has_data_to_send true
        (ch_with_needs_handshake_ack true
          (ch_with_receiver r (ch_with_peer_stream_id (ch_my_stream_id a) b))))
    ∧ rx_ready r Sa ∧ rx_control_bit r = (ch_my_stream_id a <? ch_my_stream_id b)
    ∧ rb_log2 (rx_in_ring r) = rb_log2 (rx_in_ring (ch_receiver b)).
Proof using io_laws.
  intros Ha Hb Hne. pose proof (dialing_front _ _ Ha) as Hfa. pose proof (cd_start _ _ Ha) as HSa.
  destruct (cd_rx _ _ Hb) as [R Hwf]. destruct (cd_rx_flags _ _ Hb) as (F1 & F2 & F3).
  destruct (handshake_connecting b R Sa (ch_my_stream_id a) 0 true
    (2 ^ rb_log2 (rx_in_ring (ch_receiver a))) (cd_rx_state _ _ Hb) Hwf (cd_rx_current _ _ Hb) F1 F2 F3 Hne
    (or_introl eq_refl) HSa) as (r & Hready & Hcb & Hl & Hh).
  pose proof (cd_id _ _ Hb). cbv zeta in Hh.
  cbn [ch_my_stream_id ch_with_receiver ch_with_peer_stream_id] in Hh.
  rewrite (proj2 (Z.eqb_neq 0 _)) in Hh by lia.
  edestruct (handshake_delivered a true b) as [es' Hd]; [by eapply dialing_ranges| |].
  { rewrite Hfa, (cd_peer _ _ Ha), Z.mod_small by lia. exact Hh. }
  eexists _, r. split; [exact Hd|done].
Qed.

(** The answer, received by the channel that sent the first packet. *)
Lemma handshake_second a b b1 Sa Sb :
  ch_dialing a Sa → ch_dialing b Sb → ch_my_stream_id a ≠ ch_my_stream_id b →
  Transmitter_front (ch_transmitter b1) = Sb → ch_my_stream_id b1 = ch_my_stream_id b →
  ch_peer_stream_id b1 = ch_my_stream_id a →
  rb_log2 (rx_in_ring (ch_receiver b1)) = rb_log2 (rx_in_ring (ch_receiver b)) →
  ∃ es r, Channel_packetReceived (Channel_handshake_packet b1 true) a
    = Some (tt, es, ch_with_has_data_to_send true
        (ch_with_needs_handshake_ack true
          (ch_with_transmitter
            (Transmitter_setConnected (2 ^ rb_log2 (rx_in_ring (ch_receiver b)))
               (ch_my_stream_id b <? ch_my_stream_id a) (ch_transmitter a))
            (ch_with_my_stream_id_acked_by_peer true
              (ch_with_receiver r (ch_with_peer_stream_id (ch_my_stream_id b) a))))))
    ∧ rx_ready r Sb ∧ rx_control_bit r = (ch_my_stream_id b <? ch_my_stream_id a)
    ∧ rb_log2 (rx_in_ring r) = rb_log2 (rx_in_ring (ch_receiver a)).
Proof using io_laws.
  intros Ha Hb Hne Hfront Hid Hpeer Hlog. pose proof (cd_start _ _ Hb) as HSb.
  destruct (cd_rx _ _ Ha) as [R Hwf]. destruct (cd_rx_flags _ _ Ha) as (F1 & F2 & F3).
  destruct (handshake_connecting a R Sb (ch_my_stream_id b) (ch_my_stream_id a) true
    (2 ^ rb_log2 (rx_in_ring (ch_receiver b))) (cd_rx_state _ _ Ha) Hwf (cd_rx_current _ _ Ha) F1 F2 F3
    (not_eq_sym Hne) (or_intror eq_refl) HSb) as (r & Hready & Hcb & Hl & Hh).
  cbv zeta in Hh. cbn [ch_my_stream_id ch_with_receiver ch_with_peer_stream_id] in Hh.
  rewrite Z.eqb_refl in Hh.
  pose proof (dialing_ranges _ _ Hb) as Hrb. pose proof (cd_id _ _ Ha). pose proof (cd_id _ _ Hb).
  edestruct (handshake_delivered b1 true a) as [es' Hd].
  { constructor; rewrite ?Hid, ?Hpeer, ?Hlog; [lia|lia|apply Hrb]. }
  { rewrite Hfront, Hid, Hpeer, Hlog, Z.mod_small by lia. exact Hh. }
  eexists _, r. split; [exact Hd|done].
Qed.

(** The confirmation. *)
Lemma handshake_third a2 b2 Sa :
  ch_ranges a2 → Transmitter_front (ch_transmitter a2) = Sa → 0 ≤ Sa < 4096 →
  ch_peer_stream_id a2 = ch_my_stream_id b2 → ch_my_stream_id a2 ≠ ch_my_stream_id b2 →
  rx_state (ch_receiver b2) = RkConnected → ch_my_stream_id b2 ≠ 0 →
  ch_my_stream_id_acked_by_peer b2 = false →
  ∃ es, Channel_packetReceived (Channel_handshake_packet a2 false) b2
    = Some (tt, es, ch_with_has_data_to_send true
        (ch_with_needs_handshake_ack false
          (ch_with_transmitter
            (Transmitter_setConnected (2 ^ rb_log2 (rx_in_ring (ch_receiver a2)))
               (Channel_my_control_bit b2) (ch_transmitter b2))
            (ch_with_my_stream_id_acked_by_peer true b2)))).
Proof using io_laws.
  intros Hr Hf HSa Hpeer Hne Hst Hid Hack.
  edestruct (handshake_delivered a2 false b2) as [es' Hd]; [done| |].
  { rewrite Hf, Hpeer. by apply handshake_confirmed. }
  eauto.
Qed.

(** Both halves of a channel are connected: it writes from [S] on, with room for
    [room] packets, and reads from [T] on. *)
Record ch_established (c : Channel) (S T room : Z) (bit : bool) : Prop := {
  ce_tx : tx_inv (ch_transmitter c) S S (S + room) S;
  ce_tx_state : tx_state (ch_transmitter c) = TkConnected;
  ce_tx_bit : tx_control_bit (ch_transmitter c) = bit;
  ce_rx : rx_ready (ch_receiver c) T;
  ce_rx_bit : rx_control_bit (ch_receiver c) = bit;
  ce_status : Channel_getLinkStatusInternal c (ch_my_stream_id c) = kConnected;
}.

(** The three-way handshake works. When two channels with different stream ids
    dial each other, the first packet of one, the answer of the other and the
    confirmation, each delivered, leave both connected: each reads from the position
    the other writes from, each has credit for exactly the other's receive buffer,
    and their control bits differ, so that neither takes its own packets for the
    peer's. *)
Theorem Channel_handshake_connects (a b : Channel) (Sa Sb nowa nowb nowc drawa drawb drawc next : Z)
    (Ha : ch_dialing a Sa) (Hb : ch_dialing b Sb) (Hne : ch_my_stream_id a ≠ ch_my_stream_id b)
    (Hda : 0 ≤ drawa ≤ RANDOM_INTEGER_MAX) (Hdb : 0 ≤ drawb ≤ RANDOM_INTEGER_MAX)
    (Hna : ch_next_scheduled_handshake_update a ≤ nowa)
    (Hnb : ch_next_scheduled_handshake_update b ≤ nowb) :
  ∃ p1 n1 a1 e1 b1 p2 n2 b2 e2 a2 p3 n3 a3 e3 b3,
    Channel_conn nowa drawa next a = Some ((p1, n1), [], a1)
    ∧ Channel_packetReceived p1 b = Some (tt, e1, b1)
    ∧ Channel_conn nowb drawb next b1 = Some ((p2, n2), [], b2)
    ∧ Channel_packetReceived p2 a1 = Some (tt, e2, a2)
    ∧ Channel_conn nowc drawc next a2 = Some ((p3, n3), [], a3)
    ∧ Channel_packetReceived p3 b2 = Some (tt, e3, b3)
    ∧ ch_established a3 Sa Sb (2 ^ rb_log2 (rx_in_ring (ch_receiver b)))
        (ch_my_stream_id b <? ch_my_stream_id a)
    ∧ ch_established b3 Sb Sa (2 ^ rb_log2 (rx_in_ring (ch_receiver a)))
        (ch_my_stream_id a <? ch_my_stream_id b)
    ∧ (ch_my_stream_id b <? ch_my_stream_id a) ≠ (ch_my_stream_id a <? ch_my_stream_id b).
Proof using io_laws pf_laws.
  destruct (conn_connecting a nowa drawa next (cd_tx_state _ _ Ha) Hna (cd_retries _ _ Ha) Hda)
    as (d1 & _ & H1).
  set (a1 := ch_with_needs_handshake_ack false _) in H1.
  destruct (handshake_first a b Sa Sb Ha Hb Hne) as (e1 & rb & H2 & Hrb & Hbitb & Hlb).
  set (b1 := ch_with_has_data_to_send true _) in H2.
  destruct (conn_connecting b1 nowb drawb next) as (d2 & _ & H3);
    [apply (cd_tx_state _ _ Hb)|done|apply (cd_retries _ _ Hb)|done|].
  set (b2 := ch_with_needs_handshake_ack false _) in H3.
  assert (Ha1 : ch_dialing a1 Sa).
  { destruct Ha. constructor; try done. apply u32_range. }
  destruct (handshake_second a1 b b1 Sa Sb Ha1 Hb Hne (dialing_front _ _ Hb) eq_refl eq_refl Hlb)
    as (e2 & ra & H4 & Hra & Hbita & Hla).
  set (a2 := ch_with_has_data_to_send true _) in H4.
  pose proof (conn_connected a2 nowc drawc next eq_refl eq_refl) as H5.
  set (a3 := ch_with_needs_handshake_ack false a2) in H5.
  pose proof (cd_id _ _ Ha) as Hida. pose proof (cd_id _ _ Hb) as Hidb.
  destruct (handshake_third a2 b2 Sa) as (e3 & H6).
  { constructor; cbn; [lia|lia|]. rewrite Hla. apply (cr_log2 _ (dialing_ranges _ _ Ha)). }
  { apply (dialing_front _ _ Ha). }
  { apply (cd_start _ _ Ha). }
  { done. }
  { done. }
  { apply (rr_state _ _ Hrb). }
  { cbn. lia. }
  { apply (cd_acked _ _ Hb). }
  do 15 eexists. do 6 (split; [eassumption|]).
  pose proof (cr_log2 _ (dialing_ranges _ _ Ha)) as Hloga.
  pose proof (cr_log2 _ (dialing_ranges _ _ Hb)) as Hlogb.
  pose proof (pow2_bounds _ Hloga). pose proof (pow2_bounds _ Hlogb).
  split; [|split].
  - constructor; try done.
    + apply tx_setConnected_spec with Sa; [apply Ha|apply Ha|lia].
    + unfold Channel_getLinkStatusInternal. cbn. rewrite !(proj2 (Z.eqb_neq _ 0)) by lia.
      by rewrite Z.eqb_refl.
  - constructor; try done.
    + cbn. rewrite Hla. apply tx_setConnected_spec with Sb; [apply Hb|apply Hb|lia].
    + unfold Channel_getLinkStatusInternal. cbn. rewrite !(proj2 (Z.eqb_neq _ 0)) by lia.
      by rewrite Z.eqb_refl.
  - intros Heq. destruct (Z.ltb_spec (ch_my_stream_id b) (ch_my_stream_id a)),
      (Z.ltb_spec (ch_my_stream_id a) (ch_my_stream_id b)); try done; lia.
Qed.

End Handshake.

(** ** Connecting, disconnecting, and what is ignored *)

Section Contract.

Context {io : RooIo} {io_laws : RooIoLaws} {pf : Platform}.

Lemma draw_stream_id_nonzero draws id :
  Forall (λ d, 0 ≤ d < 4294967296) draws → draw_stream_id draws = Some id →
  0 < id < 4294967296.
Proof.
  induction 1 as [|d draws Hd _ IH]; cbn; [done|].
  destruct (Z.eqb_spec d 0); [done|]. intros [= <-]. lia.
Qed.

Lemma ch_connect_spec (c : Channel) (fn : option Z) (draws : list Z) (start id : Z)
    (B E H B' E' : Z) (Htx : tx_wf (ch_transmitter c) B E H) (Hrx : rx_wf (ch_receiver c) B' E')
    (Hcur : rx_current_in_buffer (ch_receiver c) = None)
    (Hdraws : Forall (λ d, 0 ≤ d < 4294967296) draws) (Hid : draw_stream_id draws = Some id) :
  ∃ es c', Channel_connect fn draws start c = Some (id, es, c')
    ∧ ch_dialing c' (start mod 4095) ∧ ch_my_stream_id c' = id
    ∧ Channel_getLinkStatusInternal c' id = kConnecting
    ∧ (∀ old, old ≠ 0 → old ≠ id → Channel_getLinkStatusInternal c' old = kBroken)
    ∧ ch_next_scheduled_handshake_update c' = Uptime_Start
    ∧ rb_log2 (rx_in_ring (ch_receiver c')) = rb_log2 (rx_in_ring (ch_receiver c)).
Proof.
  pose proof (draw_stream_id_nonzero _ _ Hdraws Hid) as Hr.
  assert (Hst : 0 ≤ start mod 4095 < 4095) by (apply Z.mod_pos_bound; lia).
  destruct (tx_init_spec (ch_transmitter c) B E H id (start mod 4095) Htx)
    as (t' & Hti & Hinv & Hts & Hteos & _).
  destruct (rx_init_spec (ch_receiver c) B' E' id Hrx)
    as (r' & Hri & Hwf & Hrs & Hrc & _ & F1 & F2 & F3).
  unfold Channel_connect. do 4 (erewrite ch_bind_run by reflexivity).
  erewrite ch_bind_run by (rewrite Hid; reflexivity). erewrite ch_bind_run by reflexivity.
  erewrite ch_bind_run.
  2: { unfold ch_on_transmitter, unit_result, ThreadSafeTransmitter_init, SeqNum_make.
       cbn [ch_transmitter ch_with_my_stream_id ch_with_peer_stream_id ch_with_my_stream_id_acked_by_peer
            ch_with_disconnect_fn ch_my_stream_id]. change 0x0FFF with 4095. rewrite Hti. reflexivity. }
  erewrite ch_bind_run.
  2: { unfold ch_on_receiver, unit_result, ThreadSafeReceiver_init.
       cbn [ch_receiver ch_with_transmitter ch_with_my_stream_id ch_with_peer_stream_id
            ch_with_my_stream_id_acked_by_peer ch_with_disconnect_fn ch_my_stream_id].
       rewrite Hri. reflexivity. }
  rewrite Hcur in Hrc.
  assert (Hlog : rb_log2 (rx_in_ring r') = rb_log2 (rx_in_ring (ch_receiver c))).
  { unfold Receiver_init in Hri. destruct (ring_drain_all _ _ _ (rw_ring _ _ _ Hrx)) as (ring & Hd & _ & Hl).
    rewrite (bind_step _ _ _ Hd) in Hri. by injection Hri as <-. }
  assert (Htc : tx_current_out_buffer t' = None).
  { revert Hti. unfold Transmitter_init. do 2 (destruct (_ : option RingBuffer); [|done]; cbn [mbind option_bind]).
    by intros [= <-]. }
  do 4 (erewrite ch_bind_run by reflexivity). unfold Channel_notify.
  destruct (ch_has_data_to_send c) eqn:Hp; destruct (ch_disconnect_fn c) as [f|] eqn:Hf;
    (do 2 eexists; split; [unfold ch_bind, ch_gets, ch_modify, ch_emit, ch_when, ch_ret; cbn; rewrite ?Hp, ?Hf; reflexivity|]).
  all: split; [constructor; cbn; eauto; try lia; done|].
  all: unfold Channel_getLinkStatusInternal; cbn; rewrite ?Z.eqb_refl, ?(proj2 (Z.eqb_neq id 0)) by lia.
  all: split_and!; try done; intros old H1 H2; rewrite (proj2 (Z.eqb_neq old 0)), (proj2 (Z.eqb_neq id old)) by lia; done.
Qed.

(** [connect] starts a new stream. It draws a stream id that is not zero, resets
    both halves whatever state they were in, and leaves a channel that is connecting
    under the new id; any other stream id is reported broken from then on. *)
Theorem Channel_connect_dials (c : Channel) (fn : option Z) (draws : list Z) (start id : Z)
    (B E H B' E' : Z) (Htx : tx_wf (ch_transmitter c) B E H) (Hrx : rx_wf (ch_receiver c) B' E')
    (Hcur : rx_current_in_buffer (ch_receiver c) = None)
    (Hdraws : Forall (λ d, 0 ≤ d < 4294967296) draws) (Hid : draw_stream_id draws = Some id) :
  ∃ es c', Channel_connect fn draws start c = Some (id, es, c')
    ∧ ch_dialing c' (start mod 4095) ∧ ch_my_stream_id c' = id
    ∧ Channel_getLinkStatusInternal c' id = kConnecting
    ∧ (∀ old, old ≠ 0 → old ≠ id → Channel_getLinkStatusInternal c' old = kBroken)
    ∧ ch_next_scheduled_handshake_update c' = Uptime_Start
    ∧ rb_log2 (rx_in_ring (ch_receiver c')) = rb_log2 (rx_in_ring (ch_receiver c)).
Proof. by apply (ch_connect_spec c fn draws start id B E H B' E'). Qed.

(** Only wakes threads up. *)
Definition only_notifies (es : list Effect) : Prop := Forall (λ e, ∃ cv, e = Notify cv) es.

Lemma ch_with_transmitter_id c : ch_with_transmitter (ch_transmitter c) c = c.
Proof. by destruct c. Qed.

Lemma ch_with_receiver_id c : ch_with_receiver (ch_receiver c) c = c.
Proof. by destruct c. Qed.

Lemma ack_own_bit c seq bitmap :
  ∃ es, ch_on_transmitter (λ t, ThreadSafeTransmitter_ack t (tx_control_bit t) seq bitmap) c
        = Some (false, es, c) ∧ only_notifies es.
Proof.
  unfold ch_on_transmitter, ThreadSafeTransmitter_ack, Transmitter_ack.
  rewrite eqb_reflx.
  set (t := ch_transmitter c).
  assert (match tx_state t with TkConnected => Some (false, t) | _ => Some (false, t) end
    = Some (false, t)) as -> by (by destruct (tx_state t)).
  cbn [mbind option_bind]. rewrite Z.ltb_irrefl. eexists. split.
  - unfold t. by rewrite ch_with_transmitter_id.
  - destruct (negb _); cbn; repeat constructor; eauto.
Qed.

Lemma data_own_bit c seq payload len is_final :
  ch_on_receiver (λ r, ThreadSafeReceiver_handleDataPacket r (rx_control_bit (ch_receiver c)) seq payload
    len is_final) c = Some (false, [], c).
Proof.
  unfold ch_on_receiver, ThreadSafeReceiver_handleDataPacket, Receiver_handleDataPacket.
  rewrite eqb_reflx. destruct (rx_state (ch_receiver c)); cbn; by rewrite ch_with_receiver_id.
Qed.

Lemma himark_own_bit c seq :
  ch_on_transmitter (λ t, unit_result
    (ThreadSafeTransmitter_updateRecvHimark t (tx_control_bit (ch_transmitter c)) seq)) c
  = Some (tt, [], c).
Proof.
  unfold ch_on_transmitter, unit_result, ThreadSafeTransmitter_updateRecvHimark, Transmitter_updateRecvHimark.
  rewrite eqb_reflx. destruct (tx_state (ch_transmitter c)); cbn; by rewrite ch_with_transmitter_id.
Qed.

(** A channel ignores its own packets. Data, end-of-stream, acknowledgment and
    flow-control packets that carry the channel's own control bit, such as an echo of
    what it sent, leave it exactly as it is, and at most wake up threads; so does an
    echo of the handshake packet it last sent. *)
Theorem Channel_ignores_own_packets (c : Channel) (bit : bool) (buf : list byte)
    (Htx : tx_control_bit (ch_transmitter c) = bit) (Hrx : rx_control_bit (ch_receiver c) = bit)
    (Hown : (GetPacketType (LoadBeU16 (field buf 0 2)) ≠ kHandshakePacket
             ∧ GetPacketControlBit (LoadBeU16 (field buf 0 2)) = bit)
            ∨ ∃ want, buf = Channel_handshake_packet c want ∧ ch_ranges c
                      ∧ 0 ≤ Transmitter_front (ch_transmitter c) < 4096) :
  ∃ es, Channel_packetReceived buf c = Some (tt, es, c) ∧ only_notifies es.
Proof using io_laws.
  assert (Hnil : ∃ es, ch_ret tt c = Some (tt, es, c) ∧ only_notifies es)
    by (eexists; split; [done|constructor]).
  destruct Hown as [[Hty Hcb]|(want & -> & Hranges & Hf)].
  2: { rewrite handshake_packet_received by done. unfold Channel_handleHandshakePacket.
       exists []. split; [|constructor]. unfold ch_bind at 1. do 2 (erewrite ch_bind_run by reflexivity).
       unfold SeqNum_raw. rewrite Z.mod_small, !Z.eqb_refl by lia. reflexivity. }
  unfold Channel_packetReceived. cbv zeta. rewrite Hcb.
  destruct (_ || _); [done|]. destruct (GetPacketType _); [..|done].
  - destruct (_ =? 2); [done|]. rewrite <- Hrx, (ch_bind_run _ _ _ _ _ _ (data_own_bit c _ _ _ _)).
    eexists; split; [reflexivity|constructor].
  - rewrite <- Hrx, (ch_bind_run _ _ _ _ _ _ (data_own_bit c _ _ _ _)).
    eexists; split; [reflexivity|constructor].
  - destruct (ack_own_bit c (Z.land (LoadBeU16 (field buf 0 2)) 4095) (drop 2 buf)) as (es & Ha & Hes).
    exists es. split; [|done]. rewrite <- Htx.
    assert (Ha' : ch_on_transmitter (λ t, ThreadSafeTransmitter_ack t (tx_control_bit (ch_transmitter c))
      (Z.land (LoadBeU16 (field buf 0 2)) 4095) (drop 2 buf)) c = Some (false, es, c)) by exact Ha.
    rewrite (ch_bind_run _ _ _ _ _ _ Ha'). cbn. by rewrite app_nil_r.
  - done.
  - destruct (negb _); [done|]. exists []. split; [|constructor]. rewrite <- Htx. apply himark_own_bit.
Qed.

(** Malformed packets are ignored: too short or too long, of an unknown type, a
    data packet without data, or a flow-control or handshake packet of the wrong size
    or with reserved bits or an invalid buffer size. *)
Theorem Channel_ignores_malformed (c : Channel) (buf : list byte) :
  let len := Z.of_nat (length buf) in
  let type := GetPacketType (LoadBeU16 (field buf 0 2)) in
  let last_byte := LoadU8 (field buf 10 1) in
  len < 2 ∨ 250 < len ∨ (∃ code, type = kUnnamedPacket code)
  ∨ (type = kDataPacket ∧ len = 2)
  ∨ (type = kFlowControlPacket ∧ len ≠ 2)
  ∨ (type = kHandshakePacket
     ∧ (len ≠ 11 ∨ Z.land last_byte 0x70 ≠ 0 ∨ kMaxLinkBufferSizeLog2 < Z.land last_byte 0x0F)) →
  Channel_packetReceived buf c = Some (tt, [], c).
Proof.
  intros len type last_byte Hbad. unfold Channel_packetReceived. fold len type last_byte. cbv zeta.
  destruct (Z.ltb_spec len 2); [done|]. destruct (Z.ltb_spec kMaxPacketSize len); [done|]. cbn [orb].
  unfold kMaxPacketSize in *.
  destruct Hbad as [?|[?|[[code ->]|[[-> ->]|[[-> Hl]|[-> Hbad]]]]]]; try lia; try done.
  - by rewrite (proj2 (Z.eqb_neq _ _)) by done.
  - destruct (Z.eqb_spec len 11); [|done]. cbn [negb].
    destruct (Z.eqb_spec (Z.land last_byte 0x70) 0); [|done]. cbn [negb].
    destruct (Z.ltb_spec kMaxLinkBufferSizeLog2 (Z.land last_byte 0x0F)); [done|]. lia.
Qed.

Lemma ch_stale_stream (c : Channel) (id count : Z) (buf : list byte) (st : Status)
    (Htx : id ≠ tx_my_stream_id (ch_transmitter c)) (Hrx : id ≠ rx_my_stream_id (ch_receiver c)) :
  let read_status := if count =? 0 then st else kConnectionError in
  Channel_write buf id c = Some (Returned (0, kConnectionError), [], c)
  ∧ Channel_tryWrite buf id c = Some ((0, kConnectionError), [], c)
  ∧ Channel_flush id c = Some (kConnectionError, [], c)
  ∧ Channel_close id c = Some (Returned kConnectionError, [], c)
  ∧ Channel_read count id st c = Some (Returned ([], read_status), [], c)
  ∧ Channel_tryRead count id st c = Some (([], read_status), [], c)
  ∧ Channel_peek id c = Some ((-1, kConnectionError), [], c)
  ∧ Channel_availableForRead id c = Some ((0, kConnectionError), [], c)
  ∧ Channel_closeInput id c = Some (kConnectionError, [], c)
  ∧ Channel_availableForWrite id c = Some ((0, kConnectionError), [], c).
Proof.
  assert (Ht : ThreadSafeTransmitter_checkConnectionStatus (ch_transmitter c) id = kConnectionError).
  { unfold ThreadSafeTransmitter_checkConnectionStatus. rewrite (proj2 (Z.eqb_neq _ _)) by done.
    by rewrite andb_false_r. }
  assert (Hr : ThreadSafeReceiver_checkConnectionStatus (ch_receiver c) id = kConnectionError).
  { unfold ThreadSafeReceiver_checkConnectionStatus. by rewrite (proj2 (Z.eqb_neq _ _)) by done. }
  unfold Channel_write, Channel_tryWrite, Channel_flush, Channel_close, Channel_read, Channel_tryRead,
    Channel_peek, Channel_availableForRead, Channel_closeInput, Channel_availableForWrite.
  unfold ch_bind, ch_on_transmitter, ch_on_receiver, no_conditions, ThreadSafeTransmitter_write,
    ThreadSafeTransmitter_tryWrite, ThreadSafeTransmitter_flush, ThreadSafeTransmitter_close,
    ThreadSafeReceiver_read, ThreadSafeReceiver_tryRead, ThreadSafeReceiver_peek,
    ThreadSafeReceiver_availableForRead, ThreadSafeReceiver_markInputClosed, ch_gets,
    ThreadSafeTransmitter_availableForWrite.
  rewrite Ht, Hr. destruct (count =? 0); cbn; rewrite ch_with_transmitter_id, ch_with_receiver_id; done.
Qed.

(** C36: a stale stream gets an error. With a stream id that is neither the one of the
    transmitter nor the one of the receiver (a half keeps the id of its stream when the
    link breaks, until it is reset or dials again), every operation of the application
    on the stream returns without blocking, with a connection error and the result that stands for nothing done, changes nothing in
    the channel and notifies nobody. The one exception is a read of 0 bytes: [read] and
    [tryRead] then return nothing and leave the status that the caller passed in. *)
Theorem Channel_stale_stream (c : Channel) (id count : Z) (buf : list byte) (st : Status)
    (Htx : id ≠ tx_my_stream_id (ch_transmitter c)) (Hrx : id ≠ rx_my_stream_id (ch_receiver c)) :
  let read_status := if count =? 0 then st else kConnectionError in
  Channel_write buf id c = Some (Returned (0, kConnectionError), [], c)
  ∧ Channel_tryWrite buf id c = Some ((0, kConnectionError), [], c)
  ∧ Channel_flush id c = Some (kConnectionError, [], c)
  ∧ Channel_close id c = Some (Returned kConnectionError, [], c)
  ∧ Channel_read count id st c = Some (Returned ([], read_status), [], c)
  ∧ Channel_tryRead count id st c = Some (([], read_status), [], c)
  ∧ Channel_peek id c = Some ((-1, kConnectionError), [], c)
  ∧ Channel_availableForRead id c = Some ((0, kConnectionError), [], c)
  ∧ Channel_closeInput id c = Some (kConnectionError, [], c)
  ∧ Channel_availableForWrite id c = Some ((0, kConnectionError), [], c).
Proof. by apply ch_stale_stream. Qed.

End Contract.

(** ** Witnesses *)

(** A channel of four outgoing and eight incoming packets that dials with stream id
    [id] from position [start]. *)
Definition chan_demo_new : option Channel :=
  Channel_new 2 3 (replicate 250 0) (replicate 248 0) 0 false.

Definition chan_demo (id start : Z) : option Channel :=
  c ← chan_demo_new; '(_, _, c) ← Channel_connect (Some 1) [0; id] start c; Some c.

Lemma chan_demo_new_ok :
  ∃ c, chan_demo_new = Some c ∧ tx_wf (ch_transmitter c) 0 0 4 ∧ rx_wf (ch_receiver c) 0 0
       ∧ rx_current_in_buffer (ch_receiver c) = None.
Proof.
  unfold chan_demo_new, Channel_new.
  destruct (tx_new_spec 2 (replicate 250 0) 0 0) as (t & Ht & Hinv & _); [done|done|].
  destruct (rx_new_spec 3 (replicate 248 0) false) as (r & Hr & Hwf & _ & Hc); [done|done|].
  change (ValidateBufferSizes 2 3) with (Some 2). cbn [mbind option_bind].
  rewrite (bind_step _ _ _ Ht). change (u32 3) with 3. rewrite (bind_step _ _ _ Hr).
  eexists. split; [done|]. cbn. split; [apply Hinv|done].
Qed.

Lemma chan_demo_ok id start :
  0 < id < 4294967296 →
  ∃ c, chan_demo id start = Some c ∧ ch_dialing c (start mod 4095) ∧ ch_my_stream_id c = id
       ∧ ch_next_scheduled_handshake_update c = 0.
Proof.
  intros Hid. destruct chan_demo_new_ok as (c & Hc & Htx & Hrx & Hcur). unfold chan_demo.
  rewrite (bind_step _ _ _ Hc).
  destruct (ch_connect_spec c (Some 1) [0; id] start id _ _ _ _ _ Htx Hrx Hcur)
    as (es & c' & Hcon & Hd & Hi & _ & _ & Hn & _).
  - repeat constructor; lia.
  - cbn. by rewrite (proj2 (Z.eqb_neq id 0)) by lia.
  - rewrite (bind_step _ _ _ Hcon). eauto.
Qed.

Lemma Channel_connect_dials_witness :
  ∃ c es c', chan_demo_new = Some c ∧ Channel_connect (Some 1) [0; 7] 5000 c = Some (7, es, c')
    ∧ ch_dialing c' 905.
Proof.
  destruct chan_demo_new_ok as (c & Hc & Htx & Hrx & Hcur).
  destruct (Channel_connect_dials c (Some 1) [0; 7] 5000 7 _ _ _ _ _ Htx Hrx Hcur)
    as (es & c' & Hcon & Hd & _).
  - repeat constructor; lia.
  - reflexivity.
  - exists c, es, c'. split; [done|]. split; [exact Hcon|exact Hd].
Defined.

Lemma Channel_handshake_connects_witness :
  ∃ a b a3 b3, chan_demo 7 5000 = Some a ∧ chan_demo 9 100 = Some b
    ∧ ch_established a3 905 100 (2 ^ rb_log2 (rx_in_ring (ch_receiver b))) false
    ∧ ch_established b3 100 905 (2 ^ rb_log2 (rx_in_ring (ch_receiver a))) true.
Proof.
  destruct (chan_demo_ok 7 5000 ltac:(lia)) as (a & Ha & Hda & Hia & Hna).
  destruct (chan_demo_ok 9 100 ltac:(lia)) as (b & Hb & Hdb & Hib & Hnb).
  change (5000 mod 4095) with 905 in Hda. change (100 mod 4095) with 100 in Hdb.
  destruct (Channel_handshake_connects a b 905 100 10 20 30 5 6 7 1000 Hda Hdb)
    as (p1 & n1 & a1 & e1 & b1 & p2 & n2 & b2 & e2 & a2 & p3 & n3 & a3 & e3 & b3
        & _ & _ & _ & _ & _ & _ & Hea & Heb & _).
  - rewrite Hia, Hib. lia.
  - cbn. lia.
  - cbn. lia.
  - rewrite Hna. lia.
  - rewrite Hnb. lia.
  - rewrite Hia, Hib in Hea, Heb. exists a, b, a3, b3. auto.
Defined.

Lemma Channel_ignores_own_packets_witness :
  ∃ c es, chan_demo_new = Some c
    ∧ Channel_packetReceived [32; 5; 255] c = Some (tt, es, c) ∧ only_notifies es.
Proof.
  assert (Hf : option_map (λ c, (tx_control_bit (ch_transmitter c), rx_control_bit (ch_receiver c)))
    chan_demo_new = Some (false, false)) by (vm_compute; reflexivity).
  destruct chan_demo_new_ok as (c & Hc & _). rewrite Hc in Hf. injection Hf as H1 H2.
  destruct (Channel_ignores_own_packets c false [32; 5; 255] H1 H2) as (es & Hes & Ho).
  - left. split; [vm_compute; discriminate|vm_compute; reflexivity].
  - exists c, es. auto.
Defined.

Lemma Channel_ignores_malformed_witness :
  ∃ c, chan_demo_new = Some c ∧ Channel_packetReceived [48; 0; 1] c = Some (tt, [], c).
Proof.
  destruct chan_demo_new_ok as (c & Hc & _). exists c. split; [done|].
  apply (Channel_ignores_malformed c [48; 0; 1]). do 5 right.
  split; [vm_compute; reflexivity|]. left. cbn. lia.
Defined.

Lemma Channel_stale_stream_witness :
  ∃ c, chan_demo_new = Some c
    ∧ Channel_write [1] 42 c = Some (Returned (0, kConnectionError), [], c)
    ∧ Channel_read 1 42 kOk c = Some (Returned ([], kConnectionError), [], c)
    ∧ Channel_read 0 42 kOk c = Some (Returned ([], kOk), [], c).
Proof.
  assert (Hf : option_map (λ c, (tx_my_stream_id (ch_transmitter c), rx_my_stream_id (ch_receiver c)))
    chan_demo_new = Some (0, 0)) by (vm_compute; reflexivity).
  destruct chan_demo_new_ok as (c & Hc & _). rewrite Hc in Hf. injection Hf as H1 H2.
  assert (Ht : 42 ≠ tx_my_stream_id (ch_transmitter c)) by congruence.
  assert (Hr : 42 ≠ rx_my_stream_id (ch_receiver c)) by congruence.
  destruct (Channel_stale_stream c 42 1 [1] kOk Ht Hr) as (Hw & _ & _ & _ & Hread & _).
  destruct (Channel_stale_stream c 42 0 [1] kOk Ht Hr) as (_ & _ & _ & _ & Hread0 & _).
  exists c. auto.
Defined.

(** ** Where the code falls short *)

(** The messages a peer sends: one handshake packet. *)
Definition handshake_bytes (seq id ack last : Z) : list byte :=
  StoreBeU16 (FormatPacketHeader seq kHandshakePacket false) ++ StoreBeU32 id ++ StoreBeU32 ack
  ++ StoreU8 last.

(** A late copy of the peer's first handshake packet can end the program: stream 7
    hears stream 9, receives data, then hears that the peer has restarted as stream 10
    before its own stream was ever confirmed; the copy of the first packet of stream 9
    then fails CHECK(my_stream_id_ != 0). *)
Theorem Channel_handshake_check_fails :
  (c ← chan_demo 7 100;
   '(_, _, c) ← Channel_packetReceived (handshake_bytes 500 9 0 0x83) c;
   '(_, _, c) ← Channel_packetReceived [129; 244; 1; 2; 3] c;
   '(_, _, c) ← Channel_packetReceived (handshake_bytes 600 10 0 0x83) c;
   Some (ch_my_stream_id c, rx_state (ch_receiver c),
         Channel_packetReceived (handshake_bytes 500 9 0 0x83) c)) = Some (0, RkConnected, None).
Proof. vm_compute. reflexivity. Qed.

(** [disconnect] does not wake a writer that waits for space: the transmitter of a
    connecting channel takes no data, so that a writer blocks on [has_space], and the
    conditions that [disconnect] notifies do not include it, although the writer would
    return with an error. *)
Theorem Channel_disconnect_leaves_writer_blocked :
  (c ← chan_demo 7 100;
   '(w1, _, c) ← Channel_write [1; 2; 3] 7 c;
   '(_, es, c) ← Channel_disconnect 7 c;
   '(w2, _, c) ← Channel_write_round [1; 2; 3] 7 c;
   Some (w1, es, w2))
  = Some (Blocked has_space,
          [Notify all_acked; Notify has_data; Notify connected_cv; Disconnected 1],
          Returned (0, kConnectionError)).
Proof. vm_compute. reflexivity. Qed.
