(* ===== verification/ChannelAwait.v ===== *)
(** * ChannelAwait: waiting for a connection

    [Channel::awaitConnected] of link/internal/thread_safe/channel.cpp, with and without a
    timeout: a thread that waits on [connected_cv_] while the operations of the channel
    happen around it. Every operation that changes what [getLinkStatus] says notifies
    that condition variable, so that the thread does not sleep past the end of the
    handshake. *)

From S2P Require Import Prelude.
From S2P Require Import SeqNum.
From S2P Require Import RingBuffer.
From S2P Require Import RooIo.
From S2P Require Import Protocol.
From S2P Require Import Buffers.
From S2P Require Import Transmitter.
From S2P Require Import Receiver.
From S2P Require Import ThreadSafe.
From S2P Require Import Channel.
From S2P Require Import ChannelCorrect.
From S2P Require Import ChannelHandshake.

Local Open Scope Z_scope.
Local Open Scope roo_scope.

(** Where the thread is: at the test of the loop, which it reaches with the mutex held, after a
    timeout or not; asleep; and past its return. *)
Inductive awaiter :=
  | AtTest (timed_out : bool)
  | Asleep
  | AwaitReturned (result : bool).

(** [AwaitTimeout] only with a timeout; [AwaitSpurious] is a wake-up without a reason. *)
Inductive await_event :=
  | AwaitTest
  | AwaitTimeout
  | AwaitSpurious
  | AwaitChannel (e : ch_event).

Definition notifies (es : list Effect) : bool :=
  existsb (λ e, match e with Notify connected_cv => true | _ => false end) es.

Section System.

Context {io : RooIo} {pf : Platform}.

(** The test of the loop, and what follows a wait that timed out. *)
Definition Channel_awaitConnected_for (stream_id : Z) (timed_out : bool) (c : Channel) : awaiter :=
  if timed_out then AwaitReturned false
  else if decide (Channel_getLinkStatusInternal c stream_id = kConnecting) then Asleep
  else AwaitReturned true.

Definition await_exec (stream_id : Z) (s : Channel * awaiter) (e : await_event) : option (Channel * awaiter) :=
  let '(c, w) := s in
  match e with
  | AwaitTest =>
      Some (c, match w with AtTest timed_out => Channel_awaitConnected_for stream_id timed_out c | _ => w end)
  | AwaitTimeout => Some (c, match w with Asleep => AtTest true | _ => w end)
  | AwaitSpurious => Some (c, match w with Asleep => AtTest false | _ => w end)
  | AwaitChannel e =>
      '(es, c) ← ch_exec c e;
      Some (c, match w with Asleep => if notifies es then AtTest false else Asleep | _ => w end)
  end.

Fixpoint await_run (stream_id : Z) (s : Channel * awaiter) (es : list await_event) : option (Channel * awaiter) :=
  match es with
  | [] => Some s
  | e :: es => s ← await_exec stream_id s e; await_run stream_id s es
  end.

End System.

(** ** What changes the status is announced *)

(** What [getLinkStatusInternal] looks at. *)
Definition status_key (c : Channel) : Z * Z * bool :=
  (ch_my_stream_id c, ch_peer_stream_id c, ch_my_stream_id_acked_by_peer c).

Lemma status_key_status c c' id :
  status_key c' = status_key c → Channel_getLinkStatusInternal c' id = Channel_getLinkStatusInternal c id.
Proof. unfold status_key, Channel_getLinkStatusInternal. by intros [= -> -> ->]. Qed.

(** [m] leaves the status alone; notifies; does one or the other. *)
Definition steady {A} (m : ChM A) : Prop := ∀ c a es c', m c = Some (a, es, c') → status_key c' = status_key c.

Definition announcing {A} (m : ChM A) : Prop := ∀ c a es c', m c = Some (a, es, c') → notifies es = true.

Definition announces {A} (m : ChM A) : Prop :=
  ∀ c a es c', m c = Some (a, es, c') → status_key c' = status_key c ∨ notifies es = true.

Lemma notifies_app es es' : notifies (es ++ es') = notifies es || notifies es'.
Proof. apply existsb_app. Qed.

Section Announcing.

Lemma steady_announces {A} (m : ChM A) : steady m → announces m.
Proof. intros Hm c a es c' H. left. by eapply Hm. Qed.

Lemma announcing_announces {A} (m : ChM A) : announcing m → announces m.
Proof. intros Hm c a es c' H. right. by eapply Hm. Qed.

Lemma steady_bind {A B} (m : ChM A) (k : A → ChM B) : steady m → (∀ a, steady (k a)) → steady (ch_bind m k).
Proof.
  intros Hm Hk c b es c' (a & es1 & c1 & es2 & H1 & H2 & ->)%ch_bind_inv.
  rewrite (Hk _ _ _ _ _ H2). by eapply Hm.
Qed.

Lemma announcing_bind_l {A B} (m : ChM A) (k : A → ChM B) : announcing m → announcing (ch_bind m k).
Proof.
  intros Hm c b es c' (a & es1 & c1 & es2 & H1 & H2 & ->)%ch_bind_inv. by rewrite notifies_app, (Hm _ _ _ _ H1).
Qed.

Lemma announcing_bind_r {A B} (m : ChM A) (k : A → ChM B) : (∀ a, announcing (k a)) → announcing (ch_bind m k).
Proof.
  intros Hk c b es c' (a & es1 & c1 & es2 & H1 & H2 & ->)%ch_bind_inv.
  by rewrite notifies_app, (Hk _ _ _ _ _ H2), orb_true_r.
Qed.

Lemma announces_bind_l {A B} (m : ChM A) (k : A → ChM B) :
  steady m → (∀ a, announces (k a)) → announces (ch_bind m k).
Proof.
  intros Hm Hk c b es c' (a & es1 & c1 & es2 & H1 & H2 & ->)%ch_bind_inv.
  rewrite notifies_app, <- (Hm _ _ _ _ H1). destruct (Hk _ _ _ _ _ H2) as [?|Hn]; [by left|right].
  by rewrite Hn, orb_true_r.
Qed.

Lemma announces_bind_r {A B} (m : ChM A) (k : A → ChM B) :
  announces m → (∀ a, steady (k a)) → announces (ch_bind m k).
Proof.
  intros Hm Hk c b es c' (a & es1 & c1 & es2 & H1 & H2 & ->)%ch_bind_inv.
  rewrite notifies_app, (Hk _ _ _ _ _ H2). destruct (Hm _ _ _ _ H1) as [?|Hn]; [by left|right].
  by rewrite Hn.
Qed.

Lemma steady_ret {A} (a : A) : steady (ch_ret a).
Proof. by intros c b es c' [= <- <- <-]. Qed.

Lemma steady_gets {A} (f : Channel → A) : steady (ch_gets f).
Proof. by intros c b es c' [= <- <- <-]. Qed.

Lemma steady_modify f : (∀ c, status_key (f c) = status_key c) → steady (ch_modify f).
Proof. by intros Hf c b es c' [= <- <- <-]. Qed.

Lemma steady_emit es : steady (ch_emit es).
Proof. by intros c b es' c' [= <- <- <-]. Qed.

Lemma steady_check b : steady (ch_check b).
Proof. intros c a es c' H. unfold ch_check in H. destruct b; [|done]. by injection H as <- <- <-. Qed.

Lemma steady_on_transmitter {A} (f : Transmitter → option (A * list Condition * Transmitter)) :
  steady (ch_on_transmitter f).
Proof.
  intros c b es c' H. unfold ch_on_transmitter in H.
  destruct (f _) as [[[a cs] t]|]; [|done]. cbn in H. by injection H as <- <- <-.
Qed.

Lemma steady_on_receiver {A} (f : Receiver → option (A * list Condition * Receiver)) : steady (ch_on_receiver f).
Proof.
  intros c b es c' H. unfold ch_on_receiver in H.
  destruct (f _) as [[[a cs] r]|]; [|done]. cbn in H. by injection H as <- <- <-.
Qed.

Lemma steady_lift {A} (x : option A) (f : A → Channel → Channel) :
  (∀ a c, status_key (f a c) = status_key c) → steady (λ c, a ← x; Some (tt, [], f a c)).
Proof. intros Hf c b es c' H. destruct x; [|done]. cbn in H. injection H as <- <- <-. by rewrite Hf. Qed.

Lemma steady_lift_value {A} (x : option A) : steady (λ c, a ← x; Some (a, [], c)).
Proof. intros c b es c' H. destruct x; [|done]. cbn in H. by injection H as <- <- <-. Qed.

Lemma steady_when b m : steady m → steady (ch_when b m).
Proof. intros. destruct b; [done|apply steady_ret]. Qed.

Lemma announces_when b m : announces m → announces (ch_when b m).
Proof. intros. destruct b; [done|apply steady_announces, steady_ret]. Qed.

Lemma announcing_emit : announcing (ch_emit [Notify connected_cv]).
Proof. by intros c b es c' [= <- <- <-]. Qed.

End Announcing.

#[export] Hint Resolve steady_bind steady_ret steady_gets steady_modify steady_emit steady_check
  steady_lift steady_lift_value steady_on_transmitter steady_on_receiver steady_when : roo.

(** Goes through a computation and its branches. *)
Ltac settle :=
  repeat (intros; first
    [ done
    | match goal with
      | |- steady (ch_bind _ _) => apply steady_bind
      | |- steady (ch_when _ _) => apply steady_when
      | |- steady (match ?x with _ => _ end) => destruct x
      | |- steady (let '(_, _) := ?x in _) => destruct x
      | |- steady _ => progress eauto with roo
      end ]).

(** Looks for the notification in a sequence. *)
Ltac announce :=
  repeat (intros; first
    [ apply announcing_emit
    | apply announcing_bind_l; solve [announce]
    | apply announcing_bind_r ]).

Section Operations.

Context {io : RooIo} {pf : Platform}.

Lemma steady_notify : steady Channel_notify.
Proof. unfold Channel_notify. settle. Qed.

#[local] Hint Resolve steady_notify : roo.

Lemma steady_trySend now draw now' env : steady (Channel_trySend now draw now' env).
Proof.
  assert (Hb : ∀ n env next, steady (Channel_burst n env next)).
  { induction n; intros; cbn [Channel_burst]; settle. }
  assert (Hp : ∀ p, steady (send_packet p)) by (intros []; cbn; settle).
  unfold Channel_trySend, Channel_conn. settle.
Qed.

Lemma announcing_abort : announcing Channel_abort.
Proof. unfold Channel_abort. announce. Qed.

Lemma announcing_peer_reset : announcing Channel_peer_reset.
Proof.
  unfold Channel_peer_reset. do 3 (apply announcing_bind_r; intros ?). apply announcing_bind_l.
  destruct (negb _).
  - do 2 (apply announcing_bind_r; intros ?). apply announcing_bind_l, announcing_emit.
  - announce.
Qed.

Lemma steady_call fn : steady (call_disconnect_fn fn).
Proof. destruct fn; cbn; settle. Qed.

Lemma announces_handshake_connecting seq pid ack want size :
  announces (Channel_handshake_connecting seq pid ack want size).
Proof.
  unfold Channel_handshake_connecting. apply announces_bind_l; [settle|]. intros my_id.
  destruct (_ && _); [apply steady_announces; settle|]. apply announcing_announces. destruct (_ =? _).
  - apply announcing_bind_r. intros fn. apply announcing_bind_l, announcing_abort.
  - do 7 (apply announcing_bind_r; intros ?). apply announcing_bind_l, announcing_emit.
Qed.

Lemma announces_handshake_connected pid ack want size : announces (Channel_handshake_connected pid ack want size).
Proof.
  unfold Channel_handshake_connected. apply announces_bind_l; [settle|]. intros peer.
  destruct (_ && _); [apply announcing_announces, announcing_bind_l, announcing_peer_reset|].
  do 3 (apply announces_bind_l; [settle|intros ?]). cbv zeta. apply announces_bind_r; [|settle].
  apply announces_when, announcing_announces. do 3 (apply announcing_bind_r; intros ?). apply announcing_emit.
Qed.

Lemma announces_handshake seq pid ack want size : announces (Channel_handleHandshakePacket seq pid ack want size).
Proof.
  pose proof steady_call. unfold Channel_handleHandshakePacket. do 2 (apply announces_bind_l; [settle|intros ?]).
  destruct (_ && _); [apply steady_announces; settle|]. apply announces_bind_l; [settle|]. intros st.
  apply announces_bind_r; [|intros [? ?]; settle].
  destruct st; auto using announces_handshake_connecting, announces_handshake_connected; apply steady_announces; settle.
Qed.

Lemma announces_packetReceived buf : announces (Channel_packetReceived buf).
Proof.
  unfold Channel_packetReceived. cbv zeta. destruct (_ || _); [apply steady_announces; settle|].
  destruct (GetPacketType _); try solve [apply steady_announces; settle].
  do 3 (match goal with |- announces (if ?b then _ else _) => destruct b end; [apply steady_announces; settle|]).
  apply announces_bind_r; [apply announces_handshake|settle].
Qed.

Lemma announces_connect fn draws start : announces (Channel_connect fn draws start).
Proof.
  apply announcing_announces. unfold Channel_connect. do 11 (apply announcing_bind_r; intros ?).
  apply announcing_bind_l, announcing_emit.
Qed.

Lemma announces_disconnect id : announces (Channel_disconnect id).
Proof.
  unfold Channel_disconnect. apply announces_bind_l; [settle|]. intros my_id.
  destruct (negb _); [apply steady_announces; settle|]. apply announcing_announces. announce.
Qed.

Lemma ch_exec_announces c e es c' :
  ch_exec c e = Some (es, c') → status_key c' = status_key c ∨ notifies es = true.
Proof.
  assert (Heff : ∀ {A} (m : ChM A), announces m → ch_effects m c = Some (es, c') →
    status_key c' = status_key c ∨ notifies es = true).
  { intros A m Hm. unfold ch_effects. intros H. inv_bind H. destruct p as [[a es1] c1]. injection H as <- <-.
    by eapply Hm. }
  destruct e; cbn [ch_exec]; apply Heff; auto using announces_connect, announces_disconnect, announces_packetReceived;
    apply steady_announces; auto using steady_trySend;
    unfold Channel_write, Channel_write_round, Channel_tryWrite, Channel_read, Channel_tryRead,
      Channel_peek, Channel_availableForRead, Channel_flush, Channel_close, Channel_closeInput;
    pose proof steady_notify; settle.
Qed.

(** ** The contract *)

Lemma await_run_app id es es' s s' :
  await_run id s (es ++ es') = Some s' ↔ ∃ s1, await_run id s es = Some s1 ∧ await_run id s1 es' = Some s'.
Proof.
  revert s. induction es as [|e es IH]; intros s; cbn.
  - split; [by exists s|]. by intros (s1 & [= ->] & ?).
  - destruct (await_exec id s e) as [s1|]; cbn; [apply IH|]. split; [done|by intros (? & ? & _)].
Qed.

(** The thread sleeps only while the link is connecting, and was told why it returns. *)
Record await_ok (id : Z) (s0 : Channel * awaiter) (es : list await_event) (c : Channel) (w : awaiter) : Prop := {
  aw_asleep : w = Asleep → Channel_getLinkStatusInternal c id = kConnecting;
  aw_timeout : w = AtTest true ∨ w = AwaitReturned false → AwaitTimeout ∈ es;
  aw_true : w = AwaitReturned true → ∃ es1 c1 w1, es1 `prefix_of` es
    ∧ await_run id s0 es1 = Some (c1, w1) ∧ Channel_getLinkStatusInternal c1 id ≠ kConnecting;
}.

Lemma await_step_ok id s0 es c w e c' w' :
  await_run id s0 es = Some (c, w) → await_ok id s0 es c w → await_exec id (c, w) e = Some (c', w') →
  await_ok id s0 (es ++ [e]) c' w'.
Proof.
  intros Hrun [Ha Ht Hr] Hex.
  assert (Hkeep : c' = c → w' = w → await_ok id s0 (es ++ [e]) c' w').
  { intros -> ->. constructor; [done| |].
    - intros Hw. apply elem_of_app. left. by apply Ht.
    - intros (es1 & c1 & w1 & Hp & ? & ?)%Hr. exists es1, c1, w1. split; [by apply prefix_app_r|done]. }
  assert (Hnew : ∀ b, w' = AtTest b → (b = true → e = AwaitTimeout ∨ w = AtTest true) → await_ok id s0 (es ++ [e]) c' w').
  { intros b -> Hb. constructor; [done| |done]. intros [[= ->]|?]; [|done]. apply elem_of_app.
    destruct (Hb eq_refl) as [->|?]; [right; by apply list_elem_of_singleton|left; auto]. }
  destruct e as [| | |e]; cbn [await_exec] in Hex.
  - injection Hex as <- <-. destruct w as [b| |r]; try by apply Hkeep.
    unfold Channel_awaitConnected_for. destruct b; [|case_decide as Hst].
    + constructor; [done| |done]. intros _. apply elem_of_app. left. auto.
    + constructor; [done|by intros [?|?]|done].
    + constructor; [done|by intros [?|?]|]. intros _. exists es, c, (AtTest false).
      split; [by apply prefix_app_r|done].
  - injection Hex as <- <-. destruct w; try by apply Hkeep. by apply (Hnew true); [|left].
  - injection Hex as <- <-. destruct w; try by apply Hkeep. by apply (Hnew false).
  - inv_bind Hex. destruct p as [es1 c1]. injection Hex as <- <-. destruct w as [b| |r].
    + apply (Hnew b); [done|]. intros ->. by right.
    + destruct (notifies es1) eqn:Hn; [by apply (Hnew false)|]. constructor; [|by intros [?|?]|done].
      intros _. destruct (ch_exec_announces _ _ _ _ E) as [Hk|?]; [|congruence].
      rewrite (status_key_status _ _ id Hk). auto.
    + constructor; [done| |].
      * intros Hw. apply elem_of_app. left. by apply Ht.
      * intros (es2 & c2 & w2 & Hp & ? & ?)%Hr. exists es2, c2, w2. split; [by apply prefix_app_r|done].
Qed.

(** C29: awaitConnected neither sleeps on nor returns early. While operations of the channel
    happen in any order around a thread in [awaitConnected], with spurious wake-ups and,
    when it was given a timeout, its expiry: the thread is asleep only while its link is
    connecting, whatever connected, broke or replaced it in the meantime; once it is not,
    the thread has returned, or does at its next step without any further notification. It
    returns [true] only if the link was connected, broken or idle at some time since
    the call, and [false] only after the timeout. *)
Theorem Channel_awaitConnected_wakes (id : Z) (c0 c : Channel) (w : awaiter) (es : list await_event)
    (Hrun : await_run id (c0, AtTest false) es = Some (c, w)) :
  (w = Asleep → Channel_getLinkStatusInternal c id = kConnecting)
  ∧ (Channel_getLinkStatusInternal c id ≠ kConnecting →
     ∃ result, await_exec id (c, w) AwaitTest = Some (c, AwaitReturned result))
  ∧ (w = AwaitReturned true → ∃ es1 c1 w1, es1 `prefix_of` es
      ∧ await_run id (c0, AtTest false) es1 = Some (c1, w1) ∧ Channel_getLinkStatusInternal c1 id ≠ kConnecting)
  ∧ (w = AwaitReturned false → AwaitTimeout ∈ es).
Proof.
  assert (Hok : await_ok id (c0, AtTest false) es c w).
  { revert c w Hrun. induction es as [|e es IH] using rev_ind; intros c w Hrun.
    - injection Hrun as <- <-. by constructor; [|intros [?|?]|].
    - apply await_run_app in Hrun as ([c1 w1] & Hrun & Hex). cbn in Hex. inv_bind Hex. injection Hex as ->.
      eapply await_step_ok; eauto. }
  destruct Hok as [Ha Ht Hr]. split; [done|]. split; [|split; [done|auto]].
  intros Hne. cbn. destruct w as [b| |r]; [|by destruct (Hne (Ha eq_refl))|by exists r].
  unfold Channel_awaitConnected_for. destruct b; [by exists false|]. rewrite decide_False by done. by exists true.
Qed.

End Operations.

(** ** Witness *)

(** A thread waits on stream 7, which another thread then replaces by stream 9. *)
Lemma Channel_awaitConnected_wakes_witness :
  ∃ c c', chan_demo 7 5000 = Some c
    ∧ await_run 7 (c, AtTest false) [AwaitTest; AwaitChannel (ChConnect None [9] 100)] = Some (c', AtTest false)
    ∧ Channel_getLinkStatusInternal c 7 = kConnecting
    ∧ ∃ result, await_exec 7 (c', AtTest false) AwaitTest = Some (c', AwaitReturned result).
Proof.
  set (es := [AwaitTest; AwaitChannel (ChConnect None [9] 100)]).
  assert (Hf : ∃ c c', chan_demo 7 5000 = Some c ∧ await_run 7 (c, AtTest false) es = Some (c', AtTest false)
    ∧ Channel_getLinkStatusInternal c 7 = kConnecting ∧ Channel_getLinkStatusInternal c' 7 = kBroken).
  { assert (Hfacts : (c ← chan_demo 7 5000; '(c', w) ← await_run 7 (c, AtTest false) es;
        Some (w, Channel_getLinkStatusInternal c 7, Channel_getLinkStatusInternal c' 7))
      = Some (AtTest false, kConnecting, kBroken)) by (vm_compute; reflexivity).
    inv_bind Hfacts. inv_bind Hfacts. destruct p as [c' w]. injection Hfacts as -> H1 H2. by exists c, c'. }
  destruct Hf as (c & c' & Hc & Hrun & H1 & H2). exists c, c'. split; [exact Hc|]. split; [exact Hrun|]. split; [exact H1|].
  destruct (Channel_awaitConnected_wakes 7 c c' (AtTest false) es Hrun) as (_ & Hret & _).
  apply Hret. rewrite H2. discriminate.
Defined.
