(* ===== verification/LinkDelivery.v ===== *)
(** * LinkDelivery: a transmitter and a receiver over an unreliable network

    The two halves of [link/internal] joined by a network, with the packets as
    bytes: what [Transmitter::send] returns reaches [Receiver::handleDataPacket]
    through the header parsing of [Channel::packetReceived], and what
    [Receiver::ack] and [Receiver::updateRecvHimark] return reaches
    [Transmitter::ack] and [Transmitter::updateRecvHimark] the same way. The network
    loses, repeats and reorders data packets; it loses acknowledgments and flow-control
    packets but does not reorder them. The writer may close the stream. *)

From S2P Require Import Prelude.
From S2P Require Import SeqNum.
From S2P Require Import RingBuffer.
From S2P Require Import RooIo.
From S2P Require Import Protocol.
From S2P Require Import Buffers.
From S2P Require Import Transmitter.
From S2P Require Import TransmitterSpec.
From S2P Require Import TransmitterProofs.
From S2P Require Import TransmitterCorrect.
From S2P Require Import TransmitterLive.
From S2P Require Import TransmitterSession.
From S2P Require Import Receiver.
From S2P Require Import ReceiverProofs.
From S2P Require Import ReceiverCorrect.
From S2P Require Import ThreadSafe.
From S2P Require Import Channel.

Local Open Scope Z_scope.
Local Open Scope roo_scope.

(** The two ends, the data packets ever sent, with their positions, the packets on the
    way back, oldest first, and, as history, the positions of the first packet of
    each window, the bytes written and read, and, once the writer has closed, the position
    that ends the stream. *)
Record Net := mkNet {
  nt_tx : Transmitter;
  nt_rx : Receiver;
  nt_data : list (Z * list byte);
  nt_back : list (list byte);
  nt_tx_base : Z;
  nt_rx_base : Z;
  nt_written : list byte;
  nt_read : list byte;
  nt_fin : option Z;
}.

Inductive net_event :=
  | NetWrite (buf : list byte)
  | NetFlush
  | NetClose
  | NetSend (now draw next_send_micros : Z)
  | NetDeliver (i : nat)
  | NetRead (count : Z)
  | NetAck
  | NetRecvHimark (now next_send_micros : Z)
  | NetDeliverBack (i : nat)
  | NetLoseBack (i : nat).

Section Operations.

Context {io : RooIo} {pf : Platform}.

Definition packet_header (packet : list byte) : Z := LoadBeU16 (take 2 packet).

(** The data part of [Channel::packetReceived]. *)
Definition net_receive_data (packet : list byte) (r : Receiver) : option Receiver :=
  let header := packet_header packet in
  let len := Z.of_nat (length packet) in
  match GetPacketType header with
  | kDataPacket =>
      if len =? 2 then Some r
      else
        '(_, _, r) ← Receiver_handleDataPacket r (GetPacketControlBit header) (Z.land header 0x0FFF)
                       (drop 2 packet) (len - 2) false;
        Some r
  | kFinPacket =>
      '(_, _, r) ← Receiver_handleDataPacket r (GetPacketControlBit header) (Z.land header 0x0FFF)
                     (drop 2 packet) (len - 2) true;
      Some r
  | _ => Some r
  end.

(** The acknowledgment and flow-control part. *)
Definition net_receive_back (packet : list byte) (t : Transmitter) : option Transmitter :=
  let header := packet_header packet in
  let len := Z.of_nat (length packet) in
  match GetPacketType header with
  | kDataAckPacket =>
      '(_, t) ← Transmitter_ack t (GetPacketControlBit header) (Z.land header 0x0FFF) (drop 2 packet);
      Some t
  | kFlowControlPacket =>
      if negb (len =? 2) then Some t
      else '(_, t) ← Transmitter_updateRecvHimark t (GetPacketControlBit header) (Z.land header 0x0FFF);
           Some t
  | _ => Some t
  end.

(** The position that the 12 bits of a packet stand for, in a window that starts at
    [base]. *)
Definition wire_position (base : Z) (packet : list byte) : Z :=
  base + (Z.land (packet_header packet) 0x0FFF - base) mod 4096.

Definition net_with_tx (t : Transmitter) (n : Net) : Net :=
  mkNet t (nt_rx n) (nt_data n) (nt_back n)
    (nt_tx_base n + SeqNum_dist (rb_begin (tx_out_ring t)) (rb_begin (tx_out_ring (nt_tx n))))
    (nt_rx_base n) (nt_written n) (nt_read n) (nt_fin n).

Definition net_with_rx (r : Receiver) (n : Net) : Net :=
  mkNet (nt_tx n) r (nt_data n) (nt_back n) (nt_tx_base n)
    (nt_rx_base n + SeqNum_dist (rb_begin (rx_in_ring r)) (rb_begin (rx_in_ring (nt_rx n))))
    (nt_written n) (nt_read n) (nt_fin n).

Definition net_send_data (packet : list byte) (n : Net) : Net :=
  mkNet (nt_tx n) (nt_rx n)
    (match packet with [] => nt_data n | _ => (wire_position (nt_tx_base n) packet, packet) :: nt_data n end)
    (nt_back n) (nt_tx_base n) (nt_rx_base n) (nt_written n) (nt_read n) (nt_fin n).

Definition net_send_back (packet : list byte) (n : Net) : Net :=
  mkNet (nt_tx n) (nt_rx n) (nt_data n)
    (match packet with [] => nt_back n | _ => nt_back n ++ [packet] end)
    (nt_tx_base n) (nt_rx_base n) (nt_written n) (nt_read n) (nt_fin n).

Definition net_log (written read : list byte) (n : Net) : Net :=
  mkNet (nt_tx n) (nt_rx n) (nt_data n) (nt_back n) (nt_tx_base n) (nt_rx_base n)
    (nt_written n ++ written) (nt_read n ++ read) (nt_fin n).

(** Delivering the [i]-th packet on the way back loses those before it. *)
Definition net_drop_back (i : nat) (n : Net) : Net :=
  mkNet (nt_tx n) (nt_rx n) (nt_data n) (drop (S i) (nt_back n)) (nt_tx_base n) (nt_rx_base n)
    (nt_written n) (nt_read n) (nt_fin n).

(** The stream ends behind what is queued when it is first closed. *)
Definition net_end (n : Net) : option Z :=
  match nt_fin n with
  | None => Some (nt_tx_base n + RingBuffer_slotsUsed (tx_out_ring (nt_tx n)))
  | Some f => Some f
  end.

Definition net_with_fin (fin : option Z) (n : Net) : Net :=
  mkNet (nt_tx n) (nt_rx n) (nt_data n) (nt_back n) (nt_tx_base n) (nt_rx_base n)
    (nt_written n) (nt_read n) fin.

Definition net_exec (n : Net) (e : net_event) : option Net :=
  match e with
  | NetWrite buf =>
      '(count, _, t) ← Transmitter_tryWrite (nt_tx n) buf;
      Some (net_log (take (Z.to_nat count) buf) [] (net_with_tx t n))
  | NetFlush => '(_, t) ← Transmitter_flush (nt_tx n); Some (net_with_tx t n)
  | NetClose => t ← Transmitter_close (nt_tx n); Some (net_with_fin (net_end n) (net_with_tx t n))
  | NetSend now draw next =>
      '(packet, _, t) ← Transmitter_send (nt_tx n) now draw next;
      Some (net_send_data packet (net_with_tx t n))
  | NetDeliver i =>
      match nt_data n !! i with
      | None => Some n
      | Some (_, packet) => r ← net_receive_data packet (nt_rx n); Some (net_with_rx r n)
      end
  | NetRead count =>
      '(bytes, _, r) ← Receiver_tryRead (nt_rx n) count;
      Some (net_log [] bytes (net_with_rx r n))
  | NetAck => '(packet, r) ← Receiver_ack (nt_rx n); Some (net_send_back packet (net_with_rx r n))
  | NetRecvHimark now next =>
      let '(packet, _, r) := Receiver_updateRecvHimark (nt_rx n) now next in
      Some (net_send_back packet (net_with_rx r n))
  | NetDeliverBack i =>
      match nt_back n !! i with
      | None => Some n
      | Some packet => t ← net_receive_back packet (nt_tx n); Some (net_drop_back i (net_with_tx t n))
      end
  | NetLoseBack i => Some (net_drop_back i n)
  end.

(** What the environment owes: random draws in range, counts that are not negative, and
    a network that does not deliver a data packet so late that its 12 bits are
    ambiguous: not once the receiver's window has moved on by more than 2048 packets,
    half the range of the numbers ([Receiver_late_copy] is what happens otherwise). That
    the packets on the way back are delivered in order, if at all, is built into
    [NetDeliverBack] ([Transmitter_overtaken_ack] is why). *)
Definition net_env (n : Net) (e : net_event) : Prop :=
  match e with
  | NetSend _ draw _ => 0 ≤ draw ≤ RANDOM_INTEGER_MAX
  | NetDeliver i => ∀ p packet, nt_data n !! i = Some (p, packet) → nt_rx_base n - 2048 ≤ p
  | NetRead count => 0 ≤ count
  | _ => True
  end.

(** The size of the receiver's window. *)
Definition rx_cap (r : Receiver) : Z := 2 ^ rb_log2 (rx_in_ring r).

(** A connection that has just been established: both ends at the same position, with
    opposite control bits, and the transmitter with credit for the whole window. *)
Record net_connected (n : Net) (start : Z) : Prop := {
  nc_tx : tx_inv (nt_tx n) start start (start + rx_cap (nt_rx n)) start;
  nc_tx_state : tx_state (nt_tx n) = TkConnected;
  nc_tx_eos : tx_end_of_stream (nt_tx n) = false;
  nc_peer : tx_peer_receive_buffer_size (nt_tx n) = rx_cap (nt_rx n);
  nc_rx : rx_ready (nt_rx n) start;
  nc_bits : tx_control_bit (nt_tx n) = negb (rx_control_bit (nt_rx n));
  nc_empty : nt_data n = [] ∧ nt_back n = [] ∧ nt_written n = [] ∧ nt_read n = [];
  nc_bases : nt_tx_base n = start ∧ nt_rx_base n = start;
  nc_fin : nt_fin n = None;
}.

Inductive net_runs (start : Z) : Net → Prop :=
  | net_runs_start n : net_connected n start → net_runs start n
  | net_runs_step n e n' :
      net_runs start n → net_env n e → net_exec n e = Some n' → net_runs start n'.

End Operations.

(** ** What the network carries *)

(** The body of the packet sent for position [p]. A position that was not sent is given a
    body that no packet can have, so that a receiver that holds [p] can only have got it
    from the network. *)
Fixpoint wire_peer (data : list (Z * list byte)) (p : Z) : list byte :=
  match data with
  | [] => replicate 249 0
  | (q, packet) :: data => if decide (p = q) then drop 2 packet else wire_peer data p
  end.

Definition tagged (data : list (Z * list byte)) (p : Z) : Prop := ∃ packet, (p, packet) ∈ data.

Lemma wire_peer_untagged data p : ¬ tagged data p → wire_peer data p = replicate 249 0.
Proof.
  induction data as [|[q packet] data IH]; intros Hn; [done|]. cbn [wire_peer].
  case_decide as Heq; [subst; destruct Hn; exists packet; by left|].
  apply IH. intros [pk Hpk]. destruct Hn. exists pk. by right.
Qed.

Lemma tagged_short data p : (length (wire_peer data p) ≤ 248)%nat → tagged data p.
Proof.
  intros Hlen. destruct (decide (p ∈ data.*1)) as [Hin|Hout].
  - apply list_elem_of_fmap in Hin. destruct Hin as ([q packet] & -> & Hin). by exists packet.
  - rewrite wire_peer_untagged, length_replicate in Hlen; [lia|].
    intros [packet Hin]. apply Hout. apply list_elem_of_fmap. by exists (p, packet).
Qed.

(** A position stands for one packet only. *)
Definition wire_functional (data : list (Z * list byte)) : Prop :=
  ∀ p packet packet', (p, packet) ∈ data → (p, packet') ∈ data → packet = packet'.

Lemma wire_functional_tail e data : wire_functional (e :: data) → wire_functional data.
Proof. intros Hf p packet packet' Hin Hin'. apply (Hf p); by right. Qed.

Lemma wire_peer_tagged data p packet :
  wire_functional data → (p, packet) ∈ data → wire_peer data p = drop 2 packet.
Proof.
  induction data as [|[q pk] data IH]; intros Hf Hin; [by apply not_elem_of_nil in Hin|].
  cbn [wire_peer]. case_decide as Heq.
  - subst. by rewrite (Hf q packet pk); [|done|left].
  - apply IH; [by eapply wire_functional_tail|].
    apply elem_of_cons in Hin. destruct Hin as [[=]|]; [congruence|done].
Qed.

Lemma wire_peer_grow data e p :
  wire_functional (e :: data) → tagged data p → wire_peer (e :: data) p = wire_peer data p.
Proof.
  intros Hf [packet Hin]. rewrite (wire_peer_tagged (e :: data) p packet); [|done|by right].
  symmetry. apply wire_peer_tagged; [|done]. by eapply wire_functional_tail.
Qed.

(** ** The receiver depends on what it holds only *)

Section Peer.

Context {io : RooIo} {pf : Platform}.
Context (peer peer' : Z → list byte) (fin : option Z).

Lemma peer_stream_ext B U :
  (∀ p, B ≤ p < U → peer' p = peer p) → peer_stream peer' B U = peer_stream peer B U.
Proof.
  intros Heq. unfold peer_stream. f_equal. apply list_fmap_ext. intros i p Hp.
  apply Heq. apply lookup_seqZ in Hp. lia.
Qed.

Lemma rx_sys_ext start r B out E U :
  rx_sys peer fin start r B out E U →
  (∀ p, B ≤ p < E → rx_has r p → peer' p = peer p) →
  (∀ p, start ≤ p < U → peer' p = peer p) →
  rx_sys peer' fin start r B out E U.
Proof.
  intros [[] ? ? Hs Hout] Hhas Heq. constructor; auto.
  - constructor; auto. intros p b Hp Hb Hty. rewrite Hhas; [eauto|done|by exists b].
  - unfold rx_unread in *. rewrite !peer_stream_ext; [done|intros; apply Heq; lia..].
Qed.

(** What the receiver holds fits a buffer. *)
Lemma rx_has_short r B E U p :
  rx_inv peer fin r B E U → B ≤ p < E → rx_has r p → (length (peer p) ≤ 248)%nat.
Proof.
  intros Hinv Hp (b & Hb & Hty). destruct (ri_content _ _ _ _ _ _ Hinv p b Hp Hb Hty) as [<- _].
  assert (Hwb : in_buffer_wf b).
  { eapply Forall_lookup_1, Hb. apply (rw_buffers _ _ _ (ri_wf _ _ _ _ _ _ Hinv)). }
  pose proof (length_InBuffer_bytes b Hwb). pose proof (ibw_size _ Hwb). lia.
Qed.

(** The stream may turn out to end behind all that was seen of it. *)
Lemma rx_sys_close start r B out E U f :
  rx_sys peer None start r B out E U → E ≤ f → rx_sys peer (Some f) start r B out E U.
Proof.
  intros [[] ? ? Hs Hout] HE. constructor; auto.
  constructor; auto.
  - intros p b Hp Hb Hty. destruct (ri_content p b Hp Hb Hty) as [? Ht]. split; [done|].
    unfold rx_type in *. rewrite decide_False in * by (intros [=]; lia). done.
  - intros f' [= <-]. lia.
  - intros Hc. by specialize (ri_closed Hc).
  - intros Hsc. split; [intros He; by apply ri_eos in He|intros [= ->]; lia].
Qed.

(** Asking for all that is unread returns it. *)
Lemma rx_tryRead_all r B E U :
  rx_inv peer fin r B E U → rx_self_closed r = false → rx_state r = RkConnected →
  ∃ ready r', Receiver_tryRead r (Z.of_nat (length (rx_unread peer r B U)))
    = Some (rx_unread peer r B U, ready, r').
Proof.
  intros Hinv Hsc Hst. set (l := rx_unread peer r B U).
  destruct (rx_tryRead_spec peer fin r B E U (Z.of_nat (length l)) Hinv Hsc Hst ltac:(lia))
    as (bytes & ready & r' & B' & Hr & _ & _ & _ & Hcat & Hle & Hall & _). fold l in Hcat.
  exists ready, r'. rewrite Hr. do 3 f_equal. rewrite <- Hcat. symmetry.
  assert (rx_unread peer r' B' U = []) as ->; [|apply app_nil_r].
  pose proof (f_equal length Hcat) as Hl. rewrite length_app in Hl. apply nil_length_inv.
  destruct (decide (Z.of_nat (length bytes) < Z.of_nat (length l))) as [Hlt|]; [|lia].
  rewrite (Hall Hlt). unfold rx_unread. by rewrite peer_stream_nil, drop_nil.
Qed.

End Peer.

(** ** The packets on their way *)

Section Wire.

Context {io : RooIo} {io_laws : RooIoLaws} {pf : Platform} {pf_laws : PlatformLaws}.

Definition data_packet (fin : option Z) (cb : bool) (p : Z) (body : list byte) : list byte :=
  StoreBeU16 (FormatPacketHeader (u16 p) (stream_type fin p) cb) ++ body.

Lemma header_split seq type cb body :
  take 2 (StoreBeU16 (FormatPacketHeader seq type cb) ++ body)
    = StoreBeU16 (FormatPacketHeader seq type cb)
  ∧ drop 2 (StoreBeU16 (FormatPacketHeader seq type cb) ++ body) = body
  ∧ length (StoreBeU16 (FormatPacketHeader seq type cb) ++ body) = (2 + length body)%nat.
Proof using io_laws.
  assert (Hl : length (StoreBeU16 (FormatPacketHeader seq type cb)) = 2%nat)
    by exact (length_StoreBeU16 _ (FormatPacketHeader_range _ _ _)).
  rewrite length_app, Hl. split; [by apply take_app_length'|]. split; [by apply drop_app_length'|done].
Qed.

Lemma header_read seq type cb body :
  packet_header (StoreBeU16 (FormatPacketHeader seq type cb) ++ body) = FormatPacketHeader seq type cb.
Proof using io_laws.
  unfold packet_header. destruct (header_split seq type cb body) as (-> & _).
  apply LoadBeU16_Store, FormatPacketHeader_range.
Qed.

Lemma u16_mod4096 p : u16 p mod 4096 = p mod 4096.
Proof. change 4096 with (2 ^ 12). by apply u16_mod_pow2. Qed.

(** The data packets: one body for each position, the one in the queue as long as the
    packet is queued; the body is empty at the end of the stream only. *)
Record wire_ok (fin : option Z) (data : list (Z * list byte)) (t : Transmitter) (B E : Z) (cb : bool) : Prop := {
  wo_functional : wire_functional data;
  wo_shape : ∀ p packet, (p, packet) ∈ data →
    p < E ∧ packet = data_packet fin cb p (drop 2 packet) ∧ (length (drop 2 packet) ≤ 248)%nat
    ∧ (drop 2 packet = [] ↔ fin = Some p);
  wo_queued : ∀ p packet, (p, packet) ∈ data → B ≤ p → tx_holds t p (drop 2 packet);
}.

Lemma wire_step fin data t t' B B' E E' cb bs :
  wire_ok fin data t B E cb → tx_step t t' B' E E' bs → B ≤ B' → wire_ok fin data t' B' E' cb.
Proof.
  intros [Hf Hsh Hq] [_ _ HE Hh _] HB. constructor; [done|..]; intros p packet Hin.
  - destruct (Hsh p packet Hin) as (? & ? & ?). split; [lia|done].
  - intros Hp. destruct (Hsh p packet Hin) as (? & _). apply Hh; [lia|]. apply Hq; [done|lia].
Qed.

Lemma wire_send fin data t B E cb p body :
  wire_ok fin data t B E cb → B ≤ p < E → tx_holds t p body → (length body ≤ 248)%nat →
  (body = [] ↔ fin = Some p) → wire_ok fin ((p, data_packet fin cb p body) :: data) t B E cb.
Proof using io_laws.
  intros [Hf Hsh Hq] Hp Hh Hlen Hend. unfold data_packet in *.
  destruct (header_split (u16 p) (stream_type fin p) cb body) as (_ & Hd & _).
  assert (Hsame : ∀ packet, (p, packet) ∈ data → packet = data_packet fin cb p body).
  { intros packet Hin. destruct (Hsh p packet Hin) as (_ & Heq & _).
    destruct (Hq p packet Hin ltac:(lia)) as (b & Hb & Hbody & _).
    destruct Hh as (b2 & Hb2 & Hbody2 & _). rewrite Heq. unfold data_packet. congruence. }
  constructor.
  - intros q k k' [Heq|Hin]%elem_of_cons [Heq'|Hin']%elem_of_cons; simplify_eq;
      [done|by rewrite (Hsame _ Hin')|by rewrite (Hsame _ Hin)|by eapply Hf].
  - intros q k [[= -> ->]|Hin]%elem_of_cons; [|by apply Hsh]. rewrite Hd. split; [lia|done].
  - intros q k [[= -> ->]|Hin]%elem_of_cons HB; [by rewrite Hd|by apply Hq].
Qed.

(** Closing does not touch what was sent. *)
Lemma wire_close data t B E cb : wire_ok None data t B E cb → wire_ok (Some E) data t B E cb.
Proof.
  intros [Hf Hsh Hq]. constructor; [done| |done]. intros p packet Hin.
  destruct (Hsh p packet Hin) as (Hp & Heq & Hlen & Hend). split; [done|].
  unfold data_packet, stream_type in *. rewrite decide_False in * by (intros [=]; lia).
  split; [done|]. split; [done|]. rewrite Hend. split; [done|]. intros [=]. lia.
Qed.

(** The packets on the way back, in the order they were made, for a transmitter whose window
    starts at [lo] and which holds the positions [A] as acknowledged: a himark is not
    behind the window, nor beyond [top]; an acknowledgment is not behind the window, nor
    beyond [hi], and the position that it says is missing is not one that was
    acknowledged before; and all that is ever acknowledged has arrived. *)
Inductive back_ok (cb : bool) (has : Z → Prop) (top hi : Z) : Z → (Z → Prop) → list (list byte) → Prop :=
  | back_nil lo A : lo ≤ hi → (∀ p, A p → has p) → back_ok cb has top hi lo A []
  | back_flow lo A h rest :
      lo ≤ h ≤ top → back_ok cb has top hi lo A rest →
      back_ok cb has top hi lo A (StoreBeU16 (FormatPacketHeader (u16 h) kFlowControlPacket cb) :: rest)
  | back_ack lo A u bitmap rest :
      lo ≤ u → ¬ A u → (length bitmap ≤ 8)%nat →
      back_ok cb has top hi u (λ p, A p ∨ skips u bitmap p) rest →
      back_ok cb has top hi lo A
        ((StoreBeU16 (FormatPacketHeader (u16 u) kDataAckPacket cb) ++ bitmap) :: rest).

Lemma back_le cb has top hi lo A l : back_ok cb has top hi lo A l → lo ≤ hi.
Proof. induction 1; lia. Qed.

Lemma back_has cb has top hi lo A l : back_ok cb has top hi lo A l → ∀ p, A p → has p.
Proof. induction 1; auto. Qed.

Lemma back_mono cb (has has' : Z → Prop) top top' hi hi' lo A l :
  back_ok cb has top hi lo A l → (∀ p, has p → has' p) → top ≤ top' → hi ≤ hi' →
  ∀ lo' (A' : Z → Prop), lo' ≤ lo → (∀ p, A' p → A p) → back_ok cb has' top' hi' lo' A' l.
Proof.
  intros Hb Hhas Htop Hhi. induction Hb as [lo A ? Hn|lo A h rest Hh _ IH|lo A u bitmap rest Hu Hna Hlen _ IH];
    intros lo' A' Hlo HA; constructor; auto; try lia.
  apply IH; [lia|]. intros p [?|?]; auto.
Qed.

(** Some of them are lost. *)
Lemma back_drop cb has top hi i : ∀ lo A l,
  back_ok cb has top hi lo A l → back_ok cb has top hi lo A (drop i l).
Proof.
  induction i as [|i IH]; intros lo A l Hb; [by rewrite drop_0|].
  destruct Hb as [lo A Hle Hn|lo A h rest _ Hb|lo A u bitmap rest Hle _ _ Hb]; cbn; [by constructor|by apply IH|].
  apply IH. eapply back_mono; [done|done|lia|lia|lia|by left].
Qed.

(** One more is made. *)
Lemma back_snoc cb has top hi lo A l packet :
  back_ok cb has top hi lo A l →
  (∀ lo (A : Z → Prop), lo ≤ hi → (∀ p, A p → has p) → back_ok cb has top hi lo A [packet]) →
  back_ok cb has top hi lo A (l ++ [packet]).
Proof. intros Hb Hp. induction Hb; cbn; [by apply Hp|by constructor..]. Qed.

End Wire.

(** ** The invariant of the half link *)

Section Net.

Context {io : RooIo} {io_laws : RooIoLaws} {pf : Platform} {pf_laws : PlatformLaws}.
Context (start : Z).

(** Position [p] has arrived, when everything before [U] has and the window ends at [Er]. *)
Definition rx_arrived (r : Receiver) (Er U p : Z) : Prop := p < U ∨ (p < Er ∧ rx_has r p).

Definition tx_acks (t : Transmitter) (B E p : Z) : Prop := B ≤ p < E ∧ tx_acked t p.

(** The queue is [B, E), the receiver's window begins at [nt_rx_base n], and everything
    before U has arrived. The credit H does not exceed the room of the receiver, and
    the first packet of the queue is not acknowledged. *)
Record net_inv (n : Net) (B E H F Er U : Z) : Prop := {
  ni_tx : tx_side (nt_fin n) (nt_tx n) B E H F;
  ni_rx : rx_sys (wire_peer (nt_data n)) (nt_fin n) start (nt_rx n) (nt_rx_base n) (nt_read n) Er U;
  ni_bits : tx_control_bit (nt_tx n) = negb (rx_control_bit (nt_rx n));
  ni_base : nt_tx_base n = B;
  ni_wire : wire_ok (nt_fin n) (nt_data n) (nt_tx n) B E (tx_control_bit (nt_tx n));
  ni_window : start ≤ B ≤ U;
  ni_room : Er ≤ E;
  ni_arrived : ∀ p, start ≤ p < U → tagged (nt_data n) p;
  ni_written : nt_written n
    = peer_stream (wire_peer (nt_data n)) start B ++ tx_stream (nt_tx n) B E;
  ni_credit : H ≤ nt_rx_base n + rx_cap (nt_rx n);
  ni_peer : tx_peer_receive_buffer_size (nt_tx n) = rx_cap (nt_rx n);
  ni_front : ¬ tx_acks (nt_tx n) B E B;
  ni_back : back_ok (rx_control_bit (nt_rx n)) (rx_arrived (nt_rx n) Er U)
    (nt_rx_base n + rx_cap (nt_rx n)) U B (tx_acks (nt_tx n) B E) (nt_back n);
}.

Section Facts.

Context (n : Net) (B E H F Er U : Z) (Hn : net_inv n B E H F Er U).

Lemma net_queue_ring : ring_abs (tx_out_ring (nt_tx n)) B E.
Proof using Hn. apply (tw_ring _ _ _ _ (side_wf _ _ _ _ _ _ (ni_tx _ _ _ _ _ _ _ Hn))). Qed.

Lemma net_arrived_queue : U ≤ E.
Proof using Hn.
  pose proof (ni_room _ _ _ _ _ _ _ Hn). pose proof (sy_inv _ _ _ _ _ _ _ _ (ni_rx _ _ _ _ _ _ _ Hn)) as Hinv.
  pose proof (ri_window _ _ _ _ _ _ Hinv). lia.
Qed.

(** A queued packet that was sent is what the network carries for its position. *)
Lemma net_queued_body p : B ≤ p → tagged (nt_data n) p → tx_body (nt_tx n) p = wire_peer (nt_data n) p.
Proof using Hn.
  intros Hp [packet Hin]. pose proof (ni_wire _ _ _ _ _ _ _ Hn) as [Hf _ Hq].
  destruct (Hq p packet Hin Hp) as (b & Hb & Hbody & _). unfold tx_body. rewrite Hb, Hbody.
  symmetry. by apply wire_peer_tagged.
Qed.

Lemma net_queued_sent p : B ≤ p → tagged (nt_data n) p → tx_was_sent (nt_tx n) p.
Proof using Hn.
  intros Hp [packet Hin] b Hb.
  destruct (wo_queued _ _ _ _ _ _ (ni_wire _ _ _ _ _ _ _ Hn) p packet Hin Hp) as (b2 & Hb2 & _ & Hc).
  by replace b with b2 by congruence.
Qed.

(** What the receiver holds came from the network. *)
Lemma net_has_tagged p : nt_rx_base n ≤ p < Er → rx_has (nt_rx n) p → tagged (nt_data n) p.
Proof using Hn.
  intros Hp Hh. apply tagged_short.
  by eapply (rx_has_short _ (nt_fin n)), Hh; [apply (sy_inv _ _ _ _ _ _ _ _ (ni_rx _ _ _ _ _ _ _ Hn))|].
Qed.

End Facts.

Lemma tx_stream_split t B M E :
  B ≤ M ≤ E → tx_stream t B E = tx_stream t B M ++ tx_stream t M E.
Proof.
  intros. unfold tx_stream. replace (E - B) with ((M - B) + (E - M)) by lia.
  rewrite seqZ_app, fmap_app, concat_app by lia. do 4 f_equal. lia.
Qed.

(** The written bytes, split at any position between the window of the transmitter and
    what has arrived. *)
Lemma net_written_split n B E H F Er U M :
  net_inv n B E H F Er U → B ≤ M ≤ U →
  nt_written n = peer_stream (wire_peer (nt_data n)) start M ++ tx_stream (nt_tx n) M E.
Proof.
  intros Hn HM. pose proof (net_arrived_queue _ _ _ _ _ _ _ Hn). pose proof (ni_window _ _ _ _ _ _ _ Hn).
  rewrite (ni_written _ _ _ _ _ _ _ Hn), (tx_stream_split _ B M E) by lia.
  rewrite (peer_stream_app _ start B M), <- app_assoc by lia. f_equal. f_equal.
  unfold tx_stream, peer_stream. f_equal. apply list_fmap_ext. intros i p Hp%lookup_seqZ.
  apply (net_queued_body _ _ _ _ _ _ _ Hn); [lia|]. apply (ni_arrived _ _ _ _ _ _ _ Hn). lia.
Qed.

(** What was read is a prefix of what was written. *)
Lemma net_read_prefix n B E H F Er U : net_inv n B E H F Er U → ∃ rest, nt_written n = nt_read n ++ rest.
Proof.
  intros Hn. pose proof (ni_rx _ _ _ _ _ _ _ Hn) as [_ _ _ _ Hout]. pose proof (ni_window _ _ _ _ _ _ _ Hn).
  rewrite (net_written_split _ _ _ _ _ _ _ U Hn), <- Hout, <- app_assoc by lia. by eexists.
Qed.

(** The end of the stream is fixed once, behind the queue [.., E). *)
Definition fin_step (fin fin' : option Z) (E : Z) : Prop := fin' = fin ∨ fin = None ∧ fin' = Some E.

(** A step of the transmitter. *)
Lemma net_tx_step n B E H F Er U t' B' E' H' F' bs back fin' :
  net_inv n B E H F Er U → tx_side fin' t' B' E' H' F' → tx_step (nt_tx n) t' B' E E' bs →
  fin_step (nt_fin n) fin' E →
  B ≤ B' ≤ U → H' ≤ nt_rx_base n + rx_cap (nt_rx n) → ¬ tx_acks t' B' E' B' →
  back_ok (rx_control_bit (nt_rx n)) (rx_arrived (nt_rx n) Er U)
    (nt_rx_base n + rx_cap (nt_rx n)) U B' (tx_acks t' B' E') back →
  net_inv (mkNet t' (nt_rx n) (nt_data n) back B' (nt_rx_base n) (nt_written n ++ bs) (nt_read n) fin')
    B' E' H' F' Er U.
Proof.
  intros Hn Ho Hst Hfin HB HH Hfront Hback. pose proof (net_written_split _ _ _ _ _ _ _ B' Hn HB) as Hw.
  destruct Hn. pose proof (tp_control _ _ _ _ _ _ Hst) as Hcb. pose proof (tp_grow _ _ _ _ _ _ Hst).
  constructor; cbn; auto; try lia.
  - destruct Hfin as [->|[Hno ->]]; [done|]. rewrite Hno in *. by apply rx_sys_close.
  - by rewrite Hcb.
  - rewrite Hcb. eapply (wire_step _ _ (nt_tx n) _ B); [|done|lia].
    destruct Hfin as [->|[Hno ->]]; [done|]. rewrite Hno in *. by apply wire_close.
  - by rewrite Hw, (tp_stream _ _ _ _ _ _ Hst), app_assoc.
  - by rewrite (tp_peer _ _ _ _ _ _ Hst).
Qed.

Lemma net_tx_base n B E H F Er U fin' t' B' E' H' F' :
  net_inv n B E H F Er U → tx_side fin' t' B' E' H' F' → B ≤ B' ≤ U →
  nt_tx_base n + SeqNum_dist (rb_begin (tx_out_ring t')) (rb_begin (tx_out_ring (nt_tx n))) = B'.
Proof.
  intros Hn Ho HB. pose proof (net_arrived_queue _ _ _ _ _ _ _ Hn).
  pose proof (net_queue_ring _ _ _ _ _ _ _ Hn) as Hr.
  pose proof (tw_ring _ _ _ _ (side_wf _ _ _ _ _ _ Ho)) as Hr'.
  pose proof (ring_size_bounds _ _ _ Hr).
  rewrite (ni_base _ _ _ _ _ _ _ Hn), (ra_begin _ _ _ Hr), (ra_begin _ _ _ Hr'), SeqNum_dist_pos by lia. lia.
Qed.

(** A step of the receiver, which may send [back]. *)
Lemma net_rx_step n B E H F Er U r' Br' Er' U' bytes back :
  net_inv n B E H F Er U →
  rx_sys (wire_peer (nt_data n)) (nt_fin n) start r' Br' (nt_read n ++ bytes) Er' U' →
  rx_control_bit r' = rx_control_bit (nt_rx n) → rb_log2 (rx_in_ring r') = rb_log2 (rx_in_ring (nt_rx n)) →
  U ≤ U' → Er' ≤ E → nt_rx_base n ≤ Br' ≤ U →
  back_ok (rx_control_bit (nt_rx n)) (rx_arrived r' Er' U') (Br' + rx_cap (nt_rx n)) U' B
    (tx_acks (nt_tx n) B E) back →
  net_inv (mkNet (nt_tx n) r' (nt_data n) back (nt_tx_base n) Br' (nt_written n) (nt_read n ++ bytes) (nt_fin n))
    B E H F Er' U'.
Proof.
  intros Hn Hsys Hcb Hlog HU HEr HBr Hback.
  assert (Hcap : rx_cap r' = rx_cap (nt_rx n)) by (unfold rx_cap; by rewrite Hlog).
  destruct Hn. constructor; cbn; rewrite ?Hcap, ?Hcb; auto; try lia.
  intros p Hp. destruct (decide (p < U)); [apply ni_arrived0; lia|].
  pose proof (sy_inv _ _ _ _ _ _ _ _ Hsys) as Hinv. pose proof (ri_window _ _ _ _ _ _ Hinv).
  apply tagged_short. eapply (rx_has_short _ (nt_fin n)); [done|lia|].
  destruct (rx_at_lookup _ _ _ (ri_wf _ _ _ _ _ _ Hinv) p) as (b & Hb & _).
  exists b. split; [done|]. eapply (ri_received _ _ _ _ _ _ Hinv p); [lia|done].
Qed.

Lemma net_rx_base n B E H F Er U r' Br' out Er' U' :
  net_inv n B E H F Er U → rx_sys (wire_peer (nt_data n)) (nt_fin n) start r' Br' out Er' U' →
  nt_rx_base n ≤ Br' ≤ U →
  nt_rx_base n + SeqNum_dist (rb_begin (rx_in_ring r')) (rb_begin (rx_in_ring (nt_rx n))) = Br'.
Proof.
  intros Hn Hsys HB.
  pose proof (sy_inv _ _ _ _ _ _ _ _ (ni_rx _ _ _ _ _ _ _ Hn)) as Hinv.
  pose proof (rw_ring _ _ _ (ri_wf _ _ _ _ _ _ Hinv)) as Hr.
  pose proof (rw_ring _ _ _ (ri_wf _ _ _ _ _ _ (sy_inv _ _ _ _ _ _ _ _ Hsys))) as Hr'.
  pose proof (ring_size_bounds _ _ _ Hr). pose proof (ri_window _ _ _ _ _ _ Hinv).
  rewrite (ra_begin _ _ _ Hr), (ra_begin _ _ _ Hr'), SeqNum_dist_pos by lia. lia.
Qed.

(** A data packet enters the network, tagged with its position. *)
Lemma net_send_data_pos n B E H F Er U p body :
  net_inv n B E H F Er U → B ≤ p < E →
  let packet := data_packet (nt_fin n) (tx_control_bit (nt_tx n)) p body in
  net_send_data packet n
  = mkNet (nt_tx n) (nt_rx n) ((p, packet) :: nt_data n) (nt_back n) (nt_tx_base n) (nt_rx_base n)
      (nt_written n) (nt_read n) (nt_fin n).
Proof using io_laws.
  intros Hn Hp packet.
  assert (Hpos : wire_position (nt_tx_base n) packet = p).
  { unfold wire_position, packet, data_packet. rewrite header_read.
    destruct (packet_header_fields (u16 p) (stream_type (nt_fin n) p) (tx_control_bit (nt_tx n))
      (stream_type_named _ _)) as (_ & _ & ->).
    rewrite u16_mod4096, (ni_base _ _ _ _ _ _ _ Hn), Zminus_mod_idemp_l.
    pose proof (ring_size_bounds _ _ _ (net_queue_ring _ _ _ _ _ _ _ Hn)).
    rewrite Z.mod_small by lia. lia. }
  unfold net_send_data. rewrite Hpos. destruct packet as [|x l] eqn:Hx; [|done].
  apply (f_equal length) in Hx. unfold packet, data_packet in Hx.
  destruct (header_split (u16 p) (stream_type (nt_fin n) p) (tx_control_bit (nt_tx n)) body) as (_ & _ & Hl).
  rewrite Hl in Hx. done.
Qed.

Lemma net_add_packet n B E H F Er U p body :
  net_inv n B E H F Er U → B ≤ p < E → tx_holds (nt_tx n) p body → (length body ≤ 248)%nat →
  (body = [] ↔ nt_fin n = Some p) →
  net_inv (net_send_data (data_packet (nt_fin n) (tx_control_bit (nt_tx n)) p body) n) B E H F Er U.
Proof using io_laws.
  intros Hn Hp Hh Hlen Hend.
  pose proof (wire_send _ _ _ _ _ _ p body (ni_wire _ _ _ _ _ _ _ Hn) Hp Hh Hlen Hend) as Hw.
  rewrite (net_send_data_pos _ _ _ _ _ _ _ p body Hn Hp).
  set (packet := data_packet _ _ _ _) in *. clearbody packet. pose proof (wo_functional _ _ _ _ _ _ Hw) as Hf.
  assert (Htag : ∀ q, tagged (nt_data n) q → tagged ((p, packet) :: nt_data n) q)
    by (intros q [k Hk]; exists k; by right).
  pose proof (net_has_tagged _ _ _ _ _ _ _ Hn) as Hhas. destruct Hn. constructor; cbn [nt_tx nt_rx nt_data
    nt_back nt_tx_base nt_rx_base nt_written nt_read nt_fin]; auto.
  - eapply rx_sys_ext; [done|..]; intros q Hq; [intros Hr|]; apply wire_peer_grow; auto.
  - rewrite ni_written0. f_equal. symmetry. apply peer_stream_ext. intros q Hq.
    apply wire_peer_grow; [done|]. apply ni_arrived0. lia.
Qed.

End Net.

(** ** The events *)

Section Events.

Context {io : RooIo} {io_laws : RooIoLaws} {pf : Platform} {pf_laws : PlatformLaws}.
Context (start : Z).

Definition net_good (n : Net) : Prop := ∃ B E H F Er U, net_inv start n B E H F Er U.

Lemma net_with_tx_good n B E H F Er U t' B' E' H' F' bs back fin' :
  net_inv start n B E H F Er U → tx_side fin' t' B' E' H' F' → tx_step (nt_tx n) t' B' E E' bs →
  fin_step (nt_fin n) fin' E →
  B ≤ B' ≤ U → H' ≤ nt_rx_base n + rx_cap (nt_rx n) → ¬ tx_acks t' B' E' B' →
  back_ok (rx_control_bit (nt_rx n)) (rx_arrived (nt_rx n) Er U)
    (nt_rx_base n + rx_cap (nt_rx n)) U B' (tx_acks t' B' E') back →
  net_inv start (mkNet t' (nt_rx n) (nt_data n) back
      (nt_tx_base n + SeqNum_dist (rb_begin (tx_out_ring t')) (rb_begin (tx_out_ring (nt_tx n))))
      (nt_rx_base n) (nt_written n ++ bs) (nt_read n) fin') B' E' H' F' Er U.
Proof.
  intros Hn Ho Hst Hfin HB HH Hfront Hback.
  rewrite (net_tx_base start n B E H F Er U fin' t' B' E' H' F' Hn Ho HB). by eapply net_tx_step.
Qed.

(** No new acknowledgments. *)
Lemma tx_acks_shrink t t' B E E' p : tx_acks_from t t' B E E' → tx_acks t' B E' p → tx_acks t B E p.
Proof. intros Hf [Hp Ha]. destruct (Hf p Hp Ha). split; [lia|done]. Qed.

(** The transmitter alone: nothing leaves the queue and nothing reaches the network. *)
Lemma net_local_good n B E H F Er U t' E' H' F' bs fin' :
  net_inv start n B E H F Er U → tx_side fin' t' B E' H' F' → tx_step (nt_tx n) t' B E E' bs →
  fin_step (nt_fin n) fin' E →
  tx_acks_from (nt_tx n) t' B E E' → H' ≤ nt_rx_base n + rx_cap (nt_rx n) →
  net_inv start (net_with_fin fin' (net_log bs [] (net_with_tx t' n))) B E' H' F' Er U.
Proof.
  intros Hn Ho Hst Hfin Hacks HH. unfold net_with_fin, net_log, net_with_tx. cbn. rewrite (app_nil_r (nt_read n)).
  pose proof (ni_window _ _ _ _ _ _ _ _ Hn). eapply net_with_tx_good; eauto; [lia| |].
  - intros Ha. apply (ni_front _ _ _ _ _ _ _ _ Hn). by eapply tx_acks_shrink.
  - eapply back_mono; [apply Hn|done|lia|lia|lia|]. intros p. by apply tx_acks_shrink.
Qed.

Lemma net_log_nil n : net_log [] [] n = n.
Proof. unfold net_log. destruct n. cbn. by rewrite !app_nil_r. Qed.

Lemma net_with_fin_same n : net_with_fin (nt_fin n) n = n.
Proof. by destruct n. Qed.

Lemma net_open_good n B E H F Er U t' E' H' F' bs :
  net_inv start n B E H F Er U → tx_side (nt_fin n) t' B E' H' F' → tx_step (nt_tx n) t' B E E' bs →
  tx_acks_from (nt_tx n) t' B E E' → H' ≤ nt_rx_base n + rx_cap (nt_rx n) →
  net_inv start (net_log bs [] (net_with_tx t' n)) B E' H' F' Er U.
Proof.
  intros Hn Ho Hst Hacks HH. rewrite <- (net_with_fin_same (net_log _ _ _)).
  eapply net_local_good; eauto. by left.
Qed.

Lemma net_write_inv n B E H F Er U buf :
  net_inv start n B E H F Er U →
  ∃ n' E', net_exec n (NetWrite buf) = Some n' ∧ net_inv start n' B E' H F Er U.
Proof using io_laws.
  intros Hn. cbn [net_exec].
  destruct (side_write _ _ _ _ _ _ buf (ni_tx _ _ _ _ _ _ _ _ Hn))
    as (k & ready & t' & E' & Hw & _ & Ho & Hst & Ha & _).
  rewrite (bind_step _ _ _ Hw). do 2 eexists. split; [done|]. eapply net_open_good; eauto. apply Hn.
Qed.

Lemma net_flush_inv n B E H F Er U :
  net_inv start n B E H F Er U →
  ∃ t', net_exec n NetFlush = Some (net_with_tx t' n) ∧ net_inv start (net_with_tx t' n) B E H F Er U
    ∧ tx_kept (nt_tx n) t' ∧ tx_flushed t' B E.
Proof using io_laws.
  intros Hn. cbn [net_exec]. pose proof (ni_tx _ _ _ _ _ _ _ _ Hn) as Hside.
  destruct (side_flush _ _ _ _ _ _ Hside) as (r & t' & Hw & Ho & Hst & Ha & Hfl).
  destruct (tx_flush_spec _ _ _ _ _ (side_inv _ _ _ _ _ _ Hside)) as (r2 & t2 & Hw2 & _ & HK & _).
  rewrite Hw in Hw2. injection Hw2 as <- <-. rewrite (bind_step _ _ _ Hw). exists t'. split; [done|].
  split; [|done]. rewrite <- (net_log_nil (net_with_tx _ _)). eapply net_open_good; eauto. apply Hn.
Qed.

(** Closing puts the end of the stream behind what was written; a second time it does nothing. *)
Lemma net_close_inv n B E H F Er U :
  net_inv start n B E H F Er U →
  ∃ n' E', net_exec n NetClose = Some n' ∧ net_inv start n' B E' H F Er U ∧ is_closed (nt_fin n') = true
    ∧ nt_written n' = nt_written n ∧ nt_read n' = nt_read n.
Proof using io_laws.
  intros Hn. cbn [net_exec]. pose proof (ni_tx _ _ _ _ _ _ _ _ Hn) as Hside.
  destruct (side_close _ _ _ _ _ _ Hside) as (t' & E' & Hc & Ho & Hst & Ha & _).
  rewrite (bind_step _ _ _ Hc). do 2 eexists. split; [done|].
  assert (Hend : net_end n = match nt_fin n with None => Some E | Some _ => nt_fin n end).
  { unfold net_end. destruct (nt_fin n); [done|].
    rewrite (ring_slotsUsed _ _ _ (net_queue_ring _ _ _ _ _ _ _ _ Hn)), (ni_base _ _ _ _ _ _ _ _ Hn). f_equal. lia. }
  rewrite Hend. split; [|by destruct (nt_fin n)]. rewrite <- (net_log_nil (net_with_tx _ _)).
  eapply net_local_good; eauto; [|apply Hn]. unfold fin_step. destruct (nt_fin n); auto.
Qed.

(** A packet of the queue that was due is sent, or none is. *)
Lemma net_send_inv n B E H F Er U now draw next :
  net_inv start n B E H F Er U → 0 ≤ draw ≤ RANDOM_INTEGER_MAX →
  ∃ packet next' t' F', Transmitter_send (nt_tx n) now draw next = Some (packet, next', t')
    ∧ net_exec n (NetSend now draw next) = Some (net_send_data packet (net_with_tx t' n))
    ∧ net_inv start (net_send_data packet (net_with_tx t' n)) B E H F' Er U ∧ tx_kept (nt_tx n) t'
    ∧ (packet = []
       ∨ ∃ p, packet ≠ [] ∧ nt_data (net_send_data packet (net_with_tx t' n)) = (p, packet) :: nt_data n
           ∧ tx_handed_out (nt_tx n) t' B E now p).
Proof using io_laws pf_laws.
  intros Hn Hd. cbn [net_exec].
  destruct (side_send _ _ _ _ _ _ now draw next (ni_tx _ _ _ _ _ _ _ _ Hn) Hd)
    as (packet & next' & t' & F' & Hs & Ho & Hst & Ha & HK & Hpk). rewrite (bind_step _ _ _ Hs).
  exists packet, next', t', F'. do 2 (split; [done|]).
  pose proof (net_open_good _ _ _ _ _ _ _ _ _ _ _ _ Hn Ho Hst Ha (ni_credit _ _ _ _ _ _ _ _ Hn)) as Hn'.
  rewrite net_log_nil in Hn'. destruct Hpk as [->|(p & body & Hp & Hlen & Hend & Hh & -> & HO)].
  - unfold net_send_data. split; [exact Hn'|]. split; [done|]. by left.
  - rewrite <- (tp_control _ _ _ _ _ _ Hst). fold (data_packet (nt_fin n) (tx_control_bit t') p body).
    split; [by apply (net_add_packet start _ _ _ _ _ _ _ p body Hn')|]. split; [done|]. right. exists p.
    split; [|split; [exact (f_equal nt_data (net_send_data_pos start _ _ _ _ _ _ _ p body Hn' Hp))|done]].
    intros Hnil%(f_equal length). unfold data_packet in Hnil.
    destruct (header_split (u16 p) (stream_type (nt_fin n) p) (tx_control_bit t') body) as (_ & _ & Hl). rewrite Hl in Hnil. done.
Qed.

(** A data packet reaches the receiver. *)
Lemma net_deliver_inv n B E H F Er U i p packet :
  net_inv start n B E H F Er U → nt_data n !! i = Some (p, packet) → nt_rx_base n - 2048 ≤ p →
  ∃ r' Er' U', net_exec n (NetDeliver i) = Some (net_with_rx r' n)
    ∧ net_inv start (net_with_rx r' n) B E H F Er' U' ∧ U ≤ U'
    ∧ nt_rx_base (net_with_rx r' n) = nt_rx_base n
    ∧ rx_took (nt_rx n) r' (nt_rx_base n) Er Er' p.
Proof using io_laws.
  intros Hn Hi Hold. cbn [net_exec]. rewrite Hi. pose proof (list_elem_of_lookup_2 _ _ _ Hi) as Hin.
  pose proof (ni_wire _ _ _ _ _ _ _ _ Hn) as [Hf Hsh _].
  destruct (Hsh p packet Hin) as (HpE & Hpk & Hlen & Hend).
  pose proof (net_arrived_queue _ _ _ _ _ _ _ _ Hn). pose proof (ni_window _ _ _ _ _ _ _ _ Hn).
  pose proof (ni_room _ _ _ _ _ _ _ _ Hn).
  pose proof (ring_size_bounds _ _ _ (net_queue_ring _ _ _ _ _ _ _ _ Hn)).
  pose proof (sy_inv _ _ _ _ _ _ _ _ (ni_rx _ _ _ _ _ _ _ _ Hn)) as Hinv.
  pose proof (ring_size_bounds _ _ _ (rw_ring _ _ _ (ri_wf _ _ _ _ _ _ Hinv))).
  pose proof (ri_window _ _ _ _ _ _ Hinv).
  pose proof (wire_peer_tagged _ _ _ Hf Hin) as Hbody.
  assert (Hgen : genuine (wire_peer (nt_data n)) (nt_fin n) p (drop 2 packet) (bool_decide (nt_fin n = Some p))).
  { constructor; [done|lia|done|]. intros f Hf2. pose proof (side_fin _ _ _ _ _ _ _ (ni_tx _ _ _ _ _ _ _ _ Hn) Hf2). lia. }
  remember (drop 2 packet) as body eqn:Hdrop. clear Hdrop. subst packet.
  destruct (rx_sys_packet _ _ _ _ _ _ _ _ p body (bool_decide (nt_fin n = Some p)) (ni_rx _ _ _ _ _ _ _ _ Hn))
    as (r' & Er' & U' & Hex & Hsys & HU & Htook); [split; [lia|done]|].
  assert (Hrecv : net_receive_data (data_packet (nt_fin n) (tx_control_bit (nt_tx n)) p body) (nt_rx n) = Some r').
  { cbn [rx_exec] in Hex. inv_bind Hex. destruct p0 as [[ack new] r2]. injection Hex as ->.
    unfold net_receive_data, data_packet. rewrite header_read.
    destruct (packet_header_fields (u16 p) (stream_type (nt_fin n) p) (tx_control_bit (nt_tx n)) (stream_type_named _ _))
      as (-> & -> & ->).
    destruct (header_split (u16 p) (stream_type (nt_fin n) p) (tx_control_bit (nt_tx n)) body) as (_ & -> & ->).
    rewrite u16_mod4096, (ni_bits _ _ _ _ _ _ _ _ Hn).
    replace (Z.of_nat (2 + length body) - 2) with (Z.of_nat (length body)) by lia.
    unfold stream_type. destruct (decide (nt_fin n = Some p)) as [Hfp|Hnf].
    - rewrite bool_decide_true in E0 by done. by rewrite E0.
    - rewrite bool_decide_false in E0 by done.
      assert (length body ≠ 0%nat) by (intros ?%nil_length_inv; tauto).
      rewrite (proj2 (Z.eqb_neq _ 2)), E0 by lia. done. }
  rewrite (bind_step _ _ _ Hrecv). exists r', Er', U'. split; [done|].
  pose proof (net_rx_base start n B E H F Er U _ _ _ _ _ Hn Hsys ltac:(lia)) as Hbase.
  split; [|split; [done|split; [exact Hbase|done]]]. unfold net_with_rx. rewrite Hbase.
  rewrite <- (app_nil_r (nt_read n)). pose proof (rt_grow _ _ _ _ _ _ Htook).
  eapply net_rx_step; eauto; [by rewrite app_nil_r|apply Htook|apply Htook|lia|lia|].
  eapply back_mono; [apply Hn| |lia|done|lia|done]. intros q [?|[Hq Hh]]; [left; lia|].
  destruct (decide (q < U')); [by left|right]. pose proof (rt_grow _ _ _ _ _ _ Htook).
  split; [lia|]. apply (rt_has _ _ _ _ _ _ Htook); [lia|done].
Qed.

Lemma net_read_inv n B E H F Er U count :
  net_inv start n B E H F Er U → 0 ≤ count →
  ∃ bytes r' Br', net_exec n (NetRead count) = Some (net_log [] bytes (net_with_rx r' n))
    ∧ net_inv start (net_log [] bytes (net_with_rx r' n)) B E H F Er U
    ∧ nt_rx_base (net_with_rx r' n) = Br' ∧ (Z.of_nat (length bytes) < count → Br' = U)
    ∧ (rx_recv_himark_update_expiration r' = rx_recv_himark_update_expiration (nt_rx n)
       ∨ rx_recv_himark_update_expiration r' = Uptime_Start).
Proof using io_laws.
  intros Hn Hc. cbn [net_exec].
  pose proof (ni_rx _ _ _ _ _ _ _ _ Hn) as Hsys. pose proof Hsys as [Hinv Hst Hsc _ _].
  destruct (rx_tryRead_spec _ (nt_fin n) _ _ _ _ count Hinv Hsc Hst Hc)
    as (bytes & ready & r' & B' & Hr & Hinv' & Hses & HB & Hcat & _ & Hall & Hat). rewrite (bind_step _ _ _ Hr).
  pose proof (rx_sys_session _ _ _ _ _ _ _ _ _ _ _ Hsys Hinv' Hses HB Hcat) as Hsys'.
  pose proof (ri_window _ _ _ _ _ _ Hinv'). pose proof (ni_room _ _ _ _ _ _ _ _ Hn).
  exists bytes, r', B'. split; [done|].
  pose proof (net_rx_base start n B E H F Er U _ _ _ _ _ Hn Hsys' ltac:(lia)) as Hbase.
  assert (Hhm := Hr). unfold Receiver_tryRead in Hhm. rewrite Hst in Hhm. apply Receiver_tryRead_loop_himark in Hhm.
  split; [|split; [exact Hbase|split; done]]. unfold net_log, net_with_rx. cbn. rewrite Hbase.
  rewrite (app_nil_r (nt_written n)). eapply net_rx_step; eauto; [by destruct Hses|by destruct Hses|lia|lia|].
  eapply back_mono; [apply Hn| |lia|lia|lia|done]. intros q [?|[Hq (b & Hb & Hty)]]; [by left|].
  destruct (decide (q < U)); [by left|right]. split; [done|]. exists b. by rewrite Hat by lia.
Qed.

(** The receiver sends something back. *)
Lemma net_back_inv n B E H F Er U r' packet :
  net_inv start n B E H F Er U → rx_cosmetic (nt_rx n) r' →
  (packet = []
   ∨ ∀ lo (A : Z → Prop), lo ≤ U → (∀ p, A p → rx_arrived (nt_rx n) Er U p) →
     back_ok (rx_control_bit (nt_rx n)) (rx_arrived (nt_rx n) Er U)
       (nt_rx_base n + rx_cap (nt_rx n)) U lo A [packet]) →
  net_inv start (net_send_back packet (net_with_rx r' n)) B E H F Er U
  ∧ nt_rx_base (net_with_rx r' n) = nt_rx_base n.
Proof.
  intros Hn Hcos Hpk. pose proof (ni_rx _ _ _ _ _ _ _ _ Hn) as Hsys.
  destruct (rx_session_cosmetic _ _ Hcos) as [Hses Hpos].
  pose proof (rx_cosmetic_inv _ (nt_fin n) _ _ _ _ _ Hcos (sy_inv _ _ _ _ _ _ _ _ Hsys)) as Hinv'.
  assert (Hsys' : rx_sys (wire_peer (nt_data n)) (nt_fin n) start r' (nt_rx_base n) (nt_read n ++ []) Er U).
  { eapply rx_sys_session; eauto; [lia|]. unfold rx_unread. by rewrite Hpos. }
  pose proof (ri_window _ _ _ _ _ _ Hinv'). pose proof (ni_room _ _ _ _ _ _ _ _ Hn).
  pose proof (net_rx_base start n B E H F Er U _ _ _ _ _ Hn Hsys' ltac:(lia)) as Hbase.
  split; [|exact Hbase]. unfold net_send_back, net_with_rx. cbn. rewrite Hbase.
  rewrite <- (app_nil_r (nt_read n)). eapply net_rx_step; eauto; [by destruct Hses|by destruct Hses|lia|lia|].
  assert (Hsame : ∀ back, back_ok (rx_control_bit (nt_rx n)) (rx_arrived (nt_rx n) Er U)
      (nt_rx_base n + rx_cap (nt_rx n)) U B (tx_acks (nt_tx n) B E) back →
    back_ok (rx_control_bit (nt_rx n)) (rx_arrived r' Er U)
      (nt_rx_base n + rx_cap (nt_rx n)) U B (tx_acks (nt_tx n) B E) back).
  { intros back Hb. eapply back_mono; [exact Hb| |lia|lia|lia|done]. by destruct Hcos as (? & ? & ? & ->). }
  apply Hsame. destruct Hpk as [->|Hpk]; [apply Hn|]. destruct packet; [apply Hn|].
  apply back_snoc; [apply Hn|done].
Qed.

(** The acknowledgment, when one is due, is for everything that has arrived. *)
Lemma net_ack_inv n B E H F Er U :
  net_inv start n B E H F Er U →
  ∃ packet r', net_exec n NetAck = Some (net_send_back packet (net_with_rx r' n))
    ∧ net_inv start (net_send_back packet (net_with_rx r' n)) B E H F Er U
    ∧ rx_recv_himark_update_expiration r' = rx_recv_himark_update_expiration (nt_rx n)
    ∧ (rx_needs_ack (nt_rx n) = true → ∃ bitmap,
        packet = StoreBeU16 (FormatPacketHeader (u16 U) kDataAckPacket (rx_control_bit (nt_rx n))) ++ bitmap).
Proof using io_laws.
  intros Hn. cbn [net_exec].
  pose proof (sy_inv _ _ _ _ _ _ _ _ (ni_rx _ _ _ _ _ _ _ _ Hn)) as Hinv.
  pose proof (sy_state _ _ _ _ _ _ _ _ (ni_rx _ _ _ _ _ _ _ _ Hn)) as Hst.
  destruct (rx_ack_total _ (nt_fin n) _ _ _ _ Hinv) as (packet & r' & Ha & Hcos).
  rewrite (bind_step _ _ _ Ha). exists packet, r'. split; [done|].
  pose proof (ri_window _ _ _ _ _ _ Hinv). destruct (rx_needs_ack (nt_rx n)) eqn:Hna.
  - destruct (rx_ack_packet _ (nt_fin n) _ _ _ _ Hinv (or_introl Hst) Hna) as (bitmap & Ha2 & Hlen & Hk).
    rewrite Ha in Ha2. apply Some_inj, pair_equal_spec in Ha2. destruct Ha2 as [-> ->].
    split; [|split; [done|by exists bitmap]]. apply net_back_inv; [done|done|]. right. intros lo A Hlo HA.
    constructor; [done| |done|].
    + intros [?|[HUE (b & Hb & Hty)]]%HA; [lia|]. by destruct Hty, (ri_next _ _ _ _ _ _ Hinv b).
    + constructor; [lia|]. intros p [?|(k & Hbit & ->)]; [auto|]. apply Hk in Hbit as (_ & HE & Hh). by right.
  - unfold Receiver_ack in Ha. rewrite Hna, orb_true_r in Ha. injection Ha as <- <-.
    split; [|done]. apply net_back_inv; [done|done|by left].
Qed.

(** The himark is the end of the receiver's window. *)
Lemma net_himark_inv n B E H F Er U now next :
  net_inv start n B E H F Er U →
  ∃ packet r', net_exec n (NetRecvHimark now next) = Some (net_send_back packet (net_with_rx r' n))
    ∧ net_inv start (net_send_back packet (net_with_rx r' n)) B E H F Er U
    ∧ nt_rx_base (net_send_back packet (net_with_rx r' n)) = nt_rx_base n
    ∧ (rx_recv_himark_update_expiration (nt_rx n) ≤ now →
       packet = StoreBeU16 (FormatPacketHeader (u16 (nt_rx_base n + rx_cap (nt_rx n))) kFlowControlPacket
                  (rx_control_bit (nt_rx n)))).
Proof.
  intros Hn. cbn [net_exec].
  pose proof (rx_himark_total (nt_rx n) now next) as Hcos.
  pose proof (sy_inv _ _ _ _ _ _ _ _ (ni_rx _ _ _ _ _ _ _ _ Hn)) as Hinv.
  pose proof (sy_state _ _ _ _ _ _ _ _ (ni_rx _ _ _ _ _ _ _ _ Hn)) as Hst.
  pose proof (rw_ring _ _ _ (ri_wf _ _ _ _ _ _ Hinv)) as Hr. pose proof (ri_window _ _ _ _ _ _ Hinv).
  pose proof (ra_size _ _ _ Hr).
  destruct (Receiver_updateRecvHimark (nt_rx n) now next) as [[packet next'] r'] eqn:Hup.
  exists packet, r'. split; [done|]. unfold Receiver_updateRecvHimark in Hup. rewrite Hst in Hup.
  destruct (Z.ltb_spec now (rx_recv_himark_update_expiration (nt_rx n))).
  { assert (packet = []) as -> by (by injection Hup as <- _ _).
    destruct (net_back_inv _ _ _ _ _ _ _ r' [] Hn Hcos ltac:(by left)) as [? ?]. split; [done|]. split; [done|lia]. }
  rewrite (ra_begin _ _ _ Hr), (ring_capacity _ _ _ Hr), SeqNum_add_pos in Hup. fold (rx_cap (nt_rx n)) in Hup.
  injection Hup as Hpk _ _.
  destruct (net_back_inv _ _ _ _ _ _ _ r' packet Hn Hcos) as [? Hbase].
  - right. intros lo A Hlo HA. subst packet. unfold rx_cap in *. constructor; [lia|]. by constructor.
  - split; [done|]. split; [|done]. rewrite <- Hbase. unfold net_send_back. by destruct packet.
Qed.

(** What the transmitter makes of the packets on the way back. *)
Lemma net_receive_back_ack seq cb bitmap t :
  net_receive_back (StoreBeU16 (FormatPacketHeader seq kDataAckPacket cb) ++ bitmap) t
  = ('(_, t) ← Transmitter_ack t cb (seq mod 4096) bitmap; Some t).
Proof using io_laws.
  unfold net_receive_back. rewrite header_read.
  destruct (packet_header_fields seq kDataAckPacket cb eq_refl) as (-> & -> & ->).
  by destruct (header_split seq kDataAckPacket cb bitmap) as (_ & -> & _).
Qed.

Lemma net_receive_back_himark seq cb t :
  net_receive_back (StoreBeU16 (FormatPacketHeader seq kFlowControlPacket cb)) t
  = ('(_, t) ← Transmitter_updateRecvHimark t cb (seq mod 4096); Some t).
Proof using io_laws.
  rewrite <- (app_nil_r (StoreBeU16 _)). unfold net_receive_back. rewrite header_read.
  destruct (packet_header_fields seq kFlowControlPacket cb eq_refl) as (-> & -> & ->).
  by destruct (header_split seq kFlowControlPacket cb []) as (_ & _ & ->).
Qed.

Lemma back_packet_inj seq seq' type type' cb body body' :
  named type = true → named type' = true →
  StoreBeU16 (FormatPacketHeader seq type cb) ++ body = StoreBeU16 (FormatPacketHeader seq' type' cb) ++ body' →
  type = type' ∧ seq mod 4096 = seq' mod 4096.
Proof using io_laws.
  intros Ht Ht' Heq%(f_equal packet_header). rewrite !header_read in Heq.
  destruct (packet_header_fields seq type cb Ht) as (H1 & _ & H2).
  destruct (packet_header_fields seq' type' cb Ht') as (H1' & _ & H2'). split; congruence.
Qed.

(** A flow-control packet: the credit moves to what it says, unless that is behind, or it is not
    a credit for this queue. *)
Lemma net_himark_arrives n B E H F Er U h rest :
  net_inv start n B E H F Er U → B ≤ h ≤ nt_rx_base n + rx_cap (nt_rx n) →
  back_ok (rx_control_bit (nt_rx n)) (rx_arrived (nt_rx n) Er U)
    (nt_rx_base n + rx_cap (nt_rx n)) U B (tx_acks (nt_tx n) B E) rest →
  ∃ t' H', net_receive_back (StoreBeU16 (FormatPacketHeader (u16 h) kFlowControlPacket (rx_control_bit (nt_rx n)))) (nt_tx n)
      = Some t'
    ∧ net_inv start (mkNet t' (nt_rx n) (nt_data n) rest
        (nt_tx_base n + SeqNum_dist (rb_begin (tx_out_ring t')) (rb_begin (tx_out_ring (nt_tx n))))
        (nt_rx_base n) (nt_written n) (nt_read n) (nt_fin n)) B E H' F Er U
    ∧ (tx_state (nt_tx n) = TkConnected →
       H ≤ h ≤ E + tx_peer_receive_buffer_size (nt_tx n) → h < B + 2048 → H' = h).
Proof using io_laws.
  intros Hn Hh Hrest. pose proof (ni_tx _ _ _ _ _ _ _ _ Hn) as Hside.
  pose proof (ni_window _ _ _ _ _ _ _ _ Hn). pose proof (ni_credit _ _ _ _ _ _ _ _ Hn).
  pose proof (ring_size_bounds _ _ _ (net_queue_ring _ _ _ _ _ _ _ _ Hn)).
  pose proof (tw_peer _ _ _ _ (side_wf _ _ _ _ _ _ Hside)) as Hpeer.
  rewrite (ni_peer _ _ _ _ _ _ _ _ Hn) in Hpeer.
  pose proof (ri_window _ _ _ _ _ _ (sy_inv _ _ _ _ _ _ _ _ (ni_rx _ _ _ _ _ _ _ _ Hn))).
  pose proof (net_arrived_queue _ _ _ _ _ _ _ _ Hn).
  assert (Hcb : rx_control_bit (nt_rx n) ≠ tx_control_bit (nt_tx n)).
  { rewrite (ni_bits _ _ _ _ _ _ _ _ Hn). by destruct (rx_control_bit (nt_rx n)). }
  assert (Heq : ∀ x y, B ≤ x ≤ B + 2048 → B ≤ y ≤ B + 2048 → x mod 4096 = y mod 4096 → x = y).
  { intros x y Hx Hy Hxy. pose proof (Z.div_mod x 4096). pose proof (Z.div_mod y 4096). lia. }
  rewrite net_receive_back_himark, u16_mod4096.
  destruct (side_himark _ _ _ _ _ _ (rx_control_bit (nt_rx n)) (h mod 4096) Hside)
    as (r & t' & H' & Hup & Hside' & Hst & Hacks & HH'); [apply Z.mod_pos_bound; lia|]. rewrite (bind_step _ _ _ Hup).
  exists t', H'. split; [done|].
  assert (HH2 : H' = H ∨ H' = h).
  { destruct HH' as [?|(Ho & Ho' & Hm)]; [by left|right].
    pose proof (open_credit _ _ _ _ _ _ Ho'). apply Heq; [lia|lia|done]. }
  split.
  - rewrite <- (app_nil_r (nt_written n)). eapply net_with_tx_good; eauto; [by left|lia|lia| |].
    + intros Ha. apply (ni_front _ _ _ _ _ _ _ _ Hn). by eapply tx_acks_shrink.
    + eapply back_mono; [exact Hrest|done|lia|lia|lia|]. intros p. by apply tx_acks_shrink.
  - intros Hc Hh2 Hfar. destruct Hside as [Ho|Hd]; [|by rewrite (dn_state _ _ _ _ _ _ Hd) in Hc].
    rewrite (tx_himark_taken _ _ _ _ _ _ h _ Ho Hcb) in Hup by lia. injection Hup as _ <-.
    pose proof (tw_himark _ _ _ _ (side_wf _ _ _ _ _ _ Hside')) as Hhm. cbn in Hhm.
    pose proof (open_credit _ _ _ _ _ _ Ho). apply u16_inj; [lia|congruence].
Qed.

(** An acknowledgment: the queue then begins at the position it names. *)
Lemma net_ack_arrives n B E H F Er U u bitmap rest :
  net_inv start n B E H F Er U → B ≤ u → ¬ tx_acks (nt_tx n) B E u → (length bitmap ≤ 8)%nat →
  back_ok (rx_control_bit (nt_rx n)) (rx_arrived (nt_rx n) Er U)
    (nt_rx_base n + rx_cap (nt_rx n)) U u (λ p, tx_acks (nt_tx n) B E p ∨ skips u bitmap p) rest →
  ∃ t' E', net_receive_back (StoreBeU16 (FormatPacketHeader (u16 u) kDataAckPacket (rx_control_bit (nt_rx n))) ++ bitmap) (nt_tx n)
      = Some t'
    ∧ net_inv start (mkNet t' (nt_rx n) (nt_data n) rest
        (nt_tx_base n + SeqNum_dist (rb_begin (tx_out_ring t')) (rb_begin (tx_out_ring (nt_tx n))))
        (nt_rx_base n) (nt_written n) (nt_read n) (nt_fin n)) u E' H F Er U
    ∧ E ≤ E' ∧ (nt_fin n = None → E' = E).
Proof using io_laws.
  intros Hn Hu Hna Hlen Hrest. pose proof (ni_tx _ _ _ _ _ _ _ _ Hn) as Hside.
  pose proof (ni_window _ _ _ _ _ _ _ _ Hn). pose proof (net_arrived_queue _ _ _ _ _ _ _ _ Hn).
  pose proof (ri_window _ _ _ _ _ _ (sy_inv _ _ _ _ _ _ _ _ (ni_rx _ _ _ _ _ _ _ _ Hn))).
  assert (Hcb : rx_control_bit (nt_rx n) ≠ tx_control_bit (nt_tx n)).
  { rewrite (ni_bits _ _ _ _ _ _ _ _ Hn). by destruct (rx_control_bit (nt_rx n)). }
  pose proof (back_le _ _ _ _ _ _ _ Hrest). pose proof (back_has _ _ _ _ _ _ _ Hrest) as Hall.
  rewrite net_receive_back_ack, u16_mod4096.
  assert (Htag : ∀ p, B ≤ p → rx_arrived (nt_rx n) Er U p → tagged (nt_data n) p).
  { intros p Hp [?|[? ?]]; [apply (ni_arrived _ _ _ _ _ _ _ _ Hn); lia|].
    destruct (decide (p < U)); [apply (ni_arrived _ _ _ _ _ _ _ _ Hn); lia|].
    apply (net_has_tagged _ _ _ _ _ _ _ _ Hn); [lia|done]. }
  assert (Hhon : tx_honest_ack (nt_tx n) B E u bitmap).
  { split.
    - intros p Hp. apply (net_queued_sent _ _ _ _ _ _ _ _ Hn); [lia|]. apply (ni_arrived _ _ _ _ _ _ _ _ Hn). lia.
    - intros k Hk. rewrite Z.max_r by lia.
      assert (Hpk : tagged (nt_data n) (u + 1 + Z.of_nat k)).
      { apply Htag; [lia|]. apply Hall. right. by exists k. }
      split; [|by apply (net_queued_sent _ _ _ _ _ _ _ _ Hn); [lia|]].
      destruct Hpk as [pk Hpk]. apply (wo_shape _ _ _ _ _ _ (ni_wire _ _ _ _ _ _ _ _ Hn) _ _ Hpk). }
  destruct (side_ack _ _ _ _ _ _ u bitmap (rx_control_bit (nt_rx n)) Hside Hcb ltac:(lia) Hhon ltac:(lia))
    as (r & t' & E' & Hack & Hside' & Hst & HE & Hacked). rewrite (bind_step _ _ _ Hack).
  exists t', E'. split; [done|]. split; [|split; [apply (tp_grow _ _ _ _ _ _ Hst)|done]].
  assert (Hacks : ∀ p, tx_acks t' u E' p → tx_acks (nt_tx n) B E p ∨ skips u bitmap p).
  { intros p [Hp Ha]. destruct (Hacked p Hp Ha) as [? [?|?]]; [left; split; [lia|done]|by right]. }
  rewrite <- (app_nil_r (nt_written n)).
  eapply net_with_tx_good; eauto; [by left|apply Hn| |].
  - intros [?|(k & _ & ?)]%Hacks; [done|lia].
  - eapply back_mono; [exact Hrest|done|lia|lia|lia|done].
Qed.

(** A packet on the way back reaches the transmitter; those before it are lost. *)
Lemma net_deliver_back_inv n B E H F Er U i packet :
  net_inv start n B E H F Er U → nt_back n !! i = Some packet →
  ∃ n' B' E' H', net_exec n (NetDeliverBack i) = Some n' ∧ net_inv start n' B' E' H' F Er U
    ∧ nt_rx n' = nt_rx n ∧ nt_rx_base n' = nt_rx_base n ∧ nt_data n' = nt_data n ∧ nt_fin n' = nt_fin n
    ∧ nt_written n' = nt_written n ∧ nt_read n' = nt_read n ∧ B ≤ B' ∧ E ≤ E' ∧ (nt_fin n = None → E' = E)
    ∧ (∀ bitmap, packet = StoreBeU16 (FormatPacketHeader (u16 U) kDataAckPacket (rx_control_bit (nt_rx n))) ++ bitmap →
       B' = U)
    ∧ (∀ h, packet = StoreBeU16 (FormatPacketHeader (u16 h) kFlowControlPacket (rx_control_bit (nt_rx n))) →
       nt_rx_base n + rx_cap (nt_rx n) = h →
       B' = B ∧ E' = E ∧ (tx_state (nt_tx n) = TkConnected →
         h ≤ E + tx_peer_receive_buffer_size (nt_tx n) → h < B + 2048 → H' = h)).
Proof using io_laws.
  intros Hn Hi. cbn [net_exec]. rewrite Hi. pose proof (ni_credit _ _ _ _ _ _ _ _ Hn).
  pose proof (back_drop _ _ _ _ i _ _ _ (ni_back _ _ _ _ _ _ _ _ Hn)) as Hback. rewrite (drop_S _ _ _ Hi) in Hback.
  assert (Hfar : ∀ x y, x mod 4096 = y mod 4096 → x ≤ y < x + 4096 → x = y).
  { intros x y Hm Hxy. pose proof (Z.div_mod x 4096). pose proof (Z.div_mod y 4096). lia. }
  inversion Hback as [|lo A h rest Hh Hrest|lo A u bitmap rest Hlo Hna Hlen Hrest]; subst.
  - destruct (net_himark_arrives _ _ _ _ _ _ _ h _ Hn Hh Hrest) as (t' & H' & Hex & Hn' & HH).
    rewrite (bind_step _ _ _ Hex). eexists _, B, E, H'. split; [done|]. split; [exact Hn'|].
    do 6 (split; [done|]). do 2 (split; [lia|]). split; [done|]. split.
    + intros bitmap Hpk. rewrite <- (app_nil_r (StoreBeU16 _)) in Hpk. by apply back_packet_inj in Hpk as [? _].
    + intros h2 Hpk Heq. do 2 (split; [done|]). intros Hc Hh2 Hlim.
      rewrite <- (app_nil_r (StoreBeU16 (FormatPacketHeader (u16 h) _ _))),
        <- (app_nil_r (StoreBeU16 (FormatPacketHeader (u16 h2) _ _))) in Hpk.
      apply back_packet_inj in Hpk as [_ Hmod]; [|done..]. rewrite !u16_mod4096 in Hmod.
      assert (h = h2) as -> by (apply Hfar; [done|lia]). apply HH; [done|lia|lia].
  - destruct (net_ack_arrives _ _ _ _ _ _ _ u bitmap _ Hn Hlo Hna Hlen Hrest) as (t' & E' & Hex & Hn' & HE & HEn).
    rewrite (bind_step _ _ _ Hex). eexists _, u, E', H. split; [done|]. split; [exact Hn'|].
    do 6 (split; [done|]). do 2 (split; [lia|]). split; [done|]. split.
    + intros bitmap2 Hpk. apply back_packet_inj in Hpk as [_ Hmod]; [|done..].
      pose proof (ni_window _ _ _ _ _ _ _ _ Hn). pose proof (net_arrived_queue _ _ _ _ _ _ _ _ Hn).
      pose proof (back_le _ _ _ _ _ _ _ Hrest).
      pose proof (ring_size_bounds _ _ _ (net_queue_ring _ _ _ _ _ _ _ _ Hn)).
      rewrite !u16_mod4096 in Hmod. apply Hfar; [done|lia].
    + intros h Hpk. rewrite <- (app_nil_r (StoreBeU16 (FormatPacketHeader (u16 h) _ _))) in Hpk.
      by apply back_packet_inj in Hpk as [? _].
Qed.

Lemma net_lose_back_inv n B E H F Er U i :
  net_inv start n B E H F Er U → net_inv start (net_drop_back i n) B E H F Er U.
Proof.
  intros Hn. pose proof (back_drop _ _ _ _ (S i) _ _ _ (ni_back _ _ _ _ _ _ _ _ Hn)). destruct Hn. by constructor.
Qed.

(** In sum: every event completes, and the invariant holds again. *)
Lemma net_exec_good n e : net_good n → net_env n e → ∃ n', net_exec n e = Some n' ∧ net_good n'.
Proof using io_laws pf_laws.
  intros (B & E & H & F & Er & U & Hn) Henv. destruct e.
  - destruct (net_write_inv _ _ _ _ _ _ _ buf Hn) as (n' & E' & -> & ?). unfold net_good. eauto 10.
  - destruct (net_flush_inv _ _ _ _ _ _ _ Hn) as (t' & -> & ? & _). unfold net_good. eauto 10.
  - destruct (net_close_inv _ _ _ _ _ _ _ Hn) as (n' & E' & -> & ? & _). unfold net_good. eauto 10.
  - destruct (net_send_inv _ _ _ _ _ _ _ now draw next_send_micros Hn Henv)
      as (packet & next' & t' & F' & _ & -> & ? & _). unfold net_good. eauto 10.
  - destruct (nt_data n !! i) as [[p packet]|] eqn:Hi.
    + destruct (net_deliver_inv _ _ _ _ _ _ _ i p packet Hn Hi (Henv p packet Hi))
        as (r' & Er' & U' & -> & ? & _). unfold net_good. eauto 10.
    + exists n. cbn. rewrite Hi. unfold net_good. eauto 10.
  - destruct (net_read_inv _ _ _ _ _ _ _ count Hn Henv) as (bytes & r' & Br' & -> & ? & _).
    unfold net_good. eauto 10.
  - destruct (net_ack_inv _ _ _ _ _ _ _ Hn) as (packet & r' & -> & ? & _). unfold net_good. eauto 10.
  - destruct (net_himark_inv _ _ _ _ _ _ _ now next_send_micros Hn) as (packet & r' & -> & ? & _).
    unfold net_good. eauto 10.
  - destruct (nt_back n !! i) as [packet|] eqn:Hi.
    + destruct (net_deliver_back_inv _ _ _ _ _ _ _ i packet Hn Hi) as (n' & B' & E' & H' & -> & ? & _).
      unfold net_good. eauto 10.
    + exists n. cbn. rewrite Hi. unfold net_good. eauto 10.
  - pose proof (net_lose_back_inv _ _ _ _ _ _ _ i Hn). cbn. unfold net_good. eauto 10.
Qed.

Lemma net_start_good n : net_connected n start → net_good n.
Proof.
  intros [Hinv Hst Heos Hpeer [Hwf Hun Hrst Hsc Hpc He Hc] Hbits (Hd & Hb & Hw & Hr) [Hbt Hbr] Hfin].
  exists start, start, (start + rx_cap (nt_rx n)), start, start, start.
  assert (Hnone : ∀ p, ¬ tx_acks (nt_tx n) start start p) by (intros p [? _]; lia).
  constructor; rewrite ?Hfin; auto; try lia.
  - left. constructor; auto; [|by intros f [=]]. intros p b Hp. lia.
  - rewrite Hbr, Hr. constructor; auto; try lia.
    + constructor; auto; try lia; try congruence. intros _. by rewrite He.
    + unfold rx_unread. by rewrite peer_stream_nil, drop_nil.
  - rewrite Hd. constructor; [by intros ? ? ? ?%not_elem_of_nil|by intros ? ? ?%not_elem_of_nil..].
  - rewrite Hw, peer_stream_nil. unfold tx_stream. by rewrite Z.sub_diag.
  - rewrite Hb. constructor; [lia|]. by intros p ?%Hnone.
Qed.

Lemma net_runs_good n : net_runs start n → net_good n.
Proof using io_laws pf_laws.
  induction 1 as [n Hc|n e n' _ IH Henv Hex]; [by apply net_start_good|].
  destruct (net_exec_good n e IH Henv) as (n1 & Hex1 & Hg). congruence.
Qed.

(** When what has arrived was read, and nothing but the end of the stream
    follows, everything was read. *)
Lemma net_all_read n B E H F Er U :
  net_inv start n B E H F Er U → nt_rx_base n = U → U = E ∨ nt_fin n = Some U → nt_read n = nt_written n.
Proof.
  intros Hn HB Hend. pose proof (ni_rx _ _ _ _ _ _ _ _ Hn) as [_ _ _ _ Hout].
  pose proof (ni_window _ _ _ _ _ _ _ _ Hn). pose proof (net_arrived_queue _ _ _ _ _ _ _ _ Hn).
  rewrite (net_written_split start _ _ _ _ _ _ _ U Hn), <- Hout by lia.
  unfold rx_unread. rewrite HB, peer_stream_nil, drop_nil, app_nil_r.
  assert (tx_stream (nt_tx n) U E = []) as ->; [|by rewrite app_nil_r].
  unfold tx_stream. destruct (decide (U = E)) as [->|Hne]; [by rewrite Z.sub_diag|].
  destruct Hend as [?|Hfin]; [done|]. pose proof (ni_tx _ _ _ _ _ _ _ _ Hn) as Hside.
  pose proof (side_fin _ _ _ _ _ _ _ Hside Hfin). assert (E = U + 1) as -> by lia.
  rewrite seqZ_cons by lia. replace (Z.pred (U + 1 - U)) with 0 by lia. cbn. rewrite app_nil_r.
  destruct Hside as [Ho|Hd]; [|pose proof (dn_empty _ _ _ _ _ _ Hd); lia].
  destruct (tx_slot_lookup _ _ _ _ (side_wf _ _ _ _ _ _ (or_introl Ho)) U) as (b & Hb & _).
  unfold tx_body. rewrite Hb. by apply (to_kinds _ _ _ _ _ _ Ho U b ltac:(lia) Hb).
Qed.

(** The reader is told of the end when everything was read. *)
Lemma net_good_end n :
  net_good n → rx_end_of_stream (nt_rx n) = true → is_closed (nt_fin n) = true ∧ nt_read n = nt_written n.
Proof.
  intros (B & E & H & F & Er & U & Hn) Heos.
  pose proof (ni_rx _ _ _ _ _ _ _ _ Hn) as [Hinv _ Hsc _ _].
  apply (ri_eos _ _ _ _ _ _ Hinv Hsc) in Heos. split; [by rewrite Heos|].
  pose proof (side_fin _ _ _ _ _ _ _ (ni_tx _ _ _ _ _ _ _ _ Hn) Heos).
  pose proof (ri_window _ _ _ _ _ _ Hinv). pose proof (ni_room _ _ _ _ _ _ _ _ Hn).
  assert (nt_rx_base n = U) by lia. eapply net_all_read; [exact Hn|done|left; lia].
Qed.

(** Only an acknowledgment changes the state of the transmitter, and only closing its end. *)
Lemma net_exec_state n e n' :
  net_good n → net_env n e → net_exec n e = Some n' → (∀ i, e ≠ NetDeliverBack i) →
  tx_state (nt_tx n') = tx_state (nt_tx n).
Proof using io_laws pf_laws.
  intros (B & E & H & F & Er & U & Hn) Henv Hex Hne. pose proof (side_inv _ _ _ _ _ _ (ni_tx _ _ _ _ _ _ _ _ Hn)) as Hinv.
  destruct e; cbn [net_exec] in Hex.
  - destruct (tx_tryWrite_spec _ _ _ _ _ buf Hinv) as (k & ready & t' & E' & Hw & _ & _ & Hres).
    rewrite (bind_step _ _ _ Hw) in Hex. injection Hex as <-. cbn.
    case_decide; [destruct Hres as [W _]; by rewrite (wr_upd _ _ _ _ _ _ _ W)|by destruct Hres as (_ & -> & _)].
  - destruct (tx_flush_spec _ _ _ _ _ Hinv) as (r & t' & Hw & _ & HK & _).
    rewrite (bind_step _ _ _ Hw) in Hex. injection Hex as <-. cbn. by rewrite (tk_frame _ _ HK).
  - destruct (decide (tx_active (nt_tx n) ∧ tx_end_of_stream (nt_tx n) = false)) as [[Ha He]|Hno].
    + destruct (tx_close_active_spec _ _ _ _ _ Hinv Ha He) as (t' & E' & Hw & _ & _ & _ & Hst & _).
      rewrite (bind_step _ _ _ Hw) in Hex. injection Hex as <-. done.
    + destruct (side_close _ _ _ _ _ _ (ni_tx _ _ _ _ _ _ _ _ Hn)) as (t' & E' & Hw & _ & _ & _ & Hsame).
      rewrite (bind_step _ _ _ Hw) in Hex. injection Hex as <-. cbn.
      destruct (ni_tx _ _ _ _ _ _ _ _ Hn) as [Ho|Hd].
      * pose proof (to_eos _ _ _ _ _ _ Ho) as Heos. destruct (is_closed (nt_fin n)); [by destruct (Hsame eq_refl) as [-> _]|].
        destruct Hno. split; [right; apply Ho|done].
      * rewrite (dn_fin _ _ _ _ _ _ Hd) in Hsame. by destruct (Hsame eq_refl) as [-> _].
  - destruct (tx_send_spec _ _ _ _ _ now draw next_send_micros Hinv Henv) as (packet & next' & t' & F' & Hw & _ & HK & _).
    rewrite (bind_step _ _ _ Hw) in Hex. injection Hex as <-. cbn. by rewrite (tk_frame _ _ HK).
  - repeat case_match; [inv_bind Hex|]; by injection Hex as <-.
  - inv_bind Hex. destruct p as [[bytes ready] r']. by injection Hex as <-.
  - inv_bind Hex. destruct p as [packet r']. by injection Hex as <-.
  - destruct (Receiver_updateRecvHimark _ _ _) as [[packet next] r']. injection Hex as <-. by destruct packet.
  - by destruct (Hne i).
  - by injection Hex as <-.
Qed.

(** The transmitter knows that it was closed, until it is done. *)
Lemma net_good_eos n : net_good n → tx_end_of_stream (nt_tx n) = true → is_closed (nt_fin n) = true.
Proof.
  intros (B & E & H & F & Er & U & Hn) Heos. destruct (ni_tx _ _ _ _ _ _ _ _ Hn) as [Ho|Hd].
  - by rewrite <- (to_eos _ _ _ _ _ _ Ho).
  - by rewrite (dn_fin _ _ _ _ _ _ Hd).
Qed.

Lemma net_close_eos n t' :
  net_good n → nt_fin n = None → Transmitter_close (nt_tx n) = Some t' → tx_end_of_stream t' = true.
Proof using io_laws.
  intros (B & E & H & F & Er & U & Hn) Hfin Hc.
  destruct (ni_tx _ _ _ _ _ _ _ _ Hn) as [Ho|Hd]; [|by rewrite (dn_fin _ _ _ _ _ _ Hd) in Hfin].
  pose proof (to_eos _ _ _ _ _ _ Ho) as Heos. rewrite Hfin in Heos.
  destruct (tx_close_active_spec _ _ _ _ _ (to_inv _ _ _ _ _ _ Ho) (or_intror (to_state _ _ _ _ _ _ Ho)) Heos)
    as (t2 & E' & Hc2 & _ & _ & Heos' & _). congruence.
Qed.

(** ** The contract *)


End Events.

(** ** The channel delivers packets this way *)

(** [Channel::packetReceived] does to its receiver and to its transmitter what
    [net_receive_data] and [net_receive_back] do. *)
Lemma packetReceived_routes {io : RooIo} {pf : Platform} (packet : list byte) (c : Channel) t r :
  (2 ≤ length packet ≤ 250)%nat → GetPacketType (packet_header packet) ≠ kHandshakePacket →
  net_receive_data packet (ch_receiver c) = Some r →
  net_receive_back packet (ch_transmitter c) = Some t →
  ∃ es c', Channel_packetReceived packet c = Some (tt, es, c')
    ∧ ch_receiver c' = r ∧ ch_transmitter c' = t.
Proof.
  intros Hlen Hty Hr Ht. unfold Channel_packetReceived, kMaxPacketSize.
  rewrite (proj2 (Z.ltb_ge _ 2)), (proj2 (Z.ltb_ge _ (Z.of_nat _))) by lia. cbn [orb].
  change (LoadBeU16 (field packet 0 2)) with (packet_header packet).
  unfold net_receive_data in Hr. unfold net_receive_back in Ht.
  assert (Hnotify : ∀ b c1, ∃ es c', ch_when b Channel_notify c1 = Some (tt, es, c')
    ∧ ch_receiver c' = ch_receiver c1 ∧ ch_transmitter c' = ch_transmitter c1).
  { intros [] c1; [|by eexists _, _]. unfold ch_when, Channel_notify, ch_bind, ch_gets. cbn.
    destruct (ch_has_data_to_send c1); cbn; by eexists _, _. }
  assert (Hfrom : ∀ (ready : bool) (es : list Effect) c1, ch_receiver c1 = r → ch_transmitter c1 = t →
    ∃ es' c', ('(b, es'', c') ← ch_when ready Channel_notify c1; Some (b, es ++ es'', c'))
              = Some (tt, es', c') ∧ ch_receiver c' = r ∧ ch_transmitter c' = t).
  { intros ready es c1 <- <-. destruct (Hnotify ready c1) as (es2 & c2 & Heq & ? & ?).
    rewrite (bind_step _ _ _ Heq). by eexists _, _. }
  assert (Hidle : ch_receiver c = r → ch_transmitter c = t → ∃ es c', ch_ret tt c = Some (tt, es, c')
    ∧ ch_receiver c' = r ∧ ch_transmitter c' = t) by (by eexists _, _).
  destruct (GetPacketType (packet_header packet)) eqn:Htype; try done;
    try (injection Hr as Hr); try (injection Ht as Ht); auto.
  - destruct (_ =? 2); [injection Hr as Hr; auto|]. inv_bind Hr. destruct p as [[ack new] r1].
    injection Hr as <-. unfold ch_bind at 1, ch_on_receiver, ThreadSafeReceiver_handleDataPacket.
    rewrite E. cbn [mbind option_bind]. by apply Hfrom.
  - inv_bind Hr. destruct p as [[ack new] r1].
    injection Hr as <-. unfold ch_bind at 1, ch_on_receiver, ThreadSafeReceiver_handleDataPacket.
    rewrite E. cbn [mbind option_bind]. by apply Hfrom.
  - inv_bind Ht. destruct p as [rushed t1]. injection Ht as <-.
    unfold ch_bind at 1, ch_on_transmitter, ThreadSafeTransmitter_ack. cbv zeta.
    rewrite E. cbn [mbind option_bind]. by apply Hfrom.
  - destruct (negb _); [injection Ht as Ht; auto|]. inv_bind Ht. destruct p as [updated t1]. injection Ht as <-.
    unfold ch_on_transmitter, unit_result, ThreadSafeTransmitter_updateRecvHimark.
    rewrite E. cbn [mbind option_bind]. by eexists _, _.
Qed.

(** ** Runs *)

Definition net_env_ok {pf : Platform} (n : Net) (e : net_event) : bool :=
  match e with
  | NetSend _ draw _ => (0 <=? draw) && (draw <=? RANDOM_INTEGER_MAX)
  | NetDeliver i =>
      match nt_data n !! i with Some (p, _) => nt_rx_base n - 2048 <=? p | None => true end
  | NetRead count => 0 <=? count
  | _ => true
  end.

Fixpoint net_run {io : RooIo} {pf : Platform} (n : Net) (es : list net_event) : option Net :=
  match es with
  | [] => Some n
  | e :: es => if net_env_ok n e then n ← net_exec n e; net_run n es else None
  end.

Lemma net_env_ok_spec {pf : Platform} n e : net_env_ok n e = true → net_env n e.
Proof.
  destruct e; cbn; auto; [rewrite andb_true_iff; lia| |lia].
  intros Hok p packet Hi. rewrite Hi in Hok. lia.
Qed.

Lemma net_run_runs {io : RooIo} {pf : Platform} start es :
  ∀ n n', net_runs start n → net_run n es = Some n' → net_runs start n'.
Proof.
  induction es as [|e es IH]; intros n n' Hr; cbn [net_run]; [by intros [= <-]|].
  destruct (net_env_ok n e) eqn:Hok; [|done]. intros Hx. inv_bind Hx.
  eapply IH; [|done]. eapply net_runs_step; [done|by apply net_env_ok_spec|done].
Qed.

(** ** Witness *)

(** The transmitter and the receiver of the earlier examples, joined at 65535. *)
Definition net_demo : option Net :=
  t ← tx_demo_connected;
  r ← rx_demo_connected;
  Some (mkNet t r [] [] 65535 65535 [] [] None).

(** Two packets, of which the second arrives first; two bytes are read, and an
    acknowledgment takes both packets off the queue. *)
Definition net_demo_events : list net_event :=
  [ NetWrite [1; 2; 3]; NetFlush; NetSend 1000 5 0; NetWrite [4; 5]; NetFlush; NetSend 1000 5 0;
    NetDeliver 0; NetRead 2; NetDeliver 1; NetDeliver 1; NetRead 2; NetAck; NetDeliverBack 0 ].

Lemma net_demo_connected : ∃ n, net_demo = Some n ∧ net_connected n 65535.
Proof.
  destruct tx_demo_connected_ok as (t & Ht & Hinv & Hst & He & Hcb).
  destruct rx_demo_ready as (r & Hr & Hready & Hrcb).
  assert (Hsizes : option_map tx_peer_receive_buffer_size tx_demo_connected = Some 4
    ∧ option_map rx_cap rx_demo_connected = Some 4) by (split; vm_compute; reflexivity).
  rewrite Ht, Hr in Hsizes. cbn [option_map] in Hsizes. destruct Hsizes as [[= Hpeer] [= Hcap]].
  exists (mkNet t r [] [] 65535 65535 [] [] None). unfold net_demo.
  rewrite (bind_step _ _ _ Ht), (bind_step _ _ _ Hr). split; [done|].
  constructor; cbn [nt_tx nt_rx nt_data nt_back nt_written nt_read nt_tx_base nt_rx_base nt_fin]; auto.
  - by rewrite Hcap.
  - congruence.
  - by rewrite Hcb, Hrcb.
Qed.


(** ** Where the code falls short *)

(** [Transmitter::ack] reads the bitmap of an acknowledgment relative to the start of its
    queue, also when the acknowledgment is an old one that names an earlier position. Four
    packets are sent. The third arrives and is acknowledged (a1), then the first
    (a2); a2 overtakes a1. The late a1 marks the fourth packet, which was lost, as
    received. The second packet is sent again and arrives, and the acknowledgment (a3)
    leaves the fourth in the queue: it is never sent again, at any later time. *)
Definition net_stale_ack : option (Transmitter * Receiver) :=
  let write_packet t x :=
    '(_, _, t) ← Transmitter_tryWrite t [x];
    '(_, t) ← Transmitter_flush t;
    '(packet, _, t) ← Transmitter_send t 1000 5 0;
    Some (packet, t) in
  t ← tx_demo_connected;
  r ← rx_demo_connected;
  '(p1, t) ← write_packet t 1;
  '(p2, t) ← write_packet t 2;
  '(p3, t) ← write_packet t 3;
  '(_, t) ← write_packet t 4;
  r ← net_receive_data p3 r;
  '(a1, r) ← Receiver_ack r;
  r ← net_receive_data p1 r;
  '(a2, r) ← Receiver_ack r;
  t ← net_receive_back a2 t;
  t ← net_receive_back a1 t;
  r ← net_receive_data p2 r;
  '(a3, r) ← Receiver_ack r;
  t ← net_receive_back a3 t;
  Some (t, r).

(** Nothing to send in sequence, and nothing to send again. *)
Lemma tx_send_idle t now draw next :
  tx_state t = TkConnected →
  RingBuffer_contains (tx_out_ring t) (tx_next_to_send t) = false →
  Transmitter_choose t = Some None →
  Transmitter_send t now draw next = Some ([], next, t).
Proof.
  intros Hst Hc Hch. unfold Transmitter_send, Transmitter_getBufferToSend, Transmitter_sendNext, Transmitter_sendDue.
  by rewrite Hst, Hc; cbn [mbind option_bind]; rewrite Hch.
Qed.

Theorem Transmitter_stale_ack_stalls :
  ∃ t r, net_stale_ack = Some (t, r)
    ∧ RingBuffer_slotsUsed (tx_out_ring t) = 1
    ∧ rb_begin (tx_out_ring t) = 2 ∧ rx_unack_seq r = 2
    ∧ ∀ now draw next, Transmitter_send t now draw next = Some ([], next, t).
Proof.
  assert (Hf : option_map (λ '(t, r), (RingBuffer_slotsUsed (tx_out_ring t),
      rb_begin (tx_out_ring t), rx_unack_seq r, tx_state t,
      RingBuffer_contains (tx_out_ring t) (tx_next_to_send t), Transmitter_choose t)) net_stale_ack
    = Some (1, 2, 2, TkConnected, false, Some None)) by (vm_compute; reflexivity).
  destruct net_stale_ack as [[t r]|]; [|discriminate]. apply Some_inj in Hf.
  apply pair_equal_spec in Hf. destruct Hf as [Hf Hch]. injection Hf as ? ? ? ? ?.
  exists t, r. split; [done|]. do 3 (split; [done|]). intros. by apply tx_send_idle.
Qed.

(** ** Where the code falls short *)

(** Writes and flushes; and sends a packet. *)
Definition put_bytes (bytes : list byte) (t : Transmitter) : option Transmitter :=
  '(_, _, t) ← Transmitter_tryWrite t bytes; '(_, t) ← Transmitter_flush t; Some t.

Definition send_next (t : Transmitter) : option (list byte * Transmitter) :=
  '(packet, _, t) ← Transmitter_send t 1000 5 0; Some (packet, t).

(** Two packets arrive in the wrong order, and each is acknowledged: the first
    acknowledgment names the second packet in its bitmap, and the second one takes both packets off
    the queue. It overtakes the first one, which arrives when two full packets are queued,
    of which the first is then sent and acknowledged. *)
Definition overtaken_run : option (Transmitter * Receiver) :=
  t ← tx_demo_connected;
  r ← rx_demo_connected;
  t ← put_bytes [1] t; '(p0, t) ← send_next t;
  t ← put_bytes [2] t; '(p1, t) ← send_next t;
  r ← net_receive_data p1 r; '(ack1, r) ← Receiver_ack r;
  r ← net_receive_data p0 r; '(ack2, r) ← Receiver_ack r;
  t ← net_receive_back ack2 t;
  t ← put_bytes (replicate 248 3 ++ replicate 248 4) t;
  t ← net_receive_back ack1 t;
  '(p2, t) ← send_next t;
  r ← net_receive_data p2 r; '(ack3, r) ← Receiver_ack r;
  t ← net_receive_back ack3 t;
  Some (t, r).

(** [platform_esp32] without the debug checks. *)
Definition platform_release : Platform :=
  {| Uptime_Start := 0; Uptime_Max := 9223372036854775807;
     RANDOM_INTEGER_MAX := 4294967295; LONG_MAX := 2147483647; debug_build := false |}.

(** [ack] counts the bitmap from the first packet that is queued, not from the position that
    the acknowledgment carries. In this run the late acknowledgment marks the last packet,
    65538, as acknowledged, which was never sent: the next [send] fails a check in a
    debug build, and in a release build it sends nothing, an hour later neither, although
    the packet is still queued and the receiver waits for it. *)
Theorem Transmitter_overtaken_ack :
  match overtaken_run with
  | Some (t, r) =>
      tx_body t 65538 = replicate 248 4 ∧ rb_begin (tx_out_ring t) = u16 65538 ∧ rx_unack_seq r = u16 65538
      ∧ Transmitter_send t 1000 5 0 = None
      ∧ option_map (λ r, r.1.1) (Transmitter_send (pf := platform_release) t 1000 5 0) = Some []
      ∧ option_map (λ r, r.1.1) (Transmitter_send (pf := platform_release) t 3600000000 5 0) = Some []
  | None => False
  end.
Proof. vm_compute. auto 10. Qed.

(** The receiver after the packets [p], [p + 1], ... of one byte each, all of which are
    read. *)
Fixpoint take_packets (n : nat) (p : Z) (r : Receiver) : option Receiver :=
  match n with
  | O => Some r
  | S n =>
      '(_, _, r) ← Receiver_handleDataPacket r false (p mod 4096) [u8 p] 1 false;
      '(_, _, r) ← Receiver_tryRead r 1;
      take_packets n (p + 1) r
  end.

(** Sequence numbers have 12 bits on the wire: a copy of packet 65535 that arrives 4096
    packets late is taken for packet 69631. What follows reads its byte, 255, once more. *)
Theorem Receiver_late_copy :
  (r ← rx_demo_connected;
   r ← take_packets 4096 65535 r;
   '(_, _, r) ← Receiver_handleDataPacket r false (65535 mod 4096) [255] 1 false;
   '(bytes, _, _) ← Receiver_tryRead r 10;
   Some bytes) = Some [255].
Proof. vm_compute. reflexivity. Qed.
