(* ===== verification/LinkProgress.v ===== *)
(** * LinkProgress: a link drains

    The counterpart of [LinkDelivery]: from any state, as soon as the network works again,
    one round of what [Channel::trySend] and the receive loop do delivers everything that
    was written, whatever was lost before, empties the queue and renews the credit. *)

From S2P Require Import Prelude.
From S2P Require Import SeqNum.
From S2P Require Import RingBuffer.
From S2P Require Import RooIo.
From S2P Require Import Protocol.
From S2P Require Import Buffers.
From S2P Require Import Transmitter.
From S2P Require Import TransmitterSpec.
From S2P Require Import TransmitterProofs.
From S2P Require Import TransmitterCorrect.
From S2P Require Import TransmitterLive.
From S2P Require Import TransmitterSession.
From S2P Require Import Receiver.
From S2P Require Import ReceiverProofs.
From S2P Require Import ReceiverCorrect.
From S2P Require Import ThreadSafe.
From S2P Require Import Channel.
From S2P Require Import LinkDelivery.

Local Open Scope Z_scope.
Local Open Scope roo_scope.

(** ** A round *)

Section Round.

Context {io : RooIo} {pf : Platform}.

(** [send] at time [now]; the packet, if there is one, arrives at once. *)
Definition net_send_deliver (now draw : Z) (n : Net) : option Net :=
  n1 ← net_exec n (NetSend now draw 0);
  if (length (nt_data n1) =? length (nt_data n))%nat then Some n1 else net_exec n1 (NetDeliver 0).

Fixpoint net_sends (now : Z) (draws : list Z) (n : Net) : option Net :=
  match draws with
  | [] => Some n
  | draw :: draws => n ← net_send_deliver now draw n; net_sends now draws n
  end.

(** The last packet on the way back arrives. *)
Definition net_last_back (n : Net) : option Net := net_exec n (NetDeliverBack (pred (length (nt_back n)))).

Definition net_round (now : Z) (draws : list Z) (count : Z) (n : Net) : option Net :=
  n ← net_exec n NetFlush;
  n ← net_sends now draws n;
  n ← net_exec n NetAck;
  n ← net_last_back n;
  n ← net_exec n (NetRead count);
  n ← net_exec n (NetRecvHimark now 0);
  net_last_back n.

End Round.

(** ** The packets that are due *)

Definition tx_due_at (t : Transmitter) (now p : Z) : bool :=
  match tx_out_buffers t !! tx_slot t p with
  | Some b => negb (ob_acked b) && ((ob_send_counter b =? 0) || (ob_expiration b <=? now))
  | None => false
  end.

Definition tx_dues (t : Transmitter) (B E now : Z) : nat :=
  length (filter (λ p, tx_due_at t now p = true) (seqZ B (E - B))).

Lemma tx_due_at_spec t now p b :
  tx_out_buffers t !! tx_slot t p = Some b → tx_due_at t now p = true ↔ ob_acked b = false ∧ ob_due now b.
Proof.
  intros Hb. unfold tx_due_at, ob_due. rewrite Hb, andb_true_iff, negb_true_iff, orb_true_iff, Z.eqb_eq, Z.leb_le.
  done.
Qed.

Lemma length_filter_le {A} (P Q : A → Prop) `{!∀ x, Decision (P x), !∀ x, Decision (Q x)} (l : list A) :
  (∀ x, Q x → P x) → (length (filter Q l) ≤ length (filter P l))%nat.
Proof.
  intros HQP. induction l as [|x l IH]; [done|]. rewrite !filter_cons.
  destruct (decide (Q x)); [rewrite decide_True by auto; cbn; lia|]. case_decide; cbn; lia.
Qed.

Lemma length_filter_lt {A} (P Q : A → Prop) `{!∀ x, Decision (P x), !∀ x, Decision (Q x)} (l : list A) x :
  (∀ y, Q y → P y) → x ∈ l → P x → ¬ Q x → (length (filter Q l) < length (filter P l))%nat.
Proof.
  intros HQP Hin HP HQ. induction Hin as [x l|x y l Hin IH]; rewrite !filter_cons.
  - rewrite (decide_False (P := Q x)), (decide_True (P := P x)) by done. cbn. pose proof (length_filter_le P Q l HQP). lia.
  - specialize (IH HP HQ). destruct (decide (Q y)); [rewrite decide_True by auto; cbn; lia|]. case_decide; cbn; lia.
Qed.

Section Dues.

Context {io : RooIo} {io_laws : RooIoLaws} {pf : Platform} {pf_laws : PlatformLaws}.

Lemma tx_handed_out_due t t' B E now p q :
  tx_handed_out t t' B E now p → tx_due_at t' now q = true →
  tx_slot t q ≠ tx_slot t p ∧ tx_due_at t now q = true.
Proof.
  intros [Hp HK Hun (b' & Hb' & _ & _ & Ha' & Hd') Ho] Hq.
  assert (Hne : tx_slot t q ≠ tx_slot t p).
  { intros Heq. unfold tx_due_at in Hq. rewrite (tx_kept_slot _ _ HK), Heq, Hb' in Hq.
    destruct Hd'. unfold ob_due. rewrite andb_true_iff, orb_true_iff, Z.eqb_eq, Z.leb_le in Hq. tauto. }
  split; [done|]. revert Hq. unfold tx_due_at. by rewrite (tx_kept_slot _ _ HK), (Ho _ Hne).
Qed.

Lemma tx_handed_out_dues t t' B E H now p :
  tx_wf t B E H → tx_handed_out t t' B E now p → (tx_dues t' B E now < tx_dues t B E now)%nat.
Proof.
  intros Hwf HO. pose proof HO as [Hp HK Hun _ _]. unfold tx_dues.
  apply (length_filter_lt _ _ _ p).
  - intros q Hq. by eapply tx_handed_out_due.
  - apply elem_of_seqZ. lia.
  - destruct (tx_slot_lookup _ _ _ _ Hwf p) as (b & Hb & _). apply (tx_due_at_spec _ _ _ _ Hb). auto.
  - intros Hq. by destruct (tx_handed_out_due _ _ _ _ _ _ _ HO Hq).
Qed.

(** When a packet within the credit is due [send] sends one. *)
Lemma side_sends fin t B E H F now draw next p :
  tx_side fin t B E H F → tx_flushed t B E → 0 ≤ draw ≤ RANDOM_INTEGER_MAX → Uptime_Start ≤ now < Uptime_Max →
  B ≤ p < Z.min E H → tx_due_at t now p = true →
  ∃ packet t', Transmitter_send t now draw next = Some (packet, 0, t') ∧ packet ≠ [].
Proof using io_laws pf_laws.
  intros [Ho|Hdn] Hfl Hd Hnow Hp Hdue; [|pose proof (dn_empty _ _ _ _ _ _ Hdn); lia].
  pose proof (to_inv _ _ _ _ _ _ Ho) as Hinv. pose proof (ti_wf _ _ _ _ _ Hinv) as Hwf.
  assert (Hact : tx_active t) by (right; apply Ho).
  destruct (tx_slot_lookup _ _ _ _ Hwf p) as (b & Hb & Hwb). apply (tx_due_at_spec _ _ _ _ Hb) in Hdue as [Ha Hdue].
  apply (tx_send_head t B E H F now draw next p); [done|apply Ho|done|done|]. split_and!; [lia|lia|lia| |].
  - intros q bq Hq Hbq. right. by apply (Hfl q bq); [lia|].
  - exists b. split_and!; [done|done|by apply (Hfl p b); [lia|]|]. intros Hf. destruct Hdue as [Hz|]; [|done].
    destruct (sc_sent _ _ _ _ (ti_sched _ _ _ _ _ Hinv Hact) p b ltac:(lia) Hb) as (_ & _ & He). rewrite He by done. lia.
Qed.

End Dues.

Lemma tx_flushed_kept t t' B E : tx_kept t t' → tx_flushed t B E → tx_flushed t' B E.
Proof.
  intros HK Hf p b' Hp Hb'. rewrite (tx_kept_slot _ _ HK) in Hb'.
  assert (∃ b, tx_out_buffers t !! tx_slot t p = Some b) as [b Hb].
  { apply lookup_lt_is_Some. rewrite <- (tk_length _ _ HK). by eapply lookup_lt_Some. }
  destruct (tk_buffers _ _ HK _ _ Hb) as (b2 & Hb2 & Hk). replace b' with b2 by congruence.
  apply (bk_flushed _ _ Hk). by apply (Hf p b).
Qed.

Lemma rx_arrived_took r r' Br Er Er' U U' p q :
  rx_took r r' Br Er Er' p → Br ≤ U → U ≤ U' → rx_arrived r Er U q → rx_arrived r' Er' U' q.
Proof.
  intros Ht HB HU [?|[Hq Hh]]; [left; lia|]. destruct (decide (q < U')); [by left|right].
  pose proof (rt_grow _ _ _ _ _ _ Ht). split; [lia|]. apply (rt_has _ _ _ _ _ _ Ht); [lia|done].
Qed.

(** ** The sends of a round *)

Section Drain.

Context {io : RooIo} {io_laws : RooIoLaws} {pf : Platform} {pf_laws : PlatformLaws}.
Context (start now : Z) (Hnow : Uptime_Start ≤ now < Uptime_Max).

(** Everything that is queued, within the credit, has arrived, and its acknowledgment is due. (Only
    the end of the stream can be beyond the credit.) *)
Definition net_settled (n : Net) (B E H Er U : Z) : Prop :=
  (∀ p, B ≤ p < Z.min E H → rx_arrived (nt_rx n) Er U p) ∧ (B < Z.min E H → rx_needs_ack (nt_rx n) = true).

(** On the way there: what has not arrived is due, and [k] packets at most are. *)
Definition net_missing (n : Net) (B E H Er U : Z) (k : nat) : Prop :=
  (∀ p, B ≤ p < Z.min E H → rx_arrived (nt_rx n) Er U p ∨ tx_due_at (nt_tx n) now p = true)
  ∧ (B < Z.min E H → tx_due_at (nt_tx n) now B = true ∨ rx_needs_ack (nt_rx n) = true)
  ∧ (tx_dues (nt_tx n) B E now ≤ k)%nat.

(** What does not change in a round. *)
Definition net_same (n n' : Net) : Prop := nt_written n' = nt_written n ∧ nt_fin n' = nt_fin n.

Record net_phase (n0 n : Net) (B E H : Z) (k : nat) (F Er U : Z) : Prop := {
  ph_runs : net_runs start n;
  ph_inv : net_inv start n B E H F Er U;
  ph_flushed : tx_flushed (nt_tx n) B E;
  ph_himark : rx_recv_himark_update_expiration (nt_rx n) ≤ now;
  ph_log : net_same n0 n ∧ nt_read n = nt_read n0;
  ph_progress : net_settled n B E H Er U ∨ net_missing n B E H Er U k;
}.

Lemma net_missing_none n B E H Er U k :
  net_missing n B E H Er U k → (∀ p, B ≤ p < Z.min E H → tx_due_at (nt_tx n) now p ≠ true) →
  net_settled n B E H Er U.
Proof.
  intros (Harr & Hfront & _) Hno. split.
  - intros p Hp. destruct (Harr p Hp); [done|]. by destruct (Hno p).
  - intros HBE. destruct (Hfront HBE); [|done]. by destruct (Hno B); [lia|].
Qed.

Lemma tx_dues_zero t B E p : tx_dues t B E now = 0%nat → B ≤ p < E → tx_due_at t now p ≠ true.
Proof.
  intros Hz Hp Hd. unfold tx_dues in Hz. apply nil_length_inv in Hz.
  apply (not_elem_of_nil p). rewrite <- Hz. apply list_elem_of_filter. split; [done|]. apply elem_of_seqZ. lia.
Qed.

(** A packet that was handed out arrives: there is one less to go. *)
Lemma net_missing_step n n' t' r' B E H F Er Er' U U' p k :
  net_inv start n B E H F Er U → tx_handed_out (nt_tx n) t' B E now p →
  rx_took (nt_rx n) r' (nt_rx_base n) Er Er' p → U ≤ U' →
  nt_tx n' = t' → nt_rx n' = r' →
  net_settled n B E H Er U ∨ net_missing n B E H Er U (S k) →
  net_settled n' B E H Er' U' ∨ net_missing n' B E H Er' U' k.
Proof using io_laws.
  intros Hn HO Htook HU Htx Hrx Hprog. pose proof (side_wf _ _ _ _ _ _ (ni_tx _ _ _ _ _ _ _ _ Hn)) as Hwf.
  pose proof (ri_window _ _ _ _ _ _ (sy_inv _ _ _ _ _ _ _ _ (ni_rx _ _ _ _ _ _ _ _ Hn))).
  pose proof (ho_live _ _ _ _ _ _ HO) as Hp. pose proof (ni_credit _ _ _ _ _ _ _ _ Hn) as Hcr. unfold rx_cap in Hcr.
  assert (Hmono : ∀ q, rx_arrived (nt_rx n) Er U q → rx_arrived r' Er' U' q)
    by (intros q; eapply rx_arrived_took; [done|lia|done]).
  assert (Hother : ∀ q, B ≤ q < E → q ≠ p → tx_due_at t' now q = tx_due_at (nt_tx n) now q).
  { intros q Hq Hne. unfold tx_due_at. rewrite (tx_kept_slot _ _ (ho_kept _ _ _ _ _ _ HO)).
    rewrite (ho_others _ _ _ _ _ _ HO); [done|]. intros Heq. by apply (tx_slot_inj _ _ _ _ Hwf) in Heq. }
  assert (Hkept : p < Z.min E H → rx_needs_ack r' = true ∧ rx_arrived r' Er' U' p).
  { intros HpH. destruct (rt_kept _ _ _ _ _ _ Htook) as [Hna Hk]; [lia|]. split; [done|].
    destruct (decide (p < nt_rx_base n)); [left; lia|right; apply Hk; lia]. }
  unfold net_settled, net_missing. rewrite Htx, Hrx.
  destruct Hprog as [[Harr Hna]|(Harr & Hfront & Hk)]; [left|right]; split.
  - auto.
  - intros HB. by apply (rt_needs_ack _ _ _ _ _ _ Htook), Hna.
  - intros q Hq. destruct (decide (q = p)) as [->|Hne]; [left; by apply Hkept; lia|].
    rewrite Hother by (done || lia). destruct (Harr q Hq); auto.
  - split; [|pose proof (tx_handed_out_dues _ _ _ _ _ _ _ Hwf HO); lia].
    intros HB. destruct (decide (B = p)) as [<-|Hne]; [right; by apply Hkept|].
    rewrite Hother by (done || lia). destruct (Hfront HB); [by left|right; by apply (rt_needs_ack _ _ _ _ _ _ Htook)].
Qed.

(** One of them. *)
Lemma net_send_deliver_phase n0 n B E H k F Er U draw :
  net_phase n0 n B E H (S k) F Er U → 0 ≤ draw ≤ RANDOM_INTEGER_MAX →
  ∃ n' F' Er' U', net_send_deliver now draw n = Some n' ∧ net_phase n0 n' B E H k F' Er' U'.
Proof using io_laws pf_laws Hnow.
  intros [Hruns Hn Hfl Hhm Hlog Hprog] Hd. pose proof (ni_tx _ _ _ _ _ _ _ _ Hn) as Ho.
  destruct (net_send_inv _ _ _ _ _ _ _ _ now draw 0 Hn Hd)
    as (packet & next' & t' & F' & Hs & Hex & Hn1 & HK & Hpk).
  pose proof (net_runs_step start n (NetSend now draw 0) _ Hruns Hd Hex) as Hruns1.
  assert (Hsame : nt_rx (net_send_data packet (net_with_tx t' n)) = nt_rx n
    ∧ nt_rx_base (net_send_data packet (net_with_tx t' n)) = nt_rx_base n
    ∧ nt_tx (net_send_data packet (net_with_tx t' n)) = t'
    ∧ nt_written (net_send_data packet (net_with_tx t' n)) = nt_written n
    ∧ nt_fin (net_send_data packet (net_with_tx t' n)) = nt_fin n
    ∧ nt_read (net_send_data packet (net_with_tx t' n)) = nt_read n).
  { unfold net_send_data. destruct packet; done. }
  destruct Hsame as (Hrx & Hbase & Htx & Hw & Hf & Hr).
  unfold net_send_deliver. rewrite (bind_step _ _ _ Hex).
  destruct Hpk as [->|(p & Hne & Hdata & HO)].
  - cbn [net_send_data net_with_tx nt_data]. rewrite Nat.eqb_refl. exists (net_with_tx t' n), F', Er, U.
    split; [done|]. constructor; auto; [by eapply tx_flushed_kept|]. left.
    destruct Hprog as [Hset|Hmiss]; [exact Hset|]. apply (net_missing_none _ _ _ _ _ _ _ Hmiss). intros p Hp Hdue.
    destruct (side_sends _ _ _ _ _ _ now draw 0 p Ho Hfl Hd Hnow Hp Hdue) as (packet & t2 & Hs2 & Hne). congruence.
  - set (n1 := net_send_data packet (net_with_tx t' n)) in *. clearbody n1.
    rewrite Hdata. cbn [length]. rewrite (proj2 (Nat.eqb_neq _ _)) by lia. pose proof (ho_live _ _ _ _ _ _ HO) as Hp.
    pose proof (net_arrived_queue _ _ _ _ _ _ _ _ Hn). pose proof (ni_window _ _ _ _ _ _ _ _ Hn).
    pose proof (ri_window _ _ _ _ _ _ (sy_inv _ _ _ _ _ _ _ _ (ni_rx _ _ _ _ _ _ _ _ Hn))).
    pose proof (ring_size_bounds _ _ _ (net_queue_ring _ _ _ _ _ _ _ _ Hn)).
    destruct (net_deliver_inv _ _ _ _ _ _ _ _ 0 p packet Hn1) as (r' & Er' & U' & Hex2 & Hn2 & HU & Hb2 & Htook);
      [by rewrite Hdata|rewrite Hbase; lia|]. rewrite Hrx, Hbase in Htook.
    exists (net_with_rx r' n1), F', Er', U'. split; [done|].
    constructor; [| exact Hn2| | | |].
    + apply (net_runs_step start n1 (NetDeliver 0) _ Hruns1); [|exact Hex2]. intros q pk. rewrite Hdata, Hbase. intros [= <- <-]. lia.
    + cbn. rewrite Htx. by eapply tx_flushed_kept.
    + cbn. rewrite (rt_himark _ _ _ _ _ _ Htook). done.
    + unfold net_same. cbn. by rewrite Hw, Hf, Hr.
    + eapply (net_missing_step n); [exact Hn|exact HO|exact Htook|exact HU|exact Htx|done|exact Hprog].
Qed.

Lemma net_sends_phase draws :
  ∀ n0 n B E H F Er U, Forall (λ d, 0 ≤ d ≤ RANDOM_INTEGER_MAX) draws →
  net_phase n0 n B E H (length draws) F Er U →
  ∃ n' F' Er' U', net_sends now draws n = Some n' ∧ net_phase n0 n' B E H 0 F' Er' U'.
Proof using io_laws pf_laws Hnow.
  induction draws as [|draw draws IH]; intros n0 n B E H F Er U Hd Hph; cbn [net_sends]; [by eauto 10|].
  apply Forall_cons in Hd as [Hd1 Hd].
  destruct (net_send_deliver_phase _ _ _ _ _ _ _ _ _ draw Hph Hd1) as (n1 & F1 & Er1 & U1 & Hs & Hph1).
  rewrite (bind_step _ _ _ Hs). by eapply IH.
Qed.

(** At the end everything within the credit has arrived. *)
Lemma net_phase_end n0 n B E H F Er U :
  net_phase n0 n B E H 0 F Er U → Z.min E H ≤ U ∧ (B < Z.min E H → rx_needs_ack (nt_rx n) = true).
Proof.
  intros [_ Hn _ _ _ Hprog].
  assert (Hset : net_settled n B E H Er U).
  { destruct Hprog as [?|Hmiss]; [done|]. apply (net_missing_none _ _ _ _ _ _ _ Hmiss). intros p Hp.
    apply (tx_dues_zero _ B E); [|lia]. destruct Hmiss as (_ & _ & ?). lia. }
  destruct Hset as [Harr Hna]. split; [|done].
  pose proof (ni_window _ _ _ _ _ _ _ _ Hn). destruct (decide (Z.min E H ≤ U)); [done|].
  destruct (Harr U) as [?|[HUE (b & Hb & Hty)]]; [lia|lia|].
  destruct Hty. eapply (ri_next _ _ _ _ _ _ (sy_inv _ _ _ _ _ _ _ _ (ni_rx _ _ _ _ _ _ _ _ Hn))); eauto.
Qed.

(** ** The rest of the round *)

(** The last packet on the way back, whatever it is; when it was just sent, what it does. *)
Lemma net_last_back_inv n B E H F Er U :
  net_inv start n B E H F Er U → net_runs start n →
  ∃ n' B' E' H', net_last_back n = Some n' ∧ net_inv start n' B' E' H' F Er U ∧ net_runs start n'
    ∧ net_same n n' ∧ nt_rx n' = nt_rx n ∧ nt_rx_base n' = nt_rx_base n ∧ nt_read n' = nt_read n
    ∧ B ≤ B' ∧ E ≤ E' ∧ (nt_fin n = None → E' = E)
    ∧ (∀ bitmap, last (nt_back n)
         = Some (StoreBeU16 (FormatPacketHeader (u16 U) kDataAckPacket (rx_control_bit (nt_rx n))) ++ bitmap) →
       B' = U)
    ∧ (∀ h, last (nt_back n)
         = Some (StoreBeU16 (FormatPacketHeader (u16 h) kFlowControlPacket (rx_control_bit (nt_rx n))) ++ []) →
       nt_rx_base n + rx_cap (nt_rx n) = h →
       B' = B ∧ E' = E ∧ (tx_state (nt_tx n) = TkConnected →
         h ≤ E + tx_peer_receive_buffer_size (nt_tx n) → h < B + 2048 → H' = h)).
Proof using io_laws pf_laws.
  intros Hn Hruns. unfold net_last_back. rewrite last_lookup.
  destruct (nt_back n !! pred (length (nt_back n))) as [packet|] eqn:Hi.
  - destruct (net_deliver_back_inv start _ _ _ _ _ _ _ _ packet Hn Hi)
      as (n' & B' & E' & H' & Hex & Hn' & Hrx & Hb & _ & Hf & Hw & Hr & HB & HE & HEn & Hack & Hflow).
    exists n', B', E', H'. split; [done|]. split; [done|].
    split; [exact (net_runs_step start n (NetDeliverBack _) _ Hruns I Hex)|].
    do 7 (split; [done|]). split; [intros bitmap [= ->]; eauto|intros h [= ->]; apply Hflow; apply app_nil_r].
  - exists n, B, E, H. cbn [net_exec]. rewrite Hi. by split_and!.
Qed.

(** The flush with which a round begins makes everything that is queued due. *)
Lemma net_round_begins n B E H F Er U k :
  net_inv start n B E H F Er U → net_runs start n →
  Forall (λ b, ob_expiration b ≤ now) (tx_out_buffers (nt_tx n)) →
  rx_recv_himark_update_expiration (nt_rx n) ≤ now → E - B ≤ Z.of_nat k →
  ∃ n', net_exec n NetFlush = Some n' ∧ net_phase n n' B E H k F Er U.
Proof using io_laws.
  intros Hn Hruns Htimers Hhm Hk. destruct (net_flush_inv start _ _ _ _ _ _ _ Hn) as (t' & Hex & Hn' & HK & Hfl).
  exists (net_with_tx t' n). split; [done|].
  assert (Hruns' : net_runs start (net_with_tx t' n)) by exact (net_runs_step start n NetFlush _ Hruns I Hex).
  constructor; [done|done|done|done|done|right].
  assert (Hdue : ∀ p b, tx_out_buffers t' !! tx_slot t' p = Some b → ob_acked b = false → tx_due_at t' now p = true).
  { intros p b Hb Ha. apply (tx_due_at_spec _ _ _ _ Hb). split; [done|]. right.
    cbn [net_exec] in Hex. revert Hex. unfold Transmitter_flush.
    destruct (tx_current_out_buffer (nt_tx n)) as [i|]; cbn [mbind option_bind].
    - destruct (tx_out_buffers (nt_tx n) !! i) as [bi|] eqn:Hbi; [|done]. cbn [mbind option_bind]. intros Heq.
      apply (f_equal (option_map (λ n, tx_out_buffers (nt_tx n)))) in Heq. cbn in Heq. injection Heq as Hbufs.
      rewrite <- Hbufs in Hb. destruct (decide (i = tx_slot t' p)) as [Heq|Hne].
      + rewrite <- Heq, list_lookup_insert_eq in Hb by (by eapply lookup_lt_Some). injection Hb as <-. cbn.
        by eapply (Forall_lookup_1 (λ b, ob_expiration b ≤ now)).
      + rewrite list_lookup_insert_ne in Hb by done. by eapply (Forall_lookup_1 (λ b, ob_expiration b ≤ now)).
    - intros Heq. apply (f_equal (option_map (λ n, tx_out_buffers (nt_tx n)))) in Heq. cbn in Heq. injection Heq as Hbufs.
      rewrite <- Hbufs in Hb. by eapply (Forall_lookup_1 (λ b, ob_expiration b ≤ now)). }
  pose proof (side_wf _ _ _ _ _ _ (ni_tx _ _ _ _ _ _ _ _ Hn')) as Hwf.
  assert (Hany : ∀ p, tx_due_at t' now p = true ∨ tx_acked t' p).
  { intros p. destruct (tx_slot_lookup _ _ _ _ Hwf p) as (b & Hb & _).
    destruct (ob_acked b) eqn:Ha; [right; by exists b|left; by eapply Hdue]. }
  split; [|split].
  - intros p Hp. destruct (Hany p) as [?|Ha]; [by right|left].
    eapply (back_has _ _ _ _ _ _ _ (ni_back _ _ _ _ _ _ _ _ Hn')). split; [lia|done].
  - intros HBE. destruct (Hany B) as [?|Ha]; [by left|].
    destruct (ni_front _ _ _ _ _ _ _ _ Hn'). split; [lia|done].
  - unfold tx_dues. etrans; [apply length_filter|]. rewrite length_seqZ. lia.
Qed.

End Drain.

(** ** The contract *)

Section Contract.

Context {io : RooIo} {io_laws : RooIoLaws} {pf : Platform} {pf_laws : PlatformLaws}.

(** With the queue empty and fresh credit, the writer goes on. *)
Lemma side_writes t E H F buf :
  tx_side None t E E H F → E < H → buf ≠ [] →
  ∃ k ready t', Transmitter_tryWrite t buf = Some (k, ready, t') ∧ 0 < k.
Proof using io_laws.
  intros [Ho|Hd] HEH Hbuf; [|by pose proof (dn_fin _ _ _ _ _ _ Hd)]. pose proof (to_inv _ _ _ _ _ _ Ho) as Hinv.
  destruct (tx_tryWrite_spec t E E H F buf Hinv)
    as (k & ready & t' & E' & Hw & Hk & Hinv' & Hres). exists k, ready, t'. split; [done|].
  assert (Hact : tx_active t) by (right; apply Ho). pose proof (to_eos _ _ _ _ _ _ Ho) as Heos. cbn in Heos.
  rewrite decide_True in Hres by done. destruct Hres as [W Hblk].
  destruct (decide (0 < k)); [done|]. exfalso. assert (k = 0) as -> by lia.
  destruct (tx_tryWrite_live t E E E' H F buf 0 ready t' Hinv Hact Heos
    (proj1 (proj1 (tx_kinds_live _ _ _ Heos) (to_kinds _ _ _ _ _ _ Ho))) Hw (ti_wf _ _ _ _ _ Hinv')) as [Hlive _].
  pose proof (wr_grow _ _ _ _ _ _ _ W) as [_ Hgrow].
  destruct (wr_stream _ _ _ _ _ _ _ W) as [_ Hstr]; [by apply (ti_cur _ _ _ _ _ Hinv)|].
  unfold tx_stream in Hstr at 2. rewrite Z.sub_diag in Hstr. cbn in Hstr. rewrite take_0 in Hstr.
  pose proof (ti_wf _ _ _ _ _ Hinv') as Hwf'.
  assert (HE : E' = E).
  { destruct (decide (E' = E)); [done|]. exfalso. destruct (tx_slot_lookup _ _ _ _ Hwf' E) as (b & Hb & _).
    destruct (Hlive E b ltac:(lia) Hb) as [Hne _].
    unfold tx_stream in Hstr. rewrite seqZ_cons in Hstr by lia. cbn in Hstr. apply app_nil in Hstr as [Hstr _].
    unfold tx_body in Hstr. by rewrite Hb in Hstr. }
  assert (0 < Z.of_nat (length buf)) by (destruct buf; [done|cbn; lia]).
  pose proof (ring_capacity_bounds _ _ _ (tw_ring _ _ _ _ Hwf')).
  destruct Hblk as [?|?]; lia.
Qed.

(** What was just sent back is the last packet on the way. *)
Lemma net_send_back_last start n B E H F Er U seq type body r' :
  let packet := StoreBeU16 (FormatPacketHeader seq type (rx_control_bit (nt_rx n))) ++ body in
  net_inv start n B E H F Er U → net_inv start (net_send_back packet (net_with_rx r' n)) B E H F Er U →
  last (nt_back (net_send_back packet (net_with_rx r' n)))
  = Some (StoreBeU16 (FormatPacketHeader seq type (rx_control_bit (nt_rx (net_send_back packet (net_with_rx r' n))))) ++ body)
  ∧ nt_rx (net_send_back packet (net_with_rx r' n)) = r'.
Proof using io_laws.
  intros packet Hn Hn'.
  assert (Hne : packet ≠ []).
  { intros Hnil%(f_equal length). unfold packet in Hnil.
    destruct (header_split seq type (rx_control_bit (nt_rx n)) body) as (_ & _ & Hl). rewrite Hl in Hnil. done. }
  assert (Hcb : rx_control_bit (nt_rx (net_send_back packet (net_with_rx r' n))) = rx_control_bit (nt_rx n)).
  { pose proof (ni_bits _ _ _ _ _ _ _ _ Hn) as H1. pose proof (ni_bits _ _ _ _ _ _ _ _ Hn') as H2.
    assert (Htx : nt_tx (net_send_back packet (net_with_rx r' n)) = nt_tx n)
      by (unfold net_send_back; by destruct packet).
    rewrite Htx, H1 in H2. by destruct (rx_control_bit (nt_rx n)), (rx_control_bit (nt_rx (net_send_back packet (net_with_rx r' n)))). }
  rewrite Hcb. fold packet. clearbody packet. destruct packet; [done|]. split; [|done].
  unfold net_send_back. cbn. by rewrite last_snoc.
Qed.

Lemma net_send_back_logs packet r' n :
  nt_written (net_send_back packet (net_with_rx r' n)) = nt_written n
  ∧ nt_read (net_send_back packet (net_with_rx r' n)) = nt_read n
  ∧ nt_rx (net_send_back packet (net_with_rx r' n)) = r'
  ∧ nt_tx (net_send_back packet (net_with_rx r' n)) = nt_tx n
  ∧ nt_fin (net_send_back packet (net_with_rx r' n)) = nt_fin n.
Proof. unfold net_send_back. by destruct packet. Qed.

(** An acknowledgment that is due reaches the transmitter. *)
Lemma net_ack_round start n B E H F Er U :
  net_inv start n B E H F Er U → net_runs start n → (B < Z.min E H → rx_needs_ack (nt_rx n) = true) →
  ∃ n1 n2 B' E' H', net_exec n NetAck = Some n1 ∧ net_last_back n1 = Some n2
    ∧ net_inv start n2 B' E' H' F Er U ∧ net_runs start n2
    ∧ net_same n n2 ∧ nt_read n2 = nt_read n
    ∧ rx_recv_himark_update_expiration (nt_rx n2) = rx_recv_himark_update_expiration (nt_rx n)
    ∧ B ≤ B' ∧ E ≤ E' ∧ (nt_fin n = None → E' = E) ∧ (B < Z.min E H → B' = U).
Proof using io_laws pf_laws.
  intros Hn Hruns Hna. destruct (net_ack_inv start _ _ _ _ _ _ _ Hn) as (packet & r1 & Hex1 & Hn1 & Hhm1 & Hack).
  pose proof (net_runs_step start n NetAck _ Hruns I Hex1) as Hruns1.
  destruct (net_send_back_logs packet r1 n) as (Hw1 & Hr1 & Hrx1 & _ & Hf1).
  destruct (net_last_back_inv start _ _ _ _ _ _ _ Hn1 Hruns1)
    as (n2 & B2 & E2 & H2 & Hex2 & Hn2 & Hruns2 & [Hw2 Hf2] & Hrx2 & _ & Hr2 & HB2 & HE2 & HEn & Hlast & _).
  eexists _, n2, B2, E2, H2. split_and!; [exact Hex1|done|done|done| |congruence|by rewrite Hrx2, Hrx1|done|done| |].
  - split; congruence.
  - intros Hno. apply HEn. congruence.
  - intros HBE. destruct (Hack (Hna HBE)) as [bitmap ->].
    destruct (net_send_back_last start _ _ _ _ _ _ _ _ _ _ _ Hn Hn1) as [Hl _]. by apply (Hlast bitmap).
Qed.

(** A flow-control packet, once everything that has arrived was read, renews the credit. *)
Lemma net_credit_round start n B E H F Er U now :
  net_inv start n B E H F Er U → net_runs start n → nt_rx_base n = U → U ≤ B + 1000 →
  rx_recv_himark_update_expiration (nt_rx n) ≤ now →
  ∃ n1 n2 H', net_exec n (NetRecvHimark now 0) = Some n1 ∧ net_last_back n1 = Some n2
    ∧ net_inv start n2 B E H' F Er U ∧ net_runs start n2
    ∧ net_same n n2 ∧ nt_read n2 = nt_read n ∧ nt_rx_base n2 = U ∧ (tx_state (nt_tx n) = TkConnected → U < H').
Proof using io_laws pf_laws.
  intros Hn Hruns Hb HUB Hhm. destruct (net_himark_inv start _ _ _ _ _ _ _ now 0 Hn) as (packet & r1 & Hex1 & Hn1 & Hbase1 & Hflow).
  pose proof (net_runs_step start n (NetRecvHimark now 0) _ Hruns I Hex1) as Hruns1.
  destruct (net_send_back_logs packet r1 n) as (Hw1 & Hr1 & Hrx1 & Htx1 & Hf1).
  destruct (net_last_back_inv start _ _ _ _ _ _ _ Hn1 Hruns1)
    as (n2 & B2 & E2 & H2 & Hex2 & Hn2 & Hruns2 & [Hw2 Hf2] & _ & Hb2 & Hr2 & _ & _ & _ & _ & Hlast).
  pose proof (ni_peer _ _ _ _ _ _ _ _ Hn) as Hpeer. pose proof (net_arrived_queue _ _ _ _ _ _ _ _ Hn).
  pose proof (ring_capacity_bounds _ _ _
    (rw_ring _ _ _ (ri_wf _ _ _ _ _ _ (sy_inv _ _ _ _ _ _ _ _ (ni_rx _ _ _ _ _ _ _ _ Hn))))) as Hcap.
  fold (rx_cap (nt_rx n)) in Hcap. pose proof (Hflow Hhm) as Hpacket. rewrite <- (app_nil_r (StoreBeU16 _)) in Hpacket.
  assert (Hcap1 : rx_cap (nt_rx (net_send_back packet (net_with_rx r1 n))) = rx_cap (nt_rx n)).
  { pose proof (ni_peer _ _ _ _ _ _ _ _ Hn1) as Hp1. rewrite Htx1, Hpeer in Hp1. done. }
  subst packet. destruct (net_send_back_last start _ _ _ _ _ _ _ _ _ _ _ Hn Hn1) as [Hl _].
  destruct (Hlast _ Hl) as (-> & -> & HH); [congruence|]. rewrite Htx1, Hb in HH.
  eexists _, n2, H2. split_and!; [exact Hex1|done|done|done| |congruence|congruence|].
  - split; congruence.
  - intros Hc. rewrite HH; [lia|done|lia|lia].
Qed.

(** A read of as much as there is reads everything that has arrived. *)
Lemma net_read_round start n B E H F Er U count :
  net_inv start n B E H F Er U → net_runs start n →
  Z.of_nat (length (nt_written n)) - Z.of_nat (length (nt_read n)) < count →
  ∃ n', net_exec n (NetRead count) = Some n' ∧ net_inv start n' B E H F Er U ∧ net_runs start n'
    ∧ net_same n n' ∧ nt_tx n' = nt_tx n ∧ nt_rx_base n' = U
    ∧ (rx_recv_himark_update_expiration (nt_rx n') = rx_recv_himark_update_expiration (nt_rx n)
       ∨ rx_recv_himark_update_expiration (nt_rx n') = Uptime_Start).
Proof using io_laws pf_laws.
  intros Hn Hruns Hcount. assert (Hcount0 : 0 ≤ count).
  { destruct (net_read_prefix start _ _ _ _ _ _ _ Hn) as [rest Hrest]. rewrite Hrest, length_app in Hcount. lia. }
  destruct (net_read_inv start _ _ _ _ _ _ _ count Hn Hcount0) as (bytes & r' & Br' & Hex & Hn' & Hbase & Hall & Hhm).
  pose proof (net_runs_step start n (NetRead count) _ Hruns Hcount0 Hex) as Hruns'.
  exists (net_log [] bytes (net_with_rx r' n)). set (n' := net_log [] bytes (net_with_rx r' n)) in *.
  assert (Hlog : nt_written n' = nt_written n ∧ nt_read n' = nt_read n ++ bytes ∧ nt_rx n' = r' ∧ nt_rx_base n' = Br'
    ∧ nt_fin n' = nt_fin n ∧ nt_tx n' = nt_tx n).
  { unfold n', net_log, net_with_rx. cbn. rewrite app_nil_r. split_and!; try done. }
  destruct Hlog as (Hw & Hr & Hrx & Hb & Hf & Htx). clearbody n'.
  assert (Br' = U) as ->.
  { apply Hall. destruct (net_read_prefix start _ _ _ _ _ _ _ Hn') as [rest Hrest].
    apply (f_equal length) in Hrest. rewrite Hw, Hr, !length_app in Hrest. lia. }
  split_and!; [done|done|done|done|done|done|by rewrite Hrx].
Qed.

(** A round, on a network that works, when the timers have expired. *)
Record round_ready (now : Z) (draws : list Z) (count : Z) (n : Net) : Prop := {
  rr_now : Uptime_Start ≤ now < Uptime_Max;
  rr_timers : Forall (λ b, ob_expiration b ≤ now) (tx_out_buffers (nt_tx n));
  rr_himark : rx_recv_himark_update_expiration (nt_rx n) ≤ now;
  rr_draws : Forall (λ draw, 0 ≤ draw ≤ RANDOM_INTEGER_MAX) draws;
  rr_enough : RingBuffer_slotsUsed (tx_out_ring (nt_tx n)) ≤ Z.of_nat (length draws);
  rr_count : Z.of_nat (length (nt_written n)) - Z.of_nat (length (nt_read n)) < count;
}.

(** Everything within the credit arrives, is acknowledged and is read, and there is credit
    again. *)
Lemma net_round_good start n B E H F Er U now draws count :
  net_inv start n B E H F Er U → net_runs start n → round_ready now draws count n →
  ∃ n' B' E' H' F' Er' U', net_round now draws count n = Some n' ∧ net_runs start n'
    ∧ net_inv start n' B' E' H' F' Er' U' ∧ net_same n n' ∧ nt_rx_base n' = U'
    ∧ B ≤ B' ∧ E ≤ E' ∧ (nt_fin n = None → E' = E) ∧ Z.min E H ≤ U' ∧ (B < Z.min E H → B' = U')
    ∧ (tx_state (nt_tx n') = TkConnected → U' < H').
Proof using io_laws pf_laws.
  intros Hn Hrun [Hnow Htimers Hhimark Hdraws Henough Hcount].
  rewrite (ring_slotsUsed _ _ _ (net_queue_ring _ _ _ _ _ _ _ _ Hn)) in Henough.
  destruct (net_round_begins start now _ _ _ _ _ _ _ _ Hn Hrun Htimers Hhimark Henough) as (n1 & Hex1 & Hph1).
  destruct (net_sends_phase start now Hnow draws _ _ _ _ _ _ _ _ Hdraws Hph1) as (n2 & F2 & Er2 & U2 & Hex2 & Hph2).
  destruct (net_phase_end start now _ _ _ _ _ _ _ _ Hph2) as [HU2 Hna].
  destruct Hph2 as [Hruns2 Hn2 _ Hhm2 [[Hw2 Hf2] Hr2] _].
  destruct (net_ack_round start _ _ _ _ _ _ _ Hn2 Hruns2 Hna)
    as (n3 & n4 & B4 & E4 & H4 & Hex3 & Hex4 & Hn4 & Hruns4 & [Hw4 Hf4] & Hr4 & Hhm4 & HB4 & HE4 & HEn4 & HBU4).
  destruct (net_read_round start _ _ _ _ _ _ _ count Hn4 Hruns4 ltac:(congruence))
    as (n5 & Hex5 & Hn5 & Hruns5 & [Hw5 Hf5] & Htx5 & Hb5 & Hhm5).
  pose proof (net_arrived_queue _ _ _ _ _ _ _ _ Hn2) as HUE2.
  assert (HEH : E ≤ H + 1 ∨ B = E).
  { destruct (ni_tx _ _ _ _ _ _ _ _ Hn) as [Ho|Hd]; [left|right; exact (dn_empty _ _ _ _ _ _ Hd)].
    pose proof (open_credit _ _ _ _ _ _ Ho). lia. }
  destruct (net_credit_round start _ _ _ _ _ _ _ now Hn5 Hruns5 Hb5)
    as (n6 & n7 & H7 & Hex6 & Hex7 & Hn7 & Hruns7 & [Hw7 Hf7] & Hr7 & Hb7 & HE);
    [destruct (decide (B < Z.min E H)); [rewrite HBU4 by done|]; lia|lia|].
  exists n7, B4, E4, H7, F2, Er2, U2. split; [|split_and!; try done].
  - unfold net_round. rewrite (bind_step _ _ _ Hex1), (bind_step _ _ _ Hex2), (bind_step _ _ _ Hex3),
      (bind_step _ _ _ Hex4), (bind_step _ _ _ Hex5), (bind_step _ _ _ Hex6). exact Hex7.
  - split; congruence.
  - intros Hno. apply HEn4. congruence.
  - intros Hc. destruct (ni_tx _ _ _ _ _ _ _ _ Hn7) as [Ho|Hd]; [|by rewrite (dn_state _ _ _ _ _ _ Hd) in Hc].
    apply HE. destruct (ni_tx _ _ _ _ _ _ _ _ Hn5) as [Ho5|Hd5]; [apply Ho5|].
    pose proof (dn_empty _ _ _ _ _ _ Hd5). pose proof (dn_fin _ _ _ _ _ _ Hd5) as Hfin. rewrite <- Hf7 in Hfin.
    destruct (to_fin _ _ _ _ _ _ Ho _ Hfin). lia.
Qed.



End Contract.

(** ** Witnesses *)

Definition round_ready_ok {pf : Platform} (now : Z) (draws : list Z) (count : Z) (n : Net) : bool :=
  (Uptime_Start <=? now) && (now <? Uptime_Max)
  && forallb (λ b, ob_expiration b <=? now) (tx_out_buffers (nt_tx n))
  && (rx_recv_himark_update_expiration (nt_rx n) <=? now)
  && forallb (λ draw, (0 <=? draw) && (draw <=? RANDOM_INTEGER_MAX)) draws
  && (RingBuffer_slotsUsed (tx_out_ring (nt_tx n)) <=? Z.of_nat (length draws))
  && (Z.of_nat (length (nt_written n)) - Z.of_nat (length (nt_read n)) <? count).

Lemma round_ready_ok_spec {pf : Platform} now draws count n :
  round_ready_ok now draws count n = true → round_ready now draws count n.
Proof.
  unfold round_ready_ok. rewrite !andb_true_iff, !forallb_forall. intros [[[[[[? ?] Ht] ?] Hd] ?] ?].
  constructor; [lia| |lia| |lia|lia]; apply Forall_forall; intros x Hx%list_elem_of_In.
  - by apply Z.leb_le, Ht.
  - specialize (Hd x Hx). lia.
Qed.

(** The first packet is lost; what is written after it is not even flushed. *)
Definition net_lost_events : list net_event :=
  [ NetWrite [1; 2; 3]; NetFlush; NetSend 1000 5 0; NetWrite [4; 5] ].


(** Four packets fill the queue and the first three are lost; so the end of the stream has to wait. *)
Definition net_closed_events : list net_event :=
  [ NetWrite [1]; NetFlush; NetSend 1000 5 0; NetWrite [2]; NetFlush; NetSend 1000 5 0;
    NetWrite [3]; NetFlush; NetSend 1000 5 0; NetWrite [4]; NetClose ].

