(* ===== verification/ChannelPair.v ===== *)
(** * ChannelPair: two channels on a network

    Two [Channel]s, from the moment they are told to connect, joined by a network. Each
    runs the critical sections of [Channel::trySend] ([conn], the acknowledgment, the
    credit, one data packet), of [Channel::packetReceived], and of the application's
    writes, flushes, reads and closing, in any order. The network loses, repeats and
    reorders handshake and data packets; it loses acknowledgments and flow-control
    packets. [dir_ok] relates one direction to the runs of [LinkDelivery].
    [ChannelPairCorrect] has the invariant and the theorems. *)

From S2P Require Import Prelude.
From S2P Require Import SeqNum.
From S2P Require Import RingBuffer.
From S2P Require Import RooIo.
From S2P Require Import Protocol.
From S2P Require Import Buffers.
From S2P Require Import Transmitter.
From S2P Require Import TransmitterSpec.
From S2P Require Import TransmitterProofs.
From S2P Require Import TransmitterCorrect.
From S2P Require Import TransmitterSession.
From S2P Require Import Receiver.
From S2P Require Import ReceiverProofs.
From S2P Require Import ReceiverCorrect.
From S2P Require Import ThreadSafe.
From S2P Require Import Channel.
From S2P Require Import ChannelCorrect.
From S2P Require Import ChannelHandshake.
From S2P Require Import LinkDelivery.

Local Open Scope Z_scope.
Local Open Scope roo_scope.

(** ** The system *)

(** One direction: its packets, and the history, as in [Net]. *)
Record Flow := mkFlow {
  fl_data : list (Z * list byte);
  fl_back : list (list byte);
  fl_tx_base : Z;
  fl_rx_base : Z;
  fl_written : list byte;
  fl_read : list byte;
  fl_fin : option Z;
}.

Definition flow_net (t : Transmitter) (r : Receiver) (f : Flow) : Net :=
  mkNet t r (fl_data f) (fl_back f) (fl_tx_base f) (fl_rx_base f) (fl_written f) (fl_read f) (fl_fin f).

Definition net_flow (n : Net) : Flow :=
  mkFlow (nt_data n) (nt_back n) (nt_tx_base n) (nt_rx_base n) (nt_written n) (nt_read n) (nt_fin n).

(** The channels, the flows of what each writes, and the handshake packets each sent. *)
Record Pair := mkPair {
  pr_a : Channel;
  pr_b : Channel;
  pr_ab : Flow;
  pr_ba : Flow;
  pr_shakes_ab : list (list byte);
  pr_shakes_ba : list (list byte);
}.

Definition pair_swap (P : Pair) : Pair :=
  mkPair (pr_b P) (pr_a P) (pr_ba P) (pr_ab P) (pr_shakes_ba P) (pr_shakes_ab P).

(** The direction from a to b. *)
Definition pair_net (P : Pair) : Net :=
  flow_net (ch_transmitter (pr_a P)) (ch_receiver (pr_b P)) (pr_ab P).

Inductive end_event :=
  | EndWrite (buf : list byte)
  | EndFlush
  | EndClose
  | EndRead (count : Z)
  | EndConn (now draw : Z)
  | EndAck
  | EndRecvHimark (now : Z)
  | EndSend (now draw : Z)
  | EndData (i : nat)
  | EndBack (i : nat)
  | EndHandshake (i : nat).

Inductive End := EndA | EndB.

Section Operations.

Context {io : RooIo} {pf : Platform}.

(** The packet that arrives in an event. *)
Definition end_arrives (P : Pair) (e : end_event) : option (list byte) :=
  match e with
  | EndData i => snd <$> fl_data (pr_ba P) !! i
  | EndBack i => fl_back (pr_ab P) !! i
  | EndHandshake i => pr_shakes_ba P !! i
  | _ => None
  end.

(** [Channel::trySend] returns after [conn] while the transmitter is connecting. *)
Definition after_conn (m : ChM (list byte * list byte)) : ChM (list byte * list byte) :=
  state <~ ch_gets (λ c, tx_state (ch_transmitter c)) ;;
  if decide (state = TkConnecting) then ch_ret ([], []) else m.

(** What channel a does; the result is what was written and what was read. *)
Definition end_action (P : Pair) (e : end_event) : ChM (list byte * list byte) :=
  id <~ ch_gets ch_my_stream_id ;;
  match e with
  | EndWrite buf =>
      '(count, _) <~ Channel_tryWrite buf id ;; ch_ret (take (Z.to_nat count) buf, [])
  | EndFlush => Channel_flush id ;;; ch_ret ([], [])
  | EndClose => Channel_close id ;;; ch_ret ([], [])
  | EndRead count => '(bytes, _) <~ Channel_tryRead count id kOk ;; ch_ret ([], bytes)
  | EndConn now draw =>
      '(packet, _) <~ Channel_conn now draw LONG_MAX ;; send_packet packet ;;; ch_ret ([], [])
  | EndAck => after_conn (
      packet <~ ch_on_receiver (λ r, no_conditions (Receiver_ack r)) ;;
      send_packet packet ;;; ch_ret ([], []))
  | EndRecvHimark now => after_conn (
      '(packet, _) <~ ch_on_receiver (λ r, no_conditions (Some (Receiver_updateRecvHimark r now LONG_MAX))) ;;
      send_packet packet ;;; ch_ret ([], []))
  | EndSend now draw => after_conn (
      '(packet, _) <~ ch_on_transmitter (λ t, no_conditions (ThreadSafeTransmitter_send t now draw LONG_MAX)) ;;
      send_packet packet ;;; ch_ret ([], []))
  | EndData _ | EndBack _ | EndHandshake _ =>
      match end_arrives P e with
      | Some packet => Channel_packetReceived packet ;;; ch_ret ([], [])
      | None => ch_ret ([], [])
      end
  end.

Definition sent (es : list Effect) : list (list byte) :=
  concat ((λ e, match e with Send packet => [packet] | _ => [] end) <$> es).

(** The network takes a packet from a. *)
Definition pair_send (P : Pair) (packet : list byte) : Pair :=
  match GetPacketType (packet_header packet) with
  | kHandshakePacket =>
      mkPair (pr_a P) (pr_b P) (pr_ab P) (pr_ba P) (pr_shakes_ab P ++ [packet]) (pr_shakes_ba P)
  | kDataAckPacket | kFlowControlPacket =>
      mkPair (pr_a P) (pr_b P) (pr_ab P) (net_flow (net_send_back packet (pair_net (pair_swap P))))
        (pr_shakes_ab P) (pr_shakes_ba P)
  | _ =>
      mkPair (pr_a P) (pr_b P) (net_flow (net_send_data packet (pair_net P))) (pr_ba P)
        (pr_shakes_ab P) (pr_shakes_ba P)
  end.

(** The history of a flow when its transmitter, or its receiver, takes a step. Once the
    transmitter is closed the stream has an end. A receiver that is still connecting starts to
    read where the transmitter's window is. *)
Definition flow_tx (t t' : Transmitter) (r : Receiver) (written : list byte) (f : Flow) : Flow :=
  let n := flow_net t r f in
  net_flow (net_with_fin (if tx_end_of_stream t' then net_end n else fl_fin f)
              (net_log written [] (net_with_tx t' n))).

Definition flow_rx (r r' : Receiver) (t : Transmitter) (read : list byte) (f : Flow) : Flow :=
  if decide (rx_state r = RkConnecting)
  then mkFlow (fl_data f) (fl_back f) (fl_tx_base f) (fl_tx_base f) (fl_written f) (fl_read f ++ read) (fl_fin f)
  else net_flow (net_log [] read (net_with_rx r' (flow_net t r f))).

(** A delivered acknowledgment leaves the network, with those before it. *)
Definition flow_arrived (e : end_event) (f : Flow) : Flow :=
  match e with
  | EndBack i =>
      match fl_back f !! i with
      | Some _ => mkFlow (fl_data f) (drop (S i) (fl_back f)) (fl_tx_base f) (fl_rx_base f) (fl_written f) (fl_read f) (fl_fin f)
      | None => f
      end
  | _ => f
  end.

Definition pair_exec_a (P : Pair) (e : end_event) : option Pair :=
  '(written, read, es, c) ← end_action P e (pr_a P);
  Some (fold_left pair_send (sent es)
    (mkPair c (pr_b P)
      (flow_arrived e (flow_tx (ch_transmitter (pr_a P)) (ch_transmitter c) (ch_receiver (pr_b P)) written (pr_ab P)))
      (flow_rx (ch_receiver (pr_a P)) (ch_receiver c) (ch_transmitter (pr_b P)) read (pr_ba P))
      (pr_shakes_ab P) (pr_shakes_ba P))).

Definition pair_exec (P : Pair) (x : End * end_event) : option Pair :=
  match x with
  | (EndA, e) => pair_exec_a P e
  | (EndB, e) => P ← pair_exec_a (pair_swap P) e; Some (pair_swap P)
  end.

(** What the environment owes, as in [net_env]: no copy of a data packet arrives once the window
    of the receiver has moved on to more than 2048 packets past it ([Receiver_late_copy] is why).
    And an application does not close its link while it is still connecting, although the code lets
    it ([Transmitter_close_before_connect] is what happens then). *)
Definition pair_env_a (P : Pair) (e : end_event) : Prop :=
  match e with
  | EndConn _ draw | EndSend _ draw => 0 ≤ draw ≤ RANDOM_INTEGER_MAX
  | EndClose => tx_state (ch_transmitter (pr_a P)) ≠ TkConnecting
  | EndRead count => 0 ≤ count
  | EndData i => ∀ p packet, fl_data (pr_ba P) !! i = Some (p, packet) → fl_rx_base (pr_ba P) - 2048 ≤ p
  | _ => True
  end.

Definition pair_env (P : Pair) (x : End * end_event) : Prop :=
  match x with (EndA, e) => pair_env_a P e | (EndB, e) => pair_env_a (pair_swap P) e end.

Definition pair_start (a b : Channel) (Sa Sb : Z) : Pair :=
  mkPair a b (mkFlow [] [] Sa Sa [] [] None) (mkFlow [] [] Sb Sb [] [] None) [] [].

(** Two channels with different stream ids that dial each other, and what may follow. *)
Inductive pair_runs (Sa Sb : Z) : Pair → Prop :=
  | pair_runs_start a b :
      ch_dialing a Sa → ch_dialing b Sb → ch_my_stream_id a ≠ ch_my_stream_id b →
      pair_runs Sa Sb (pair_start a b Sa Sb)
  | pair_runs_step P x P' :
      pair_runs Sa Sb P → pair_env P x → pair_exec P x = Some P' → pair_runs Sa Sb P'.

End Operations.

(** ** One direction *)

Lemma flow_net_flow t r n : nt_tx n = t → nt_rx n = r → flow_net t r (net_flow n) = n.
Proof. intros <- <-. by destruct n. Qed.

Lemma SeqNum_dist_same x : SeqNum_dist x x = 0.
Proof. unfold SeqNum_dist. by rewrite Z.sub_diag. Qed.

Lemma flow_tx_fin t r f fin' : (fin' = true → is_closed (fl_fin f) = true) →
  (if fin' then net_end (flow_net t r f) else fl_fin f) = fl_fin f.
Proof. intros H. destruct fin'; [|done]. unfold net_end. cbn. by destruct (fl_fin f); [|specialize (H eq_refl)]. Qed.

Lemma flow_tx_same t r f :
  (tx_end_of_stream t = true → is_closed (fl_fin f) = true) → flow_tx t t r [] f = f.
Proof.
  intros H. unfold flow_tx. rewrite flow_tx_fin by done. unfold net_flow. cbn.
  rewrite SeqNum_dist_same, Z.add_0_r, !app_nil_r. by destruct f.
Qed.

Lemma flow_rx_same r t f :
  (rx_state r = RkConnecting → fl_rx_base f = fl_tx_base f) → flow_rx r r t [] f = f.
Proof.
  intros Hb. unfold flow_rx. case_decide as Hst.
  - rewrite app_nil_r. specialize (Hb Hst). destruct f. cbn in *. by subst.
  - unfold net_flow. cbn. rewrite SeqNum_dist_same, Z.add_0_r, !app_nil_r. by destruct f.
Qed.

(** A transmitter, and a receiver, that have been told to connect. *)
Record tx_dialing {pf : Platform} (t : Transmitter) (S : Z) : Prop := {
  td_inv : tx_inv t S S S S;
  td_state : tx_state t = TkConnecting;
  td_eos : tx_end_of_stream t = false;
  td_current : tx_current_out_buffer t = None;
}.

Record rx_dialing (r : Receiver) : Prop := {
  rd_wf : ∃ R, rx_wf r R R;
  rd_state : rx_state r = RkConnecting;
  rd_current : rx_current_in_buffer r = None;
  rd_self_closed : rx_self_closed r = false;
  rd_peer_closed : rx_peer_closed r = false;
  rd_eos : rx_end_of_stream r = false;
}.

(** A transmitter that has been connected, and may have come to the end of its stream. *)
Definition tx_past (t : Transmitter) : Prop := tx_state t = TkConnected ∨ tx_state t = TkIdle.

Section Direction.

Context {io : RooIo} {io_laws : RooIoLaws} {pf : Platform} {pf_laws : PlatformLaws}.
Context (S cap : Z) (bit : bool) (HS : 0 ≤ S < 4096).

(** Neither end has heard of the other; or the receiver has, and the direction is what it
    will be once the transmitter connects; or both have. *)
Inductive dir_ok (t : Transmitter) (r : Receiver) (f : Flow) : Prop :=
  | dir_idle :
      tx_dialing t S → rx_dialing r → rx_cap r = cap → f = mkFlow [] [] S S [] [] None → dir_ok t r f
  | dir_half :
      tx_dialing t S → net_runs S (flow_net (Transmitter_setConnected cap bit t) r f) → dir_ok t r f
  | dir_up : tx_past t → net_runs S (flow_net t r f) → dir_ok t r f.

(** The transmitter does nothing before it is connected. *)
Lemma dialing_write t buf : tx_dialing t S → Transmitter_tryWrite t buf = Some (0, false, t).
Proof.
  intros [Hinv Hst Heos Hcur]. unfold Transmitter_tryWrite. destruct buf as [|x buf]; [done|].
  rewrite Heos, Hst. pose proof (ti_wf _ _ _ _ _ Hinv) as Hwf.
  cbn [Transmitter_tryWrite_loop]. unfold Transmitter_acquire. rewrite Hcur, (tw_himark _ _ _ _ Hwf), (ra_end _ _ _ (tw_ring _ _ _ _ Hwf)).
  unfold SeqNum_ge, SeqNum_eq. rewrite Z.sub_diag, Z.eqb_refl. done.
Qed.

Lemma dialing_flush t : tx_dialing t S → Transmitter_flush t = Some (false, t).
Proof. intros []. unfold Transmitter_flush. by rewrite td_current0. Qed.

Lemma dialing_send t now draw next : tx_dialing t S → Transmitter_send t now draw next = Some ([], next, t).
Proof. intros []. unfold Transmitter_send, Transmitter_getBufferToSend. by rewrite td_state0. Qed.

Lemma dialing_receive_back t packet : tx_dialing t S → net_receive_back packet t = Some t.
Proof.
  intros []. unfold net_receive_back, Transmitter_ack, Transmitter_updateRecvHimark. rewrite td_state0.
  destruct (GetPacketType _); try done. by destruct (negb _).
Qed.

Lemma run_connected n : net_runs S n → tx_past (nt_tx n) ∧ rx_state (nt_rx n) = RkConnected.
Proof using io_laws pf_laws.
  intros Hn. destruct (net_runs_good S n Hn) as (B & E & H & F & Er & U & Hi).
  split; [|apply (sy_state _ _ _ _ _ _ _ _ (ni_rx _ _ _ _ _ _ _ _ Hi))].
  destruct (ni_tx _ _ _ _ _ _ _ _ Hi) as [Ho|Hd]; [left; apply Ho|right; apply Hd].
Qed.

(** A run goes on, whatever the event, and its ends stay connected. *)
Lemma run_goes_on n e :
  net_runs S n → net_env n e →
  ∃ n', net_exec n e = Some n' ∧ net_runs S n' ∧ tx_past (nt_tx n') ∧ rx_state (nt_rx n') = RkConnected
    ∧ ((∀ i, e ≠ NetDeliverBack i) → tx_state (nt_tx n') = tx_state (nt_tx n)).
Proof using io_laws pf_laws.
  intros Hn Henv. pose proof (net_runs_good S n Hn) as Hg. destruct (net_exec_good S n e Hg Henv) as (n' & Hex & _).
  pose proof (net_runs_step S n e n' Hn Henv Hex) as Hn'. exists n'. do 2 (split; [done|]).
  destruct (run_connected n' Hn') as [Ht Hr]. do 2 (split; [done|]). by apply (net_exec_state S).
Qed.

(** Data packets, acknowledgments and credit, by their headers. *)
Definition back_type (packet : list byte) : Prop :=
  GetPacketType (packet_header packet) = kDataAckPacket ∨ GetPacketType (packet_header packet) = kFlowControlPacket.

Lemma back_ok_type cb has top hi lo A l packet :
  back_ok cb has top hi lo A l → packet ∈ l → back_type packet ∧ (2 ≤ length packet ≤ 250)%nat.
Proof using io_laws.
  induction 1 as [|lo A h rest _ _ IH|lo A u bitmap rest _ _ Hlen _ IH]; intros Hin;
    [by apply not_elem_of_nil in Hin|apply elem_of_cons in Hin as [->|?]; auto..].
  - rewrite <- (app_nil_r (StoreBeU16 _)). unfold back_type. rewrite header_read.
    destruct (header_split (u16 h) kFlowControlPacket cb []) as (_ & _ & ->).
    split; [right; by apply packet_header_fields|cbn; lia].
  - unfold back_type. rewrite header_read.
    destruct (header_split (u16 u) kDataAckPacket cb bitmap) as (_ & _ & ->).
    split; [left; by apply packet_header_fields|cbn; lia].
Qed.

Lemma run_back_type n packet :
  net_runs S n → packet ∈ nt_back n → back_type packet ∧ (2 ≤ length packet ≤ 250)%nat.
Proof using io_laws pf_laws.
  intros Hn Hin. destruct (net_runs_good S n Hn) as (B & E & H & F & Er & U & Hi).
  by eapply back_ok_type; [apply (ni_back _ _ _ _ _ _ _ _ Hi)|].
Qed.

Definition stream_packet (packet : list byte) : Prop :=
  GetPacketType (packet_header packet) = kDataPacket ∨ GetPacketType (packet_header packet) = kFinPacket.

Lemma run_data_type n p packet :
  net_runs S n → (p, packet) ∈ nt_data n → stream_packet packet ∧ (2 ≤ length packet ≤ 250)%nat.
Proof using io_laws pf_laws.
  intros Hn Hin. destruct (net_runs_good S n Hn) as (B & E & H & F & Er & U & Hi).
  destruct (wo_shape _ _ _ _ _ _ (ni_wire _ _ _ _ _ _ _ _ Hi) p packet Hin) as (_ & Heq & Hlen & _).
  set (body := drop 2 packet) in *. clearbody body. subst packet. unfold stream_packet, data_packet. rewrite header_read.
  destruct (header_split (u16 p) (stream_type (nt_fin n) p) (tx_control_bit (nt_tx n)) body) as (_ & _ & ->).
  destruct (packet_header_fields (u16 p) (stream_type (nt_fin n) p) (tx_control_bit (nt_tx n)) (stream_type_named _ _)) as [-> _].
  split; [|lia]. unfold stream_type. case_decide; auto.
Qed.

(** *** The transmitting end *)

Lemma dir_eos t r f : dir_ok t r f → tx_end_of_stream t = true → is_closed (fl_fin f) = true.
Proof using io_laws pf_laws.
  intros [[] Hr Hc Hf|[] Hn|Hst Hn] Heos; [congruence..|].
  exact (net_good_eos S _ (net_runs_good S _ Hn) Heos).
Qed.

Lemma dir_tx_same t r f : dir_ok t r f → flow_tx t t r [] f = f.
Proof using io_laws pf_laws. intros Hd. apply flow_tx_same. by eapply dir_eos. Qed.

Lemma flow_tx_run t t' r w f :
  net_runs S (net_log w [] (net_with_tx t' (flow_net t r f))) →
  flow_tx t t' r w f = net_flow (net_log w [] (net_with_tx t' (flow_net t r f))).
Proof using io_laws pf_laws.
  intros Hn. unfold flow_tx. rewrite flow_tx_fin; [done|]. exact (net_good_eos S _ (net_runs_good S _ Hn)).
Qed.

(** Where the transmitter is after a step that leads to [n']. *)
Lemma dir_tx_step t t' r w f :
  net_runs S (net_log w [] (net_with_tx t' (flow_net t r f))) → dir_ok t' r (flow_tx t t' r w f).
Proof using io_laws pf_laws.
  intros Hn. destruct (run_connected _ Hn) as [Ht _]. rewrite flow_tx_run by done. apply dir_up; [exact Ht|].
  by rewrite flow_net_flow.
Qed.

Lemma dir_write t r f buf :
  dir_ok t r f →
  ∃ k ready t', Transmitter_tryWrite t buf = Some (k, ready, t') ∧ tx_state t' = tx_state t
    ∧ dir_ok t' r (flow_tx t t' r (take (Z.to_nat k) buf) f).
Proof using io_laws pf_laws.
  intros Hd. pose proof Hd as [Ht Hr Hc Hf|Ht Hn|Hst Hn].
  1-2: exists 0, false, t; rewrite dir_tx_same by done; (split; [by apply dialing_write|done]).
  destruct (run_goes_on _ (NetWrite buf) Hn I) as (n' & Hex & Hn' & _ & _ & Hsame).
  specialize (Hsame ltac:(done)). cbn [net_exec flow_net nt_tx] in Hex. inv_bind Hex.
  destruct p as [[k ready] t']. injection Hex as <-. exists k, ready, t'.
  split; [done|]. split; [exact Hsame|]. by apply dir_tx_step.
Qed.

Lemma dir_flush t r f :
  dir_ok t r f →
  ∃ ready t', Transmitter_flush t = Some (ready, t') ∧ tx_state t' = tx_state t
    ∧ dir_ok t' r (flow_tx t t' r [] f).
Proof using io_laws pf_laws.
  intros Hd. pose proof Hd as [Ht Hr Hc Hf|Ht Hn|Hst Hn].
  1-2: exists false, t; rewrite dir_tx_same by done; (split; [by apply dialing_flush|done]).
  destruct (run_goes_on _ NetFlush Hn I) as (n' & Hex & Hn' & _ & _ & Hsame).
  specialize (Hsame ltac:(done)). cbn [net_exec flow_net nt_tx] in Hex. inv_bind Hex.
  destruct p as [ready t']. injection Hex as <-. exists ready, t'.
  split; [done|]. split; [exact Hsame|]. apply dir_tx_step. by rewrite net_log_nil.
Qed.

Lemma dir_close t r f :
  dir_ok t r f → tx_state t ≠ TkConnecting →
  ∃ t', Transmitter_close t = Some t' ∧ tx_state t' = tx_state t ∧ dir_ok t' r (flow_tx t t' r [] f).
Proof using io_laws pf_laws.
  intros Hd Hne. pose proof Hd as [[] Hr Hc Hf|[] Hn|Hst Hn]; [done..|].
  destruct (run_goes_on _ NetClose Hn I) as (n' & Hex & Hn' & Hpast & _ & Hsame).
  specialize (Hsame ltac:(done)). cbn [net_exec flow_net nt_tx] in Hex. inv_bind Hex.
  injection Hex as <-. exists t0. split; [done|]. split; [exact Hsame|].
  assert (flow_tx t t0 r [] f = net_flow (net_with_fin (net_end (flow_net t r f)) (net_with_tx t0 (flow_net t r f)))) as ->.
  { unfold flow_tx. rewrite net_log_nil. cbv zeta. f_equal. f_equal.
    destruct (fl_fin f) as [x|] eqn:Hfin; [unfold net_end; cbn; rewrite Hfin; by case_match|].
    by rewrite (net_close_eos S _ _ (net_runs_good S _ Hn) Hfin E). }
  apply dir_up; [exact Hpast|]. by rewrite flow_net_flow.
Qed.

Lemma dir_send t r f now draw next :
  dir_ok t r f → 0 ≤ draw ≤ RANDOM_INTEGER_MAX →
  ∃ packet next' t', Transmitter_send t now draw next = Some (packet, next', t') ∧ tx_state t' = tx_state t
    ∧ (packet = [] ∨ stream_packet packet)
    ∧ dir_ok t' r (net_flow (net_send_data packet (flow_net t' r (flow_tx t t' r [] f)))).
Proof using io_laws pf_laws.
  assert (Hnil : ∀ t r f, net_flow (net_send_data [] (flow_net t r f)) = f) by (intros ? ? []; done).
  intros Hd Hdraw. pose proof Hd as [Ht Hr Hc Hf|Ht Hn|Hst Hn].
  1-2: exists [], next, t; rewrite dir_tx_same, Hnil by done;
    (split; [by apply dialing_send|]); (split; [done|]); (split; [by left|done]).
  destruct (run_goes_on _ (NetSend now draw next) Hn Hdraw) as (n' & Hex & Hn' & Hpast & _ & Hsame).
  specialize (Hsame ltac:(done)). cbn [net_exec flow_net nt_tx] in Hex. inv_bind Hex.
  destruct p as [[packet next'] t']. injection Hex as <-. exists packet, next', t'.
  assert (Hst' : nt_tx (net_send_data packet (net_with_tx t' (flow_net t r f))) = t') by done.
  rewrite Hst' in *. split; [done|]. split; [exact Hsame|]. split.
  - destruct packet as [|x packet]; [by left|right]. eapply run_data_type; [exact Hn'|]. by left.
  - assert (flow_tx t t' r [] f = net_flow (net_with_tx t' (flow_net t r f))) as ->.
    { unfold flow_tx. rewrite net_log_nil, flow_tx_fin; [done|].
      intros Heos. apply (net_good_eos S _ (net_runs_good S _ Hn')). by rewrite Hst'. }
    rewrite flow_net_flow by done. apply dir_up; [exact Hpast|]. by rewrite flow_net_flow.
Qed.

Lemma dir_back t r f i packet :
  dir_ok t r f → fl_back f !! i = Some packet →
  back_type packet ∧ (2 ≤ length packet ≤ 250)%nat
  ∧ ∃ t', net_receive_back packet t = Some t' ∧ (tx_state t' = tx_state t ∨ tx_past t ∧ tx_past t')
    ∧ dir_ok t' r (flow_arrived (EndBack i) (flow_tx t t' r [] f)).
Proof using io_laws pf_laws.
  intros Hd Hi. pose proof (list_elem_of_lookup_2 _ _ _ Hi) as Hin. pose proof Hd as [Ht Hr Hc ->|Ht Hn|Hst Hn].
  - done.
  - destruct (run_back_type _ packet Hn Hin) as [Hty Hlen]. do 2 (split; [done|]).
    exists t. rewrite dir_tx_same by done. split; [by apply dialing_receive_back|]. split; [by left|].
    apply dir_half; [done|].
    cbn [flow_arrived]. rewrite Hi. exact (net_runs_step S _ (NetLoseBack i) _ Hn I eq_refl).
  - destruct (run_back_type _ packet Hn Hin) as [Hty Hlen]. do 2 (split; [done|]).
    destruct (run_goes_on _ (NetDeliverBack i) Hn I) as (n' & Hex & Hn' & Hpast & _).
    cbn [net_exec flow_net nt_tx nt_back] in Hex. rewrite Hi in Hex.
    inv_bind Hex. injection Hex as <-. exists t0. split; [done|]. split; [by right|].
    assert (flow_tx t t0 r [] f = net_flow (net_with_tx t0 (flow_net t r f))) as ->.
    { unfold flow_tx. rewrite net_log_nil, flow_tx_fin; [done|].
      exact (net_good_eos S _ (net_runs_good S _ Hn')). }
    apply dir_up; [exact Hpast|]. cbn [flow_arrived net_flow fl_back net_with_tx nt_back flow_net]. rewrite Hi. exact Hn'.
Qed.

(** *** The receiving end *)

(** The receiver waits, or the direction is a run, up to the transmitter. *)
Lemma dir_receiver t r f :
  dir_ok t r f →
  (rx_dialing r ∧ f = mkFlow [] [] S S [] [] None)
  ∨ (rx_state r = RkConnected ∧ ∃ t', net_runs S (flow_net t' r f)
      ∧ ∀ r' f', net_runs S (flow_net t' r' f') → dir_ok t r' f').
Proof using io_laws pf_laws.
  intros [Ht Hr Hc Hf|Ht Hn|Hst Hn]; [by left|right..]; destruct (run_connected _ Hn) as [_ Hrx];
    (split; [exact Hrx|]); eexists; (split; [exact Hn|]); intros r' f' Hn'; [by apply dir_half|by apply dir_up].
Qed.

Lemma dir_read t r f count :
  dir_ok t r f → 0 ≤ count →
  ∃ bytes ready r', Receiver_tryRead r count = Some (bytes, ready, r') ∧ rx_state r' = rx_state r
    ∧ dir_ok t r' (flow_rx r r' t bytes f).
Proof using io_laws pf_laws.
  intros Hd Hc. destruct (dir_receiver _ _ _ Hd) as [[Hr Hf]|(Hst & t' & Hn & Hback)].
  - exists [], false, r. unfold Receiver_tryRead. rewrite (rd_state _ Hr).
    split; [done|]. split; [done|]. rewrite flow_rx_same; [done|]. by subst.
  - destruct (run_goes_on _ (NetRead count) Hn Hc) as (n' & Hex & Hn' & _ & Hst' & _). cbn [net_exec flow_net nt_rx] in Hex.
    inv_bind Hex. destruct p as [[bytes ready] r']. injection Hex as <-. exists bytes, ready, r'.
    split; [done|]. cbn in Hst'. split; [congruence|]. apply Hback. unfold flow_rx. rewrite decide_False by congruence.
    exact Hn'.
Qed.

Lemma dir_ack t r f :
  dir_ok t r f →
  ∃ packet r', Receiver_ack r = Some (packet, r') ∧ rx_state r' = rx_state r
    ∧ (packet = [] ∨ back_type packet)
    ∧ dir_ok t r' (net_flow (net_send_back packet (flow_net t r' (flow_rx r r' t [] f)))).
Proof using io_laws pf_laws.
  intros Hd. destruct (dir_receiver _ _ _ Hd) as [[Hr Hf]|(Hst & t' & Hn & Hback)].
  - exists [], r. unfold Receiver_ack. rewrite (rd_state _ Hr). split; [done|]. split; [done|]. split; [by left|].
    rewrite flow_rx_same by (by subst). subst f. exact Hd.
  - destruct (run_goes_on _ NetAck Hn I) as (n' & Hex & Hn' & _ & Hst' & _). cbn [net_exec flow_net nt_rx] in Hex.
    inv_bind Hex. destruct p as [packet r']. injection Hex as <-. exists packet, r'.
    split; [done|]. cbn in Hst'. split; [congruence|]. split.
    + destruct packet as [|x packet]; [by left|right]. eapply run_back_type; [exact Hn'|].
      apply elem_of_app. right. by left.
    + apply Hback. unfold flow_rx. rewrite decide_False, net_log_nil by congruence. exact Hn'.
Qed.

Lemma dir_himark t r f now next :
  dir_ok t r f →
  ∃ packet next' r', Receiver_updateRecvHimark r now next = (packet, next', r') ∧ rx_state r' = rx_state r
    ∧ (packet = [] ∨ back_type packet)
    ∧ dir_ok t r' (net_flow (net_send_back packet (flow_net t r' (flow_rx r r' t [] f)))).
Proof using io_laws pf_laws.
  intros Hd. destruct (dir_receiver _ _ _ Hd) as [[Hr Hf]|(Hst & t' & Hn & Hback)].
  - exists [], next, r. unfold Receiver_updateRecvHimark. rewrite (rd_state _ Hr).
    split; [done|]. split; [done|]. split; [by left|]. rewrite flow_rx_same by (by subst). subst f. exact Hd.
  - destruct (run_goes_on _ (NetRecvHimark now next) Hn I) as (n' & Hex & Hn' & _ & Hst' & _). cbn [net_exec flow_net nt_rx] in Hex.
    destruct (Receiver_updateRecvHimark r now next) as [[packet next'] r']. injection Hex as <-. exists packet, next', r'.
    split; [done|]. cbn in Hst'. split; [congruence|]. split.
    + destruct packet as [|x packet]; [by left|right]. eapply run_back_type; [exact Hn'|].
      apply elem_of_app. right. by left.
    + apply Hback. unfold flow_rx. rewrite decide_False, net_log_nil by congruence. exact Hn'.
Qed.

Lemma dir_data t r f i p packet :
  dir_ok t r f → fl_data f !! i = Some (p, packet) → fl_rx_base f - 2048 ≤ p →
  stream_packet packet ∧ (2 ≤ length packet ≤ 250)%nat
  ∧ ∃ r', net_receive_data packet r = Some r' ∧ rx_state r' = rx_state r ∧ dir_ok t r' (flow_rx r r' t [] f).
Proof using io_laws pf_laws.
  intros Hd Hi Hp. destruct (dir_receiver _ _ _ Hd) as [[Hr Hf]|(Hst & t' & Hn & Hback)]; [by subst|].
  destruct (run_data_type _ p packet Hn (list_elem_of_lookup_2 _ _ _ Hi)) as [Hty Hlen]. do 2 (split; [done|]).
  destruct (run_goes_on _ (NetDeliver i) Hn) as (n' & Hex & Hn' & _ & Hst' & _).
  { intros q pk. cbn. rewrite Hi. by intros [= <- <-]. }
  cbn [net_exec flow_net nt_rx nt_data] in Hex. rewrite Hi in Hex. inv_bind Hex. injection Hex as <-.
  exists r0. split; [done|]. cbn in Hst'. split; [congruence|]. apply Hback. unfold flow_rx.
  rewrite decide_False, net_log_nil by congruence. exact Hn'.
Qed.

(** *** Connecting *)

(** The receiver hears of the stream. *)
Lemma dir_rx_connects t r r' f :
  dir_ok t r f → rx_state r = RkConnecting → 1 ≤ cap ≤ 1024 →
  rx_ready r' S → rx_control_bit r' = negb bit → rx_cap r' = rx_cap r →
  dir_ok t r' (flow_rx r r' t [] f).
Proof using io_laws pf_laws HS.
  intros [[Hinv Hst Heos Hcur] Hr Hc ->|Ht Hn|Hst Hn] Hrx Hcap Hready Hbit Hrc;
    [|destruct (run_connected _ Hn); cbn in *; congruence..].
  apply dir_half; [done|]. apply net_runs_start. unfold flow_rx. rewrite decide_True by done.
  rewrite Hc in Hrc. constructor; cbn; auto.
  - rewrite Hrc. by apply tx_setConnected_spec with S.
  - by rewrite Hbit, negb_involutive.
Qed.

(** And the transmitter that it was heard of. *)
Lemma dir_tx_connects t r f :
  dir_ok t r f → tx_state t = TkConnecting → rx_state r = RkConnected →
  let t' := Transmitter_setConnected cap bit t in dir_ok t' r (flow_tx t t' r [] f).
Proof using io_laws pf_laws.
  intros [Ht Hr Hc Hf|Ht Hn|Hst Hn] Htx Hrx t'; [destruct Hr; congruence| |destruct Hst; congruence].
  apply dir_up; [by left|]. replace (flow_tx t t' r [] f) with f; [exact Hn|].
  rewrite <- (flow_tx_same t r f) at 1 by (destruct Ht; congruence). done.
Qed.

(** What the packets of the handshake say of the two ends. *)
Lemma dir_connected_rx t r f : dir_ok t r f → tx_past t → rx_state r = RkConnected.
Proof using io_laws pf_laws.
  intros [Ht Hr Hc Hf|Ht Hn|Hst Hn] Htx; [destruct Ht, Htx; congruence|destruct Ht, Htx; congruence|].
  by destruct (run_connected _ Hn).
Qed.

Lemma dir_idle_front t r f :
  dir_ok t r f → rx_state r = RkConnecting → tx_dialing t S ∧ rx_dialing r ∧ f = mkFlow [] [] S S [] [] None.
Proof using io_laws pf_laws.
  intros [Ht Hr Hc Hf|Ht Hn|Hst Hn] Hrx; [done|..]; destruct (run_connected _ Hn); cbn in *; congruence.
Qed.

Lemma dir_cap t r f : dir_ok t r f → tx_state t = TkConnecting → rx_cap r = cap.
Proof using io_laws pf_laws.
  intros [Ht Hr Hc Hf|Ht Hn|Hst Hn] Htx; [done| |destruct Hst; congruence].
  destruct (net_runs_good S _ Hn) as (B & E & H & F & Er & U & Hi). symmetry. exact (ni_peer _ _ _ _ _ _ _ _ Hi).
Qed.

Lemma dir_log2 t r f : dir_ok t r f → 0 ≤ rb_log2 (rx_in_ring r) ≤ kMaxLinkBufferSizeLog2.
Proof using io_laws pf_laws.
  intros Hd. destruct (dir_receiver _ _ _ Hd) as [[Hr Hf]|(Hst & t' & Hn & _)].
  - destruct (rd_wf _ Hr) as [R Hwf]. apply (ra_log2 _ _ _ (rw_ring _ _ _ Hwf)).
  - destruct (net_runs_good S _ Hn) as (B & E & H & F & Er & U & Hi).
    apply (ra_log2 _ _ _ (rw_ring _ _ _ (ri_wf _ _ _ _ _ _ (sy_inv _ _ _ _ _ _ _ _ (ni_rx _ _ _ _ _ _ _ _ Hi))))).
Qed.

End Direction.

(** ** One event at one end *)

(** The part of a channel that only the handshake changes. *)
Record ch_frame (c c' : Channel) : Prop := {
  cf_id : ch_my_stream_id c' = ch_my_stream_id c;
  cf_peer : ch_peer_stream_id c' = ch_peer_stream_id c;
  cf_acked : ch_my_stream_id_acked_by_peer c' = ch_my_stream_id_acked_by_peer c;
  cf_retries : ch_successive_handshake_retries c' = ch_successive_handshake_retries c;
  cf_next : ch_next_scheduled_handshake_update c' = ch_next_scheduled_handshake_update c;
  cf_needs : ch_needs_handshake_ack c' = ch_needs_handshake_ack c;
}.

Lemma ch_frame_refl c : ch_frame c c.
Proof. done. Qed.

Lemma sent_app es es' : sent (es ++ es') = sent es ++ sent es'.
Proof. unfold sent. by rewrite fmap_app, concat_app. Qed.

Lemma sent_notify (cs : list Condition) : sent (Notify <$> cs) = [].
Proof. unfold sent. apply concat_all_nil. rewrite <- list_fmap_compose. by apply Forall_fmap, Forall_true. Qed.

Lemma when_notify b c :
  ∃ es c', ch_when b Channel_notify c = Some (tt, es, c') ∧ sent es = []
    ∧ ch_transmitter c' = ch_transmitter c ∧ ch_receiver c' = ch_receiver c ∧ ch_frame c c'.
Proof.
  destruct b; [|by exists [], c]. unfold ch_when, Channel_notify, ch_bind, ch_gets. cbn.
  destruct (ch_has_data_to_send c); cbn; by do 2 eexists.
Qed.

Lemma send_packet_run packet c :
  send_packet packet c = Some (tt, match packet with [] => [] | _ => [Send packet] end, c).
Proof. by destruct packet. Qed.

Section Actions.

Context {io : RooIo} {pf : Platform}.

(** A step of the transmitter, or of the receiver, and a wake-up. *)
Lemma tx_then_notify {A} (f : Transmitter → option (A * bool * Transmitter)) c a ready t' :
  f (ch_transmitter c) = Some (a, ready, t') →
  ∃ es c', ch_bind (ch_on_transmitter (λ t, no_conditions (f t)))
      (λ '(result, ready), ch_when ready Channel_notify ;;; ch_ret result) c = Some (a, es, c')
    ∧ sent es = [] ∧ ch_transmitter c' = t' ∧ ch_receiver c' = ch_receiver c ∧ ch_frame c c'.
Proof.
  intros Hf.
  assert (Hon : ch_on_transmitter (λ t, no_conditions (f t)) c = Some ((a, ready), [], ch_with_transmitter t' c)).
  { unfold ch_on_transmitter, no_conditions. by rewrite Hf. }
  rewrite (ch_bind_run _ _ _ _ _ _ Hon).
  destruct (when_notify ready (ch_with_transmitter t' c)) as (es & c' & Hn & Hs & Ht & Hr & []).
  rewrite (ch_bind_run _ _ _ _ _ _ Hn). cbn. rewrite app_nil_r. by exists es, c'.
Qed.

Lemma rx_then_notify {A} (f : Receiver → option (A * bool * Receiver)) c a ready r' :
  f (ch_receiver c) = Some (a, ready, r') →
  ∃ es c', ch_bind (ch_on_receiver (λ r, no_conditions (f r)))
      (λ '(result, ready), ch_when ready Channel_notify ;;; ch_ret result) c = Some (a, es, c')
    ∧ sent es = [] ∧ ch_receiver c' = r' ∧ ch_transmitter c' = ch_transmitter c ∧ ch_frame c c'.
Proof.
  intros Hf.
  assert (Hon : ch_on_receiver (λ r, no_conditions (f r)) c = Some ((a, ready), [], ch_with_receiver r' c)).
  { unfold ch_on_receiver, no_conditions. by rewrite Hf. }
  rewrite (ch_bind_run _ _ _ _ _ _ Hon).
  destruct (when_notify ready (ch_with_receiver r' c)) as (es & c' & Hn & Hs & Ht & Hr & []).
  rewrite (ch_bind_run _ _ _ _ _ _ Hn). cbn. rewrite app_nil_r. by exists es, c'.
Qed.

(** A step that may send a packet. *)
Lemma tx_then_send f c packet next t' :
  f (ch_transmitter c) = Some (packet, next, t') →
  ∃ es, ch_bind (ch_on_transmitter (λ t, no_conditions (f t)))
      (λ '((packet, _) : list byte * Z), send_packet packet ;;; ch_ret (@nil byte, @nil byte)) c
    = Some (([], []), es, ch_with_transmitter t' c)
    ∧ sent es = match packet with [] => [] | _ => [packet] end.
Proof.
  intros Hf.
  assert (Hon : ch_on_transmitter (λ t, no_conditions (f t)) c = Some ((packet, next), [], ch_with_transmitter t' c)).
  { unfold ch_on_transmitter, no_conditions. by rewrite Hf. }
  rewrite (ch_bind_run _ _ _ _ _ _ Hon), (ch_bind_run _ _ _ _ _ _ (send_packet_run _ _)). cbn.
  eexists. split; [done|]. by destruct packet.
Qed.

Lemma act_write P c buf k ready t' :
  Transmitter_tryWrite (ch_transmitter c) buf = Some (k, ready, t') →
  ∃ w es c', end_action P (EndWrite buf) c = Some ((w, []), es, c') ∧ sent es = [] ∧ ch_frame c c'
    ∧ ch_receiver c' = ch_receiver c
    ∧ (w = take (Z.to_nat k) buf ∧ ch_transmitter c' = t' ∨ w = [] ∧ ch_transmitter c' = ch_transmitter c).
Proof.
  intros Hw. unfold end_action. erewrite ch_bind_run by reflexivity. set (id := ch_my_stream_id c).
  destruct (ThreadSafeTransmitter_checkConnectionStatus (ch_transmitter c) id) eqn:Hst.
  1: destruct (tx_then_notify (λ t, ThreadSafeTransmitter_tryWrite t buf id) c (k, kOk) ready t')
       as (es & c' & Hrun & Hes & Ht & Hr & Hf).
  1: { unfold ThreadSafeTransmitter_tryWrite. by rewrite Hst, (bind_step _ _ _ Hw). }
  1: { unfold Channel_tryWrite. rewrite (ch_bind_run _ _ _ _ _ _ Hrun). cbn. rewrite app_nil_r.
       exists (take (Z.to_nat k) buf). do 2 eexists. split; [done|]. split_and!; auto. }
  all: exists [], [], c; unfold Channel_tryWrite, ch_bind, ch_on_transmitter, no_conditions, ThreadSafeTransmitter_tryWrite;
    rewrite Hst; cbn; rewrite ch_with_transmitter_id, take_0; split_and!; [done..|by right].
Qed.

Lemma act_flush P c ready t' :
  Transmitter_flush (ch_transmitter c) = Some (ready, t') →
  ∃ es c', end_action P EndFlush c = Some (([], []), es, c') ∧ sent es = [] ∧ ch_frame c c'
    ∧ ch_receiver c' = ch_receiver c ∧ (ch_transmitter c' = t' ∨ ch_transmitter c' = ch_transmitter c).
Proof.
  intros Hw. unfold end_action. erewrite ch_bind_run by reflexivity. set (id := ch_my_stream_id c).
  destruct (ThreadSafeTransmitter_checkConnectionStatus (ch_transmitter c) id) eqn:Hst.
  1: destruct (tx_then_notify (λ t, ThreadSafeTransmitter_flush t id) c kOk ready t')
       as (es & c' & Hrun & Hes & Ht & Hr & Hf).
  1: { unfold ThreadSafeTransmitter_flush. by rewrite Hst, (bind_step _ _ _ Hw). }
  1: { unfold Channel_flush. rewrite (ch_bind_run _ _ _ _ _ _ Hrun). cbn. rewrite app_nil_r.
       do 2 eexists. split; [done|]. split_and!; auto. }
  all: exists [], c; unfold Channel_flush, ch_bind, ch_on_transmitter, no_conditions, ThreadSafeTransmitter_flush;
    rewrite Hst; cbn; rewrite ch_with_transmitter_id; split_and!; [done..|by right].
Qed.

Lemma act_read P c count bytes ready r' :
  Receiver_tryRead (ch_receiver c) count = Some (bytes, ready, r') →
  ∃ rd es c', end_action P (EndRead count) c = Some (([], rd), es, c') ∧ sent es = [] ∧ ch_frame c c'
    ∧ ch_transmitter c' = ch_transmitter c
    ∧ (rd = bytes ∧ ch_receiver c' = r' ∨ rd = [] ∧ ch_receiver c' = ch_receiver c).
Proof.
  intros Hw. unfold end_action. erewrite ch_bind_run by reflexivity. set (id := ch_my_stream_id c).
  destruct (Z.eqb_spec count 0) as [->|Hc].
  { exists [], [], c. unfold Channel_tryRead, ch_bind, ch_on_receiver, no_conditions, ThreadSafeReceiver_tryRead. cbn.
    rewrite ch_with_receiver_id. split_and!; [done..|by right]. }
  destruct (ThreadSafeReceiver_checkConnectionStatus (ch_receiver c) id) eqn:Hst.
  1: destruct (rx_then_notify (λ r, ThreadSafeReceiver_tryRead r count id kOk) c (bytes, kOk) ready r')
       as (es & c' & Hrun & Hes & Hr & Ht & Hf).
  1: { unfold ThreadSafeReceiver_tryRead. rewrite (proj2 (Z.eqb_neq _ _)) by done. by rewrite Hst, (bind_step _ _ _ Hw). }
  1: { unfold Channel_tryRead. rewrite (ch_bind_run _ _ _ _ _ _ Hrun). cbn. rewrite app_nil_r.
       exists bytes. do 2 eexists. split; [done|]. split_and!; auto. }
  all: exists [], [], c; unfold Channel_tryRead, ch_bind, ch_on_receiver, no_conditions, ThreadSafeReceiver_tryRead;
    rewrite (proj2 (Z.eqb_neq _ _)), Hst by done; cbn; rewrite ch_with_receiver_id; split_and!; [done..|by right].
Qed.

(** The part of [trySend] behind [conn]. *)
Lemma after_conn_run m c : tx_state (ch_transmitter c) ≠ TkConnecting → after_conn m c = m c.
Proof.
  intros Hst. unfold after_conn, ch_bind, ch_gets. cbn [mbind option_bind]. rewrite decide_False by done.
  by destruct (m c) as [[[? ?] ?]|].
Qed.

Lemma act_guarded P c e :
  e = EndAck ∨ (∃ now, e = EndRecvHimark now) ∨ (∃ now draw, e = EndSend now draw) →
  tx_state (ch_transmitter c) = TkConnecting → end_action P e c = Some (([], []), [], c).
Proof.
  intros He Hst. unfold end_action. erewrite ch_bind_run by reflexivity. cbn beta.
  destruct He as [->|[[now ->]|(now & draw & ->)]]; unfold after_conn; erewrite ch_bind_run by reflexivity;
    by rewrite decide_True by done.
Qed.

Lemma act_close P c t' :
  Transmitter_close (ch_transmitter c) = Some t' →
  ∃ es c', end_action P EndClose c = Some (([], []), es, c') ∧ sent es = [] ∧ ch_frame c c'
    ∧ ch_receiver c' = ch_receiver c ∧ (ch_transmitter c' = t' ∨ ch_transmitter c' = ch_transmitter c).
Proof.
  intros Hw. unfold end_action. erewrite ch_bind_run by reflexivity. set (id := ch_my_stream_id c).
  assert (Hclose : ∃ es status c', Channel_close id c = Some (status, es, c') ∧ sent es = [] ∧ ch_frame c c'
    ∧ ch_receiver c' = ch_receiver c ∧ (ch_transmitter c' = t' ∨ ch_transmitter c' = ch_transmitter c)).
  2: { destruct Hclose as (es & status & c' & Hrun & ?). rewrite (ch_bind_run _ _ _ _ _ _ Hrun). cbn.
       rewrite app_nil_r. by exists es, c'. }
  unfold Channel_close. destruct (ThreadSafeTransmitter_checkConnectionStatus (ch_transmitter c) id) eqn:Hst.
  1: { assert (Hon : ch_on_transmitter (λ t, no_conditions (ThreadSafeTransmitter_close t id)) c
         = Some ((if Transmitter_hasPendingData t' then Blocked all_acked else Returned kOk, true), [], ch_with_transmitter t' c)).
       { unfold ch_on_transmitter, no_conditions, ThreadSafeTransmitter_close. by rewrite Hst, Hw. }
       rewrite (ch_bind_run _ _ _ _ _ _ Hon). destruct (Transmitter_hasPendingData t').
       - cbn. do 3 eexists. split; [done|]. split; [done|]. split; [done|]. split; [done|by left].
       - destruct (when_notify true (ch_with_transmitter t' c)) as (es & c' & Hn & Hs & Ht & Hr & []).
         rewrite (ch_bind_run _ _ _ _ _ _ Hn). cbn. rewrite app_nil_r. do 3 eexists. split; [done|].
         split; [done|]. split; [by constructor|]. split; [done|by left]. }
  all: exists [], (Returned (ThreadSafeTransmitter_checkConnectionStatus (ch_transmitter c) id)), c;
    unfold ch_bind, ch_on_transmitter, no_conditions, ThreadSafeTransmitter_close; rewrite Hst; cbn;
    rewrite ch_with_transmitter_id; split_and!; [done..|by right].
Qed.

Lemma act_send P c now draw packet next t' :
  tx_state (ch_transmitter c) ≠ TkConnecting →
  Transmitter_send (ch_transmitter c) now draw LONG_MAX = Some (packet, next, t') →
  ∃ es, end_action P (EndSend now draw) c = Some (([], []), es, ch_with_transmitter t' c)
    ∧ sent es = match packet with [] => [] | _ => [packet] end.
Proof.
  intros Hst Hw. unfold end_action. erewrite ch_bind_run by reflexivity. cbn beta. rewrite after_conn_run by done.
  destruct (tx_then_send (λ t, ThreadSafeTransmitter_send t now draw LONG_MAX) c packet next t' Hw) as (es & Hrun & Hes).
  rewrite (bind_step _ _ _ Hrun). by exists es.
Qed.

Lemma act_ack P c packet r' :
  tx_state (ch_transmitter c) ≠ TkConnecting →
  Receiver_ack (ch_receiver c) = Some (packet, r') →
  ∃ es, end_action P EndAck c = Some (([], []), es, ch_with_receiver r' c)
    ∧ sent es = match packet with [] => [] | _ => [packet] end.
Proof.
  intros Hst Hw. unfold end_action. erewrite ch_bind_run by reflexivity. cbn beta. rewrite after_conn_run by done.
  assert (Hon : ch_on_receiver (λ r, no_conditions (Receiver_ack r)) c = Some (packet, [], ch_with_receiver r' c)).
  { unfold ch_on_receiver, no_conditions. by rewrite Hw. }
  rewrite (ch_bind_run _ _ _ _ _ _ Hon), (ch_bind_run _ _ _ _ _ _ (send_packet_run _ _)). cbn.
  eexists. split; [done|]. by destruct packet.
Qed.

Lemma act_himark P c now packet next r' :
  tx_state (ch_transmitter c) ≠ TkConnecting →
  Receiver_updateRecvHimark (ch_receiver c) now LONG_MAX = (packet, next, r') →
  ∃ es, end_action P (EndRecvHimark now) c = Some (([], []), es, ch_with_receiver r' c)
    ∧ sent es = match packet with [] => [] | _ => [packet] end.
Proof.
  intros Hst Hw. unfold end_action. erewrite ch_bind_run by reflexivity. cbn beta. rewrite after_conn_run by done.
  assert (Hon : ch_on_receiver (λ r, no_conditions (Some (Receiver_updateRecvHimark r now LONG_MAX))) c
    = Some ((packet, next), [], ch_with_receiver r' c)).
  { unfold ch_on_receiver, no_conditions. by rewrite Hw. }
  rewrite (ch_bind_run _ _ _ _ _ _ Hon), (ch_bind_run _ _ _ _ _ _ (send_packet_run _ _)). cbn.
  eexists. split; [done|]. by destruct packet.
Qed.

(** [m] sends nothing and leaves the handshake alone. *)
Definition quiet {A} (m : ChM A) : Prop :=
  ∀ c a es c', m c = Some (a, es, c') → sent es = [] ∧ ch_frame c c'.

Lemma quiet_bind {A B} (m : ChM A) (k : A → ChM B) : quiet m → (∀ a, quiet (k a)) → quiet (ch_bind m k).
Proof.
  intros Hm Hk c b es c' (a & es1 & c1 & es2 & H1 & H2 & ->)%ch_bind_inv.
  destruct (Hm _ _ _ _ H1) as [E1 []]. destruct (Hk _ _ _ _ _ H2) as [E2 []].
  rewrite sent_app, E1, E2. split; [done|]. constructor; congruence.
Qed.

Lemma quiet_ret {A} (a : A) : quiet (ch_ret a).
Proof. by intros c b es c' [= <- <- <-]. Qed.

Lemma quiet_on_transmitter {A} (f : Transmitter → option (A * list Condition * Transmitter)) :
  quiet (ch_on_transmitter f).
Proof.
  intros c b es c' H. unfold ch_on_transmitter in H. destruct (f _) as [[[a cs] t]|]; [|done].
  cbn in H. injection H as <- <- <-. by rewrite sent_notify.
Qed.

Lemma quiet_on_receiver {A} (f : Receiver → option (A * list Condition * Receiver)) :
  quiet (ch_on_receiver f).
Proof.
  intros c b es c' H. unfold ch_on_receiver in H. destruct (f _) as [[[a cs] r]|]; [|done].
  cbn in H. injection H as <- <- <-. by rewrite sent_notify.
Qed.

Lemma quiet_notify b : quiet (ch_when b Channel_notify).
Proof.
  intros c a es c' H. destruct (when_notify b c) as (es2 & c2 & Hn & Hs & _ & _ & Hf). rewrite Hn in H.
  by injection H as <- <- <-.
Qed.

Lemma quiet_packetReceived packet :
  GetPacketType (packet_header packet) ≠ kHandshakePacket → quiet (Channel_packetReceived packet).
Proof.
  intros Hty. unfold Channel_packetReceived. destruct (_ || _); [apply quiet_ret|].
  change (LoadBeU16 (field packet 0 2)) with (packet_header packet).
  destruct (GetPacketType (packet_header packet)); try done; repeat case_match;
    first [apply quiet_ret | apply quiet_on_transmitter
      | apply quiet_bind; [first [apply quiet_on_transmitter|apply quiet_on_receiver]|intros; apply quiet_notify]].
Qed.

(** A data packet or an acknowledgment arrives. *)
Lemma act_deliver P c e packet r t :
  (∃ i, e = EndData i ∨ e = EndBack i) → end_arrives P e = Some packet →
  (2 ≤ length packet ≤ 250)%nat → GetPacketType (packet_header packet) ≠ kHandshakePacket →
  net_receive_data packet (ch_receiver c) = Some r → net_receive_back packet (ch_transmitter c) = Some t →
  ∃ es c', end_action P e c = Some (([], []), es, c') ∧ sent es = [] ∧ ch_frame c c'
    ∧ ch_receiver c' = r ∧ ch_transmitter c' = t.
Proof.
  intros He Hp Hlen Hty Hr Ht.
  destruct (packetReceived_routes packet c t r Hlen Hty Hr Ht) as (es & c' & Hrun & Hr' & Ht').
  destruct (quiet_packetReceived _ Hty _ _ _ _ Hrun) as [Hs Hf].
  exists es, c'. split; [|done].
  destruct He as (i & [-> | ->]); unfold end_action; rewrite Hp; erewrite ch_bind_run by reflexivity;
    rewrite (ch_bind_run _ _ _ _ _ _ Hrun); cbn; by rewrite app_nil_r.
Qed.

Lemma act_nothing P c e :
  (∃ i, e = EndData i ∨ e = EndBack i ∨ e = EndHandshake i) → end_arrives P e = None →
  end_action P e c = Some (([], []), [], c).
Proof. intros (i & [-> |[-> | ->]]) Hn; unfold end_action; rewrite Hn; done. Qed.

End Actions.
