(* ===== verification/ChannelPairCorrect.v ===== *)
(** * ChannelPairCorrect: two channels connect and deliver

    The invariant of [ChannelPair]: how far the handshake is at each end, what the
    handshake packets on the way say, and that each direction is idle, half open or a run
    of [LinkDelivery]. From it the end-to-end theorems: [Channels_deliver] and
    [Channels_connect]. *)

From S2P Require Import Prelude.
From S2P Require Import SeqNum.
From S2P Require Import RingBuffer.
From S2P Require Import RooIo.
From S2P Require Import Protocol.
From S2P Require Import Buffers.
From S2P Require Import Transmitter.
From S2P Require Import TransmitterSpec.
From S2P Require Import TransmitterProofs.
From S2P Require Import TransmitterCorrect.
From S2P Require Import TransmitterSession.
From S2P Require Import Receiver.
From S2P Require Import ReceiverProofs.
From S2P Require Import ReceiverCorrect.
From S2P Require Import ThreadSafe.
From S2P Require Import Channel.
From S2P Require Import ChannelCorrect.
From S2P Require Import ChannelHandshake.
From S2P Require Import LinkDelivery.
From S2P Require Import ChannelPair.

Local Open Scope Z_scope.
Local Open Scope roo_scope.

(** ** The invariant *)

(** How far the handshake is at one end: nothing was heard of the peer; the peer's stream
    is known; and the peer has confirmed ours. *)
Record end_ok (id idp : Z) (c : Channel) : Prop := {
  eo_id : ch_my_stream_id c = id;
  eo_retries : 0 ≤ ch_successive_handshake_retries c < 4294967296;
  eo_progress :
    (rx_state (ch_receiver c) = RkConnecting ∧ tx_state (ch_transmitter c) = TkConnecting
     ∧ ch_peer_stream_id c = 0 ∧ ch_my_stream_id_acked_by_peer c = false)
    ∨ (rx_state (ch_receiver c) = RkConnected ∧ ch_peer_stream_id c = idp
       ∧ ((tx_state (ch_transmitter c) = TkConnecting ∧ ch_my_stream_id_acked_by_peer c = false)
          ∨ (tx_past (ch_transmitter c) ∧ ch_my_stream_id_acked_by_peer c = true)));
}.

Record pair_consts := mkConsts { pc_id : Z; pc_idp : Z; pc_S : Z; pc_Sp : Z; pc_cap : Z; pc_capp : Z }.

Definition consts_swap (k : pair_consts) : pair_consts :=
  mkConsts (pc_idp k) (pc_id k) (pc_Sp k) (pc_S k) (pc_capp k) (pc_cap k).

Record consts_ok (k : pair_consts) : Prop := {
  co_id : 0 < pc_id k < 4294967296;
  co_idp : 0 < pc_idp k < 4294967296;
  co_ids : pc_id k ≠ pc_idp k;
  co_S : 0 ≤ pc_S k < 4096;
  co_Sp : 0 ≤ pc_Sp k < 4096;
  co_cap : 1 ≤ pc_cap k ≤ 1024;
  co_capp : 1 ≤ pc_capp k ≤ 1024;
}.

Section Invariant.

Context {io : RooIo} {io_laws : RooIoLaws} {pf : Platform} {pf_laws : PlatformLaws}.

(** A handshake packet on its way from a to b, as long as b can still act on it. *)
Definition shake_ok (id idp S cap : Z) (a b : Channel) (packet : list byte) : Prop :=
  ∃ c want, packet = Channel_handshake_packet c want ∧ ch_ranges c ∧ ch_my_stream_id c = id
    ∧ (ch_peer_stream_id c = 0 ∨ (ch_peer_stream_id c = idp ∧ rx_state (ch_receiver a) = RkConnected))
    ∧ (rx_state (ch_receiver b) = RkConnecting → Transmitter_front (ch_transmitter c) mod 4096 = S)
    ∧ (tx_state (ch_transmitter b) = TkConnecting → rx_cap (ch_receiver c) = cap).

Definition dir_ab (k : pair_consts) : Transmitter → Receiver → Flow → Prop :=
  dir_ok (pc_S k) (pc_capp k) (pc_idp k <? pc_id k).

(** An end that is still connecting has acknowledged nothing, so its peer cannot be done. *)
Definition quiet_ok (b : Channel) (a : Channel) (f : Flow) : Prop :=
  tx_state (ch_transmitter b) = TkConnecting → fl_back f = [] ∧ tx_state (ch_transmitter a) ≠ TkIdle.

Record pair_inv (k : pair_consts) (P : Pair) : Prop := {
  pi_consts : consts_ok k;
  pi_a : end_ok (pc_id k) (pc_idp k) (pr_a P);
  pi_b : end_ok (pc_idp k) (pc_id k) (pr_b P);
  pi_ab : dir_ab k (ch_transmitter (pr_a P)) (ch_receiver (pr_b P)) (pr_ab P);
  pi_ba : dir_ab (consts_swap k) (ch_transmitter (pr_b P)) (ch_receiver (pr_a P)) (pr_ba P);
  pi_quiet_ab : quiet_ok (pr_b P) (pr_a P) (pr_ab P);
  pi_quiet_ba : quiet_ok (pr_a P) (pr_b P) (pr_ba P);
  pi_shakes_ab : Forall (shake_ok (pc_id k) (pc_idp k) (pc_S k) (pc_cap k) (pr_a P) (pr_b P)) (pr_shakes_ab P);
  pi_shakes_ba : Forall (shake_ok (pc_idp k) (pc_id k) (pc_Sp k) (pc_capp k) (pr_b P) (pr_a P)) (pr_shakes_ba P);
}.

Lemma consts_ok_swap k : consts_ok k → consts_ok (consts_swap k).
Proof. intros []. by constructor. Qed.

Lemma pair_inv_swap k P : pair_inv k P → pair_inv (consts_swap k) (pair_swap P).
Proof. intros []. constructor; try done. by apply consts_ok_swap. Qed.

Lemma shake_ok_mono id idp S cap a b a' b' packet :
  shake_ok id idp S cap a b packet →
  (rx_state (ch_receiver a) = RkConnected → rx_state (ch_receiver a') = RkConnected) →
  (rx_state (ch_receiver b') = RkConnecting → rx_state (ch_receiver b) = RkConnecting) →
  (tx_state (ch_transmitter b') = TkConnecting → tx_state (ch_transmitter b) = TkConnecting) →
  shake_ok id idp S cap a' b' packet.
Proof. intros (c & want & ? & ? & ? & Hp & ? & ?) Ha Hb Hc. exists c, want. destruct Hp as [?|[? ?]]; split_and!; auto. Qed.

(** An end takes a step, perhaps in the handshake, and sends nothing. *)
Lemma pair_inv_step k P c fab fba :
  pair_inv k P → end_ok (pc_id k) (pc_idp k) c →
  dir_ab k (ch_transmitter c) (ch_receiver (pr_b P)) fab →
  dir_ab (consts_swap k) (ch_transmitter (pr_b P)) (ch_receiver c) fba →
  (rx_state (ch_receiver (pr_a P)) = RkConnected → rx_state (ch_receiver c) = RkConnected) →
  (tx_past (ch_transmitter (pr_a P)) → tx_past (ch_transmitter c)) →
  quiet_ok (pr_b P) c fab → quiet_ok c (pr_b P) fba →
  pair_inv k (mkPair c (pr_b P) fab fba (pr_shakes_ab P) (pr_shakes_ba P)).
Proof.
  intros [Hk Ha Hb Hab Hba Hqab Hqba Hsab Hsba] Hc Hdab Hdba Hrx Htx Hq1 Hq2. constructor; auto; cbn.
  - eapply Forall_impl; [exact Hsab|]. intros packet Hp. by eapply shake_ok_mono.
  - assert (Hmono : (rx_state (ch_receiver c) = RkConnecting → rx_state (ch_receiver (pr_a P)) = RkConnecting)
      ∧ (tx_state (ch_transmitter c) = TkConnecting → tx_state (ch_transmitter (pr_a P)) = TkConnecting)).
    { destruct (eo_progress _ _ _ Ha) as [(-> & -> & _)|(Hr & _ & [[-> _]|[Ht _]])]; [done|..];
        rewrite (Hrx Hr); [done|]. by destruct (Htx Ht) as [-> | ->]. }
    eapply Forall_impl; [exact Hsba|]. intros packet Hp. eapply shake_ok_mono; [done|done|..]; apply Hmono.
Qed.

(** The transmitter is not further in the handshake. *)
Definition tx_stays (t t' : Transmitter) : Prop := tx_state t' = tx_state t ∨ tx_past t ∧ tx_past t'.

Lemma tx_stays_past t t' : tx_stays t t' → tx_past t → tx_past t'.
Proof. intros [Heq|[_ ?]]; [unfold tx_past; by rewrite Heq|done]. Qed.

Lemma tx_stays_connecting t t' : tx_stays t t' → tx_state t' = TkConnecting → tx_state t = TkConnecting.
Proof. intros [Heq|[_ [?|?]]]; congruence. Qed.

Lemma end_ok_frame id idp c c' :
  end_ok id idp c → ch_frame c c' → rx_state (ch_receiver c') = rx_state (ch_receiver c) →
  tx_stays (ch_transmitter c) (ch_transmitter c') → end_ok id idp c'.
Proof.
  intros [H1 H2 H3] [Hi Hp Ha Hret _ _] Hr Ht. constructor; [congruence|congruence|]. rewrite Hr, Hp, Ha.
  destruct Ht as [Ht|[Hpa Hpa']]; [unfold tx_past; by rewrite Ht|].
  destruct H3 as [(? & ? & _)|(? & ? & [[? _]|[_ ?]])]; [destruct Hpa; congruence|destruct Hpa; congruence|auto 10].
Qed.

(** The same without a step of the handshake, for an event that is not an acknowledgment from or
    for this end. *)
Lemma pair_inv_frame k P c fab fba :
  pair_inv k P → ch_frame (pr_a P) c →
  rx_state (ch_receiver c) = rx_state (ch_receiver (pr_a P)) →
  tx_state (ch_transmitter c) = tx_state (ch_transmitter (pr_a P)) →
  dir_ab k (ch_transmitter c) (ch_receiver (pr_b P)) fab →
  dir_ab (consts_swap k) (ch_transmitter (pr_b P)) (ch_receiver c) fba →
  fl_back fab = fl_back (pr_ab P) →
  fl_back fba = fl_back (pr_ba P) ∨ tx_state (ch_transmitter (pr_a P)) ≠ TkConnecting →
  pair_inv k (mkPair c (pr_b P) fab fba (pr_shakes_ab P) (pr_shakes_ba P)).
Proof.
  intros HP Hf Hr Ht Hab Hba Hb1 Hb2. apply pair_inv_step; auto; [|congruence|apply tx_stays_past; by left|..].
  - eapply end_ok_frame; [apply (pi_a _ _ HP)|done|done|by left].
  - intros Hc. rewrite Ht, Hb1. by apply (pi_quiet_ab _ _ HP).
  - unfold quiet_ok. rewrite Ht. intros Hc. destruct Hb2 as [->|?]; [|done]. by apply (pi_quiet_ba _ _ HP).
Qed.

Lemma fl_back_tx t t' r w f : fl_back (flow_tx t t' r w f) = fl_back f.
Proof. done. Qed.

Lemma fl_back_rx r r' t w f : fl_back (flow_rx r r' t w f) = fl_back f.
Proof. unfold flow_rx. by case_decide. Qed.

(** The flows that a step leaves alone. *)
Lemma pair_tx_same k P : pair_inv k P →
  flow_tx (ch_transmitter (pr_a P)) (ch_transmitter (pr_a P)) (ch_receiver (pr_b P)) [] (pr_ab P) = pr_ab P.
Proof using io_laws pf_laws. intros HP. eapply dir_tx_same, (pi_ab _ _ HP). Qed.

Lemma pair_rx_same k P : pair_inv k P →
  flow_rx (ch_receiver (pr_a P)) (ch_receiver (pr_a P)) (ch_transmitter (pr_b P)) [] (pr_ba P) = pr_ba P.
Proof using io_laws pf_laws.
  intros HP. apply flow_rx_same. intros Hrx.
  destruct (dir_idle_front _ _ _ _ _ _ (pi_ba _ _ HP) Hrx) as (_ & _ & ->). done.
Qed.

(** *** A handshake packet arrives *)

Lemma handshake_received d want c ready es c' :
  ch_ranges d →
  Channel_handleHandshakePacket (Transmitter_front (ch_transmitter d) mod 4096)
    (ch_my_stream_id d) (ch_peer_stream_id d) want (rx_cap (ch_receiver d)) c = Some (ready, es, c') →
  sent es = [] →
  ∃ es' c'', Channel_packetReceived (Channel_handshake_packet d want) c = Some (tt, es', c'') ∧ sent es' = []
    ∧ ch_transmitter c'' = ch_transmitter c' ∧ ch_receiver c'' = ch_receiver c' ∧ ch_frame c' c''.
Proof using io_laws.
  intros Hr Hh Hes. rewrite handshake_packet_received by done. fold (rx_cap (ch_receiver d)).
  rewrite (ch_bind_run _ _ _ _ _ _ Hh). destruct (when_notify ready c') as (es2 & c2 & -> & Hs & ? & ? & ?).
  cbn. do 2 eexists. split; [done|]. by rewrite sent_app, Hes, Hs.
Qed.

Lemma handshake_when_connected c seq pid ack want size :
  rx_state (ch_receiver c) = RkConnected → pid ≠ ch_my_stream_id c → ch_peer_stream_id c = pid →
  ch_my_stream_id c ≠ 0 →
  ∃ ready es, Channel_handleHandshakePacket seq pid ack want size c
    = Some (ready, es, ch_with_needs_handshake_ack want
        (if (ack =? ch_my_stream_id c) && negb (ch_my_stream_id_acked_by_peer c)
         then ch_with_transmitter (Transmitter_setConnected size (Channel_my_control_bit c) (ch_transmitter c))
                (ch_with_my_stream_id_acked_by_peer true c)
         else c))
    ∧ sent es = [].
Proof.
  intros Hst Hne Hpeer Hid.
  assert (Hin : ∃ es, Channel_handshake_connected pid ack want size c
    = Some (((ack =? ch_my_stream_id c) && negb (ch_my_stream_id_acked_by_peer c), None), es,
        ch_with_needs_handshake_ack want
        (if (ack =? ch_my_stream_id c) && negb (ch_my_stream_id_acked_by_peer c)
         then ch_with_transmitter (Transmitter_setConnected size (Channel_my_control_bit c) (ch_transmitter c))
                (ch_with_my_stream_id_acked_by_peer true c)
         else c)) ∧ sent es = []).
  { unfold Channel_handshake_connected. erewrite ch_bind_run by reflexivity.
    rewrite Hpeer, Z.eqb_refl, andb_false_r. cbn [andb negb].
    do 3 (erewrite ch_bind_run by reflexivity). cbv zeta.
    destruct ((ack =? ch_my_stream_id c) && negb (ch_my_stream_id_acked_by_peer c));
      [rewrite (proj2 (Z.eqb_neq _ 0)) by done|]; eexists; split; reflexivity. }
  destruct Hin as (es & Hin & Hes). do 2 eexists.
  unfold Channel_handleHandshakePacket. do 2 (erewrite ch_bind_run by reflexivity).
  rewrite (proj2 (Z.eqb_neq pid (ch_my_stream_id c))) by done. cbn [andb].
  erewrite ch_bind_run by reflexivity. rewrite Hst. erewrite ch_bind_run by exact Hin. split; [reflexivity|].
  cbn. by rewrite app_nil_r.
Qed.

(** What a handshake packet that a peer [d] made does to channel a. *)
Record shake_took (k : pair_consts) (P : Pair) (d : Channel) (want : bool) (c : Channel) : Prop := {
  st_end : end_ok (pc_id k) (pc_idp k) c;
  st_ab : dir_ab k (ch_transmitter c) (ch_receiver (pr_b P))
    (flow_tx (ch_transmitter (pr_a P)) (ch_transmitter c) (ch_receiver (pr_b P)) [] (pr_ab P));
  st_ba : dir_ab (consts_swap k) (ch_transmitter (pr_b P)) (ch_receiver c)
    (flow_rx (ch_receiver (pr_a P)) (ch_receiver c) (ch_transmitter (pr_b P)) [] (pr_ba P));
  st_rx : rx_state (ch_receiver c) = RkConnected;
  st_tx : tx_past (ch_transmitter (pr_a P)) → tx_past (ch_transmitter c);
  st_idle : tx_state (ch_transmitter c) = TkIdle → tx_state (ch_transmitter (pr_a P)) = TkIdle;
  st_connecting : tx_state (ch_transmitter c) = TkConnecting → tx_state (ch_transmitter (pr_a P)) = TkConnecting;
  st_acked : ch_peer_stream_id d = pc_id k → tx_past (ch_transmitter c);
  st_needs : ch_needs_handshake_ack c = want;
  st_next : ch_next_scheduled_handshake_update c = ch_next_scheduled_handshake_update (pr_a P);
}.

Lemma shake_took_notified k P d want c c' :
  shake_took k P d want c → ch_transmitter c' = ch_transmitter c → ch_receiver c' = ch_receiver c → ch_frame c c' →
  shake_took k P d want c'.
Proof.
  intros [He Hab Hba Hrx Htx Hid Hco Hack Hn Hx] Ht Hr Hf.
  constructor; rewrite ?Ht, ?Hr; auto; [|destruct Hf; congruence..].
  eapply end_ok_frame; eauto; [congruence|left; congruence].
Qed.

(** While it is connected already. *)
Lemma shake_when_connected k P d want :
  pair_inv k P → ch_my_stream_id d = pc_idp k → rx_state (ch_receiver (pr_a P)) = RkConnected →
  (ch_peer_stream_id d = 0 ∨ (ch_peer_stream_id d = pc_id k ∧ rx_state (ch_receiver (pr_b P)) = RkConnected)) →
  (tx_state (ch_transmitter (pr_a P)) = TkConnecting → rx_cap (ch_receiver d) = pc_capp k) →
  ∃ ready es c, Channel_handleHandshakePacket (Transmitter_front (ch_transmitter d) mod 4096)
      (ch_my_stream_id d) (ch_peer_stream_id d) want (rx_cap (ch_receiver d)) (pr_a P) = Some (ready, es, c)
    ∧ sent es = [] ∧ shake_took k P d want c.
Proof using io_laws pf_laws.
  intros HP Hmy Hrx Hack Hcap. pose proof (pi_consts _ _ HP) as [Hid Hidp Hne _ _ _ _].
  pose proof (pi_a _ _ HP) as [Hia Hret Hprog].
  destruct Hprog as [(Hbad & _)|(_ & Hpeer & Htx)]; [congruence|].
  destruct (handshake_when_connected (pr_a P) (Transmitter_front (ch_transmitter d) mod 4096) (ch_my_stream_id d)
    (ch_peer_stream_id d) want (rx_cap (ch_receiver d)) Hrx) as (ready & es & Hrun & Hes); [lia|congruence|lia|].
  exists ready, es. eexists. split; [exact Hrun|]. split; [done|]. clear Hrun.
  pose proof (pair_tx_same _ _ HP) as Hftx. pose proof (pair_rx_same _ _ HP) as Hfrx.
  destruct (_ && _) eqn:Hacc.
  - apply andb_true_iff in Hacc as [Heq%Z.eqb_eq Hna%negb_true_iff].
    destruct Htx as [[Htx _]|[_ ?]]; [|congruence]. destruct Hack as [?|[_ Hrb]]; [lia|].
    constructor; cbn; rewrite ?Hfrx; try done; [| |by apply (pi_ba _ _ HP)|by left|by left].
    + constructor; cbn; [done|done|]. right. split; [done|]. split; [done|]. right. split; [by left|done].
    + rewrite (Hcap Htx). unfold Channel_my_control_bit. rewrite Hpeer, Hia.
      by apply dir_tx_connects; [apply (pi_ab _ _ HP)|..].
  - constructor; cbn; rewrite ?Hfrx, ?Hftx; try done; [|apply (pi_ab _ _ HP)|apply (pi_ba _ _ HP)|].
    + constructor; cbn; [done|done|]. right. split; [done|]. split; [done|]. by destruct Htx; auto.
    + intros Heq. destruct Htx as [[_ Hna]|[? _]]; [|done].
      rewrite Heq, <- Hia, Z.eqb_refl, Hna in Hacc. done.
Qed.

(** While it is connecting. *)
Lemma shake_when_connecting k P d want :
  pair_inv k P → ch_my_stream_id d = pc_idp k → rx_state (ch_receiver (pr_a P)) = RkConnecting →
  (ch_peer_stream_id d = 0 ∨ (ch_peer_stream_id d = pc_id k ∧ rx_state (ch_receiver (pr_b P)) = RkConnected)) →
  Transmitter_front (ch_transmitter d) mod 4096 = pc_Sp k → rx_cap (ch_receiver d) = pc_capp k →
  ∃ ready es c, Channel_handleHandshakePacket (Transmitter_front (ch_transmitter d) mod 4096)
      (ch_my_stream_id d) (ch_peer_stream_id d) want (rx_cap (ch_receiver d)) (pr_a P) = Some (ready, es, c)
    ∧ sent es = [] ∧ shake_took k P d want c.
Proof using io_laws pf_laws.
  intros HP Hmy Hrx Hack Hfront Hcap. pose proof (pi_consts _ _ HP) as [Hid Hidp Hne HS HSp Hca Hcp].
  pose proof (pi_a _ _ HP) as [Hia Hret Hprog].
  destruct Hprog as [(_ & Htx & Hpeer & Hna)|(? & _)]; [|congruence].
  destruct (dir_idle_front _ _ _ _ _ _ (pi_ba _ _ HP) Hrx) as (_ & [[R Hwf] _ Hcur Hsc Hpc Heos] & _).
  destruct (handshake_connecting (pr_a P) R (pc_Sp k) (ch_my_stream_id d) (ch_peer_stream_id d) want
    (rx_cap (ch_receiver d)) Hrx Hwf Hcur Hsc Hpc Heos ltac:(lia)) as (r' & Hready & Hcb & Hlog & Hrun);
    [by destruct Hack as [?|[? _]]; [left|right; congruence]|done|].
  rewrite Hfront. exists true. do 2 eexists. split; [exact Hrun|]. split; [done|]. clear Hrun.
  pose proof (pair_tx_same _ _ HP) as Hftx.
  assert (Hba : dir_ab (consts_swap k) (ch_transmitter (pr_b P)) r'
    (flow_rx (ch_receiver (pr_a P)) r' (ch_transmitter (pr_b P)) [] (pr_ba P))).
  { apply dir_rx_connects; [done|apply (pi_ba _ _ HP)|done|done|done| |unfold rx_cap; by rewrite Hlog].
    rewrite Hcb, Hmy, Hia. cbn. destruct (Z.ltb_spec (pc_idp k) (pc_id k)), (Z.ltb_spec (pc_id k) (pc_idp k)); try done; lia. }
  cbv zeta. cbn [ch_my_stream_id ch_with_receiver ch_with_peer_stream_id].
  destruct (Z.eqb_spec (ch_peer_stream_id d) (ch_my_stream_id (pr_a P))) as [Heq|Hneq].
  - destruct Hack as [?|[_ Hrb]]; [lia|].
    constructor; cbn; try done; [|by rewrite Hcap, Hmy, Hia; apply dir_tx_connects; [apply (pi_ab _ _ HP)|..]
      |by destruct Hready|by left|by left].
    constructor; cbn; [done|done|]. right. split; [by destruct Hready|]. split; [done|]. right. split; [by left|done].
  - constructor; cbn; try done; [|rewrite Hftx; apply (pi_ab _ _ HP)|by destruct Hready|lia].
    constructor; cbn; [done|done|]. right. split; [by destruct Hready|]. split; [done|]. by left.
Qed.

Lemma shake_arrives k P d want :
  pair_inv k P → ch_ranges d → ch_my_stream_id d = pc_idp k →
  (ch_peer_stream_id d = 0 ∨ (ch_peer_stream_id d = pc_id k ∧ rx_state (ch_receiver (pr_b P)) = RkConnected)) →
  (rx_state (ch_receiver (pr_a P)) = RkConnecting → Transmitter_front (ch_transmitter d) mod 4096 = pc_Sp k) →
  (tx_state (ch_transmitter (pr_a P)) = TkConnecting → rx_cap (ch_receiver d) = pc_capp k) →
  ∃ es c, Channel_packetReceived (Channel_handshake_packet d want) (pr_a P) = Some (tt, es, c)
    ∧ sent es = [] ∧ shake_took k P d want c.
Proof using io_laws pf_laws.
  intros HP Hr Hmy Hack Hfront Hcap.
  assert (∃ ready es c, Channel_handleHandshakePacket (Transmitter_front (ch_transmitter d) mod 4096)
      (ch_my_stream_id d) (ch_peer_stream_id d) want (rx_cap (ch_receiver d)) (pr_a P) = Some (ready, es, c)
    ∧ sent es = [] ∧ shake_took k P d want c) as (ready & es & c & Hrun & Hes & Htook).
  { destruct (eo_progress _ _ _ (pi_a _ _ HP)) as [(Hrx & Htx & _)|(Hrx & _)].
    - apply shake_when_connecting; auto.
    - apply shake_when_connected; auto. }
  destruct (handshake_received d want (pr_a P) ready es c Hr Hrun Hes) as (es' & c' & Hrec & Hs & Ht & Hrx & Hf).
  exists es', c'. split; [done|]. split; [done|]. by eapply shake_took_notified.
Qed.

(** *** A handshake packet is made *)

(** [conn] while the handshake is under way or done. *)
Definition conn_sends (now : Z) (c : Channel) : option bool :=
  if decide (tx_state (ch_transmitter c) = TkConnecting)
  then if now <? ch_next_scheduled_handshake_update c then None else Some true
  else if decide (tx_state (ch_transmitter c) = TkConnected)
  then if ch_needs_handshake_ack c then Some false else None
  else None.

Definition conn_packet (now : Z) (c : Channel) : list byte :=
  match conn_sends now c with Some want => Channel_handshake_packet c want | None => [] end.

Lemma conn_spec id idp c now draw :
  end_ok id idp c → 0 ≤ draw ≤ RANDOM_INTEGER_MAX →
  ∃ next c', Channel_conn now draw LONG_MAX c = Some ((conn_packet now c, next), [], c')
    ∧ end_ok id idp c' ∧ ch_transmitter c' = ch_transmitter c ∧ ch_receiver c' = ch_receiver c.
Proof using pf_laws.
  intros [Hid Hret Hprog] Hd. unfold conn_packet, conn_sends.
  destruct (decide (tx_state (ch_transmitter c) = TkConnecting)) as [Hst|Hst].
  - destruct (Z.ltb_spec now (ch_next_scheduled_handshake_update c)) as [Hlt|Hge].
    + do 2 eexists. split; [|split; [by constructor|done]]. unfold Channel_conn.
      do 3 (erewrite ch_bind_run by reflexivity). rewrite Hst, (proj2 (Z.ltb_lt _ _) Hlt). reflexivity.
    + destruct (conn_connecting c now draw LONG_MAX Hst Hge Hret Hd) as (d & _ & Hrun).
      do 2 eexists. split; [exact Hrun|]. split; [|done]. constructor; cbn; [done|apply u32_range|done].
  - assert (Hpast : tx_past (ch_transmitter c)).
    { by destruct Hprog as [(_ & ? & _)|(_ & _ & [[? _]|[? _]])]. }
    destruct (decide (tx_state (ch_transmitter c) = TkConnected)) as [Hcon|Hncon].
    + destruct (ch_needs_handshake_ack c) eqn:Hn.
      * do 2 eexists. split; [by apply conn_connected|]. split; [by constructor|done].
      * do 2 eexists. split; [|split; [by constructor|done]]. unfold Channel_conn.
        do 3 (erewrite ch_bind_run by reflexivity). by rewrite Hcon, Hn.
    + destruct Hpast as [?|Hidle]; [done|]. do 2 eexists. split; [|split; [by constructor|done]]. unfold Channel_conn.
      do 3 (erewrite ch_bind_run by reflexivity). by rewrite Hidle.
Qed.

Lemma act_conn P id idp c now draw :
  end_ok id idp c → 0 ≤ draw ≤ RANDOM_INTEGER_MAX →
  ∃ es c', end_action P (EndConn now draw) c = Some (([], []), es, c')
    ∧ sent es = match conn_packet now c with [] => [] | _ => [conn_packet now c] end
    ∧ end_ok id idp c' ∧ ch_transmitter c' = ch_transmitter c ∧ ch_receiver c' = ch_receiver c.
Proof using pf_laws.
  intros Hc Hd. destruct (conn_spec id idp c now draw Hc Hd) as (next & c' & Hrun & Hc' & Ht & Hr).
  unfold end_action. erewrite ch_bind_run by reflexivity.
  rewrite (ch_bind_run _ _ _ _ _ _ Hrun), (ch_bind_run _ _ _ _ _ _ (send_packet_run _ _)). cbn.
  do 2 eexists. split; [done|]. split; [by destruct (conn_packet now c)|done].
Qed.

Lemma handshake_type c want : GetPacketType (packet_header (Channel_handshake_packet c want)) = kHandshakePacket.
Proof using io_laws. unfold Channel_handshake_packet. rewrite header_read. by apply packet_header_fields. Qed.

Lemma handshake_nonempty c want : Channel_handshake_packet c want ≠ [].
Proof using io_laws.
  intros Hnil%(f_equal length). unfold Channel_handshake_packet in Hnil. rewrite length_app in Hnil.
  rewrite (length_StoreBeU16 _ (FormatPacketHeader_range _ _ _)) in Hnil. done.
Qed.

(** What an end says of itself is true. *)
Lemma pair_ranges k P : pair_inv k P → ch_ranges (pr_a P).
Proof using io_laws pf_laws.
  intros HP. pose proof (pi_consts _ _ HP) as [Hid Hidp _ _ _ _ _]. pose proof (pi_a _ _ HP) as [Hia _ Hprog].
  constructor; [lia| |apply (dir_log2 _ _ _ _ _ _ (pi_ba _ _ HP))].
  destruct Hprog as [(_ & _ & -> & _)|(_ & -> & _)]; lia.
Qed.

Lemma pair_front k P : pair_inv k P → rx_state (ch_receiver (pr_b P)) = RkConnecting →
  Transmitter_front (ch_transmitter (pr_a P)) mod 4096 = pc_S k.
Proof using io_laws pf_laws.
  intros HP Hrx. destruct (dir_idle_front _ _ _ _ _ _ (pi_ab _ _ HP) Hrx) as ([Hinv _ _ _] & _ & _).
  unfold Transmitter_front. rewrite (ra_begin _ _ _ (tw_ring _ _ _ _ (ti_wf _ _ _ _ _ Hinv))), u16_mod4096.
  apply Z.mod_small, (pi_consts _ _ HP).
Qed.

Lemma pair_peer k P : pair_inv k P →
  ch_peer_stream_id (pr_a P) = 0
  ∨ (ch_peer_stream_id (pr_a P) = pc_idp k ∧ rx_state (ch_receiver (pr_a P)) = RkConnected).
Proof. intros HP. destruct (eo_progress _ _ _ (pi_a _ _ HP)) as [(_ & _ & -> & _)|(? & -> & _)]; auto. Qed.

Lemma pair_cap k P : pair_inv k P → tx_state (ch_transmitter (pr_b P)) = TkConnecting →
  rx_cap (ch_receiver (pr_a P)) = pc_cap k.
Proof using io_laws pf_laws. intros HP Htx. exact (dir_cap _ _ _ _ _ _ (pi_ba _ _ HP) Htx). Qed.

Lemma shake_made k P want : pair_inv k P →
  shake_ok (pc_id k) (pc_idp k) (pc_S k) (pc_cap k) (pr_a P) (pr_b P) (Channel_handshake_packet (pr_a P) want).
Proof using io_laws pf_laws.
  intros HP. exists (pr_a P), want. split; [done|]. split; [by apply (pair_ranges k)|]. split; [apply (pi_a _ _ HP)|].
  split; [by apply pair_peer|]. split; [by apply pair_front|by apply pair_cap].
Qed.

(** *** Every event *)

Lemma exec_quiet P e w rd es c :
  end_action P e (pr_a P) = Some ((w, rd), es, c) → sent es = [] →
  pair_exec_a P e = Some (mkPair c (pr_b P)
    (flow_arrived e (flow_tx (ch_transmitter (pr_a P)) (ch_transmitter c) (ch_receiver (pr_b P)) w (pr_ab P)))
    (flow_rx (ch_receiver (pr_a P)) (ch_receiver c) (ch_transmitter (pr_b P)) rd (pr_ba P))
    (pr_shakes_ab P) (pr_shakes_ba P)).
Proof. intros Hrun Hes. unfold pair_exec_a. rewrite (bind_step _ _ _ Hrun). by rewrite Hes. Qed.

Lemma exec_sends P e packet es c :
  end_action P e (pr_a P) = Some (([], []), es, c) →
  sent es = match packet with [] => [] | _ => [packet] end →
  let P1 := mkPair c (pr_b P)
    (flow_arrived e (flow_tx (ch_transmitter (pr_a P)) (ch_transmitter c) (ch_receiver (pr_b P)) [] (pr_ab P)))
    (flow_rx (ch_receiver (pr_a P)) (ch_receiver c) (ch_transmitter (pr_b P)) [] (pr_ba P))
    (pr_shakes_ab P) (pr_shakes_ba P) in
  pair_exec_a P e = Some (match packet with [] => P1 | _ => pair_send P1 packet end).
Proof.
  intros Hrun Hes P1. unfold pair_exec_a. rewrite (bind_step _ _ _ Hrun). fold P1. rewrite Hes. by destruct packet.
Qed.

(** The transmitter's events. *)
Lemma exec_write_inv k P buf : pair_inv k P → ∃ P', pair_exec_a P (EndWrite buf) = Some P' ∧ pair_inv k P'.
Proof using io_laws pf_laws.
  intros HP. destruct (dir_write _ _ _ _ _ _ buf (pi_ab _ _ HP)) as (n & ready & t' & Hw & Hst & Hd).
  destruct (act_write P _ _ _ _ _ Hw) as (w & es & c & Hrun & Hes & Hf & Hr & Hwt).
  eexists. split; [by eapply exec_quiet|]. apply pair_inv_frame; try done; [by rewrite Hr|by destruct Hwt as [[_ ->]|[_ ->]]|..].
  - cbn. destruct Hwt as [[-> ->]|[-> ->]]; [done|]. rewrite (pair_tx_same k) by done. apply (pi_ab _ _ HP).
  - rewrite Hr, (pair_rx_same k) by done. apply (pi_ba _ _ HP).
  - left. apply fl_back_rx.
Qed.

Lemma exec_flush_inv k P : pair_inv k P → ∃ P', pair_exec_a P EndFlush = Some P' ∧ pair_inv k P'.
Proof using io_laws pf_laws.
  intros HP. destruct (dir_flush _ _ _ _ _ _ (pi_ab _ _ HP)) as (ready & t' & Hw & Hst & Hd).
  destruct (act_flush P _ _ _ Hw) as (es & c & Hrun & Hes & Hf & Hr & Hwt).
  eexists. split; [by eapply exec_quiet|]. apply pair_inv_frame; try done; [by rewrite Hr|by destruct Hwt as [-> | ->]|..].
  - cbn. destruct Hwt as [-> | ->]; [done|]. rewrite (pair_tx_same k) by done. apply (pi_ab _ _ HP).
  - rewrite Hr, (pair_rx_same k) by done. apply (pi_ba _ _ HP).
  - left. apply fl_back_rx.
Qed.

Lemma exec_close_inv k P :
  pair_inv k P → tx_state (ch_transmitter (pr_a P)) ≠ TkConnecting →
  ∃ P', pair_exec_a P EndClose = Some P' ∧ pair_inv k P'.
Proof using io_laws pf_laws.
  intros HP Hne. destruct (dir_close _ _ _ _ _ _ (pi_ab _ _ HP) Hne) as (t' & Hw & Hst & Hd).
  destruct (act_close P _ _ Hw) as (es & c & Hrun & Hes & Hf & Hr & Hwt).
  eexists. split; [by eapply exec_quiet|]. apply pair_inv_frame; try done; [by rewrite Hr|by destruct Hwt as [-> | ->]|..].
  - cbn. destruct Hwt as [-> | ->]; [done|]. rewrite (pair_tx_same k) by done. apply (pi_ab _ _ HP).
  - rewrite Hr, (pair_rx_same k) by done. apply (pi_ba _ _ HP).
  - left. apply fl_back_rx.
Qed.

(** What [trySend] has behind [conn] does nothing while the transmitter is connecting. *)
Lemma exec_guarded_inv k P e :
  pair_inv k P → e = EndAck ∨ (∃ now, e = EndRecvHimark now) ∨ (∃ now draw, e = EndSend now draw) →
  tx_state (ch_transmitter (pr_a P)) = TkConnecting → ∃ P', pair_exec_a P e = Some P' ∧ pair_inv k P'.
Proof using io_laws pf_laws.
  intros HP He Hst. eexists. split; [by apply (exec_quiet P e _ _ _ _ (act_guarded P (pr_a P) e He Hst))|].
  rewrite (pair_tx_same k), (pair_rx_same k) by done.
  assert (flow_arrived e (pr_ab P) = pr_ab P) as ->; [|by destruct P].
  by destruct He as [->|[[now ->]|(now & draw & ->)]].
Qed.

Lemma exec_send_inv k P now draw :
  pair_inv k P → 0 ≤ draw ≤ RANDOM_INTEGER_MAX →
  ∃ P', pair_exec_a P (EndSend now draw) = Some P' ∧ pair_inv k P'.
Proof using io_laws pf_laws.
  intros HP Hdraw. destruct (decide (tx_state (ch_transmitter (pr_a P)) = TkConnecting)) as [Hc|Hne].
  { apply exec_guarded_inv; eauto 6. }
  destruct (dir_send _ _ _ _ _ _ now draw LONG_MAX (pi_ab _ _ HP) Hdraw)
    as (packet & next & t' & Hw & Hst & Hty & Hd).
  destruct (act_send P _ _ _ _ _ _ Hne Hw) as (es & Hrun & Hes).
  eexists. split; [by eapply exec_sends|]. cbn [ch_transmitter ch_receiver ch_with_transmitter flow_arrived].
  rewrite (pair_rx_same k) by done.
  assert (Hgo : ∀ f, dir_ab k t' (ch_receiver (pr_b P)) f → fl_back f = fl_back (pr_ab P) →
    pair_inv k (mkPair (ch_with_transmitter t' (pr_a P)) (pr_b P) f (pr_ba P) (pr_shakes_ab P) (pr_shakes_ba P))).
  { intros f Hf Hb. apply pair_inv_frame; try done; [apply (pi_ba _ _ HP)|by left]. }
  destruct packet as [|x packet]; [by apply Hgo|].
  destruct Hty as [?|[Hty|Hty]]; [done|..]; unfold pair_send; rewrite Hty; by apply Hgo.
Qed.

(** The receiver's. *)
Lemma exec_read_inv k P count :
  pair_inv k P → 0 ≤ count → ∃ P', pair_exec_a P (EndRead count) = Some P' ∧ pair_inv k P'.
Proof using io_laws pf_laws.
  intros HP Hc. destruct (dir_read _ _ _ _ _ _ count (pi_ba _ _ HP) Hc) as (bytes & ready & r' & Hw & Hst & Hd).
  destruct (act_read P _ _ _ _ _ Hw) as (rd & es & c & Hrun & Hes & Hf & Ht & Hwt).
  eexists. split; [by eapply exec_quiet|]. apply pair_inv_frame; try done; [by destruct Hwt as [[_ ->]|[_ ->]]|by rewrite Ht|..].
  - cbn. rewrite Ht, (pair_tx_same k) by done. apply (pi_ab _ _ HP).
  - destruct Hwt as [[-> ->]|[-> ->]]; [done|]. rewrite (pair_rx_same k) by done. apply (pi_ba _ _ HP).
  - left. apply fl_back_rx.
Qed.

Lemma send_back_inv k P c packet r' :
  pair_inv k P → tx_state (ch_transmitter (pr_a P)) ≠ TkConnecting →
  c = ch_with_receiver r' (pr_a P) → rx_state r' = rx_state (ch_receiver (pr_a P)) →
  packet = [] ∨ back_type packet →
  dir_ab (consts_swap k) (ch_transmitter (pr_b P)) r' (net_flow (net_send_back packet (flow_net (ch_transmitter (pr_b P)) r'
    (flow_rx (ch_receiver (pr_a P)) r' (ch_transmitter (pr_b P)) [] (pr_ba P))))) →
  let P1 := mkPair c (pr_b P) (pr_ab P)
    (flow_rx (ch_receiver (pr_a P)) r' (ch_transmitter (pr_b P)) [] (pr_ba P)) (pr_shakes_ab P) (pr_shakes_ba P) in
  pair_inv k (match packet with [] => P1 | _ => pair_send P1 packet end).
Proof using io_laws pf_laws.
  intros HP Hne -> Hst Hty Hd P1.
  assert (Hgo : ∀ f, dir_ab (consts_swap k) (ch_transmitter (pr_b P)) r' f →
    pair_inv k (mkPair (ch_with_receiver r' (pr_a P)) (pr_b P) (pr_ab P) f (pr_shakes_ab P) (pr_shakes_ba P))).
  { intros f Hf. apply pair_inv_frame; try done; [apply (pi_ab _ _ HP)|by right]. }
  destruct packet as [|x packet]; [apply Hgo; by destruct (flow_rx _ _ _ _ _)|].
  destruct Hty as [?|[Hty|Hty]]; [done|..]; unfold pair_send; rewrite Hty; by apply Hgo.
Qed.

Lemma exec_ack_inv k P : pair_inv k P → ∃ P', pair_exec_a P EndAck = Some P' ∧ pair_inv k P'.
Proof using io_laws pf_laws.
  intros HP. destruct (decide (tx_state (ch_transmitter (pr_a P)) = TkConnecting)) as [Hc|Hne].
  { apply exec_guarded_inv; eauto 6. }
  destruct (dir_ack _ _ _ _ _ _ (pi_ba _ _ HP)) as (packet & r' & Hw & Hst & Hty & Hd).
  destruct (act_ack P _ _ _ Hne Hw) as (es & Hrun & Hes).
  eexists. split; [by eapply exec_sends|]. cbn [ch_transmitter ch_receiver ch_with_receiver flow_arrived].
  rewrite (pair_tx_same k) by done. by apply send_back_inv.
Qed.

Lemma exec_himark_inv k P now : pair_inv k P → ∃ P', pair_exec_a P (EndRecvHimark now) = Some P' ∧ pair_inv k P'.
Proof using io_laws pf_laws.
  intros HP. destruct (decide (tx_state (ch_transmitter (pr_a P)) = TkConnecting)) as [Hc|Hne].
  { apply exec_guarded_inv; eauto 6. }
  destruct (dir_himark _ _ _ _ _ _ now LONG_MAX (pi_ba _ _ HP)) as (packet & next & r' & Hw & Hst & Hty & Hd).
  destruct (act_himark P _ _ _ _ _ Hne Hw) as (es & Hrun & Hes).
  eexists. split; [by eapply exec_sends|]. cbn [ch_transmitter ch_receiver ch_with_receiver flow_arrived].
  rewrite (pair_tx_same k) by done. by apply send_back_inv.
Qed.

(** What arrives. *)
Lemma receive_data_other packet r : back_type packet → net_receive_data packet r = Some r.
Proof. intros [Hty|Hty]; unfold net_receive_data; by rewrite Hty. Qed.

Lemma receive_back_other packet t : stream_packet packet → net_receive_back packet t = Some t.
Proof. intros [Hty|Hty]; unfold net_receive_back; by rewrite Hty. Qed.

Lemma exec_nothing_inv k P e :
  pair_inv k P → (∃ i, e = EndData i ∨ e = EndBack i ∨ e = EndHandshake i) → end_arrives P e = None →
  ∃ P', pair_exec_a P e = Some P' ∧ pair_inv k P'.
Proof using io_laws pf_laws.
  intros HP He Hn. eexists. split; [by apply (exec_quiet P e _ _ _ _ (act_nothing P (pr_a P) e He Hn))|].
  rewrite (pair_tx_same k), (pair_rx_same k) by done.
  assert (flow_arrived e (pr_ab P) = pr_ab P) as ->; [|by destruct P].
  destruct He as (i & [-> |[-> | ->]]); cbn in *; [done| |done]. by rewrite Hn.
Qed.

Lemma exec_data_inv k P i :
  pair_inv k P → pair_env_a P (EndData i) → ∃ P', pair_exec_a P (EndData i) = Some P' ∧ pair_inv k P'.
Proof using io_laws pf_laws.
  intros HP Henv. destruct (fl_data (pr_ba P) !! i) as [[p packet]|] eqn:Hi.
  2: { apply exec_nothing_inv; [done|by exists i; left|]. cbn. by rewrite Hi. }
  destruct (dir_data _ _ _ _ _ _ i p packet (pi_ba _ _ HP) Hi (Henv p packet Hi)) as (Hty & Hlen & r' & Hw & Hst & Hd).
  destruct (act_deliver P (pr_a P) (EndData i) packet r' (ch_transmitter (pr_a P))) as (es & c & Hrun & Hes & Hf & Hr & Ht);
    [by exists i; left|cbn; by rewrite Hi|done|destruct Hty; congruence|done|by apply receive_back_other|].
  eexists. split; [by eapply exec_quiet|]. cbn [flow_arrived]. apply pair_inv_frame; try done; [by rewrite Hr|by rewrite Ht|..].
  - rewrite Ht, (pair_tx_same k) by done. apply (pi_ab _ _ HP).
  - rewrite Hr. exact Hd.
  - left. apply fl_back_rx.
Qed.

Lemma exec_back_inv k P i : pair_inv k P → ∃ P', pair_exec_a P (EndBack i) = Some P' ∧ pair_inv k P'.
Proof using io_laws pf_laws.
  intros HP. destruct (fl_back (pr_ab P) !! i) as [packet|] eqn:Hi.
  2: { apply exec_nothing_inv; [done|by exists i; auto|done]. }
  destruct (dir_back _ _ _ _ _ _ i packet (pi_ab _ _ HP) Hi) as (Hty & Hlen & t' & Hw & Hst & Hd).
  destruct (act_deliver P (pr_a P) (EndBack i) packet (ch_receiver (pr_a P)) t') as (es & c & Hrun & Hes & Hf & Hr & Ht);
    [by exists i; right|done|done|destruct Hty; congruence|by apply receive_data_other|done|].
  assert (Hstays : tx_stays (ch_transmitter (pr_a P)) (ch_transmitter c)) by (by rewrite Ht).
  eexists. split; [by eapply exec_quiet|]. rewrite Hr, (pair_rx_same k) by done. rewrite Ht in *.
  apply pair_inv_step; [done| |by rewrite Ht|rewrite Hr; apply (pi_ba _ _ HP)|by rewrite Hr|..]; rewrite ?Ht.
  - eapply end_ok_frame; [apply (pi_a _ _ HP)|done|by rewrite Hr|by rewrite Ht].
  - by apply tx_stays_past.
  - intros Hb. destruct (pi_quiet_ab _ _ HP Hb) as [Hnil _]. by rewrite Hnil in Hi.
  - intros Hc. apply (pi_quiet_ba _ _ HP). rewrite Ht in Hc. by eapply tx_stays_connecting.
Qed.

Lemma exec_handshake_spec k P i d want :
  pair_inv k P → pr_shakes_ba P !! i = Some (Channel_handshake_packet d want) →
  ch_ranges d → ch_my_stream_id d = pc_idp k →
  (ch_peer_stream_id d = 0 ∨ (ch_peer_stream_id d = pc_id k ∧ rx_state (ch_receiver (pr_b P)) = RkConnected)) →
  (rx_state (ch_receiver (pr_a P)) = RkConnecting → Transmitter_front (ch_transmitter d) mod 4096 = pc_Sp k) →
  (tx_state (ch_transmitter (pr_a P)) = TkConnecting → rx_cap (ch_receiver d) = pc_capp k) →
  ∃ c fab fba, let P' := mkPair c (pr_b P) fab fba (pr_shakes_ab P) (pr_shakes_ba P) in
    pair_exec_a P (EndHandshake i) = Some P' ∧ pair_inv k P' ∧ shake_took k P d want c.
Proof using io_laws pf_laws.
  intros HP Hi Hr Hmy Hack Hfront Hcap.
  destruct (shake_arrives k P d want HP Hr Hmy Hack Hfront Hcap) as (es & c & Hrun & Hes & Htook).
  exists c. do 2 eexists. split; [|split; [|done]].
  2: { destruct Htook as [He Hab Hba Hrx Htx Hid Hco _ _ _]. apply pair_inv_step; try done.
       - intros Hb. destruct (pi_quiet_ab _ _ HP Hb) as [Hnil Hni]. split; [exact Hnil|auto].
       - intros Hc. destruct (pi_quiet_ba _ _ HP (Hco Hc)) as [Hnil Hni]. by rewrite fl_back_rx. }
  apply (exec_quiet P (EndHandshake i) [] [] es c); [|done]. unfold end_action. cbn [end_arrives]. rewrite Hi.
  erewrite ch_bind_run by reflexivity. rewrite (ch_bind_run _ _ _ _ _ _ Hrun). cbn. by rewrite app_nil_r.
Qed.

Lemma exec_handshake_inv k P i : pair_inv k P → ∃ P', pair_exec_a P (EndHandshake i) = Some P' ∧ pair_inv k P'.
Proof using io_laws pf_laws.
  intros HP. destruct (pr_shakes_ba P !! i) as [packet|] eqn:Hi.
  2: { apply exec_nothing_inv; [done|by exists i; auto|done]. }
  pose proof (Forall_lookup_1 _ _ _ _ (pi_shakes_ba _ _ HP) Hi) as (d & want & -> & Hr & Hmy & Hack & Hfront & Hcap).
  destruct (exec_handshake_spec k P i d want) as (c & fab & fba & Hex & HP' & _); eauto.
Qed.

Lemma exec_conn_inv k P now draw :
  pair_inv k P → 0 ≤ draw ≤ RANDOM_INTEGER_MAX →
  ∃ c, ch_transmitter c = ch_transmitter (pr_a P) ∧ ch_receiver c = ch_receiver (pr_a P)
    ∧ let P' := mkPair c (pr_b P) (pr_ab P) (pr_ba P)
        (pr_shakes_ab P ++ match conn_sends now (pr_a P) with
                           | Some want => [Channel_handshake_packet (pr_a P) want] | None => [] end)
        (pr_shakes_ba P) in
      pair_exec_a P (EndConn now draw) = Some P' ∧ pair_inv k P'.
Proof using io_laws pf_laws.
  intros HP Hd. destruct (act_conn P _ _ _ now draw (pi_a _ _ HP) Hd) as (es & c & Hrun & Hes & Hc & Ht & Hr).
  exists c. do 2 (split; [done|]).
  assert (Hgo : pair_inv k (mkPair c (pr_b P) (pr_ab P) (pr_ba P) (pr_shakes_ab P) (pr_shakes_ba P))).
  { apply pair_inv_step; rewrite ?Ht, ?Hr; try done; [apply (pi_ab _ _ HP)|apply (pi_ba _ _ HP)|..].
    - unfold quiet_ok. rewrite Ht. apply (pi_quiet_ab _ _ HP).
    - unfold quiet_ok. rewrite Ht. apply (pi_quiet_ba _ _ HP). }
  cbv zeta. rewrite (exec_sends P _ (conn_packet now (pr_a P)) es c Hrun Hes), Ht, Hr, (pair_tx_same k), (pair_rx_same k) by done.
  unfold conn_packet. destruct (conn_sends now (pr_a P)) as [want|]; [|by rewrite app_nil_r].
  split.
  - destruct (Channel_handshake_packet (pr_a P) want) eqn:Hpk; [by apply handshake_nonempty in Hpk|].
    rewrite <- Hpk. unfold pair_send. by rewrite handshake_type.
  - destruct Hgo as [H1 H2 H3 H4 H5 H6 H7 H8 H9]. constructor; try done. cbn in *.
    apply Forall_app. split; [done|]. constructor; [|done].
    eapply shake_ok_mono; [by apply shake_made|cbn; by rewrite ?Hr..].
Qed.

Lemma pair_exec_a_inv k P e : pair_inv k P → pair_env_a P e → ∃ P', pair_exec_a P e = Some P' ∧ pair_inv k P'.
Proof using io_laws pf_laws.
  intros HP Henv. destruct e.
  - by apply exec_write_inv.
  - by apply exec_flush_inv.
  - by apply exec_close_inv.
  - by apply exec_read_inv.
  - destruct (exec_conn_inv k P now draw HP Henv) as (c & _ & _ & Hex & HP'). eauto.
  - by apply exec_ack_inv.
  - by apply exec_himark_inv.
  - by apply exec_send_inv.
  - by apply exec_data_inv.
  - by apply exec_back_inv.
  - by apply exec_handshake_inv.
Qed.

Lemma pair_exec_inv k P x : pair_inv k P → pair_env P x → ∃ P', pair_exec P x = Some P' ∧ pair_inv k P'.
Proof using io_laws pf_laws.
  intros HP Henv. destruct x as [[] e]; [by apply pair_exec_a_inv|].
  destruct (pair_exec_a_inv _ _ _ (pair_inv_swap _ _ HP) Henv) as (P' & Hex & HP'). cbn [pair_exec].
  rewrite (bind_step _ _ _ Hex). eexists. split; [done|]. apply pair_inv_swap in HP'. by destruct k.
Qed.

Lemma pair_start_inv a b Sa Sb :
  ch_dialing a Sa → ch_dialing b Sb → ch_my_stream_id a ≠ ch_my_stream_id b →
  pair_inv (mkConsts (ch_my_stream_id a) (ch_my_stream_id b) Sa Sb (rx_cap (ch_receiver a)) (rx_cap (ch_receiver b)))
    (pair_start a b Sa Sb).
Proof.
  intros Ha Hb Hne.
  assert (Hcap : ∀ c S, ch_dialing c S → 1 ≤ rx_cap (ch_receiver c) ≤ 1024).
  { intros c S Hc. apply pow2_bounds, (cr_log2 _ (dialing_ranges _ _ Hc)). }
  pose proof (Hcap _ _ Ha). pose proof (Hcap _ _ Hb). clear Hcap.
  assert (Hend : ∀ c S idp, ch_dialing c S → end_ok (ch_my_stream_id c) idp c).
  { intros c S idp []. constructor; [done|done|by left]. }
  assert (Htx : ∀ c S, ch_dialing c S → tx_dialing (ch_transmitter c) S) by (by intros c S []).
  assert (Hrx : ∀ c S, ch_dialing c S → rx_dialing (ch_receiver c)) by (intros c S [? ? ? ? ? ? ? ? (? & ? & ?)]; by constructor).
  constructor; [|by eapply Hend|by eapply Hend|apply dir_idle; eauto|apply dir_idle; eauto| | |done..].
  2-3: split; [done|]; cbn; erewrite td_state by eauto; done.
  constructor; cbn; [apply Ha|apply Hb|done|apply Ha|apply Hb|done|done].
Qed.

Lemma pair_runs_inv Sa Sb P :
  pair_runs Sa Sb P → ∃ k, pc_S k = Sa ∧ pc_Sp k = Sb ∧ pair_inv k P.
Proof using io_laws pf_laws.
  induction 1 as [a b Ha Hb Hne|P x P' _ (k & HSa & HSb & HP) Henv Hex].
  - eexists. split; [|split; [|by apply pair_start_inv]]; done.
  - destruct (pair_exec_inv k P x HP Henv) as (P2 & Hex2 & HP2). exists k. do 2 (split; [done|]). congruence.
Qed.

End Invariant.

(** ** The contract *)

(** What [getLinkStatus] says of the current stream. *)
Definition link_status (c : Channel) : LinkStatus := Channel_getLinkStatusInternal c (ch_my_stream_id c).

(** [conn] at one end; if it makes a packet, that packet arrives. *)
Definition pair_exchange {io : RooIo} {pf : Platform} (P : Pair) (now draw : Z) : option Pair :=
  P1 ← pair_exec P (EndA, EndConn now draw);
  if (length (pr_shakes_ab P1) =? length (pr_shakes_ab P))%nat then Some P1
  else pair_exec P1 (EndB, EndHandshake (length (pr_shakes_ab P))).

(** From a, from b, and from a again. *)
Definition pair_exchanges {io : RooIo} {pf : Platform} (P : Pair) (now1 draw1 now2 draw2 now3 draw3 : Z) : option Pair :=
  P ← pair_exchange P now1 draw1;
  P ← pair_exchange (pair_swap P) now2 draw2;
  pair_exchange (pair_swap P) now3 draw3.

Section Contract.

Context {io : RooIo} {io_laws : RooIoLaws} {pf : Platform} {pf_laws : PlatformLaws}.

Lemma end_status id idp c : 0 < id → 0 < idp → end_ok id idp c →
  link_status c = if decide (tx_state (ch_transmitter c) = TkConnecting) then kConnecting else kConnected.
Proof.
  intros Hid Hidp [Hi _ Hprog]. unfold link_status, Channel_getLinkStatusInternal.
  rewrite (proj2 (Z.eqb_neq _ 0)), Z.eqb_refl by lia. cbn [negb].
  destruct Hprog as [(_ & -> & -> & ->)|(_ & -> & [[-> ->]|[Hp ->]])]; [done|by rewrite orb_true_r|].
  rewrite (proj2 (Z.eqb_neq _ 0)), decide_False by (try lia; by destruct Hp as [-> | ->]). done.
Qed.

Lemma dir_prefix S cap bit t r f : dir_ok S cap bit t r f → ∃ rest, fl_written f = fl_read f ++ rest.
Proof using io_laws pf_laws.
  intros [Ht Hr Hc ->|Ht Hn|Hst Hn]; [by exists []|..];
    destruct (net_runs_good S _ Hn) as (B & E & H & F & Er & U & Hi);
    destruct (net_read_prefix S _ _ _ _ _ _ _ Hi) as [rest Hrest]; by exists rest.
Qed.

(** The reader sees the end of the stream only where the writer closed it. *)
Lemma dir_end S cap bit t r f :
  dir_ok S cap bit t r f → rx_end_of_stream r = true → is_closed (fl_fin f) = true ∧ fl_read f = fl_written f.
Proof using io_laws pf_laws.
  intros [Ht Hr Hc Hf|Ht Hn|Hst Hn] Heos; [destruct Hr; congruence|..];
    by apply (net_good_end S _ (net_runs_good S _ Hn)).
Qed.

Lemma pair_direction k P : pair_inv k P →
  ((∃ rest, fl_written (pr_ab P) = fl_read (pr_ab P) ++ rest)
   ∧ (rx_end_of_stream (ch_receiver (pr_b P)) = true →
      is_closed (fl_fin (pr_ab P)) = true ∧ fl_read (pr_ab P) = fl_written (pr_ab P)))
  ∧ (link_status (pr_a P) = kConnecting
     ∨ link_status (pr_a P) = kConnected ∧ net_runs (pc_S k) (pair_net P)).
Proof using io_laws pf_laws.
  intros HP. split; [split; [by eapply dir_prefix, (pi_ab _ _ HP)|by eapply dir_end, (pi_ab _ _ HP)]|].
  pose proof (pi_consts _ _ HP) as [].
  rewrite (end_status _ _ _ (proj1 co_id0) (proj1 co_idp0) (pi_a _ _ HP)). case_decide as Hst; [by left|right].
  split; [done|]. destruct (pi_ab _ _ HP) as [[] Hr Hc Hf|[] Hn|_ Hn]; [congruence..|exact Hn].
Qed.


Lemma pair_swap_swap P : pair_swap (pair_swap P) = P.
Proof. by destruct P. Qed.

Lemma pair_runs_swap Sa Sb P : pair_runs Sa Sb P → pair_runs Sb Sa (pair_swap P).
Proof.
  induction 1 as [a b Ha Hb Hne|P [[] e] P' _ IH Henv Hex]; [by apply pair_runs_start|..].
  - apply (pair_runs_step Sb Sa (pair_swap P) (EndB, e)); [done|by cbn; rewrite pair_swap_swap|].
    cbn in *. by rewrite pair_swap_swap, Hex.
  - apply (pair_runs_step Sb Sa (pair_swap P) (EndA, e)); [done..|]. cbn in *. inv_bind Hex. injection Hex as <-.
    by rewrite pair_swap_swap.
Qed.

(** What an exchange does to the peer. *)
Definition exchanged (now : Z) (a b b' : Channel) : Prop :=
  match conn_sends now a with
  | None => b' = b
  | Some want =>
      rx_state (ch_receiver b') = RkConnected
      ∧ (tx_past (ch_transmitter b) → tx_past (ch_transmitter b'))
      ∧ (rx_state (ch_receiver a) = RkConnected → tx_past (ch_transmitter b'))
      ∧ ch_needs_handshake_ack b' = want
      ∧ ch_next_scheduled_handshake_update b' = ch_next_scheduled_handshake_update b
  end.

Lemma pair_exchange_spec k P now draw :
  pair_inv k P → 0 ≤ draw ≤ RANDOM_INTEGER_MAX →
  ∃ P', pair_exchange P now draw = Some P' ∧ pair_inv k P' ∧ (∀ Sa Sb, pair_runs Sa Sb P → pair_runs Sa Sb P')
    ∧ ch_transmitter (pr_a P') = ch_transmitter (pr_a P) ∧ ch_receiver (pr_a P') = ch_receiver (pr_a P)
    ∧ exchanged now (pr_a P) (pr_b P) (pr_b P').
Proof using io_laws pf_laws.
  intros HP Hd. destruct (exec_conn_inv k P now draw HP Hd) as (c & Ht & Hr & Hex & HP1). cbv zeta in Hex, HP1.
  set (P1 := mkPair _ _ _ _ _ _) in Hex, HP1.
  assert (Hrun1 : ∀ Sa Sb, pair_runs Sa Sb P → pair_runs Sa Sb P1)
    by (intros Sa Sb Hrun; by apply (pair_runs_step Sa Sb P (EndA, EndConn now draw))).
  unfold pair_exchange, exchanged. cbn [pair_exec]. rewrite (bind_step _ _ _ Hex).
  destruct (conn_sends now (pr_a P)) as [want|] eqn:Hc.
  2: { exists P1. unfold P1 at 1. cbn [pr_shakes_ab]. rewrite app_nil_r, Nat.eqb_refl. done. }
  unfold P1 at 1. cbn [pr_shakes_ab]. rewrite length_app, (proj2 (Nat.eqb_neq _ _)) by (cbn; lia).
  destruct (exec_handshake_spec _ (pair_swap P1) (length (pr_shakes_ab P)) (pr_a P) want (pair_inv_swap _ _ HP1))
    as (b' & fba & fab & Hex2 & HP2 & [_ _ _ Hrx Htx _ _ Hack Hn Hx]).
  { cbn. by rewrite lookup_app_r, Nat.sub_diag by lia. }
  { by apply (pair_ranges k). }
  { apply (pi_a _ _ HP). }
  { cbn. rewrite Hr. by apply (pair_peer k P). }
  { by apply (pair_front k P). }
  { by apply (pair_cap k P). }
  rewrite (bind_step _ _ _ Hex2). eexists. split; [done|]. apply pair_inv_swap in HP2.
  split; [by destruct k|]. split; [|split; [done|split; [done|]]].
  - intros Sa Sb Hrun. eapply (pair_runs_step Sa Sb P1 (EndB, EndHandshake _)); [by auto|done|].
    cbn [pair_exec]. by rewrite (bind_step _ _ _ Hex2).
  - split_and!; try done. intros Hrxa. apply Hack.
    destruct (eo_progress _ _ _ (pi_a _ _ HP)) as [(? & _)|(_ & -> & _)]; [congruence|done].
Qed.

Lemma end_states id idp c : end_ok id idp c →
  tx_state (ch_transmitter c) = TkConnecting ∨ tx_past (ch_transmitter c).
Proof. intros [_ _ [(_ & ? & _)|(_ & _ & [[? _]|[? _]])]]; auto. Qed.

(** The sender whose turn it is sends. *)
Lemma conn_sends_connecting now c :
  tx_state (ch_transmitter c) = TkConnecting → ch_next_scheduled_handshake_update c ≤ now → conn_sends now c = Some true.
Proof. intros Ht Hn. unfold conn_sends. rewrite decide_True by done. by rewrite (proj2 (Z.ltb_ge _ _)). Qed.

Lemma conn_sends_connected now c :
  tx_state (ch_transmitter c) = TkConnected → ch_needs_handshake_ack c = true → conn_sends now c = Some false.
Proof. intros Ht Hn. unfold conn_sends. rewrite decide_False, decide_True by congruence. by rewrite Hn. Qed.

(** An end whose peer is still connecting acts on a handshake packet that wants an answer. *)
Lemma answers k P now :
  pair_inv k P → tx_past (ch_transmitter (pr_a P)) → tx_state (ch_transmitter (pr_b P)) = TkConnecting →
  ch_needs_handshake_ack (pr_a P) = true → conn_sends now (pr_a P) = Some false.
Proof.
  intros HP Ha Hb Hn. apply conn_sends_connected; [|done].
  destruct Ha as [?|Hidle]; [done|]. by destruct (pi_quiet_ab _ _ HP Hb) as [_ Hni].
Qed.

(** C2: the handshake cannot get stuck. From every state that two dialing channels can
    reach, whatever handshake packets were lost, repeated or arrived late, and however far each
    end had got, three calls of [conn] whose packets arrive, by one end, the other, and
    the first again, at times when the retry timers have expired, leave both links
    connected, and no check fails. *)
Theorem Channels_connect (Sa Sb : Z) (P : Pair) (now1 draw1 now2 draw2 now3 draw3 : Z)
    (Hrun : pair_runs Sa Sb P)
    (Hd1 : 0 ≤ draw1 ≤ RANDOM_INTEGER_MAX) (Hd2 : 0 ≤ draw2 ≤ RANDOM_INTEGER_MAX)
    (Hd3 : 0 ≤ draw3 ≤ RANDOM_INTEGER_MAX)
    (Hna : ch_next_scheduled_handshake_update (pr_a P) ≤ now1)
    (Hnb : ch_next_scheduled_handshake_update (pr_b P) ≤ now2) :
  ∃ P', pair_exchanges P now1 draw1 now2 draw2 now3 draw3 = Some P' ∧ pair_runs Sa Sb P'
    ∧ link_status (pr_a P') = kConnected ∧ link_status (pr_b P') = kConnected.
Proof using io_laws pf_laws.
  destruct (pair_runs_inv Sa Sb P Hrun) as (k & <- & <- & HP).
  destruct (pair_exchange_spec k P now1 draw1 HP Hd1) as (P1 & Hex1 & HP1 & Hrun1 & Hta1 & Hra1 & Hb1).
  pose proof (pair_inv_swap _ _ HP1) as HQ1.
  destruct (pair_exchange_spec _ _ now2 draw2 HQ1 Hd2) as (P2 & Hex2 & HP2 & Hrun2 & Htb2 & Hrb2 & Ha2).
  pose proof (pair_inv_swap _ _ HP2) as HQ2.
  destruct (pair_exchange_spec _ _ now3 draw3 HQ2 Hd3) as (P3 & Hex3 & HP3 & Hrun3 & Hta3 & Hra3 & Hb3).
  cbn [pair_swap pr_a pr_b] in *. unfold exchanged in *.
  exists P3. unfold pair_exchanges. rewrite (bind_step _ _ _ Hex1), (bind_step _ _ _ Hex2).
  split; [done|]. split; [by apply Hrun3, pair_runs_swap, Hrun2, pair_runs_swap, Hrun1|].
  assert (Hnb1 : ch_next_scheduled_handshake_update (pr_b P1) ≤ now2).
  { destruct (conn_sends now1 (pr_a P)); [|by rewrite Hb1]. by destruct Hb1 as (_ & _ & _ & _ & ->). }
  assert (Ha : tx_past (ch_transmitter (pr_b P2))).
  { destruct (end_states _ _ _ (pi_a _ _ HP)) as [Hta|Hta].
    - rewrite (conn_sends_connecting _ _ Hta Hna) in Hb1. destruct Hb1 as (Hrb & _ & _ & Hn & _).
      destruct (end_states _ _ _ (pi_b _ _ HP1)) as [Htb|Htb].
      + rewrite (conn_sends_connecting _ _ Htb Hnb1) in Ha2. by destruct Ha2 as (_ & _ & Hack & _); apply Hack.
      + pose proof (answers _ _ now2 HQ1 Htb ltac:(cbn; congruence) Hn) as Hans. cbn in Hans. rewrite Hans in Ha2.
        by destruct Ha2 as (_ & _ & Hack & _); apply Hack.
    - rewrite <- Hta1 in Hta. destruct (conn_sends now2 (pr_b P1)); [|by rewrite Ha2].
      destruct Ha2 as (_ & Hkeep & _). by apply Hkeep. }
  assert (Hb : tx_past (ch_transmitter (pr_b P3))).
  { destruct (end_states _ _ _ (pi_b _ _ HP1)) as [Htb|Htb].
    - rewrite (conn_sends_connecting _ _ Htb Hnb1) in Ha2. destruct Ha2 as (Hra & _ & _ & Hn & _).
      pose proof (answers _ _ now3 HQ2 Ha ltac:(cbn; congruence) Hn) as Hans. cbn in Hans. rewrite Hans in Hb3.
      by destruct Hb3 as (_ & _ & Hack & _); apply Hack.
    - rewrite <- Htb2 in Htb. destruct (conn_sends now3 (pr_b P2)); [|by rewrite Hb3].
      destruct Hb3 as (_ & Hkeep & _). by apply Hkeep. }
  pose proof (pi_consts _ _ HP) as [Hid Hidp _ _ _ _ _]. destruct k as [id idp S Sp cap capp]. cbn in *.
  rewrite (end_status _ _ _ (proj1 Hid) (proj1 Hidp) (pi_a _ _ HP3)), (end_status _ _ _ (proj1 Hidp) (proj1 Hid) (pi_b _ _ HP3)).
  rewrite <- Hta3 in Ha. rewrite !decide_False; [done|by destruct Hb; congruence|by destruct Ha; congruence].
Qed.

End Contract.

(** ** Runs *)

Definition pair_env_ok_a {pf : Platform} (P : Pair) (e : end_event) : bool :=
  match e with
  | EndConn _ draw | EndSend _ draw => (0 <=? draw) && (draw <=? RANDOM_INTEGER_MAX)
  | EndClose => bool_decide (tx_state (ch_transmitter (pr_a P)) ≠ TkConnecting)
  | EndRead count => 0 <=? count
  | EndData i =>
      match fl_data (pr_ba P) !! i with Some (p, _) => fl_rx_base (pr_ba P) - 2048 <=? p | None => true end
  | _ => true
  end.

Definition pair_env_ok {pf : Platform} (P : Pair) (x : End * end_event) : bool :=
  match x with (EndA, e) => pair_env_ok_a P e | (EndB, e) => pair_env_ok_a (pair_swap P) e end.

Fixpoint pair_run {io : RooIo} {pf : Platform} (P : Pair) (xs : list (End * end_event)) : option Pair :=
  match xs with
  | [] => Some P
  | x :: xs => if pair_env_ok P x then P ← pair_exec P x; pair_run P xs else None
  end.

Lemma pair_env_ok_spec {pf : Platform} P x : pair_env_ok P x = true → pair_env P x.
Proof.
  assert (Ha : ∀ P e, pair_env_ok_a P e = true → pair_env_a P e).
  { clear. intros P e. destruct e; cbn; auto; try (rewrite andb_true_iff; lia); [by apply bool_decide_eq_true_1|lia|].
    intros Hok p packet Hi. rewrite Hi in Hok. lia. }
  destruct x as [[] e]; apply Ha.
Qed.

Lemma pair_run_runs {io : RooIo} {pf : Platform} Sa Sb xs :
  ∀ P P', pair_runs Sa Sb P → pair_run P xs = Some P' → pair_runs Sa Sb P'.
Proof.
  induction xs as [|x xs IH]; intros P P' Hr; cbn [pair_run]; [by intros [= <-]|].
  destruct (pair_env_ok P x) eqn:Hok; [|done]. intros Hx. inv_bind Hx.
  eapply IH; [|done]. eapply pair_runs_step; [done|by apply pair_env_ok_spec|done].
Qed.

(** ** Witnesses *)

(** Channels 7 and 9, which write from positions 905 and 100. *)
Definition pair_demo (xs : list (End * end_event)) : option Pair :=
  a ← chan_demo 7 5000; b ← chan_demo 9 100; pair_run (pair_start a b 905 100) xs.

(** The first handshake packet is lost; then the channels connect, three bytes go from
    the first to the second, and the first closes its stream. *)
Definition pair_demo_events : list (End * end_event) :=
  [ (EndA, EndConn 10 5); (EndA, EndConn 2000000 5); (EndB, EndHandshake 1); (EndB, EndConn 20 6);
    (EndA, EndHandshake 0); (EndA, EndConn 30 7); (EndB, EndHandshake 2);
    (EndA, EndWrite [1; 2; 3]); (EndA, EndFlush); (EndA, EndSend 1000 5); (EndB, EndRecvHimark 1000);
    (EndB, EndData 0); (EndB, EndRead 3); (EndB, EndAck); (EndA, EndBack 1);
    (EndA, EndClose); (EndA, EndSend 2000 5); (EndB, EndData 0); (EndB, EndRead 3);
    (EndB, EndAck); (EndA, EndBack 0) ].

Lemma pair_demo_runs xs P : pair_demo xs = Some P → pair_runs 905 100 P.
Proof.
  destruct (chan_demo_ok 7 5000 ltac:(lia)) as (a & Ha & Hda & Hia & _).
  destruct (chan_demo_ok 9 100 ltac:(lia)) as (b & Hb & Hdb & Hib & _).
  change (5000 mod 4095) with 905 in Hda. change (100 mod 4095) with 100 in Hdb.
  unfold pair_demo. rewrite (bind_step _ _ _ Ha), (bind_step _ _ _ Hb). apply pair_run_runs.
  apply pair_runs_start; [done|done|]. rewrite Hia, Hib. lia.
Qed.


(** The answer of the second channel is lost. *)
Definition pair_lost_events : list (End * end_event) :=
  [ (EndA, EndConn 10 5); (EndB, EndHandshake 0); (EndB, EndConn 20 6) ].

Lemma Channels_connect_witness :
  ∃ P P', pair_demo pair_lost_events = Some P ∧ link_status (pr_a P) = kConnecting
    ∧ pair_exchanges P 2000000 5 2000000 6 2000000 7 = Some P'
    ∧ link_status (pr_a P') = kConnected ∧ link_status (pr_b P') = kConnected.
Proof.
  destruct (pair_demo pair_lost_events) as [P|] eqn:Hrun.
  2: { exfalso. revert Hrun. vm_compute. discriminate. }
  assert (Hfacts : option_map (λ P, (link_status (pr_a P), ch_next_scheduled_handshake_update (pr_a P) <=? 2000000,
      ch_next_scheduled_handshake_update (pr_b P) <=? 2000000))
    (pair_demo pair_lost_events) = Some (kConnecting, true, true)) by (vm_compute; reflexivity).
  rewrite Hrun in Hfacts. injection Hfacts as Hs Hna Hnb.
  destruct (Channels_connect 905 100 P 2000000 5 2000000 6 2000000 7 (pair_demo_runs _ _ Hrun))
    as (P' & Hex & _ & Ha & Hb).
  - split; vm_compute; discriminate.
  - split; vm_compute; discriminate.
  - split; vm_compute; discriminate.
  - by apply Z.leb_le.
  - by apply Z.leb_le.
  - exists P, P'. auto.
Defined.
