(* ===== verification/Packets.v ===== *)
(** * Packets: packets over a byte stream

    [packets/over_stream/packet_sender_over_stream.cpp],
    [packets/over_stream/packet_receiver_over_stream.cpp] and
    [packets/over_stream/seed.h]. A packet of up to 250 bytes travels as one frame:
    a COBS byte, the packet, a 32-bit hash, and a zero byte that appears nowhere else
    in the frame. nanocobs and murmur3 are third-party: they are the fields of
    [PacketCodec], with the documented behaviour as [PacketCodecLaws].

    The theorems relate the receiver, which works in place on chunks of any size, to
    [deframe], which cuts the whole byte stream at its zeros; and [deframe] to the
    sender. *)

From S2P Require Import Prelude.
From S2P Require Import RooIo.

Local Open Scope Z_scope.
Local Open Scope roo_scope.

(** [cobs_encode_tinyframe] and [cobs_decode_tinyframe] transform a buffer in place
    and can fail; [murmur3_32] takes the bytes and the seed. *)
Class PacketCodec := {
  COBS_TINYFRAME_SENTINEL_VALUE : byte;
  cobs_encode_tinyframe : list byte → option (list byte);
  cobs_decode_tinyframe : list byte → option (list byte);
  murmur3_32 : list byte → Z → Z;
}.

(** The documentation of nanocobs: a frame of at most 256 bytes that starts and ends
    with the sentinel is encoded in place, without zeros but for its last byte, and
    decoding yields the payload between the ends again. *)
Class PacketCodecLaws {codec : PacketCodec} : Prop := {
  cobs_encode_frame (payload : list byte) :
    (length payload ≤ 254)%nat → Forall is_byte payload →
    ∃ code, cobs_encode_tinyframe
        (COBS_TINYFRAME_SENTINEL_VALUE :: payload ++ [COBS_TINYFRAME_SENTINEL_VALUE])
      = Some (code ++ [0])
      ∧ length code = S (length payload) ∧ Forall (λ b, b ≠ 0) code
      ∧ ∃ first last, cobs_decode_tinyframe (code ++ [0]) = Some (first :: payload ++ [last]);
  cobs_decode_length (buf buf' : list byte) :
    cobs_decode_tinyframe buf = Some buf' → length buf' = length buf;
  murmur3_32_u32 (bs : list byte) (seed : Z) : 0 ≤ murmur3_32 bs seed < 2 ^ 32;
}.

Definition kPacketOverStreamSeed : Z := 0xB45DF9DE.

(** [PacketSenderOverStream::kMaxPacketSize]. *)
Definition kMaxPacketSizeOverStream : Z := 250.

(** The two counters are of type [size_t], which is 32 bits wide on the microcontrollers. *)
Record PacketReceiverOverStream := mkPacketReceiver {
  pr_buf : list byte;
  pr_pos : nat;
  pr_bytes_received : Z;
  pr_bytes_accepted : Z;
}.

Definition pr_with_buf (v : list byte) (r : PacketReceiverOverStream) : PacketReceiverOverStream :=
  mkPacketReceiver v (pr_pos r) (pr_bytes_received r) (pr_bytes_accepted r).
Definition pr_with_pos (v : nat) (r : PacketReceiverOverStream) : PacketReceiverOverStream :=
  mkPacketReceiver (pr_buf r) v (pr_bytes_received r) (pr_bytes_accepted r).
Definition pr_with_bytes_received (v : Z) (r : PacketReceiverOverStream) : PacketReceiverOverStream :=
  mkPacketReceiver (pr_buf r) (pr_pos r) v (pr_bytes_accepted r).
Definition pr_with_bytes_accepted (v : Z) (r : PacketReceiverOverStream) : PacketReceiverOverStream :=
  mkPacketReceiver (pr_buf r) (pr_pos r) (pr_bytes_received r) v.

Section Operations.

Context {io : RooIo} {codec : PacketCodec}.

(** The bytes written to the stream. *)
Definition PacketSenderOverStream_send (buf : list byte) : option (list byte) :=
  CHECK (Z.of_nat (length buf) <=? kMaxPacketSizeOverStream) ;;
  let hash := murmur3_32 buf kPacketOverStreamSeed in
  cobs_encode_tinyframe
    (COBS_TINYFRAME_SENTINEL_VALUE :: buf ++ StoreBeU32 hash ++ [COBS_TINYFRAME_SENTINEL_VALUE]).

(** [memory] is the uninitialised buffer. *)
Definition PacketReceiverOverStream_new (memory : list byte) : PacketReceiverOverStream :=
  mkPacketReceiver memory 0 0 0.

(** [processPacket] on a complete frame: the packet passed to [receiver_fn], if any.
    The outer [option] is for the accesses [&buf[1]] and [&buf[size - 5]]. *)
Definition PacketReceiverOverStream_processPacket (buf : list byte) : option (option (list byte)) :=
  match cobs_decode_tinyframe buf with
  | None => Some None
  | Some buf =>
      let size := length buf in
      CHECK bool_decide (6 ≤ size)%nat ;;
      packet ← slice buf 1 (size - 6);
      stored ← slice buf (size - 5) 4;
      Some (if murmur3_32 packet kPacketOverStreamSeed =? LoadBeU32 stored
            then Some packet else None)
  end.

(** [std::find(data, data + len, 0) - data] *)
Fixpoint find_delim (data : list byte) : nat :=
  match data with
  | [] => 0
  | b :: data => if b =? 0 then 0 else S (find_delim data)
  end.

(** What [processIncoming] does with the packet. *)
Definition pr_accept (size : nat) (delivered : option (list byte)) (r : PacketReceiverOverStream)
    : list (list byte) * PacketReceiverOverStream :=
  match delivered with
  | Some packet => ([packet], pr_with_bytes_accepted (u32 (pr_bytes_accepted r + Z.of_nat size)) r)
  | None => ([], r)
  end.

(** One round of the loop of [processIncoming]: what it delivers and consumes. *)
Definition PacketReceiverOverStream_round (data : list byte) (r : PacketReceiverOverStream)
    : option (list (list byte) * nat * PacketReceiverOverStream) :=
  let increment := find_delim data in
  let finished := bool_decide (increment < length data)%nat in
  if finished then
    let increment := S increment in
    '(packets, r) ←
      (if bool_decide (pr_pos r + increment ≤ 256)%nat && bool_decide (6 ≤ pr_pos r + increment)%nat
       then if decide (pr_pos r = 0%nat)
            then
              delivered ← PacketReceiverOverStream_processPacket (take increment data);
              Some (pr_accept increment delivered r)
            else
              buf ← memcpy (pr_buf r) (pr_pos r) (take increment data);
              delivered ← (frame ← slice buf 0 (pr_pos r + increment);
                           PacketReceiverOverStream_processPacket frame);
              Some (pr_accept (pr_pos r + increment) delivered (pr_with_buf buf r))
       else Some ([], r));
    Some (packets, increment, pr_with_pos 0 r)
  else
    r ← (if bool_decide (pr_pos r + increment < 256)%nat
         then
           buf ← memcpy (pr_buf r) (pr_pos r) (take increment data);
           Some (pr_with_pos (pr_pos r + increment) (pr_with_buf buf r))
         else Some (pr_with_pos 256 r));
    Some ([], increment, r).

(** The loop; every round consumes a byte, so the number of bytes is enough fuel. *)
Fixpoint PacketReceiverOverStream_loop (fuel : nat) (data : list byte) (r : PacketReceiverOverStream)
    : option (list (list byte) * PacketReceiverOverStream) :=
  match data with
  | [] => Some ([], r)
  | _ :: _ =>
      match fuel with
      | O => None
      | S fuel =>
          '(packets, increment, r) ← PacketReceiverOverStream_round data r;
          '(more, r) ← PacketReceiverOverStream_loop fuel (drop increment data) r;
          Some (packets ++ more, r)
      end
  end.

(** [tmp_], of 256 bytes, holds the incoming data. *)
Definition PacketReceiverOverStream_processIncoming (data : list byte) (r : PacketReceiverOverStream)
    : option (list (list byte) * PacketReceiverOverStream) :=
  CHECK bool_decide (length data ≤ 256)%nat ;;
  PacketReceiverOverStream_loop (length data) data
    (pr_with_bytes_received (u32 (pr_bytes_received r + Z.of_nat (length data))) r).

(** [tryReceive] processes what one read returns. *)
Definition PacketReceiverOverStream_tryReceive (data : list byte) (r : PacketReceiverOverStream)
    : option (list (list byte) * PacketReceiverOverStream) :=
  PacketReceiverOverStream_processIncoming data r.

(** [receive]: [reads] is what the successive reads return; returns the packets
    delivered and the reads left. [None] when the reads given run out, which is a
    read that blocks. *)
Fixpoint PacketReceiverOverStream_receive (reads : list (list byte)) (r : PacketReceiverOverStream)
    : option (list (list byte) * list (list byte) * PacketReceiverOverStream) :=
  match reads with
  | [] => None
  | [] :: reads => Some ([], reads, r)
  | data :: reads =>
      '(packets, r) ← PacketReceiverOverStream_processIncoming data r;
      match packets with
      | [] => PacketReceiverOverStream_receive reads r
      | _ :: _ => Some (packets, reads, r)
      end
  end.

End Operations.

(** ** The specification: cutting the stream at its zeros *)

Section Deframe.

Context {io : RooIo} {codec : PacketCodec}.

(** What a decoded frame contains: a byte, the packet, its hash in four bytes, and a byte. *)
Definition frame_body (decoded : list byte) : list byte := drop 1 (take (length decoded - 5) decoded).
Definition frame_hash (decoded : list byte) : list byte := take 4 (drop (length decoded - 5) decoded).

(** The packet in a complete frame, delimiter included: the frame is 6 to 256 bytes long,
    decodes, and has the hash of its packet. *)
Definition frame_packet (frame : list byte) : list (list byte) :=
  if bool_decide (6 ≤ length frame ≤ 256)%nat
  then match cobs_decode_tinyframe frame with
       | Some decoded =>
           if decide (LoadBeU32 (frame_hash decoded) = murmur3_32 (frame_body decoded) kPacketOverStreamSeed)
           then [frame_body decoded] else []
       | None => []
       end
  else [].

(** The packets in [bytes] when [pending] bytes of a frame have already come. *)
Fixpoint deframe (pending bytes : list byte) : list (list byte) :=
  match bytes with
  | [] => []
  | b :: bytes =>
      if b =? 0 then frame_packet (pending ++ [b]) ++ deframe [] bytes
      else deframe (pending ++ [b]) bytes
  end.

(** The unfinished frame at the end. *)
Fixpoint deframe_pending (pending bytes : list byte) : list byte :=
  match bytes with
  | [] => pending
  | b :: bytes => deframe_pending (if b =? 0 then [] else pending ++ [b]) bytes
  end.

Lemma deframe_app p bs cs :
  deframe p (bs ++ cs) = deframe p bs ++ deframe (deframe_pending p bs) cs.
Proof.
  revert p. induction bs as [|b bs IH]; intros p; cbn; [done|].
  destruct (b =? 0); rewrite IH; [by rewrite app_assoc|done].
Qed.

Lemma deframe_pending_app p bs cs :
  deframe_pending p (bs ++ cs) = deframe_pending (deframe_pending p bs) cs.
Proof. revert p. induction bs as [|b bs IH]; intros p; cbn; [done|]. apply IH. Qed.

(** Bytes without a delimiter only extend the pending frame. *)
Lemma deframe_nonzero p bs :
  Forall (λ b, b ≠ 0) bs → deframe p bs = [] ∧ deframe_pending p bs = p ++ bs.
Proof.
  intros H. revert p. induction H as [|b bs Hb H IH]; intros p; cbn; [by rewrite app_nil_r|].
  rewrite (proj2 (Z.eqb_neq b 0)) by done. destruct (IH (p ++ [b])) as [-> ->].
  by rewrite <- app_assoc.
Qed.

Lemma deframe_frame p code rest :
  Forall (λ b, b ≠ 0) code →
  deframe p (code ++ 0 :: rest) = frame_packet (p ++ code ++ [0]) ++ deframe [] rest.
Proof.
  intros H. rewrite deframe_app. destruct (deframe_nonzero p code H) as [-> ->].
  cbn. by rewrite app_assoc.
Qed.

Lemma find_delim_split data :
  Forall (λ b, b ≠ 0) (take (find_delim data) data)
  ∧ (find_delim data ≤ length data)%nat
  ∧ ((find_delim data < length data)%nat → data !! find_delim data = Some 0).
Proof.
  induction data as [|b data (H1 & H2 & H3)]; cbn; [split_and!; [constructor|lia|lia]|].
  destruct (Z.eqb_spec b 0) as [->|Hb]; cbn; [split_and!; [constructor|lia|done]|].
  split_and!; [by constructor|lia|]. intros. apply H3. lia.
Qed.

End Deframe.

(** ** The receiver implements it *)

Section Receive.

Context {io : RooIo} {codec : PacketCodec} {codec_laws : PacketCodecLaws}.

(** The counters are in range. *)
Definition pr_counted (r : PacketReceiverOverStream) : Prop :=
  0 ≤ pr_bytes_received r < 2 ^ 32 ∧ 0 ≤ pr_bytes_accepted r < 2 ^ 32.

(** The receiver holds the unfinished frame [pending], or knows that it is too long. *)
Definition pr_holds (r : PacketReceiverOverStream) (pending : list byte) : Prop :=
  length (pr_buf r) = 256%nat ∧ pr_counted r
  ∧ if decide (length pending < 256)%nat
    then pr_pos r = length pending ∧ take (pr_pos r) (pr_buf r) = pending
    else pr_pos r = 256%nat.

(** The bytes on the wire of the packets delivered. *)
Definition wire_size (packets : list (list byte)) : Z :=
  foldr (λ p n, Z.of_nat (length p) + 6 + n) 0 packets.

Lemma wire_size_app ps qs : wire_size (ps ++ qs) = wire_size ps + wire_size qs.
Proof. unfold wire_size. induction ps as [|p ps IH]; cbn; [lia|]. rewrite IH. lia. Qed.

(** A complete frame is processed without an access out of bounds, and what is delivered
    is the packet in it. *)
Lemma processPacket_total frame :
  (6 ≤ length frame ≤ 256)%nat →
  ∃ delivered, PacketReceiverOverStream_processPacket frame = Some delivered
    ∧ frame_packet frame = option_list delivered
    ∧ ∀ p, delivered = Some p → (length p + 6 = length frame)%nat.
Proof.
  intros Hlen. unfold PacketReceiverOverStream_processPacket, frame_packet.
  rewrite bool_decide_true by done.
  destruct (cobs_decode_tinyframe frame) as [buf|] eqn:Hd; [|by eexists].
  apply cobs_decode_length in Hd. rewrite bool_decide_true by lia. cbn [check mbind option_bind].
  rewrite !slice_Some by lia. cbn [mbind option_bind].
  assert (Hbody : frame_body buf = take (length buf - 6) (drop 1 buf)).
  { unfold frame_body. rewrite skipn_firstn_comm. f_equal. lia. }
  unfold frame_hash. rewrite Hbody. eexists. split; [done|].
  destruct (Z.eqb_spec (murmur3_32 (take (length buf - 6) (drop 1 buf)) kPacketOverStreamSeed)
    (LoadBeU32 (take 4 (drop (length buf - 5) buf)))) as [He|He].
  - rewrite decide_True by congruence. split; [done|]. intros p [= <-]. rewrite length_take, length_drop. lia.
  - by rewrite decide_False by congruence.
Qed.

Lemma frame_packet_accept frame delivered r :
  (6 ≤ length frame ≤ 256)%nat → pr_counted r →
  PacketReceiverOverStream_processPacket frame = Some delivered →
  pr_accept (length frame) delivered r
  = (frame_packet frame,
     pr_with_bytes_accepted (u32 (pr_bytes_accepted r + wire_size (frame_packet frame))) r).
Proof.
  intros Hlen [_ Hacc] Hp. destruct (processPacket_total frame ltac:(lia)) as (d & Hd & -> & Hsize).
  rewrite Hp in Hd. injection Hd as <-. destruct delivered as [p|]; cbn.
  - specialize (Hsize p eq_refl). repeat f_equal. lia.
  - rewrite Z.add_0_r, u32_small by done. by destruct r.
Qed.

Lemma frame_packet_out frame : ¬ (6 ≤ length frame ≤ 256)%nat → frame_packet frame = [].
Proof. intros. unfold frame_packet. by rewrite bool_decide_false. Qed.

Lemma take_delim data :
  (find_delim data < length data)%nat →
  take (S (find_delim data)) data = take (find_delim data) data ++ [0].
Proof. intros H. apply take_S_r. by apply find_delim_split. Qed.

Lemma deframe_first p data :
  (find_delim data < length data)%nat →
  let k := S (find_delim data) in
  deframe p data = frame_packet (p ++ take k data) ++ deframe [] (drop k data)
  ∧ deframe_pending p data = deframe_pending [] (drop k data).
Proof.
  intros Hdel k. destruct (find_delim_split data) as (Hnz & _ & _). unfold k.
  pose proof (take_drop (S (find_delim data)) data) as E. rewrite take_delim in E |- * by done.
  revert Hnz E. generalize (take (find_delim data) data) (drop (S (find_delim data)) data).
  intros code rest Hnz <-. rewrite <- app_assoc. cbn [app].
  split; [by apply deframe_frame|]. by rewrite deframe_pending_app.
Qed.

Lemma round_finished data r pending :
  pr_holds r pending → (find_delim data < length data)%nat →
  let frame := take (S (find_delim data)) data in
  ∃ r', PacketReceiverOverStream_round data r
        = Some (frame_packet (pending ++ frame), S (find_delim data), r')
    ∧ pr_holds r' [] ∧ pr_bytes_received r' = pr_bytes_received r
    ∧ pr_bytes_accepted r' = u32 (pr_bytes_accepted r + wire_size (frame_packet (pending ++ frame))).
Proof.
  intros (Hbuf & Hcnt & Hpos) Hdel frame. unfold PacketReceiverOverStream_round.
  rewrite bool_decide_true by done. cbv zeta.
  assert (Hf : length frame = S (find_delim data)) by (unfold frame; rewrite length_take; lia).
  assert (Hempty : ∀ r0 : PacketReceiverOverStream,
    length (pr_buf r0) = 256%nat → pr_counted r0 → pr_holds (pr_with_pos 0 r0) []) by (intros r0 ??; by split).
  assert (Hkeep : pr_bytes_accepted r = u32 (pr_bytes_accepted r + wire_size []))
    by (cbn; rewrite Z.add_0_r, u32_small; [done|apply Hcnt]).
  assert (Hcnt2 : ∀ r0 n, pr_counted r0 → pr_counted (pr_with_bytes_accepted (u32 n) r0))
    by (intros r0 n [? _]; split; [done|apply u32_range]).
  case_decide as Hshort.
  2:{ rewrite Hpos, bool_decide_false by lia. cbn [andb mbind option_bind].
      rewrite frame_packet_out by (rewrite length_app; lia).
      eexists. split; [done|]. split; [by apply Hempty|done]. }
  destruct Hpos as [Hpos Htake].
  assert (Hl : length (pending ++ frame) = (pr_pos r + S (find_delim data))%nat)
    by (rewrite length_app; lia).
  destruct (decide (6 ≤ pr_pos r + S (find_delim data) ≤ 256)%nat) as [Hin|Hout].
  2:{ replace (bool_decide _ && bool_decide _) with false
        by (symmetry; rewrite <- bool_decide_and; apply bool_decide_false; lia).
      cbn [mbind option_bind]. rewrite frame_packet_out by lia.
      eexists. split; [done|]. split; [by apply Hempty|done]. }
  rewrite !bool_decide_true by lia. cbn [andb].
  destruct (processPacket_total (pending ++ frame) ltac:(lia)) as (d & Hd & _).
  pose proof (λ r0 Hr0, frame_packet_accept (pending ++ frame) d r0 ltac:(lia) Hr0 Hd) as Hacc.
  rewrite Hl in Hacc. case_decide as Hz.
  - assert (pending = []) as -> by (apply nil_length_inv; lia).
    fold frame. rewrite (bind_step _ _ _ Hd). rewrite Hz in Hacc. cbn [Nat.add] in Hacc.
    rewrite Hacc by done. cbn [mbind option_bind]. eexists. split; [done|].
    split; [by apply Hempty; [|apply Hcnt2]|done].
  - fold frame.
    destruct (memcpy (pr_buf r) (pr_pos r) frame) as [buf|] eqn:Hm.
    2:{ by rewrite memcpy_Some in Hm by lia. }
    pose proof (length_memcpy _ _ _ _ Hm) as Hlb. pose proof (take_memcpy _ _ _ _ Hm) as Htb.
    cbn [mbind option_bind]. rewrite slice_Some by lia. rewrite drop_0, <- Hf, Htb, Htake.
    cbn [mbind option_bind]. rewrite (bind_step _ _ _ Hd). rewrite Hf, Hacc by done. cbn [mbind option_bind].
    eexists. split; [done|]. split; [apply Hempty; [cbn; lia|by apply Hcnt2]|]. done.
Qed.

Lemma round_unfinished data r pending :
  pr_holds r pending → (find_delim data = length data)%nat →
  ∃ r', PacketReceiverOverStream_round data r = Some ([], length data, r')
    ∧ pr_holds r' (pending ++ data) ∧ pr_bytes_received r' = pr_bytes_received r
    ∧ pr_bytes_accepted r' = pr_bytes_accepted r.
Proof.
  intros (Hbuf & Hcnt & Hpos) Hdel. unfold PacketReceiverOverStream_round. rewrite Hdel.
  rewrite bool_decide_false by lia. cbv zeta. unfold pr_holds. rewrite length_app.
  case_decide as Hs.
  - destruct Hpos as [Hpos Ht]. destruct (decide (pr_pos r + length data < 256)%nat) as [H|H].
    + rewrite bool_decide_true by done. rewrite take_ge by lia.
      destruct (memcpy (pr_buf r) (pr_pos r) data) as [buf|] eqn:Hm.
      2:{ by rewrite memcpy_Some in Hm by lia. }
      cbn. eexists. split; [done|]. cbn. rewrite decide_True by lia.
      rewrite (length_memcpy _ _ _ _ Hm), (take_memcpy _ _ _ _ Hm), Ht. split_and!; auto; lia.
    + rewrite bool_decide_false by done. cbn. eexists. split; [done|]. cbn.
      rewrite decide_False by lia. done.
  - rewrite bool_decide_false by lia. cbn. eexists. split; [done|]. cbn.
    rewrite decide_False by lia. done.
Qed.

Lemma pr_keeps_accepted r pending : pr_holds r pending → u32 (pr_bytes_accepted r + 0) = pr_bytes_accepted r.
Proof. intros (_ & [_ Hacc] & _). by rewrite Z.add_0_r, u32_small. Qed.

Lemma loop_spec fuel data r pending :
  (length data ≤ fuel)%nat → pr_holds r pending →
  ∃ r', PacketReceiverOverStream_loop fuel data r = Some (deframe pending data, r')
    ∧ pr_holds r' (deframe_pending pending data) ∧ pr_bytes_received r' = pr_bytes_received r
    ∧ pr_bytes_accepted r' = u32 (pr_bytes_accepted r + wire_size (deframe pending data)).
Proof.
  revert data r pending. induction fuel as [|fuel IH]; intros data r pending Hf Hr.
  { destruct data; [|cbn in Hf; lia]. exists r. cbn. by rewrite (pr_keeps_accepted r pending). }
  destruct (decide (data = [])) as [->|Hne]; [exists r; cbn; by rewrite (pr_keeps_accepted r pending)|].
  assert (Hstep : ∀ m, PacketReceiverOverStream_round data r = m →
    PacketReceiverOverStream_loop (S fuel) data r =
    '(packets, increment, r) ← m;
    '(more, r) ← PacketReceiverOverStream_loop fuel (drop increment data) r;
    Some (packets ++ more, r)) by (intros m <-; by destruct data).
  destruct (find_delim_split data) as (Hnz & Hle & _).
  destruct (decide (find_delim data < length data)%nat) as [Hdel|Hdel].
  - destruct (round_finished data r pending Hr Hdel) as (r1 & H1 & Hh1 & Hr1 & Ha1).
    rewrite (Hstep _ H1). cbn [mbind option_bind]. clear Hstep.
    destruct (IH (drop (S (find_delim data)) data) r1 []) as (r2 & H2 & Hh2 & Hr2 & Ha2);
      [rewrite length_drop; lia|done|].
    rewrite H2. cbn [mbind option_bind]. exists r2.
    destruct (deframe_first pending data Hdel) as [-> ->]. split; [done|]. split; [done|]. split; [congruence|].
    by rewrite wire_size_app, Ha2, Ha1, u32_add_l, Z.add_assoc.
  - destruct (round_unfinished data r pending Hr ltac:(lia)) as (r1 & H1 & Hh1 & Hr1 & Ha1).
    rewrite (Hstep _ H1). cbn [mbind option_bind]. rewrite drop_all.
    rewrite take_ge in Hnz by lia. destruct (deframe_nonzero pending data Hnz) as [-> ->].
    exists r1. cbn [wire_size foldr]. rewrite (pr_keeps_accepted r pending) by done. by destruct fuel.
Qed.

Lemma processIncoming_spec data r pending :
  (length data ≤ 256)%nat → pr_holds r pending →
  ∃ r', PacketReceiverOverStream_processIncoming data r = Some (deframe pending data, r')
    ∧ pr_holds r' (deframe_pending pending data)
    ∧ pr_bytes_received r' = u32 (pr_bytes_received r + Z.of_nat (length data))
    ∧ pr_bytes_accepted r' = u32 (pr_bytes_accepted r + wire_size (deframe pending data)).
Proof.
  intros Hlen (Hbuf & [_ Hacc] & Hpos). unfold PacketReceiverOverStream_processIncoming.
  rewrite bool_decide_true by done. cbn [check mbind option_bind].
  destruct (loop_spec (length data) data
    (pr_with_bytes_received (u32 (pr_bytes_received r + Z.of_nat (length data))) r) pending) as (r' & -> & ?);
    [done| |by exists r']. split; [done|]. split; [|done]. split; [apply u32_range|done].
Qed.

End Receive.

(** ** Correctness *)

Section Correct.

Context {io : RooIo} {io_laws : RooIoLaws} {codec : PacketCodec} {codec_laws : PacketCodecLaws}.

(** The receiver over a sequence of reads. *)
Fixpoint pr_run (reads : list (list byte)) (r : PacketReceiverOverStream)
    : option (list (list byte) * PacketReceiverOverStream) :=
  match reads with
  | [] => Some ([], r)
  | data :: reads =>
      '(packets, r) ← PacketReceiverOverStream_tryReceive data r;
      '(more, r) ← pr_run reads r;
      Some (packets ++ more, r)
  end.

Lemma pr_run_spec reads r pending :
  Forall (λ data, length data ≤ 256)%nat reads → pr_holds r pending →
  ∃ r', pr_run reads r = Some (deframe pending (concat reads), r')
    ∧ pr_holds r' (deframe_pending pending (concat reads))
    ∧ pr_bytes_received r' = u32 (pr_bytes_received r + Z.of_nat (length (concat reads)))
    ∧ pr_bytes_accepted r' = u32 (pr_bytes_accepted r + wire_size (deframe pending (concat reads))).
Proof.
  intros H. revert r pending. induction H as [|data reads Hd H IH]; intros r pending Hr; cbn.
  { exists r. cbn. rewrite (pr_keeps_accepted r pending), Z.add_0_r, u32_small; [done|apply Hr|done]. }
  destruct (processIncoming_spec data r pending Hd Hr) as (r1 & H1 & Hh1 & Hr1 & Ha1).
  unfold PacketReceiverOverStream_tryReceive. rewrite (bind_step _ _ _ H1).
  destruct (IH r1 _ Hh1) as (r2 & H2 & Hh2 & Hr2 & Ha2). rewrite H2. cbn [mbind option_bind].
  exists r2. rewrite deframe_app, deframe_pending_app, length_app, wire_size_app.
  split; [done|]. split; [done|]. by rewrite Hr2, Ha2, Hr1, Ha1, !u32_add_l, Nat2Z.inj_add, !Z.add_assoc.
Qed.

Lemma pr_new_holds memory : length memory = 256%nat → pr_holds (PacketReceiverOverStream_new memory) [].
Proof. by split. Qed.

(** C8: what the packet receiver delivers does not depend on how the reads cut the
    byte stream: over any sequence of reads of up to 256 bytes, from its creation, the
    receiver touches only its own buffers and delivers exactly the packets of
    [deframe], which cuts the whole stream at its zero bytes and keeps the frames of
    6 to 256 bytes that decode and whose hash is right. Its two counters count the
    bytes read and the bytes of the frames delivered, modulo 2^32. *)
Theorem PacketReceiver_refines_deframe (memory : list byte) (reads : list (list byte))
    (Hmem : length memory = 256%nat) (Hreads : Forall (λ data, length data ≤ 256)%nat reads) :
  ∃ r, pr_run reads (PacketReceiverOverStream_new memory) = Some (deframe [] (concat reads), r)
    ∧ pr_bytes_received r = u32 (Z.of_nat (length (concat reads)))
    ∧ pr_bytes_accepted r = u32 (wire_size (deframe [] (concat reads))).
Proof.
  destruct (pr_run_spec reads _ [] Hreads (pr_new_holds memory Hmem)) as (r & Hr & _ & H1 & H2).
  by exists r.
Qed.

Lemma send_spec packet :
  (length packet ≤ 250)%nat → Forall is_byte packet →
  ∃ code, PacketSenderOverStream_send packet = Some (code ++ [0])
    ∧ length code = (length packet + 5)%nat ∧ Forall (λ b, b ≠ 0) code
    ∧ frame_packet (code ++ [0]) = [packet].
Proof.
  intros Hlen Hb. unfold PacketSenderOverStream_send, kMaxPacketSizeOverStream.
  rewrite (proj2 (Z.leb_le _ _)) by lia. cbn [check mbind option_bind].
  set (hash := murmur3_32 packet kPacketOverStreamSeed).
  assert (Hh : 0 ≤ hash < 4294967296) by (apply murmur3_32_u32).
  pose proof (length_StoreBeU32 hash Hh) as Hl.
  assert (Hbs : Forall is_byte (StoreBeU32 hash))
    by (rewrite StoreBeU32_be by lia; apply be_bytes_is_byte).
  destruct (cobs_encode_frame (packet ++ StoreBeU32 hash)) as
    (code & Henc & Hcl & Hnz & first & last & Hdec);
    [rewrite length_app; lia|by apply Forall_app|].
  rewrite <- app_assoc in Henc. cbn [app] in Henc. exists code. split; [exact Henc|].
  rewrite length_app, Hl in Hcl. split; [lia|]. split; [done|].
  unfold frame_packet. rewrite length_app. cbn [length]. rewrite bool_decide_true by lia.
  rewrite Hdec. unfold frame_body, frame_hash.
  replace (length (first :: (packet ++ StoreBeU32 hash) ++ [last]) - 5)%nat with (S (length packet))
    by (cbn; rewrite !length_app, Hl; cbn; lia).
  cbn [drop take]. rewrite drop_0, <- app_assoc, take_app_length, drop_app_length.
  rewrite (take_app_length' (StoreBeU32 hash)) by done.
  by rewrite LoadBeU32_Store, decide_True by done.
Qed.

(** The packet sender writes a packet of up to 250 bytes as one frame that is six
    bytes longer and whose only zero is its last byte; a longer packet aborts. *)
Theorem PacketSender_frame (packet : list byte) (Hbytes : Forall is_byte packet) :
  ((length packet ≤ 250)%nat →
   ∃ code, PacketSenderOverStream_send packet = Some (code ++ [0])
     ∧ length (code ++ [0]) = (length packet + 6)%nat ∧ Forall (λ b, b ≠ 0) code)
  ∧ ((250 < length packet)%nat → PacketSenderOverStream_send packet = None).
Proof.
  split; intros Hlen.
  - destruct (send_spec packet Hlen Hbytes) as (code & Hs & Hl & Hnz & _).
    exists code. rewrite length_app. cbn. split; [done|]. split; [lia|done].
  - unfold PacketSenderOverStream_send, kMaxPacketSizeOverStream.
    by rewrite (proj2 (Z.leb_gt _ _)) by lia.
Qed.

(** The bytes of a sequence of packets. *)
Fixpoint send_all (packets : list (list byte)) : option (list byte) :=
  match packets with
  | [] => Some []
  | p :: packets =>
      frame ← PacketSenderOverStream_send p; rest ← send_all packets; Some (frame ++ rest)
  end.

Lemma send_all_deframe packets :
  Forall (λ p, (length p ≤ 250)%nat ∧ Forall is_byte p) packets →
  ∃ bytes, send_all packets = Some bytes ∧ deframe [] bytes = packets.
Proof.
  induction 1 as [|p packets [Hl Hb] _ (bytes & Hs & Hd)]; [by exists []|]. cbn [send_all].
  destruct (send_spec p Hl Hb) as (code & Hp & _ & Hnz & Hf).
  rewrite (bind_step _ _ _ Hp), (bind_step _ _ _ Hs). eexists. split; [done|].
  rewrite <- app_assoc. cbn [app]. rewrite deframe_frame by done. cbn [app]. by rewrite Hf, Hd.
Qed.

(** C21: packets sent over a stream arrive, whatever came before. After any bytes, once
    one zero byte gets through, the frames of any packets of up to 250 bytes are
    delivered completely, in order and unchanged, however the reads cut the stream. *)
Theorem PacketOverStream_resyncs (memory garbage : list byte) (packets reads : list (list byte))
    (Hmem : length memory = 256%nat)
    (Hpackets : Forall (λ p, (length p ≤ 250)%nat ∧ Forall is_byte p) packets)
    (Hreads : Forall (λ data, length data ≤ 256)%nat reads)
    (Hbytes : ∃ bytes, send_all packets = Some bytes ∧ concat reads = garbage ++ 0 :: bytes) :
  ∃ before r, pr_run reads (PacketReceiverOverStream_new memory) = Some (before ++ packets, r)
    ∧ before = deframe [] (garbage ++ [0]).
Proof.
  destruct Hbytes as (bytes & Hs & Hc).
  destruct (send_all_deframe packets Hpackets) as (bytes' & Hs' & Hd). rewrite Hs in Hs'.
  injection Hs' as <-.
  destruct (pr_run_spec reads _ [] Hreads (pr_new_holds memory Hmem)) as (r & Hr & _).
  exists (deframe [] (garbage ++ [0])), r. split; [|done]. rewrite Hr, Hc. do 2 f_equal.
  replace (garbage ++ 0 :: bytes) with ((garbage ++ [0]) ++ bytes) by (rewrite <- app_assoc; done).
  rewrite deframe_app, deframe_pending_app. cbn [deframe_pending Z.eqb]. by rewrite Hd.
Qed.

Lemma receive_spec pre data rest r pending :
  Forall (λ d, length d ≤ 256 ∧ d ≠ [])%nat pre → (length data ≤ 256)%nat → pr_holds r pending →
  deframe pending (concat pre) = [] →
  let packets := deframe (deframe_pending pending (concat pre)) data in
  data = [] ∨ packets ≠ [] →
  ∃ r', PacketReceiverOverStream_receive (pre ++ data :: rest) r = Some (packets, rest, r').
Proof.
  intros H Hdata. revert r pending. induction H as [|d pre [Hl Hne] H IH]; intros r pending Hr Hnone packets Hend.
  - cbn in packets. cbn [app]. destruct (decide (data = [])) as [->|Hd]; [by exists r|].
    destruct (processIncoming_spec data r pending Hdata Hr) as (r1 & H1 & _).
    exists r1. destruct data as [|b data]; [done|]. cbn [PacketReceiverOverStream_receive].
    rewrite (bind_step _ _ _ H1). fold packets. destruct packets; naive_solver.
  - cbn [concat] in Hnone, packets. rewrite deframe_app in Hnone.
    apply app_eq_nil in Hnone as [Hn1 Hn2].
    destruct (processIncoming_spec d r pending Hl Hr) as (r1 & H1 & Hh1 & _).
    destruct (IH r1 _ Hh1 Hn2) as (r' & Hrec).
    { unfold packets in Hend. by rewrite deframe_pending_app in Hend. }
    exists r'. cbn [app]. destruct d as [|b d]; [done|]. cbn [PacketReceiverOverStream_receive].
    rewrite (bind_step _ _ _ H1), Hn1, Hrec. unfold packets. by rewrite deframe_pending_app.
Qed.

(** [receive] returns at the first read that completes a packet, with all the
    packets that read completes, or at the end of the stream with none; it does not
    return before and does not read further. *)
Theorem PacketReceiver_receive_first (memory data : list byte) (pre rest : list (list byte))
    (Hmem : length memory = 256%nat)
    (Hpre : Forall (λ d, length d ≤ 256 ∧ d ≠ [])%nat pre) (Hdata : (length data ≤ 256)%nat)
    (Hnone : deframe [] (concat pre) = [])
    (Hend : data = [] ∨ deframe [] (concat pre ++ data) ≠ []) :
  ∃ r, PacketReceiverOverStream_receive (pre ++ data :: rest) (PacketReceiverOverStream_new memory)
       = Some (deframe [] (concat pre ++ data), rest, r).
Proof.
  rewrite deframe_app, Hnone in Hend |- *. cbn [app] in *.
  by apply receive_spec; [..|by apply pr_new_holds|done|].
Qed.

End Correct.

(** ** A reference codec: COBS for frames of up to 256 bytes, and a checksum *)

(** The distance from a code byte to the next zero, or to the end. *)
Fixpoint cobs_distance (payload : list byte) : Z :=
  match payload with
  | [] => 1
  | b :: payload => if b =? 0 then 1 else 1 + cobs_distance payload
  end.

Fixpoint cobs_body (payload : list byte) : list byte :=
  match payload with
  | [] => []
  | b :: payload => (if b =? 0 then cobs_distance payload else b) :: cobs_body payload
  end.

(** [n] is the distance to the next code byte. *)
Fixpoint cobs_unstuff (n : Z) (code : list byte) : option (list byte) :=
  match code with
  | [] => None
  | b :: code =>
      if n =? 1
      then if b =? 0
           then match code with [] => Some [90] | _ => None end
           else rest ← cobs_unstuff b code; Some (0 :: rest)
      else if b =? 0 then None else rest ← cobs_unstuff (n - 1) code; Some (b :: rest)
  end.

Instance packet_codec_reference : PacketCodec := {|
  COBS_TINYFRAME_SENTINEL_VALUE := 90;
  cobs_encode_tinyframe buf :=
    let payload := take (length buf - 2) (drop 1 buf) in
    if (length buf <=? 256)%nat
    then Some (cobs_distance payload :: cobs_body payload ++ [0]) else None;
  cobs_decode_tinyframe buf :=
    match buf with
    | [] => None
    | n :: code => if n =? 0 then None else rest ← cobs_unstuff n code; Some (90 :: rest)
    end;
  murmur3_32 bs seed := u32 (foldl (λ acc b, acc * 31 + b) seed bs);
|}.

Lemma cobs_distance_pos payload : 1 ≤ cobs_distance payload.
Proof. induction payload as [|b p IH]; cbn; [done|]. destruct (b =? 0); lia. Qed.

Lemma length_cobs_body payload : length (cobs_body payload) = length payload.
Proof. induction payload; cbn; congruence. Qed.

Lemma cobs_body_nonzero payload : Forall (λ b, b ≠ 0) (cobs_body payload).
Proof.
  induction payload as [|b p IH]; cbn; constructor; [|done].
  pose proof (cobs_distance_pos p). destruct (Z.eqb_spec b 0); lia.
Qed.

Lemma cobs_unstuff_body payload :
  cobs_unstuff (cobs_distance payload) (cobs_body payload ++ [0]) = Some (payload ++ [90]).
Proof.
  induction payload as [|b p IH]; cbn; [done|]. pose proof (cobs_distance_pos p).
  destruct (Z.eqb_spec b 0) as [->|Hb]; cbn.
  - rewrite (proj2 (Z.eqb_neq _ 0)) by lia. by rewrite IH.
  - rewrite (proj2 (Z.eqb_neq (1 + _) 1)), (proj2 (Z.eqb_neq b 0)) by lia.
    replace (1 + cobs_distance p - 1) with (cobs_distance p) by lia. by rewrite IH.
Qed.

Lemma length_cobs_unstuff n code out : cobs_unstuff n code = Some out → length out = length code.
Proof.
  revert n out. induction code as [|b code IH]; intros n out; cbn; [done|].
  destruct (n =? 1), (b =? 0); try done.
  { destruct code; [|done]. by intros [= <-]. }
  all: destruct (cobs_unstuff _ code) eqn:E; [|done]; intros [= <-]; cbn; f_equal; eauto.
Qed.

Instance packet_codec_reference_laws : PacketCodecLaws (codec := packet_codec_reference).
Proof.
  constructor.
  - intros payload Hlen _. exists (cobs_distance payload :: cobs_body payload). cbn -[Nat.leb Nat.sub].
    rewrite length_app. cbn [length].
    replace (S (length payload + 1) - 2)%nat with (length payload) by lia.
    rewrite (proj2 (Nat.leb_le _ _)) by lia.
    rewrite drop_0, take_app_length, length_cobs_body. pose proof (cobs_distance_pos payload).
    split; [done|]. split; [done|]. split; [constructor; [lia|apply cobs_body_nonzero]|].
    exists 90, 90. rewrite (proj2 (Z.eqb_neq _ 0)) by lia. by rewrite cobs_unstuff_body.
  - intros [|n code] buf'; cbn; [done|]. destruct (n =? 0); [done|].
    destruct (cobs_unstuff n code) eqn:E; [|done]. intros [= <-]. cbn. f_equal.
    by eapply length_cobs_unstuff.
  - intros. apply u32_range.
Qed.

(** ** Witnesses *)

(** Three packets, the second empty, after some noise. *)
Definition demo_packets : list (list byte) := [[1; 0; 2; 0]; []; replicate 250 7].

Definition demo_stream : list byte := [5; 9; 0; 3] ++ 0 :: default [] (send_all demo_packets).

Definition demo_reads : list (list byte) := [take 3 demo_stream; take 20 (drop 3 demo_stream); drop 23 demo_stream].

Lemma demo_packets_ok : Forall (λ p, (length p ≤ 250)%nat ∧ Forall is_byte p) demo_packets.
Proof. repeat constructor; unfold is_byte; cbn; lia. Qed.

Lemma demo_reads_ok : Forall (λ data, length data ≤ 256)%nat demo_reads.
Proof. repeat constructor; vm_compute; lia. Qed.

Lemma PacketReceiver_refines_deframe_witness :
  ∃ r, pr_run demo_reads (PacketReceiverOverStream_new (replicate 256 0)) = Some (demo_packets, r).
Proof.
  destruct (PacketReceiver_refines_deframe (replicate 256 0) demo_reads (length_replicate _ _) demo_reads_ok)
    as (r & Hr & _).
  exists r. rewrite Hr. vm_compute. reflexivity.
Defined.

Lemma PacketSender_frame_witness :
  ∃ code, PacketSenderOverStream_send [1; 0; 2] = Some (code ++ [0]) ∧ length (code ++ [0]) = 9%nat.
Proof.
  destruct (PacketSender_frame [1; 0; 2]) as [H _]; [repeat constructor; unfold is_byte; lia|].
  destruct H as (code & H1 & H2 & _); [cbn; lia|]. exists code. split; [exact H1|exact H2].
Defined.

Lemma PacketOverStream_resyncs_witness :
  ∃ r, pr_run demo_reads (PacketReceiverOverStream_new (replicate 256 0)) = Some (demo_packets, r).
Proof.
  destruct (PacketOverStream_resyncs (replicate 256 0) [5; 9; 0; 3] demo_packets demo_reads
    (length_replicate _ _) demo_packets_ok demo_reads_ok) as (before & r & Hr & Hb).
  - eexists. split; vm_compute; reflexivity.
  - exists r. rewrite Hr, Hb. reflexivity.
Defined.

Lemma PacketReceiver_receive_first_witness :
  ∃ r, PacketReceiverOverStream_receive demo_reads (PacketReceiverOverStream_new (replicate 256 0))
       = Some ([[1; 0; 2; 0]; []], [drop 23 demo_stream], r).
Proof.
  destruct (PacketReceiver_receive_first (replicate 256 0) (take 20 (drop 3 demo_stream))
    [take 3 demo_stream] [drop 23 demo_stream] (length_replicate _ _)) as (r & Hr).
  - constructor; [split; [vm_compute; lia|discriminate]|constructor].
  - vm_compute. lia.
  - reflexivity.
  - right. vm_compute. discriminate.
  - exists r. exact Hr.
Defined.
