(* ===== verification/Link.v ===== *)
(** * Link: the application's handle on a connection

    [link/link.{h,cpp}], [link/link_input_stream.{h,cpp}],
    [link/link_output_stream.{h,cpp}] and [link/link_transport.{h,cpp}]. A link and its
    two streams hold a pointer to the channel, here whether it is set, the stream id
    they were created with, and each stream a sticky status. Operations run in the
    channel's monad and return the new handle; using a null channel aborts. *)

From S2P Require Import Prelude.
From S2P Require Import SeqNum.
From S2P Require Import RingBuffer.
From S2P Require Import RooIo.
From S2P Require Import Protocol.
From S2P Require Import RetryBackoff.
From S2P Require Import Buffers.
From S2P Require Import Transmitter.
From S2P Require Import TransmitterSpec.
From S2P Require Import TransmitterProofs.
From S2P Require Import TransmitterCorrect.
From S2P Require Import Receiver.
From S2P Require Import ReceiverProofs.
From S2P Require Import ReceiverCorrect.
From S2P Require Import ThreadSafe.
From S2P Require Import Channel.
From S2P Require Import ChannelCorrect.
From S2P Require Import ChannelHandshake.
From S2P Require Import ChannelAwait.

Local Open Scope Z_scope.
Local Open Scope roo_scope.

(** [LinkInputStream] and [LinkOutputStream] have the same members. *)
Record LinkStream := mkLinkStream {
  ls_channel : bool;
  ls_my_stream_id : Z;
  ls_status : Status;
}.

Definition ls_with_status (v : Status) (s : LinkStream) : LinkStream :=
  mkLinkStream (ls_channel s) (ls_my_stream_id s) v.

Record Link := mkLink {
  lk_channel : bool;
  lk_my_stream_id : Z;
  lk_in : LinkStream;
  lk_out : LinkStream;
}.

Definition is_ok (s : LinkStream) : bool := bool_decide (ls_status s = kOk).

Definition LinkStream_closed : LinkStream := mkLinkStream false 0 kClosed.

Definition LinkInputStream_new (my_stream_id : Z) : LinkStream :=
  mkLinkStream true my_stream_id (if my_stream_id =? 0 then kClosed else kOk).

Definition LinkOutputStream_new (my_stream_id : Z) : LinkStream :=
  mkLinkStream true my_stream_id kOk.

(** The move constructor and assignment: the new stream and what is left behind. *)
Definition LinkStream_move (other : LinkStream) : LinkStream * LinkStream :=
  (other, LinkStream_closed).

Section Operations.

Context {io : RooIo} {pf : Platform}.

(** [channel_->...] *)
Definition via_channel {A} (s : LinkStream) (m : ChM A) : ChM A := ch_check (ls_channel s) ;;; m.

Definition LinkInputStream_close (s : LinkStream) : ChM LinkStream :=
  if negb (is_ok s) && negb (bool_decide (ls_status s = kEndOfStream)) then ch_ret s
  else
    status <~ via_channel s (Channel_closeInput (ls_my_stream_id s)) ;;
    ch_ret (match status with
            | kOk | kEndOfStream => ls_with_status kClosed s
            | _ => ls_with_status status s
            end).

Definition LinkInputStream_read (count : Z) (s : LinkStream) : ChM (Blocking (list byte) * LinkStream) :=
  if (count =? 0) || negb (is_ok s) then ch_ret (Returned [], s)
  else
    result <~ via_channel s (Channel_read count (ls_my_stream_id s) (ls_status s)) ;;
    ch_ret (match result with
            | Returned (bytes, status) => (Returned bytes, ls_with_status status s)
            | Blocked cv => (Blocked cv, s)
            end).

Definition LinkInputStream_tryRead (count : Z) (s : LinkStream) : ChM (list byte * LinkStream) :=
  if (count =? 0) || negb (is_ok s) then ch_ret ([], s)
  else
    '(bytes, status) <~ via_channel s (Channel_tryRead count (ls_my_stream_id s) (ls_status s)) ;;
    ch_ret (bytes, ls_with_status status s).

Definition LinkInputStream_available (s : LinkStream) : ChM (Z * LinkStream) :=
  if negb (is_ok s) then ch_ret (0, s)
  else
    '(n, status) <~ via_channel s (Channel_availableForRead (ls_my_stream_id s)) ;;
    ch_ret (n, ls_with_status status s).

(** [int read()]: one byte, without blocking. *)
Definition LinkInputStream_read1 (s : LinkStream) : ChM (Z * LinkStream) :=
  if negb (is_ok s) then ch_ret (0, s)
  else
    '(bytes, status) <~ via_channel s (Channel_tryRead 1 (ls_my_stream_id s) (ls_status s)) ;;
    ch_ret (match bytes with b :: _ => b | [] => -1 end, ls_with_status status s).

Definition LinkInputStream_peek (s : LinkStream) : ChM (Z * LinkStream) :=
  if negb (is_ok s) then ch_ret (-1, s)
  else
    '(result, status) <~ via_channel s (Channel_peek (ls_my_stream_id s)) ;;
    ch_ret (if 0 <=? result then result else -1, ls_with_status status s).

Definition LinkOutputStream_write (buf : list byte) (s : LinkStream) : ChM (Blocking Z * LinkStream) :=
  if negb (is_ok s) then ch_ret (Returned 0, s)
  else match buf with
  | [] => ch_ret (Returned 0, s)
  | _ =>
      result <~ via_channel s (Channel_write buf (ls_my_stream_id s)) ;;
      ch_ret (match result with
              | Returned (n, status) => (Returned n, ls_with_status status s)
              | Blocked cv => (Blocked cv, s)
              end)
  end.

Definition LinkOutputStream_tryWrite (buf : list byte) (s : LinkStream) : ChM (Z * LinkStream) :=
  if negb (is_ok s) then ch_ret (0, s)
  else
    '(n, status) <~ via_channel s (Channel_tryWrite buf (ls_my_stream_id s)) ;;
    ch_ret (n, ls_with_status status s).

Definition LinkOutputStream_availableForWrite (s : LinkStream) : ChM (Z * LinkStream) :=
  if negb (is_ok s) then ch_ret (0, s)
  else
    '(n, status) <~ via_channel s (Channel_availableForWrite (ls_my_stream_id s)) ;;
    ch_ret (n, ls_with_status status s).

Definition LinkOutputStream_flush (s : LinkStream) : ChM LinkStream :=
  if negb (is_ok s) then ch_ret s
  else
    status <~ via_channel s (Channel_flush (ls_my_stream_id s)) ;;
    ch_ret (ls_with_status status s).

Definition LinkOutputStream_close (s : LinkStream) : ChM (Blocking unit * LinkStream) :=
  if negb (is_ok s) then ch_ret (Returned tt, s)
  else
    result <~ via_channel s (Channel_close (ls_my_stream_id s)) ;;
    ch_ret (match result with
            | Returned kOk => (Returned tt, ls_with_status kClosed s)
            | Returned status => (Returned tt, ls_with_status status s)
            | Blocked cv => (Blocked cv, s)
            end).

(** ** Link *)

Definition Link_idle : Link := mkLink false 0 LinkStream_closed LinkStream_closed.

Definition Link_new (my_stream_id : Z) : Link :=
  mkLink true my_stream_id (LinkInputStream_new my_stream_id) (LinkOutputStream_new my_stream_id).

(** The move constructor and assignment from another link. *)
Definition Link_move (other : Link) : Link * Link :=
  (mkLink (lk_channel other) (lk_my_stream_id other) (LinkStream_move (lk_in other)).1
     (LinkStream_move (lk_out other)).1,
   mkLink false 0 LinkStream_closed LinkStream_closed).

Definition Link_status (l : Link) (c : Channel) : LinkStatus :=
  if negb (lk_channel l) then kIdle else Channel_getLinkStatusInternal c (lk_my_stream_id l).

(** The test before each wait. *)
Definition Link_awaitConnected (l : Link) : ChM (Blocking unit) :=
  if negb (lk_channel l) then ch_ret (Returned tt) else Channel_awaitConnected (lk_my_stream_id l).

(** The same with a timeout. *)
Definition Link_awaitConnected_for (l : Link) (timed_out : bool) (c : Channel) : awaiter :=
  if negb (lk_channel l) then AwaitReturned true
  else Channel_awaitConnected_for (lk_my_stream_id l) timed_out c.

Definition Link_disconnect (l : Link) : ChM Link :=
  if negb (lk_channel l) then ch_ret l
  else
    Channel_disconnect (lk_my_stream_id l) ;;;
    ch_ret (mkLink false (lk_my_stream_id l) (lk_in l) (lk_out l)).

(** ** LinkTransport *)

(** [LinkTransport::StatsMonitor]: the counters of the two halves, which a new connection does not
    reset. *)
Definition StatsMonitor_packets_sent (c : Channel) : Z := tx_packets_sent (ch_transmitter c).

Definition StatsMonitor_packets_delivered (c : Channel) : Z := tx_packets_delivered (ch_transmitter c).

Definition StatsMonitor_packets_received (c : Channel) : Z := rx_packets_received (ch_receiver c).

Definition LinkTransport_processIncomingPacket (buf : list byte) : ChM unit :=
  Channel_packetReceived buf.

Definition LinkTransport_connectAsync (disconnect_fn : option Z) (id_draws : list Z) (start_draw : Z)
    : ChM Link :=
  my_stream_id <~ Channel_connect disconnect_fn id_draws start_draw ;;
  ch_ret (Link_new my_stream_id).

(** Up to the first wait of [awaitConnected]: whether it has to wait, and the link. *)
Definition LinkTransport_connect (disconnect_fn : option Z) (id_draws : list Z) (start_draw : Z)
    : ChM (Blocking unit * Link) :=
  conn <~ LinkTransport_connectAsync disconnect_fn id_draws start_draw ;;
  waited <~ Link_awaitConnected conn ;;
  ch_ret (waited, conn).

End Operations.

(** ** Contract *)

Section Contract.

Context {io : RooIo} {io_laws : RooIoLaws} {pf : Platform} {pf_laws : PlatformLaws}.

(** [m] leaves the channel and the stream as they are and does nothing else. *)
Definition inert {A} (m : ChM A) (a : A) : Prop := ∀ c, m c = Some (a, [], c).

(** An error on a stream is final. Once the status of a stream is not OK, every
    operation on it, with or without a channel behind it, returns at once with nothing
    transferred, keeps the status, and neither touches nor wakes anything. *)
Theorem LinkStream_error_is_final (s : LinkStream) (count : Z) (buf : list byte)
    (Hstatus : ls_status s ≠ kOk) :
  inert (LinkInputStream_read count s) (Returned [], s)
  ∧ inert (LinkInputStream_tryRead count s) ([], s)
  ∧ inert (LinkInputStream_available s) (0, s)
  ∧ inert (LinkInputStream_peek s) (-1, s)
  ∧ (ls_status s ≠ kEndOfStream → inert (LinkInputStream_close s) s)
  ∧ inert (LinkOutputStream_write buf s) (Returned 0, s)
  ∧ inert (LinkOutputStream_tryWrite buf s) (0, s)
  ∧ inert (LinkOutputStream_availableForWrite s) (0, s)
  ∧ inert (LinkOutputStream_flush s) s
  ∧ inert (LinkOutputStream_close s) (Returned tt, s).
Proof.
  assert (Hok : is_ok s = false) by (by apply bool_decide_false).
  unfold inert, LinkInputStream_read, LinkInputStream_tryRead, LinkInputStream_available,
    LinkInputStream_peek, LinkInputStream_close, LinkOutputStream_write, LinkOutputStream_tryWrite,
    LinkOutputStream_availableForWrite, LinkOutputStream_flush, LinkOutputStream_close.
  rewrite Hok, !orb_true_r. split_and!; try done. intros Heos c.
  by rewrite bool_decide_false.
Qed.

Lemma via_run {A} (s : LinkStream) (m : ChM A) c a es c' :
  ls_channel s = true → m c = Some (a, es, c') → via_channel s m c = Some (a, es, c').
Proof. intros Hs Hm. unfold via_channel, ch_check, ch_bind. rewrite Hs. cbn. by rewrite Hm. Qed.

Lemma disconnect_spec (c : Channel) (B E H B' E' : Z)
    (Htx : tx_wf (ch_transmitter c) B E H) (Hrx : rx_wf (ch_receiver c) B' E') :
  ∃ es c', Channel_disconnect (ch_my_stream_id c) c = Some (tt, es, c')
    ∧ ch_my_stream_id c' = 0 ∧ tx_my_stream_id (ch_transmitter c') = 0
    ∧ rx_my_stream_id (ch_receiver c') = 0 ∧ tx_wf (ch_transmitter c') E E H
    ∧ rx_wf (ch_receiver c') E' E' ∧ rx_current_in_buffer (ch_receiver c') = None.
Proof.
  destruct (tx_reset_spec (ch_transmitter c) B E H 0 Htx) as (t' & Ht & Hinv & _ & Hti & _).
  destruct (rx_reset_spec (ch_receiver c) B' E' Hrx) as (r' & Hr & Hwf & _ & Hcur & Hri & _).
  unfold Channel_disconnect. erewrite ch_bind_run by reflexivity. rewrite Z.eqb_refl. cbn [negb].
  do 3 (erewrite ch_bind_run by reflexivity).
  erewrite ch_bind_run.
  2: { unfold ch_on_transmitter, unit_result, ThreadSafeTransmitter_reset.
       cbn [ch_transmitter ch_with_my_stream_id ch_with_peer_stream_id ch_with_my_stream_id_acked_by_peer].
       rewrite Ht. reflexivity. }
  erewrite ch_bind_run.
  2: { unfold ch_on_receiver, unit_result, ThreadSafeReceiver_reset.
       cbn [ch_receiver ch_with_transmitter ch_with_my_stream_id ch_with_peer_stream_id
            ch_with_my_stream_id_acked_by_peer]. rewrite Hr. reflexivity. }
  do 3 (erewrite ch_bind_run by reflexivity). unfold Channel_notify.
  destruct (ch_has_data_to_send c) eqn:Hp; destruct (ch_disconnect_fn c) as [f|] eqn:Hf;
    (do 2 eexists; split; [unfold ch_bind, ch_gets, ch_modify, ch_emit, ch_when, ch_ret; cbn; rewrite ?Hp, ?Hf; reflexivity|]).
  all: cbn; split_and!; auto; apply Hinv.
Qed.

(** Disconnecting ends a link for good. [Link::disconnect] on the current link
    succeeds in any state of the channel; the link is then idle, disconnecting again
    does nothing, and its streams report a connection error at their next use, without
    blocking and without touching the channel, so that a later connection is safe from
    them. *)
Theorem Link_disconnect_ends (c : Channel) (id count : Z) (buf : list byte) (B E H B' E' : Z)
    (Htx : tx_wf (ch_transmitter c) B E H) (Hrx : rx_wf (ch_receiver c) B' E')
    (Hid : id ≠ 0) (Hmine : ch_my_stream_id c = id) (Hcount : count ≠ 0) (Hbuf : buf ≠ []) :
  ∃ es c' l, Link_disconnect (Link_new id) c = Some (l, es, c')
    ∧ Link_status l c' = kIdle ∧ Link_disconnect l c' = Some (l, [], c')
    ∧ LinkInputStream_read count (lk_in l) c'
      = Some ((Returned [], ls_with_status kConnectionError (lk_in l)), [], c')
    ∧ LinkOutputStream_write buf (lk_out l) c'
      = Some ((Returned 0, ls_with_status kConnectionError (lk_out l)), [], c').
Proof.
  destruct (disconnect_spec c B E H B' E' Htx Hrx) as (es & c' & Hd & H0 & Ht & Hr & _).
  exists (es ++ []), c', (mkLink false id (LinkInputStream_new id) (LinkOutputStream_new id)).
  split.
  { unfold Link_disconnect. cbn [lk_channel Link_new negb lk_my_stream_id].
    rewrite <- Hmine at 1. rewrite (ch_bind_run _ _ _ _ _ _ Hd). reflexivity. }
  split; [done|]. split; [done|].
  destruct (ch_stale_stream c' id count buf kOk) as (Hw & _ & _ & _ & Hrd & _); [congruence..|].
  rewrite (proj2 (Z.eqb_neq count 0)) in Hrd by done.
  cbn [lk_in lk_out]. unfold LinkInputStream_read, LinkOutputStream_write, LinkInputStream_new.
  rewrite (proj2 (Z.eqb_neq id 0)), (proj2 (Z.eqb_neq count 0)) by done.
  change (is_ok _) with true. cbn [negb orb]. split.
  - erewrite ch_bind_run by (apply via_run; [done|exact Hrd]). done.
  - destruct buf; [done|]. change (is_ok _) with true. cbn [negb].
    erewrite ch_bind_run by (apply via_run; [done|exact Hw]). done.
Qed.

End Contract.

(** ** Witnesses *)

Lemma LinkStream_error_is_final_witness :
  inert (LinkOutputStream_write [1] (mkLinkStream true 7 kConnectionError))
    (Returned 0, mkLinkStream true 7 kConnectionError).
Proof.
  destruct (LinkStream_error_is_final (mkLinkStream true 7 kConnectionError) 1 [1])
    as (_ & _ & _ & _ & _ & Hw & _); [discriminate|]. exact Hw.
Defined.

Lemma Link_disconnect_ends_witness :
  ∃ c es c' l, chan_demo 7 100 = Some c ∧ Link_disconnect (Link_new 7) c = Some (l, es, c')
    ∧ Link_status l c' = kIdle.
Proof.
  destruct (chan_demo_ok 7 100 ltac:(lia)) as (c & Hc & Hd & Hi & _).
  destruct (cd_rx _ _ Hd) as [R HR].
  destruct (Link_disconnect_ends c 7 1 [1] _ _ _ _ _ (ti_wf _ _ _ _ _ (cd_tx _ _ Hd)) HR)
    as (es & c' & l & Hl & Hs & _); [lia|exact Hi|lia|discriminate|].
  exists c, es, c', l. split; [exact Hc|]. split; [exact Hl|exact Hs].
Defined.
