(* ===== verification/Arduino.v ===== *)
(** * Arduino: the adapters to the Arduino [Stream] and [Serial] classes

    [link/arduino/link_stream.{h,cpp}] and [link/arduino/link_stream_transport.{h,cpp}], and
    the receive callback of [link/arduino/esp32/reliable_serial.h]. The Arduino core is
    the environment: what [Serial.available] and the reads of the serial stream return
    are arguments. *)

From S2P Require Import Prelude.
From S2P Require Import RooIo.
From S2P Require Import Packets.
From S2P Require Import ThreadSafe.
From S2P Require Import Channel.
From S2P Require Import ChannelHandshake.
From S2P Require Import Link.

Local Open Scope Z_scope.
Local Open Scope roo_scope.

(** ** LinkStream *)

Section LinkStream.

Context {io : RooIo} {pf : Platform}.

Definition lk_with_in (s : LinkStream) (l : Link) : Link :=
  mkLink (lk_channel l) (lk_my_stream_id l) s (lk_out l).

Definition lk_with_out (s : LinkStream) (l : Link) : Link :=
  mkLink (lk_channel l) (lk_my_stream_id l) (lk_in l) s.

(** Runs an operation of [in()] or of [out()]. *)
Definition on_in {A} (f : LinkStream → ChM (A * LinkStream)) (l : Link) : ChM (A * Link) :=
  '(a, s) <~ f (lk_in l) ;; ch_ret (a, lk_with_in s l).

Definition on_out {A} (f : LinkStream → ChM (A * LinkStream)) (l : Link) : ChM (A * Link) :=
  '(a, s) <~ f (lk_out l) ;; ch_ret (a, lk_with_out s l).

Definition ArduinoStream_available : Link → ChM (Z * Link) := on_in LinkInputStream_available.

Definition ArduinoStream_read (l : Link) : ChM (Z * Link) :=
  '(n, l) <~ ArduinoStream_available l ;;
  if n =? 0 then ch_ret (-1, l) else on_in LinkInputStream_read1 l.

Definition ArduinoStream_peek : Link → ChM (Z * Link) := on_in LinkInputStream_peek.

(** One byte; the result is 1 whatever [write] did. *)
Definition ArduinoStream_write1 (val : byte) (l : Link) : ChM (Blocking Z * Link) :=
  '(result, l) <~ on_out (LinkOutputStream_write [val]) l ;;
  ch_ret (match result with Returned _ => Returned 1 | Blocked cv => Blocked cv end, l).

Definition ArduinoStream_availableForWrite : Link → ChM (Z * Link) :=
  on_out LinkOutputStream_availableForWrite.

Definition ArduinoStream_flush : Link → ChM (unit * Link) :=
  on_out (λ s, s <~ LinkOutputStream_flush s ;; ch_ret (tt, s)).

(** [LinkStreamTransport::connectAsync]: it calls [LinkTransport::connect]. *)
Definition LinkStreamTransport_connectAsync (disconnect_fn : option Z) (id_draws : list Z)
    (start_draw : Z) : ChM (Blocking unit * Link) :=
  LinkTransport_connect disconnect_fn id_draws start_draw.

End LinkStream.

(** ** timedRead

    Over any stream: other threads run at each [yield] and [delay], and [expired k] is
    whether the deadline has passed when it is tested for the [k]-th time. *)

Section TimedRead.

Context {S : Type} (tryRead : Z → S → option (list byte * S)) (ok : S → bool)
  (yield : S → S) (expired : nat → bool).

(** How a try leaves the buffer, what is left to read and what was read; [inl] when
    [timedRead] returns. *)
Definition tries_result : Type := (Z * list byte * S) + (list byte * Z * Z * S).

(** The 100 tries: [i] are left. *)
Fixpoint timedRead_tries (i : nat) (buf : list byte) (count total : Z) (s : S)
    : option tries_result :=
  match i with
  | O => Some (inr (buf, count, total, s))
  | Datatypes.S i =>
      '(bytes, s) ← tryRead count s;
      buf ← memcpy buf 0 bytes;
      let result := Z.of_nat (length bytes) in
      if (result =? 0) && negb (ok s) then Some (inl (-1, buf, s))
      else
        let total := total + result in
        let count := count - result in
        if count =? 0 then Some (inl (total, buf, s))
        else timedRead_tries i buf count total (yield s)
  end.

(** The outer loop, from the [k]-th test of the clock on. *)
Fixpoint timedRead_loop (fuel k : nat) (buf : list byte) (count total : Z) (s : S)
    : option (Z * list byte * S) :=
  match fuel with
  | O => None
  | Datatypes.S fuel =>
      r ← timedRead_tries 100 buf count total s;
      match r with
      | inl done => Some done
      | inr (buf, count, total, s) =>
          if expired k then Some (total, buf, s)
          else timedRead_loop fuel (Datatypes.S k) buf count total (yield s)
      end
  end.

Definition timedRead (fuel : nat) (buf : list byte) (count : Z) (s : S)
    : option (Z * list byte * S) :=
  if negb (ok s) then Some (-1, buf, s)
  else if count <=? 0 then Some (0, buf, s)
  else timedRead_loop fuel 0 buf count 0 s.

End TimedRead.

(** ** The receive callback of the ESP32 *)

Section ReceiveAvailable.

Context {io : RooIo} {codec : PacketCodec}.

(** The loop: [reads] is what the successive reads of the serial stream return. Returns
    the packets passed on and the reads that are left. *)
Fixpoint receiveAvailable_loop (reads : list (list byte)) (available initial_bytes : Z)
    (r : PacketReceiverOverStream)
    : option (list (list byte) * list (list byte) * PacketReceiverOverStream) :=
  if u32 (pr_bytes_received r - initial_bytes) <? available then
    match reads with
    | [] => None
    | data :: reads =>
        let previous_bytes := pr_bytes_received r in
        '(packets, r) ← PacketReceiverOverStream_tryReceive data r;
        if pr_bytes_received r =? previous_bytes then Some (packets, reads, r)
        else
          '(more, reads, r) ← receiveAvailable_loop reads available initial_bytes r;
          Some (packets ++ more, reads, r)
    end
  else Some ([], reads, r).

Definition receiveAvailable (available : Z) (reads : list (list byte)) (r : PacketReceiverOverStream)
    : option (list (list byte) * list (list byte) * PacketReceiverOverStream) :=
  if available <=? 0 then Some ([], reads, r)
  else receiveAvailable_loop reads available (pr_bytes_received r) r.

End ReceiveAvailable.

(** ** What the callback promises *)

Section Callback.

Context {io : RooIo} {codec : PacketCodec} {codec_laws : PacketCodecLaws}.

Lemma receiveAvailable_loop_spec available initial :
  0 ≤ available < 2147483648 →
  ∀ reads r pending n, pr_holds r pending → Forall (λ data, length data ≤ 256)%nat reads →
  pr_bytes_received r = u32 (initial + n) → 0 ≤ n < available + 256 →
  available - n ≤ Z.of_nat (length reads) →
  ∃ used left r', reads = used ++ left
    ∧ receiveAvailable_loop reads available initial r = Some (deframe pending (concat used), left, r')
    ∧ pr_holds r' (deframe_pending pending (concat used))
    ∧ n + Z.of_nat (length (concat used)) < available + 256
    ∧ (available ≤ n + Z.of_nat (length (concat used)) ∨ last used = Some [])
    ∧ Z.of_nat (length used) ≤ Z.max 0 (available - n).
Proof.
  intros Hav reads. induction reads as [|data reads IH]; intros r pending n Hh Hf Hn Hb Hl;
    cbn [receiveAvailable_loop];
    replace (u32 (pr_bytes_received r - initial)) with n by (rewrite Hn; clear -Hav Hb; wrap_lia).
  { cbn in Hl. rewrite (proj2 (Z.ltb_ge _ _)) by lia. exists [], [], r. cbn.
    split_and!; try done; lia. }
  destruct (Z.ltb_spec n available).
  2: { exists [], (data :: reads), r. cbn. split_and!; try done; lia. }
  apply Forall_cons in Hf as [Hd Hf].
  destruct (processIncoming_spec data r pending Hd Hh) as (r1 & H1 & Hh1 & Hr1 & _).
  unfold PacketReceiverOverStream_tryReceive. rewrite (bind_step _ _ _ H1).
  destruct (Z.eqb_spec (pr_bytes_received r1) (pr_bytes_received r)).
  { exists [data], reads, r1. cbn. rewrite app_nil_r. split_and!; try done; try lia.
    right. f_equal. apply nil_length_inv. destruct Hh as (_ & [Hrc _] & _).
    rewrite e in Hr1. change (2 ^ 32) with 4294967296 in Hrc. clear -Hd Hr1 Hrc. wrap_lia. }
  assert (Hpos : length data ≠ 0%nat).
  { intros Hz. rewrite Hz, Z.add_0_r, u32_small in Hr1; [done|]. by destruct Hh as (_ & [? _] & _). }
  destruct (IH r1 _ (n + Z.of_nat (length data)) Hh1 Hf) as (used & left & r' & -> & Hloop & Hh' & Hlt & Hend & Hu);
    [rewrite Hr1, Hn, u32_add_l; f_equal; lia|lia|cbn in Hl; lia|].
  rewrite Hloop. cbn [mbind option_bind]. exists (data :: used), left, r'. cbn.
  rewrite deframe_app, deframe_pending_app, length_app. split_and!; try done; try lia.
  destruct Hend as [?|Hlast]; [left; lia|right]. destruct used; [done|exact Hlast].
Qed.

(** The receive callback of the ESP32 transport is bounded and drains the backlog.
    Whatever the reads return, it ends after at most one read for each byte that was
    available on entry, having processed fewer than 256 bytes more than that; it stops
    short of the backlog only when the stream is empty, and it passes on exactly the
    packets in what it read. *)
Theorem Esp32_receiveAvailable_drains (available : Z) (reads : list (list byte))
    (r : PacketReceiverOverStream) (pending : list byte)
    (Hav : available < 2147483648) (Hholds : pr_holds r pending)
    (Hreads : Forall (λ data, length data ≤ 256)%nat reads)
    (Henough : available ≤ Z.of_nat (length reads)) :
  ∃ used left r', reads = used ++ left ∧ Z.of_nat (length used) ≤ Z.max 0 available
    ∧ receiveAvailable available reads r = Some (deframe pending (concat used), left, r')
    ∧ Z.of_nat (length (concat used)) < Z.max 1 (available + 256)
    ∧ (available ≤ Z.of_nat (length (concat used)) ∨ last used = Some [])
    ∧ pr_holds r' (deframe_pending pending (concat used)).
Proof.
  unfold receiveAvailable. destruct (Z.leb_spec available 0).
  { exists [], reads, r. cbn. split_and!; try done; lia. }
  destruct (receiveAvailable_loop_spec available (pr_bytes_received r) ltac:(lia) reads r pending 0 Hholds Hreads)
    as (used & left & r' & Hu & Hl & Hh & Hlt & Hend & Hn); [|lia|lia|].
  { rewrite Z.add_0_r, u32_small; [done|]. by destruct Hholds as (_ & [? _] & _). }
  exists used, left, r'. split_and!; try done; try lia.
Qed.

End Callback.

(** ** timedRead: what it returns and what it leaves in the buffer *)

Section TimedReadSpec.

Context {S : Type} (tryRead : Z → S → option (list byte * S)) (ok : S → bool)
  (yield : S → S) (expired : nat → bool).

(** What the code relies on: a try completes and returns no more than it was asked for. *)
Context (Htry : ∀ count s, 0 ≤ count →
  ∃ bytes s', tryRead count s = Some (bytes, s') ∧ Z.of_nat (length bytes) ≤ count).

(** A buffer in which each of the parts was copied over the front. *)
Definition overlay (buf part : list byte) : list byte := part ++ drop (length part) buf.

Lemma length_overlay buf part : (length part ≤ length buf)%nat → length (overlay buf part) = length buf.
Proof. intros. unfold overlay. rewrite length_app, length_drop. lia. Qed.

Lemma memcpy_overlay buf part : (length part ≤ length buf)%nat → memcpy buf 0 part = Some (overlay buf part).
Proof. intros. rewrite memcpy_Some by lia. done. Qed.

Lemma timedRead_tries_spec i :
  ∀ buf count total s, 0 < count ≤ Z.of_nat (length buf) → 0 ≤ total →
  ∃ parts res, timedRead_tries tryRead ok yield i buf count total s = Some res
    ∧ match res with
      | inl (ret, buf', _) => buf' = foldl overlay buf parts ∧ length buf' = length buf
          ∧ (ret = -1 ∨ ret = total + count ∧ ret = total + Z.of_nat (length (concat parts)))
      | inr (buf', count', total', _) => buf' = foldl overlay buf parts ∧ length buf' = length buf
          ∧ 0 < count' ∧ total' = total + Z.of_nat (length (concat parts)) ∧ total' + count' = total + count
      end.
Proof using Htry.
  induction i as [|i IH]; intros buf count total s Hc Ht; cbn [timedRead_tries].
  { exists [], (inr (buf, count, total, s)). cbn. split_and!; done || lia. }
  destruct (Htry count s ltac:(lia)) as (bytes & s' & -> & Hle). cbn [mbind option_bind].
  rewrite memcpy_overlay by lia. cbn [mbind option_bind].
  pose proof (length_overlay buf bytes ltac:(lia)) as Hlen.
  destruct (_ && _) eqn:Hfail; [exists [bytes]; eexists; split; [done|]; cbn; split_and!; auto|].
  destruct (Z.eqb_spec (count - Z.of_nat (length bytes)) 0).
  { exists [bytes]. eexists. split; [done|]. cbn. rewrite app_nil_r. split_and!; auto. right. lia. }
  destruct (IH (overlay buf bytes) (count - Z.of_nat (length bytes)) (total + Z.of_nat (length bytes)) (yield s'))
    as (parts & res & Hr & Hres); [rewrite Hlen; lia|lia|].
  exists (bytes :: parts), res. split; [done|]. cbn. rewrite length_app, <- Hlen.
  destruct res as [[[ret buf'] s2]|[[[buf' count'] total'] s2]]; destruct_and!; split_and!; auto; try lia.
Qed.

Lemma timedRead_loop_spec fuel :
  ∀ k buf count total s, 0 < count ≤ Z.of_nat (length buf) → 0 ≤ total →
  (∃ j, (k ≤ j < k + fuel)%nat ∧ expired j = true) →
  ∃ parts ret buf' s', timedRead_loop tryRead ok yield expired fuel k buf count total s = Some (ret, buf', s')
    ∧ buf' = foldl overlay buf parts ∧ length buf' = length buf
    ∧ (ret = -1 ∨ ret = total + Z.of_nat (length (concat parts)) ∧ ret ≤ total + count).
Proof using Htry.
  induction fuel as [|fuel IH]; intros k buf count total s Hc Ht (j & Hj & He); [lia|]. cbn [timedRead_loop].
  destruct (timedRead_tries_spec 100 buf count total s Hc Ht) as (parts & res & -> & Hres).
  cbn [mbind option_bind]. destruct res as [[[ret buf'] s2]|[[[buf' count'] total'] s2]].
  { destruct Hres as (? & ? & Hret). exists parts, ret, buf', s2. split_and!; auto.
    destruct Hret; [by left|right; lia]. }
  destruct Hres as (Hb & Hl & Hc' & Ht' & Hsum). destruct (expired k) eqn:Hk.
  { exists parts, total', buf', s2. split_and!; auto. right. lia. }
  destruct (IH (Datatypes.S k) buf' count' total' (yield s2)) as (parts2 & ret & buf2 & s3 & Hr & Hb2 & Hl2 & Hret);
    [lia|lia|exists j; split; [|done]; destruct (decide (j = k)) as [->|]; [congruence|lia]|].
  exists (parts ++ parts2), ret, buf2, s3. split; [exact Hr|]. rewrite foldl_app, concat_app, length_app, <- Hb.
  split_and!; auto; [congruence|]. destruct Hret; [by left|right; lia].
Qed.

(** [timedRead] returns, and counts what it read. Once the clock can reach the
    deadline it ends, without an access outside the caller's buffer, and returns either
    -1 or the number of bytes it took from the stream, at most what was asked for.
    Each part it reads is copied to the front of the buffer, so that the buffer holds
    the bytes that were read only if they came in one part. *)
Theorem ArduinoStream_timedRead_counts (fuel : nat) (buf : list byte) (count : Z) (s : S)
    (Hcount : 0 ≤ count ≤ Z.of_nat (length buf))
    (Hclock : ∃ j, (j < fuel)%nat ∧ expired j = true) :
  ∃ parts ret buf' s', timedRead tryRead ok yield expired fuel buf count s = Some (ret, buf', s')
    ∧ buf' = foldl overlay buf parts ∧ length buf' = length buf
    ∧ (ret = -1 ∨ ret = Z.of_nat (length (concat parts)) ∧ ret ≤ count).
Proof using Htry.
  unfold timedRead. destruct (ok s); cbn [negb]; [|by exists [], (-1), buf, s; split_and!; auto].
  destruct (Z.leb_spec count 0); [exists [], 0, buf, s; split_and!; auto; right; cbn; lia|].
  destruct Hclock as (j & Hj & He).
  destruct (timedRead_loop_spec fuel 0 buf count 0 s) as (parts & ret & buf' & s' & Hr & ? & ? & Hret);
    [lia|lia|exists j; split; [lia|done]|].
  exists parts, ret, buf', s'. split_and!; auto.
Qed.

End TimedReadSpec.

(** ** Witnesses *)

Definition demo_backlog : list (list byte) := demo_reads ++ replicate 30 [].

Lemma Esp32_receiveAvailable_drains_witness :
  ∃ used left r', demo_backlog = used ++ left
    ∧ receiveAvailable 24 demo_backlog (PacketReceiverOverStream_new (replicate 256 0))
      = Some (demo_packets, left, r')
    ∧ Z.of_nat (length used) ≤ 24.
Proof.
  destruct (Esp32_receiveAvailable_drains 24 demo_backlog (PacketReceiverOverStream_new (replicate 256 0)) [])
    as (used & left & r' & Hu & Hn & Hr & _).
  - lia.
  - apply pr_new_holds. apply length_replicate.
  - apply Forall_app. split; [apply demo_reads_ok|]. apply Forall_replicate. cbn. lia.
  - unfold demo_backlog. rewrite length_app, length_replicate. lia.
  - exists used, left, r'. split; [exact Hu|]. split; [|exact Hn].
    assert (Hf : option_map (λ x, x.1.1)
      (receiveAvailable 24 demo_backlog (PacketReceiverOverStream_new (replicate 256 0))) = Some demo_packets)
      by (vm_compute; reflexivity).
    rewrite Hr in Hf |- *. injection Hf as Hd. by rewrite Hd.
Defined.

(** A stream that returns given parts, and then nothing. *)
Definition script_tryRead (count : Z) (parts : list (list byte)) : option (list byte * list (list byte)) :=
  Some (match parts with
        | [] => ([], [])
        | part :: parts => (take (Z.to_nat count) part, parts)
        end).

Lemma script_tryRead_ok count parts :
  0 ≤ count →
  ∃ bytes parts', script_tryRead count parts = Some (bytes, parts') ∧ Z.of_nat (length bytes) ≤ count.
Proof.
  intros Hc. unfold script_tryRead. destruct parts; do 2 eexists; (split; [done|]); [cbn; lia|].
  rewrite length_take. lia.
Qed.

Lemma ArduinoStream_timedRead_counts_witness :
  ∃ parts ret buf' s', timedRead script_tryRead (λ _, true) id (λ _, true) 1 [0; 0; 0] 3 [[1; 2; 3; 4]]
      = Some (ret, buf', s')
    ∧ buf' = foldl overlay [0; 0; 0] parts ∧ ret = 3 ∧ buf' = [1; 2; 3].
Proof.
  destruct (ArduinoStream_timedRead_counts script_tryRead (λ _, true) id (λ _, true) script_tryRead_ok 1 [0; 0; 0] 3
    [[1; 2; 3; 4]]) as (parts & ret & buf' & s' & Hr & Hb & _); [cbn; lia|exists 0%nat; split; [lia|done]|].
  exists parts, ret, buf', s'. split; [exact Hr|]. split; [exact Hb|].
  assert (Hf : option_map fst (timedRead script_tryRead (λ _, true) id (λ _, true) 1 [0; 0; 0] 3 [[1; 2; 3; 4]])
    = Some (3, [1; 2; 3])) by (vm_compute; reflexivity).
  rewrite Hr in Hf. by injection Hf.
Defined.

(** ** Where the code falls short *)

(** [timedRead] does not advance its buffer: of three bytes that come in two parts it
    returns 3, with the last byte over the first and nothing in the third place. *)
Theorem ArduinoStream_timedRead_overwrites :
  option_map fst (timedRead script_tryRead (λ _, true) id (λ _, true) 1 [0; 0; 0] 3 [[1; 2]; [3]])
  = Some (3, [3; 2; 0]).
Proof. vm_compute. reflexivity. Qed.

(** When the link breaks after a part has been read, [timedRead] returns -1, which as a
    [size_t] is not a count, and the part is lost to the caller. *)
Theorem ArduinoStream_timedRead_loses_part :
  option_map fst (timedRead script_tryRead (λ parts, negb (bool_decide (parts = []))) id (λ _, true) 1
                    [0; 0; 0] 3 [[1; 2]; []]) = Some (-1, [1; 2; 0]).
Proof. vm_compute. reflexivity. Qed.

(** [LinkStreamTransport::connectAsync] waits for the handshake, where
    [LinkTransport::connectAsync] returns the link at once. *)
Theorem LinkStreamTransport_connectAsync_blocks :
  (c ← chan_demo_new;
   '(link, _, _) ← LinkTransport_connectAsync None [9] 100 c;
   '(waited, _, _) ← LinkStreamTransport_connectAsync None [9] 100 c;
   Some (lk_my_stream_id link, fst waited)) = Some (9, Blocked connected_cv).
Proof. vm_compute. reflexivity. Qed.

(** [LinkStream::write] of one byte reports 1 also on a stream that is closed. *)
Theorem ArduinoStream_write1_reports_one :
  (c ← chan_demo_new; '(result, _, _) ← ArduinoStream_write1 7 Link_idle c; Some (fst result))
  = Some (Returned 1).
Proof. vm_compute. reflexivity. Qed.
