(* ===== verification/Messaging.v ===== *)
(** * Messaging: messages over a link, and channels multiplexed on them

    [messaging/messaging.{h,cpp}], [link/link_messaging.{h,cpp}] and
    [messaging/mux_messaging.{h,cpp}]. A message travels over the link as its length in
    four bytes, then its bytes. The streams are roo_io's: [writeFully], [readFully] and
    [isOpen] are the operations of two classes whose laws are their documented
    behaviour, so that the messaging theorems hold over any such streams. *)

From stdpp Require Import gmap.
From S2P Require Import Prelude.
From S2P Require Import RooIo.
From S2P Require Import ThreadSafe.
From S2P Require Import Channel.

Local Open Scope Z_scope.
Local Open Scope roo_scope.

(** ** The streams *)

Class OutputStream (S : Type) := {
  out_writeFully : list byte → S → S;
  out_flush : S → S;
  out_isOpen : S → bool;
}.

(** [written] is what has entered the stream. A stream that is open after a write has
    taken all of it; one that is not may have taken a part. *)
Class OutputStreamLaws (S : Type) {out : OutputStream S} (written : S → list byte) : Prop := {
  out_writeFully_open bs s :
    out_isOpen (out_writeFully bs s) = true →
    out_isOpen s = true ∧ written (out_writeFully bs s) = written s ++ bs;
  out_writeFully_prefix bs s : ∃ k, written (out_writeFully bs s) = written s ++ take k bs;
  out_flush_written s : written (out_flush s) = written s;
  out_flush_open s : out_isOpen (out_flush s) = true → out_isOpen s = true;
}.

Class InputStream (S : Type) := { in_readFully : nat → S → list byte * S }.

(** [content] is what the stream will still yield before it ends or breaks. *)
Class InputStreamLaws (S : Type) {inp : InputStream S} (content : S → list byte) : Prop := {
  in_readFully_spec n s :
    (in_readFully n s).1 = take n (content s) ∧ content (in_readFully n s).2 = drop n (content s);
}.

(** ** Messaging *)

(** The calls of the registered receiver. *)
Inductive MessagingEvent :=
  | Received (connection_id : Z) (data : list byte)
  | Reset (connection_id : Z).

(** [Messaging::received] and [Messaging::reset]: nothing without a receiver. *)
Definition Messaging_dispatch (has_receiver : bool) (e : MessagingEvent) : list MessagingEvent :=
  if has_receiver then [e] else [].

(** ** LinkMessaging *)

Record LinkMessaging := mkLinkMessaging {
  lm_closed : bool;
  lm_stream_id : Z;
  lm_max_recv_packet_size : Z;
}.

(** What a call of [send] does at the head of its loop. *)
Inductive SendOutcome (S : Type) :=
  | SendWait
  | SendDone (accepted : bool) (connection_id : option Z) (out : S).
Arguments SendWait {S}.
Arguments SendDone {S} accepted connection_id out.

Section LinkMessaging.

Context {io : RooIo} {S : Type} {out : OutputStream S} {I : Type} {inp : InputStream I}.

Definition LinkMessaging_sendInternal (header payload : list byte) (o : S) : bool * S :=
  let serialized_size := StoreBeU32 (u32 (Z.of_nat (length header) + Z.of_nat (length payload))) in
  let o := out_writeFully serialized_size o in
  let o := out_writeFully header o in
  let o := out_writeFully payload o in
  let o := out_flush o in
  (out_isOpen o, o).

(** One round of the loop of [send]; [status] is the link's. *)
Definition LinkMessaging_send (m : LinkMessaging) (status : LinkStatus) (header payload : list byte)
    (o : S) : SendOutcome S :=
  if lm_closed m then SendDone false None o
  else match status with
  | kConnected | kConnecting =>
      let '(accepted, o) := LinkMessaging_sendInternal header payload o in
      SendDone accepted (Some (lm_stream_id m)) o
  | _ => SendWait
  end.

Definition LinkMessaging_sendContinuation (m : LinkMessaging) (connection_id : Z)
    (header payload : list byte) (o : S) : bool * S :=
  if lm_closed m then (false, o)
  else if negb (lm_stream_id m =? connection_id) then (false, o)
  else LinkMessaging_sendInternal header payload o.

(** [connect] replaces the link by a new one; [end] closes. *)
Definition LinkMessaging_connect (new_stream_id : Z) (m : LinkMessaging) : LinkMessaging :=
  mkLinkMessaging (lm_closed m) new_stream_id (lm_max_recv_packet_size m).

Definition LinkMessaging_end (m : LinkMessaging) : LinkMessaging :=
  mkLinkMessaging true (lm_stream_id m) (lm_max_recv_packet_size m).

(** One round of the inner loop of [receiveLoop]: a message, or the end of the
    connection. The buffer holds [max] bytes. *)
Definition LinkMessaging_receive (max : Z) (s : I) : option (option (list byte) * I) :=
  let '(serialized_size, s) := in_readFully 4 s in
  if (length serialized_size <? 4)%nat then Some (None, s)
  else
    let incoming_size := u32 (LoadBeU32 serialized_size) in
    if max <? incoming_size then Some (None, s)
    else
      CHECK (0 <=? incoming_size) && (incoming_size <=? max) ;;
      let '(data, s) := in_readFully (Z.to_nat incoming_size) s in
      if (length data <? Z.to_nat incoming_size)%nat then Some (None, s)
      else Some (Some data, s).

(** The inner loop: one connection, from [connect] to the reset. *)
Fixpoint LinkMessaging_session (fuel : nat) (max connection_id : Z) (s : I) : option (list MessagingEvent) :=
  match fuel with
  | O => None
  | Datatypes.S fuel =>
      '(message, s) ← LinkMessaging_receive max s;
      match message with
      | None => Some [Reset connection_id]
      | Some data =>
          rest ← LinkMessaging_session fuel max connection_id s;
          Some (Received connection_id data :: rest)
      end
  end.

(** [receiveLoop] over the connections it makes until it is closed: their ids and
    streams. *)
Fixpoint LinkMessaging_receiveLoop (fuel : nat) (max : Z) (connections : list (Z * I))
    : option (list MessagingEvent) :=
  match connections with
  | [] => Some []
  | (connection_id, s) :: connections =>
      events ← LinkMessaging_session fuel max connection_id s;
      rest ← LinkMessaging_receiveLoop fuel max connections;
      Some (events ++ rest)
  end.

End LinkMessaging.

(** ** MuxMessaging *)

(** [receivers_]: the channel objects by id. *)
Abbreviation MuxMessaging := (gmap Z nat) (only parsing).

Section Mux.

Context {io : RooIo}.

Definition MuxMessaging_registerChannel (id : Z) (channel : nat) (mux : MuxMessaging) : option MuxMessaging :=
  CHECK bool_decide (mux !! id = None) ;; Some (<[id := channel]> mux).

Definition MuxMessaging_unregisterChannel (id : Z) (mux : MuxMessaging) : option MuxMessaging :=
  CHECK bool_decide (is_Some (mux !! id)) ;; Some (delete id mux).

(** [MuxMessaging::received]: the channel called, if any. *)
Definition MuxMessaging_received (connection_id channel_id : Z) (data : list byte) (mux : MuxMessaging)
    : list (nat * MessagingEvent) :=
  match mux !! channel_id with
  | None => []
  | Some channel => [(channel, Received connection_id data)]
  end.

(** [Dispatcher::received] *)
Definition MuxMessaging_dispatch (connection_id : Z) (data : list byte) (mux : MuxMessaging)
    : list (nat * MessagingEvent) :=
  if (length data <? 1)%nat then []
  else MuxMessaging_received connection_id (LoadU8 (take 1 data)) (drop 1 data) mux.

(** [reset]: every channel, in the order of the table. *)
Definition MuxMessaging_reset (connection_id : Z) (mux : MuxMessaging) : list (nat * MessagingEvent) :=
  (λ '(_, channel), (channel, Reset connection_id)) <$> map_to_list mux.

(** [MuxMessaging::Channel::send] and [sendContinuation] prepend the id to the header
    and pass the call on: the header they pass. *)
Definition MuxChannel_header (id : Z) (header : list byte) : list byte := StoreU8 id ++ header.

End Mux.

(** ** Correctness of LinkMessaging *)

Section Correct.

Context {io : RooIo} {io_laws : RooIoLaws}.

(** A message on the wire. *)
Definition message_bytes (message : list byte) : list byte :=
  StoreBeU32 (Z.of_nat (length message)) ++ message.

Definition message_ok (message : list byte) : Prop := Z.of_nat (length message) < 4294967296.

Lemma length_message_bytes m : message_ok m → length (message_bytes m) = (4 + length m)%nat.
Proof. intros Hm. unfold message_bytes, message_ok in *. by rewrite length_app, length_StoreBeU32 by lia. Qed.

Section Sender.

Context {S : Type} {out : OutputStream S} {written : S → list byte} {out_laws : OutputStreamLaws S written}.

Lemma sendInternal_spec header payload (o : S) :
  message_ok (header ++ payload) →
  let '(accepted, o') := LinkMessaging_sendInternal header payload o in
  (accepted = true → written o' = written o ++ message_bytes (header ++ payload))
  ∧ ∃ k1 k2 k3, written o' = written o ++ take k1 (StoreBeU32 (Z.of_nat (length (header ++ payload))))
                 ++ take k2 header ++ take k3 payload.
Proof.
  intros Hok. unfold LinkMessaging_sendInternal. unfold message_ok in Hok.
  assert (Hs : u32 (Z.of_nat (length header) + Z.of_nat (length payload))
               = Z.of_nat (length (header ++ payload)))
    by (rewrite length_app in *; rewrite u32_small; lia).
  rewrite Hs. set (size := StoreBeU32 _). rewrite out_flush_written. split.
  - intros Hopen. apply out_flush_open in Hopen.
    apply (out_writeFully_open (written := written)) in Hopen as [H1 ->].
    apply (out_writeFully_open (written := written)) in H1 as [H2 ->].
    apply (out_writeFully_open (written := written)) in H2 as [_ ->].
    unfold message_bytes. by rewrite <- !app_assoc.
  - destruct (out_writeFully_prefix (written := written) payload (out_writeFully header (out_writeFully size o))) as [k3 ->].
    destruct (out_writeFully_prefix (written := written) header (out_writeFully size o)) as [k2 ->].
    destruct (out_writeFully_prefix (written := written) size o) as [k1 ->].
    exists k1, k2, k3. by rewrite <- !app_assoc.
Qed.

(** A message that [send] or [sendContinuation] accepts is on the link whole, as its
    length followed by its header and payload; one refused because the messaging is
    closed, or because the connection is not the current one any more, leaves the link
    untouched; [send] waits exactly while there is no link. *)
Theorem LinkMessaging_send_atomic (m : LinkMessaging) (status : LinkStatus) (id : Z)
    (header payload : list byte) (o : S) (Hok : message_ok (header ++ payload)) :
  match LinkMessaging_send m status header payload o with
  | SendWait => lm_closed m = false ∧ (status = kIdle ∨ status = kBroken)
  | SendDone true connection o' =>
      connection = Some (lm_stream_id m) ∧ written o' = written o ++ message_bytes (header ++ payload)
  | SendDone false connection o' => lm_closed m = true → o' = o
  end
  ∧ let '(accepted, o') := LinkMessaging_sendContinuation m id header payload o in
    (accepted = true → lm_stream_id m = id ∧ written o' = written o ++ message_bytes (header ++ payload))
    ∧ (lm_closed m = true ∨ lm_stream_id m ≠ id → accepted = false ∧ o' = o).
Proof.
  pose proof (sendInternal_spec header payload o Hok) as Hs.
  unfold LinkMessaging_send, LinkMessaging_sendContinuation.
  destruct (LinkMessaging_sendInternal header payload o) as [accepted o']. destruct Hs as [Hacc _].
  destruct (lm_closed m); [split; [done|split; [done|by intros _]]|]. split.
  - destruct status; auto; destruct accepted; auto; done.
  - destruct (Z.eqb_spec (lm_stream_id m) id) as [->|Hne]; cbn [negb].
    + split; [auto|]. intros [?|?]; done.
    + split; [done|]. done.
Qed.

End Sender.

Section Receiver.

Context {I : Type} {inp : InputStream I} {content : I → list byte} {in_laws : InputStreamLaws I content}.

Lemma receive_short max s :
  (length (content s) < 4)%nat →
  ∃ s', LinkMessaging_receive max s = Some (None, s').
Proof.
  intros Hl. unfold LinkMessaging_receive.
  destruct (in_readFully_spec (content := content) 4 s) as [H1 _].
  destruct (in_readFully 4 s) as [size s1]. cbn in H1. subst size.
  rewrite (proj2 (Nat.ltb_lt _ _)) by (rewrite length_take; lia). eauto.
Qed.

(** What [receive] does when the length of message [m] has come, with [tail] after it. *)
Lemma receive_sized max s m tail :
  message_ok m → content s = StoreBeU32 (Z.of_nat (length m)) ++ tail →
  ∃ s', LinkMessaging_receive max s
        = Some (if decide (max < Z.of_nat (length m) ∨ (length tail < length m)%nat) then None
                else Some (take (length m) tail), s')
    ∧ (¬ (max < Z.of_nat (length m) ∨ (length tail < length m)%nat) → content s' = drop (length m) tail).
Proof.
  unfold message_ok. intros Hm Hc. unfold LinkMessaging_receive.
  destruct (in_readFully_spec (content := content) 4 s) as [H1 H2].
  destruct (in_readFully 4 s) as [size s1]. cbn in H1, H2. subst size.
  assert (Hl4 : length (StoreBeU32 (Z.of_nat (length m))) = 4%nat) by (apply length_StoreBeU32; lia).
  rewrite Hc in H2 |- *. rewrite take_app_length' in * by done. rewrite drop_app_length' in H2 by done.
  rewrite Hl4. change (4 <? 4)%nat with false. rewrite LoadBeU32_Store, u32_small by lia.
  destruct (Z.ltb_spec max (Z.of_nat (length m))) as [Hmax|Hmax].
  { rewrite decide_True by auto. exists s1. split; [done|]. intros Hn. destruct Hn. by left. }
  run_checks. rewrite Nat2Z.id.
  destruct (in_readFully_spec (content := content) (length m) s1) as [H3 H4].
  destruct (in_readFully (length m) s1) as [data s2]. cbn in H3, H4. subst data. rewrite H2 in *.
  exists s2. destruct (Nat.ltb_spec (length (take (length m) tail)) (length m)) as [Hd|Hd];
    rewrite length_take in Hd.
  - rewrite decide_True by lia. split; [done|]. intros Hn. lia.
  - rewrite decide_False by lia. split; [done|]. by intros _.
Qed.

(** Why a connection ended after [k] of the messages [ms] of which [n] bytes came. *)
Definition session_ends (max : Z) (ms : list (list byte)) (n k : nat) : Prop :=
  k = length ms
  ∨ (n < length (concat (message_bytes <$> take (S k) ms)))%nat
  ∨ ∃ m, ms !! k = Some m ∧ max < Z.of_nat (length m).

Lemma session_spec max id ms :
  Forall message_ok ms →
  ∀ fuel n s, (length ms < fuel)%nat → content s = take n (concat (message_bytes <$> ms)) →
  ∃ k, (k ≤ length ms)%nat
    ∧ LinkMessaging_session fuel max id s = Some ((Received id <$> take k ms) ++ [Reset id])
    ∧ Forall (λ m, Z.of_nat (length m) ≤ max) (take k ms)
    ∧ (length (concat (message_bytes <$> take k ms)) ≤ n)%nat ∧ session_ends max ms n k.
Proof.
  induction 1 as [|m ms Hm Hms IH]; intros fuel n s Hf Hc; (destruct fuel as [|fuel]; [lia|]);
    cbn [LinkMessaging_session].
  { destruct (receive_short max s) as [s' Hr]; [rewrite Hc, length_take; cbn; lia|].
    rewrite (bind_step _ _ _ Hr). exists 0%nat. split_and!; [cbn; lia|done|constructor|cbn; lia|by left]. }
  cbn in Hf. rewrite fmap_cons in Hc. cbn [concat] in Hc.
  pose proof (length_message_bytes m Hm) as Hlm.
  assert (Hstop : ∀ k, k = 0%nat → (n < length (message_bytes m))%nat ∨ max < Z.of_nat (length m) →
    session_ends max (m :: ms) n k).
  { intros k -> [Hn|Hn]; [right; left; cbn; rewrite length_app; cbn; lia|right; right; by exists m]. }
  destruct (decide (n < 4)%nat) as [Hn|Hn].
  { destruct (receive_short max s) as [s' Hr]; [rewrite Hc, length_take; lia|].
    rewrite (bind_step _ _ _ Hr). exists 0%nat. split_and!; [cbn; lia|done|constructor|cbn; lia|].
    apply Hstop; [done|]. left. lia. }
  set (rest := concat (message_bytes <$> ms)) in *.
  assert (Hl4 : length (StoreBeU32 (Z.of_nat (length m))) = 4%nat)
    by (apply length_StoreBeU32; unfold message_ok in Hm; lia).
  destruct (receive_sized max s m (take (n - 4) (m ++ rest)) Hm) as (s' & Hr & Hs').
  { rewrite Hc. unfold message_bytes. rewrite <- app_assoc, take_app_ge by lia. by rewrite Hl4. }
  rewrite (bind_step _ _ _ Hr). clear Hr. rewrite length_take, length_app in *. case_decide as Hd.
  { exists 0%nat. split_and!; [cbn; lia|done|constructor|cbn; lia|]. apply Hstop; [done|]. lia. }
  specialize (Hs' Hd).
  rewrite take_take, Nat.min_l, take_app_length by lia.
  destruct (IH fuel (n - 4 - length m)%nat s') as (k & Hk & Hses & Hmax & Hle & Hends); [lia| |].
  { rewrite Hs', skipn_firstn_comm, drop_app_length. done. }
  rewrite (bind_step _ _ _ Hses). exists (S k). cbn [length take]. rewrite !fmap_cons.
  split; [lia|]. split; [done|]. split; [constructor; [lia|done]|].
  cbn [concat]. rewrite length_app, Hlm. split; [lia|].
  destruct Hends as [->|[Hlt|(m' & Hm' & Hmax')]]; [by left| |right; right; by exists m'].
  right. left. cbn [take]. rewrite fmap_cons. cbn [concat]. rewrite length_app, Hlm. lia.
Qed.

(** Messages arrive whole and in order. When the first [n] bytes of any sequence of
    messages come through a connection before it ends, the receive loop delivers some
    number [k] of the first messages, byte for byte, and then reports the reset of that
    connection, once; [k] is all of them, unless the bytes of the next message did not
    all come or it is larger than the receive buffer. *)
Theorem LinkMessaging_delivers (max id : Z) (messages : list (list byte)) (n fuel : nat) (s : I)
    (Hok : Forall message_ok messages) (Hfuel : (length messages < fuel)%nat)
    (Hcontent : content s = take n (concat (message_bytes <$> messages))) :
  ∃ k, (k ≤ length messages)%nat
    ∧ LinkMessaging_session fuel max id s = Some ((Received id <$> take k messages) ++ [Reset id])
    ∧ session_ends max messages n k.
Proof.
  destruct (session_spec max id messages Hok fuel n s Hfuel Hcontent) as (k & H1 & H2 & _ & _ & H3).
  by exists k.
Qed.

End Receiver.

End Correct.

(** ** Correctness of MuxMessaging *)

Section MuxCorrect.

Context {io : RooIo} {io_laws : RooIoLaws}.

Lemma mux_dispatch_sent connection_id id header payload (mux : MuxMessaging) :
  0 ≤ id < 256 →
  MuxMessaging_dispatch connection_id (MuxChannel_header id header ++ payload) mux
  = match mux !! id with
    | Some channel => [(channel, Received connection_id (header ++ payload))]
    | None => []
    end.
Proof.
  intros Hid. unfold MuxMessaging_dispatch, MuxChannel_header. pose proof (length_StoreU8 id Hid) as Hl.
  rewrite <- app_assoc, length_app, Hl. rewrite take_app_length', drop_app_length' by done.
  by rewrite LoadU8_Store.
Qed.

(** C37: the multiplexer routes by channel id. An id is registered at most once (a second
    registration aborts); while channel [ch] is registered under [id], a message sent on
    channel [id] by the peer reaches [ch], with the header and payload that were sent,
    and no other channel, and messages on other ids go where they went before; after it
    is unregistered the message reaches nobody. *)
Theorem MuxMessaging_routes (mux : MuxMessaging) (id other connection_id : Z) (ch : nat)
    (header payload : list byte) (Hid : 0 ≤ id < 256) (Hother : 0 ≤ other < 256) :
  (MuxMessaging_registerChannel id ch mux = None ↔ is_Some (mux !! id))
  ∧ ∀ mux', MuxMessaging_registerChannel id ch mux = Some mux' →
    MuxMessaging_dispatch connection_id (MuxChannel_header id header ++ payload) mux'
      = [(ch, Received connection_id (header ++ payload))]
    ∧ (other ≠ id →
       MuxMessaging_dispatch connection_id (MuxChannel_header other header ++ payload) mux'
       = MuxMessaging_dispatch connection_id (MuxChannel_header other header ++ payload) mux)
    ∧ ∃ mux'', MuxMessaging_unregisterChannel id mux' = Some mux'' ∧ mux'' = mux
        ∧ MuxMessaging_dispatch connection_id (MuxChannel_header id header ++ payload) mux'' = [].
Proof.
  unfold MuxMessaging_registerChannel. destruct (mux !! id) as [x|] eqn:Hx.
  { rewrite bool_decide_false by done. split; [split; [by eexists|done]|done]. }
  rewrite bool_decide_true by done. cbn [check mbind option_bind].
  split; [split; [done|by intros [? ?]]|]. intros mux' [= <-]. split_and!.
  - by rewrite mux_dispatch_sent, lookup_insert_eq.
  - intros Hne. by rewrite !mux_dispatch_sent, lookup_insert_ne.
  - unfold MuxMessaging_unregisterChannel. rewrite lookup_insert_eq, bool_decide_true by (by eexists).
    eexists. split; [done|]. rewrite delete_insert_id by done. split; [done|].
    by rewrite mux_dispatch_sent, Hx.
Qed.

End MuxCorrect.

(** ** Reference streams: lists of bytes, with room for [capacity] bytes *)

Record ByteSink := mkByteSink { sink_bytes : list byte; sink_capacity : nat; sink_open : bool }.

Instance byte_sink : OutputStream ByteSink := {|
  out_writeFully bs s :=
    if sink_open s
    then if decide (length bs ≤ sink_capacity s)%nat
         then mkByteSink (sink_bytes s ++ bs) (sink_capacity s - length bs) true
         else mkByteSink (sink_bytes s ++ take (sink_capacity s) bs) 0 false
    else s;
  out_flush s := s;
  out_isOpen := sink_open;
|}.

Instance byte_sink_laws : OutputStreamLaws ByteSink sink_bytes.
Proof.
  constructor; cbn; auto.
  - intros bs s. destruct (sink_open s) eqn:Ho; [|congruence]. by case_decide.
  - intros bs s. destruct (sink_open s); [|exists 0%nat; cbn; by rewrite app_nil_r].
    case_decide; [exists (length bs); by rewrite firstn_all|by eexists].
Qed.

Instance byte_source : InputStream (list byte) := {| in_readFully n s := (take n s, drop n s) |}.

Instance byte_source_laws : InputStreamLaws (list byte) id.
Proof. by constructor. Qed.

(** ** Witnesses *)

Lemma LinkMessaging_send_atomic_witness :
  LinkMessaging_sendContinuation (mkLinkMessaging false 7 100) 7 [1] [2; 3] (mkByteSink [9] 50 true)
  = (true, mkByteSink [9; 0; 0; 0; 3; 1; 2; 3] 43 true)
  ∧ sink_bytes (mkByteSink [9; 0; 0; 0; 3; 1; 2; 3] 43 true) = [9] ++ message_bytes ([1] ++ [2; 3]).
Proof.
  split; [reflexivity|].
  destruct (LinkMessaging_send_atomic (written := sink_bytes) (mkLinkMessaging false 7 100) kIdle 7 [1] [2; 3]
    (mkByteSink [9] 50 true)) as [_ [H _]]; [unfold message_ok; cbn; lia|].
  destruct (H eq_refl) as [_ H']. exact H'.
Defined.

(** Three messages, of which the last is cut off. *)
Definition demo_messages : list (list byte) := [[1; 2]; []; [3; 4; 5]].

Definition demo_wire : list byte := take 16 (concat (message_bytes <$> demo_messages)).

Lemma LinkMessaging_delivers_witness :
  ∃ k, LinkMessaging_session 4 100 7 demo_wire = Some ((Received 7 <$> take k demo_messages) ++ [Reset 7])
    ∧ session_ends 100 demo_messages 16 k.
Proof.
  destruct (LinkMessaging_delivers (content := id) 100 7 demo_messages 16 4 demo_wire) as (k & _ & H & He).
  - repeat constructor.
  - cbn. lia.
  - reflexivity.
  - exists k. split; [exact H|exact He].
Defined.

Lemma MuxMessaging_routes_witness :
  MuxMessaging_dispatch 7 (MuxChannel_header 3 [1] ++ [2]) (<[3 := 30%nat]> (<[4 := 40%nat]> ∅))
  = [(30%nat, Received 7 [1; 2])].
Proof.
  destruct (MuxMessaging_routes (<[4 := 40%nat]> ∅) 3 4 7 30 [1] [2]) as [_ H]; [lia|lia|].
  destruct (H (<[3 := 30%nat]> (<[4 := 40%nat]> ∅)) eq_refl) as [H' _]. exact H'.
Defined.
