(* ===== verification/MessagingThreads.v ===== *)
(** * MessagingThreads: LinkMessaging as its threads run it

    [link/link_messaging.cpp] over the channel itself: the thread of [receiveLoop], the threads
    that call [send] and [sendContinuation], and the one that calls [end], interleaved between
    their critical sections and at every [read] and [write] of the link, which may sleep. The
    packets that arrive and the sender thread of the link ([trySend]) are steps of their own. A
    thread that sleeps on a condition variable of the channel is woken by the effects of the
    other steps. [Messaging] has the same code as functions of abstract streams. *)

From S2P Require Import Prelude.
From S2P Require Import SeqNum.
From S2P Require Import RingBuffer.
From S2P Require Import RooIo.
From S2P Require Import Protocol.
From S2P Require Import Buffers.
From S2P Require Import Transmitter.
From S2P Require Import Receiver.
From S2P Require Import ThreadSafe.
From S2P Require Import Channel.
From S2P Require Import ChannelCorrect.
From S2P Require Import ChannelHandshake.
From S2P Require Import Link.
From S2P Require Import Messaging.

Local Open Scope Z_scope.
Local Open Scope roo_scope.

(** ** The loops of roo_io *)

(** [readFully] and [writeFully] of roo_io's streams: whether they call [read] or [write] again,
    with what was read, what is left to write, and the status. [isOpen] of a stream. *)
Class FullIo := {
  readFully_again : nat → list byte → Status → bool;
  writeFully_again : list byte → Status → bool;
  stream_isOpen : Status → bool;
}.

(** They go on until all is read or written, or an error. *)
Class FullIoLaws {full : FullIo} : Prop := {
  readFully_again_iff n got st : readFully_again n got st = true ↔ (length got < n)%nat ∧ st = kOk;
  writeFully_again_iff rest st : writeFully_again rest st = true ↔ rest ≠ [] ∧ st = kOk;
  stream_isOpen_iff st : stream_isOpen st = true ↔ st = kOk;
}.

Instance full_io : FullIo := {|
  readFully_again n got st := (length got <? n)%nat && bool_decide (st = kOk);
  writeFully_again rest st := negb (bool_decide (rest = [])) && bool_decide (st = kOk);
  stream_isOpen st := bool_decide (st = kOk);
|}.

Instance full_io_laws : FullIoLaws.
Proof.
  constructor; intros; unfold readFully_again, writeFully_again, stream_isOpen, full_io;
    by rewrite ?andb_true_iff, ?negb_true_iff, ?bool_decide_eq_true, ?bool_decide_eq_false, ?Nat.ltb_lt.
Qed.

(** ** The threads *)

(** A call of [read] or [write]: to be made, asleep, or woken. *)
Inductive io_mode := Trying | Sleeping | Awake.

(** What the inner loop of [receiveLoop] reads. *)
Inductive read_phase := InSize | InPayload (incoming_size : Z).

Inductive reader_pc :=
  | RNotStarted
  | RTest
  | RConnect
  | RIn (connection_id : Z)
  | RReading (mode : io_mode) (connection_id : Z) (phase : read_phase) (got : list byte)
  | RReset (connection_id : Z)
  | RDone.

(** A call of [send], or of [sendContinuation] with a connection. *)
Record request := mkRequest {
  rq_connection : option Z;
  rq_header : list byte;
  rq_payload : list byte;
}.

Definition rq_message (rq : request) : list byte := rq_header rq ++ rq_payload rq.

(** [SWriting] has the lock, and what is left of each of the three [writeFully]. *)
Inductive sending_pc :=
  | SEnter
  | SWaitConnection
  | SWriting (mode : io_mode) (connection_id : Z) (chunks : list (list byte))
  | SReturned (accepted : bool) (connection_id : option Z).

Inductive ender_pc := ENotCalled | EDisconnect | EJoin | EReturned.

(** [lm_events]: the calls of [received] and [reset]. [lm_past] and [lm_bytes] are what came out
    of the connections before this one, with their ids, and out of this one; [lm_out] and [lm_sent] what
    this one has taken, and the messages it has taken as a whole. *)
Record LmSystem := mkLmSystem {
  lm_channel : Channel;
  lm_link : Link;
  lm_is_closed : bool;
  lm_mutex : option nat;
  lm_reader : reader_pc;
  lm_ender : ender_pc;
  lm_senders : list (request * sending_pc);
  lm_events : list MessagingEvent;
  lm_past : list (Z * list byte);
  lm_bytes : list byte;
  lm_out : list byte;
  lm_sent : list (list byte);
}.

Definition lm_with_channel (v : Channel) (s : LmSystem) : LmSystem :=
  mkLmSystem v (lm_link s) (lm_is_closed s) (lm_mutex s) (lm_reader s) (lm_ender s) (lm_senders s) (lm_events s)
    (lm_past s) (lm_bytes s) (lm_out s) (lm_sent s).
Definition lm_with_link (v : Link) (s : LmSystem) : LmSystem :=
  mkLmSystem (lm_channel s) v (lm_is_closed s) (lm_mutex s) (lm_reader s) (lm_ender s) (lm_senders s) (lm_events s)
    (lm_past s) (lm_bytes s) (lm_out s) (lm_sent s).
Definition lm_with_closed (v : bool) (s : LmSystem) : LmSystem :=
  mkLmSystem (lm_channel s) (lm_link s) v (lm_mutex s) (lm_reader s) (lm_ender s) (lm_senders s) (lm_events s)
    (lm_past s) (lm_bytes s) (lm_out s) (lm_sent s).
Definition lm_with_mutex (v : option nat) (s : LmSystem) : LmSystem :=
  mkLmSystem (lm_channel s) (lm_link s) (lm_is_closed s) v (lm_reader s) (lm_ender s) (lm_senders s) (lm_events s)
    (lm_past s) (lm_bytes s) (lm_out s) (lm_sent s).
Definition lm_with_reader (v : reader_pc) (s : LmSystem) : LmSystem :=
  mkLmSystem (lm_channel s) (lm_link s) (lm_is_closed s) (lm_mutex s) v (lm_ender s) (lm_senders s) (lm_events s)
    (lm_past s) (lm_bytes s) (lm_out s) (lm_sent s).
Definition lm_with_ender (v : ender_pc) (s : LmSystem) : LmSystem :=
  mkLmSystem (lm_channel s) (lm_link s) (lm_is_closed s) (lm_mutex s) (lm_reader s) v (lm_senders s) (lm_events s)
    (lm_past s) (lm_bytes s) (lm_out s) (lm_sent s).
Definition lm_with_senders (v : list (request * sending_pc)) (s : LmSystem) : LmSystem :=
  mkLmSystem (lm_channel s) (lm_link s) (lm_is_closed s) (lm_mutex s) (lm_reader s) (lm_ender s) v (lm_events s)
    (lm_past s) (lm_bytes s) (lm_out s) (lm_sent s).
Definition lm_with_events (v : list MessagingEvent) (s : LmSystem) : LmSystem :=
  mkLmSystem (lm_channel s) (lm_link s) (lm_is_closed s) (lm_mutex s) (lm_reader s) (lm_ender s) (lm_senders s) v
    (lm_past s) (lm_bytes s) (lm_out s) (lm_sent s).
Definition lm_with_received (past : list (Z * list byte)) (bytes : list byte) (s : LmSystem) : LmSystem :=
  mkLmSystem (lm_channel s) (lm_link s) (lm_is_closed s) (lm_mutex s) (lm_reader s) (lm_ender s) (lm_senders s)
    (lm_events s) past bytes (lm_out s) (lm_sent s).
Definition lm_with_written (out : list byte) (sent : list (list byte)) (s : LmSystem) : LmSystem :=
  mkLmSystem (lm_channel s) (lm_link s) (lm_is_closed s) (lm_mutex s) (lm_reader s) (lm_ender s) (lm_senders s)
    (lm_events s) (lm_past s) (lm_bytes s) out sent.

Definition lm_with_in (v : LinkStream) (s : LmSystem) : LmSystem :=
  lm_with_link (mkLink (lk_channel (lm_link s)) (lk_my_stream_id (lm_link s)) v (lk_out (lm_link s))) s.
Definition lm_with_out (v : LinkStream) (s : LmSystem) : LmSystem :=
  lm_with_link (mkLink (lk_channel (lm_link s)) (lk_my_stream_id (lm_link s)) (lk_in (lm_link s)) v) s.

Definition lm_with_sender (i : nat) (rq : request) (p : sending_pc) (s : LmSystem) : LmSystem :=
  lm_with_senders (<[i := (rq, p)]> (lm_senders s)) s.

(** *** Wake-ups *)

Definition wake_mode (m : io_mode) : io_mode := match m with Sleeping => Awake | _ => m end.

Definition wake_reader (p : reader_pc) : reader_pc :=
  match p with RReading mode id phase got => RReading (wake_mode mode) id phase got | _ => p end.

Definition wake_writer (rp : request * sending_pc) : request * sending_pc :=
  (rp.1, match rp.2 with SWriting mode id chunks => SWriting (wake_mode mode) id chunks | p => p end).

(** [reconnected_.notify_all()] *)
Definition wake_waiting (rp : request * sending_pc) : request * sending_pc :=
  (rp.1, match rp.2 with SWaitConnection => SEnter | p => p end).

Definition lm_wake_reader (s : LmSystem) : LmSystem := lm_with_reader (wake_reader (lm_reader s)) s.
Definition lm_wake_writers (s : LmSystem) : LmSystem := lm_with_senders (wake_writer <$> lm_senders s) s.
Definition lm_reconnected (s : LmSystem) : LmSystem := lm_with_senders (wake_waiting <$> lm_senders s) s.

Definition lm_wake (e : Effect) (s : LmSystem) : LmSystem :=
  match e with
  | Notify has_data => lm_wake_reader s
  | Notify has_space => lm_wake_writers s
  | _ => s
  end.

(** What an operation of the channel leaves: the channel, and the threads that it woke. *)
Definition lm_after (es : list Effect) (c : Channel) (s : LmSystem) : LmSystem :=
  foldr lm_wake (lm_with_channel c s) es.

(** ** The operations *)

Section Operations.

Context {io : RooIo} {pf : Platform} {full : FullIo}.

(** [Channel::read] after a wake-up, and [LinkInputStream::read] and [LinkOutputStream::write]
    on it. *)
Definition Channel_read_round (count my_stream_id : Z) : ChM (Blocking (list byte * Status)) :=
  '(result, ready) <~ ch_on_receiver (λ r, no_conditions (ThreadSafeReceiver_read_round r count my_stream_id)) ;;
  ch_when ready Channel_notify ;;;
  ch_ret result.

Definition LinkInputStream_read_round (count : Z) (s : LinkStream) : ChM (Blocking (list byte) * LinkStream) :=
  result <~ via_channel s (Channel_read_round count (ls_my_stream_id s)) ;;
  ch_ret (match result with
          | Returned (bytes, status) => (Returned bytes, ls_with_status status s)
          | Blocked cv => (Blocked cv, s)
          end).

Definition LinkOutputStream_write_round (buf : list byte) (s : LinkStream) : ChM (Blocking Z * LinkStream) :=
  result <~ via_channel s (Channel_write_round buf (ls_my_stream_id s)) ;;
  ch_ret (match result with
          | Returned (n, status) => (Returned n, ls_with_status status s)
          | Blocked cv => (Blocked cv, s)
          end).

(** *** The receive thread *)

Section Reader.

Context (max_recv_packet_size : Z).

Definition lm_emit (e : MessagingEvent) (s : LmSystem) : LmSystem := lm_with_events (lm_events s ++ [e]) s.

(** [readFully] has returned. *)
Definition LinkMessaging_have (id : Z) (phase : read_phase) (got : list byte) (s : LmSystem) : LmSystem :=
  match phase with
  | InSize =>
      if (length got <? 4)%nat then lm_with_reader (RReset id) s
      else
        let incoming_size := u32 (LoadBeU32 got) in
        if max_recv_packet_size <? incoming_size then lm_with_reader (RReset id) s
        else lm_with_reader (RReading Trying id (InPayload incoming_size) []) s
  | InPayload incoming_size =>
      if (length got <? Z.to_nat incoming_size)%nat then lm_with_reader (RReset id) s
      else lm_with_reader (RReading Trying id InSize []) (lm_emit (Received id got) s)
  end.

Definition phase_size (phase : read_phase) : nat :=
  match phase with InSize => 4 | InPayload incoming_size => Z.to_nat incoming_size end.

(** One call of [read] in [readFully]. *)
Definition LinkMessaging_read (mode : io_mode) (id : Z) (phase : read_phase) (got : list byte) (s : LmSystem)
    : option LmSystem :=
  let stream := lk_in (lm_link s) in
  if readFully_again (phase_size phase) got (ls_status stream) then
    let count := Z.of_nat (phase_size phase - length got) in
    '((result, stream), es, c) ← (match mode with
                                 | Awake => LinkInputStream_read_round count stream
                                 | _ => LinkInputStream_read count stream
                                 end) (lm_channel s);
    let s := lm_after es c (lm_with_in stream s) in
    Some (match result with
          | Returned bytes =>
              lm_with_reader (RReading Trying id phase (got ++ bytes))
                (lm_with_received (lm_past s) (lm_bytes s ++ bytes) s)
          | Blocked _ => lm_with_reader (RReading Sleeping id phase got) s
          end)
  else Some (LinkMessaging_have id phase got s).

(** [connect()], with the lock; [draws] and [start] are what the random generator returns. *)
Definition LinkMessaging_reconnect (draws : list Z) (start : Z) (s : LmSystem) : option LmSystem :=
  '(link, es, c) ← LinkTransport_connectAsync None draws start (lm_channel s);
  let s := lm_reconnected (lm_after es c (lm_with_link link s)) in
  Some (lm_with_written [] [] (lm_with_reader (RIn (lk_my_stream_id link)) s)).

Definition LinkMessaging_reader_step (draws : list Z) (start : Z) (s : LmSystem) : option LmSystem :=
  match lm_reader s with
  | RNotStarted | RDone | RReading Sleeping _ _ _ => Some s
  | RTest => Some (lm_with_reader (if lm_is_closed s then RDone else RConnect) s)
  | RConnect => if decide (lm_mutex s = None) then LinkMessaging_reconnect draws start s else Some s
  | RIn id => Some (if decide (lm_mutex s = None) then lm_with_reader (RReading Trying id InSize []) s else s)
  | RReading mode id phase got => LinkMessaging_read mode id phase got s
  | RReset id =>
      Some (lm_with_reader RTest (lm_emit (Reset id) (lm_with_received (lm_past s ++ [(id, lm_bytes s)]) [] s)))
  end.

End Reader.

(** *** begin and end *)

(** A thread that is assigned to while it can be joined ends the program. *)
Definition LinkMessaging_begin (s : LmSystem) : option LmSystem :=
  match lm_reader s with RNotStarted => Some (lm_with_reader RTest s) | _ => None end.

(** The test and the assignment are one step here: end() is not called by two threads at the
    same time. *)
Definition LinkMessaging_end_call (s : LmSystem) : LmSystem :=
  if lm_is_closed s then s else lm_with_ender EDisconnect (lm_with_closed true s).

Definition LinkMessaging_end_step (s : LmSystem) : option LmSystem :=
  match lm_ender s with
  | ENotCalled | EReturned => Some s
  | EDisconnect =>
      if decide (lm_mutex s = None) then
        '(link, es, c) ← Link_disconnect (lm_link s) (lm_channel s);
        Some (lm_with_ender EJoin (lm_reconnected (lm_after es c (lm_with_link link s))))
      else Some s
  | EJoin =>
      Some (match lm_reader s with
            | RNotStarted | RDone => lm_with_ender EReturned (lm_with_reader RNotStarted s)
            | _ => s
            end)
  end.

(** *** send and sendContinuation *)

(** [sendInternal]: the three things it writes. *)
Definition message_chunks (rq : request) : list (list byte) :=
  [StoreBeU32 (u32 (Z.of_nat (length (rq_header rq)) + Z.of_nat (length (rq_payload rq)))); rq_header rq; rq_payload rq].

(** Up to [sendInternal], with the lock. *)
Definition LinkMessaging_enter (i : nat) (rq : request) (s : LmSystem) : LmSystem :=
  let id := lk_my_stream_id (lm_link s) in
  let start := lm_with_sender i rq (SWriting Trying id (message_chunks rq)) (lm_with_mutex (Some i) s) in
  if lm_is_closed s then lm_with_sender i rq (SReturned false None) s
  else match rq_connection rq with
  | Some connection_id =>
      if id =? connection_id then start else lm_with_sender i rq (SReturned false None) s
  | None =>
      match Link_status (lm_link s) (lm_channel s) with
      | kConnected | kConnecting => start
      | _ => lm_with_sender i rq SWaitConnection s
      end
  end.

(** One call of [write] in [writeFully], or the end of [sendInternal]. *)
Definition LinkMessaging_write (i : nat) (rq : request) (mode : io_mode) (id : Z) (chunks : list (list byte))
    (s : LmSystem) : option LmSystem :=
  let stream := lk_out (lm_link s) in
  match chunks with
  | [] =>
      '(stream, es, c) ← LinkOutputStream_flush stream (lm_channel s);
      let s := lm_with_mutex None (lm_after es c (lm_with_out stream s)) in
      let accepted := stream_isOpen (ls_status stream) in
      let s := if accepted then lm_with_written (lm_out s) (lm_sent s ++ [rq_message rq]) s else s in
      Some (lm_with_sender i rq (SReturned accepted (Some id)) s)
  | chunk :: chunks' =>
      if writeFully_again chunk (ls_status stream) then
        '((result, stream), es, c) ← (match mode with
                                     | Awake => LinkOutputStream_write_round chunk stream
                                     | _ => LinkOutputStream_write chunk stream
                                     end) (lm_channel s);
        let s := lm_after es c (lm_with_out stream s) in
        Some (match result with
              | Returned n =>
                  lm_with_sender i rq (SWriting Trying id (drop (Z.to_nat n) chunk :: chunks'))
                    (lm_with_written (lm_out s ++ take (Z.to_nat n) chunk) (lm_sent s) s)
              | Blocked _ => lm_with_sender i rq (SWriting Sleeping id chunks) s
              end)
      else Some (lm_with_sender i rq (SWriting Trying id chunks') s)
  end.

Definition LinkMessaging_sender_step (i : nat) (s : LmSystem) : option LmSystem :=
  match lm_senders s !! i with
  | Some (rq, SEnter) => Some (if decide (lm_mutex s = None) then LinkMessaging_enter i rq s else s)
  | Some (rq, SWriting mode id chunks) =>
      match mode with Sleeping => Some s | _ => LinkMessaging_write i rq mode id chunks s end
  | _ => Some s
  end.

(** ** The system *)

(** [LmWake]: wake-ups without a reason. *)
Inductive lm_event :=
  | LmBegin
  | LmEnd
  | LmEnder
  | LmReader (draws : list Z) (start : Z)
  | LmSend (rq : request)
  | LmSender (i : nat)
  | LmWake
  | LmPacket (buf : list byte)
  | LmTrySend (now draw now' : Z) (env : nat → Z * Z).

Definition lm_exec (max : Z) (s : LmSystem) (e : lm_event) : option LmSystem :=
  match e with
  | LmBegin => LinkMessaging_begin s
  | LmEnd => Some (LinkMessaging_end_call s)
  | LmEnder => LinkMessaging_end_step s
  | LmReader draws start => LinkMessaging_reader_step max draws start s
  | LmSend rq => Some (lm_with_senders (lm_senders s ++ [(rq, SEnter)]) s)
  | LmSender i => LinkMessaging_sender_step i s
  | LmWake => Some (lm_reconnected (lm_wake_writers (lm_wake_reader s)))
  | LmPacket buf => '(_, es, c) ← LinkTransport_processIncomingPacket buf (lm_channel s); Some (lm_after es c s)
  | LmTrySend now draw now' env => '(_, es, c) ← Channel_trySend now draw now' env (lm_channel s); Some (lm_after es c s)
  end.

Fixpoint lm_run (max : Z) (s : LmSystem) (es : list lm_event) : option LmSystem :=
  match es with
  | [] => Some s
  | e :: es => s ← lm_exec max s e; lm_run max s es
  end.

Definition lm_start (c : Channel) : LmSystem :=
  mkLmSystem c Link_idle false None RNotStarted ENotCalled [] [] [] [] [] [].

(** Messages have sizes that fit in four bytes. *)
Definition lm_env (e : lm_event) : Prop :=
  match e with LmSend rq => message_ok (rq_message rq) | _ => True end.

End Operations.
