(* ===== verification/MessagingThreadsCorrect.v ===== *)
(** * MessagingThreadsCorrect: what the threads of LinkMessaging do

    Over every interleaving: the receive thread delivers what [Messaging.LinkMessaging_receiveLoop]
    makes of the bytes that come out of each connection; the messages that threads send do not
    mix; end() comes to its end, and nothing happens after it, but only when it does not fall
    between the test of the receive thread and its call of connect(), no other thread waits in
    send(), and the peer did not restart at the wrong time. *)

From S2P Require Import Prelude.
From S2P Require Import SeqNum.
From S2P Require Import RingBuffer.
From S2P Require Import RooIo.
From S2P Require Import Protocol.
From S2P Require Import Buffers.
From S2P Require Import Transmitter.
From S2P Require Import Receiver.
From S2P Require Import ThreadSafe.
From S2P Require Import Channel.
From S2P Require Import ChannelCorrect.
From S2P Require Import ChannelHandshake.
From S2P Require Import Link.
From S2P Require Import Messaging.
From S2P Require Import MessagingThreads.

Local Open Scope Z_scope.
Local Open Scope roo_scope.

(** ** Wake-ups change nothing but who sleeps *)

Definition reader_key (p : reader_pc) : reader_pc :=
  match p with RReading _ id phase got => RReading Trying id phase got | _ => p end.

Definition sender_key (rp : request * sending_pc) : request * sending_pc :=
  (rp.1, match rp.2 with
         | SWriting _ id chunks => SWriting Trying id chunks
         | SWaitConnection => SEnter
         | p => p
         end).

(** Two systems with the same channel but for who sleeps. *)
Record lm_same (s s' : LmSystem) : Prop := {
  sm_link : lm_link s' = lm_link s;
  sm_closed : lm_is_closed s' = lm_is_closed s;
  sm_mutex : lm_mutex s' = lm_mutex s;
  sm_reader : reader_key (lm_reader s') = reader_key (lm_reader s);
  sm_ender : lm_ender s' = lm_ender s;
  sm_senders : sender_key <$> lm_senders s' = sender_key <$> lm_senders s;
  sm_events : lm_events s' = lm_events s;
  sm_past : lm_past s' = lm_past s;
  sm_bytes : lm_bytes s' = lm_bytes s;
  sm_out : lm_out s' = lm_out s;
  sm_sent : lm_sent s' = lm_sent s;
}.

#[export] Instance lm_same_preorder : PreOrder lm_same.
Proof.
  split; [by constructor|]. intros s1 s2 s3 [] []. constructor; congruence.
Qed.

Lemma reader_key_wake p : reader_key (wake_reader p) = reader_key p.
Proof. by destruct p. Qed.

Lemma sender_key_wake rp : sender_key (wake_writer rp) = sender_key rp.
Proof. destruct rp as [rq []]; done. Qed.

Lemma sender_key_waiting rp : sender_key (wake_waiting rp) = sender_key rp.
Proof. destruct rp as [rq []]; done. Qed.

Lemma sender_keys_wake (l : list (request * sending_pc)) : sender_key <$> (wake_writer <$> l) = sender_key <$> l.
Proof. rewrite <- list_fmap_compose. apply list_fmap_ext. intros ? ? ?. apply sender_key_wake. Qed.

Lemma sender_keys_waiting (l : list (request * sending_pc)) : sender_key <$> (wake_waiting <$> l) = sender_key <$> l.
Proof. rewrite <- list_fmap_compose. apply list_fmap_ext. intros ? ? ?. apply sender_key_waiting. Qed.

Lemma lm_same_wake e s : lm_same s (lm_wake e s).
Proof.
  destruct e as [|[]| |]; constructor; cbn; auto using sender_keys_wake, reader_key_wake.
Qed.

Lemma lm_same_after es c s : lm_same s (lm_after es c s).
Proof.
  unfold lm_after. induction es as [|e es IH]; cbn [foldr]; [by constructor|]. etrans; [exact IH|apply lm_same_wake].
Qed.

Lemma lm_channel_after es c s : lm_channel (lm_after es c s) = c.
Proof.
  unfold lm_after. induction es as [|e es IH]; cbn [foldr]; [done|]. by destruct e as [|[]| |].
Qed.

Lemma lm_same_reconnected s : lm_same s (lm_reconnected s).
Proof. constructor; cbn; auto using sender_keys_waiting. Qed.

(** ** What a read returns *)

Section Reads.

Context {io : RooIo} {pf : Platform}.

Lemma tryRead_loop_length fuel : ∀ r count total ready bytes ready' r',
  0 ≤ count → Receiver_tryRead_loop fuel r count total ready = Some (bytes, ready', r') →
  Z.of_nat (length bytes) ≤ Z.of_nat (length total) + count.
Proof.
  assert (Hslice : ∀ (src : list byte) off n x, slice src off n = Some x → (length x ≤ n)%nat).
  { intros src off n x. unfold slice. case_decide; [|done]. intros [= <-]. rewrite length_take. lia. }
  induction fuel as [|fuel IH]; intros r count total ready bytes ready' r' Hc H; [done|].
  cbn [Receiver_tryRead_loop] in H. inv_bind H. destruct p as [[i|] r1]; [|injection H as <- <- <-; lia].
  inv_bind H. destruct (decide _); [injection H as <- <- <-; lia|]. inv_bind H.
  unfold check in E1. destruct (Z.leb_spec (rx_current_in_buffer_pos r1) (ib_size i0)); [|done].
  destruct (Z.ltb_spec count (ib_size i0 - rx_current_in_buffer_pos r1)) as [Hlt|Hge]; inv_bind H.
  - apply Hslice in E2. injection H as <- <- <-. rewrite length_app. lia.
  - apply Hslice in E2. destruct p as [continue r2]. destruct (continue && _) eqn:Hcont.
    + apply IH in H; [|lia]. rewrite length_app in H. lia.
    + injection H as <- <- <-. rewrite length_app. lia.
Qed.

Lemma tryRead_length r count bytes ready r' :
  0 ≤ count → Receiver_tryRead r count = Some (bytes, ready, r') → Z.of_nat (length bytes) ≤ count.
Proof.
  intros Hc H. unfold Receiver_tryRead in H.
  destruct (rx_state r); try (injection H as <- <- <-; cbn; lia);
    apply tryRead_loop_length in H; cbn [length] in H; lia.
Qed.

Lemma read_round_length r count id bytes st ready r' :
  0 ≤ count → ThreadSafeReceiver_read_round r count id = Some (Returned (bytes, st), ready, r') →
  Z.of_nat (length bytes) ≤ count.
Proof.
  intros Hc H. unfold ThreadSafeReceiver_read_round in H. inv_bind H. destruct p as [[read ready1] r1].
  apply (tryRead_length _ _ _ _ _ Hc) in E. destruct read as [|b bs]; [|by simplify_eq].
  destruct (ThreadSafeReceiver_checkConnectionStatus _ _); simplify_eq; cbn; lia.
Qed.

Lemma on_receiver_inv {A} (f : Receiver → option (A * bool * Receiver)) c a ready es c' :
  ch_on_receiver (λ r, no_conditions (f r)) c = Some ((a, ready), es, c') →
  ∃ r, f (ch_receiver c) = Some (a, ready, r) ∧ es = [] ∧ c' = ch_with_receiver r c.
Proof.
  unfold ch_on_receiver, no_conditions. intros H. destruct (f _) as [[[x y] r]|]; [|done].
  cbn in H. injection H as <- <- <- <-. by exists r.
Qed.

(** The result of [Channel_read] and [Channel_read_round] is that of the receiver. *)
Lemma read_inv {A} (f : Receiver → option (A * bool * Receiver)) c a es c' :
  ('(result, ready) <~ ch_on_receiver (λ r, no_conditions (f r)) ;; ch_when ready Channel_notify ;;; ch_ret result) c
    = Some (a, es, c') →
  ∃ ready r, f (ch_receiver c) = Some (a, ready, r) ∧ ch_receiver c' = r ∧ ch_transmitter c' = ch_transmitter c
    ∧ ch_my_stream_id c' = ch_my_stream_id c ∧ ch_peer_stream_id c' = ch_peer_stream_id c.
Proof.
  intros ([x ready] & es1 & c1 & es2 & (r & Hf & -> & ->)%on_receiver_inv & (u & es3 & c2 & es4 & H3 & H4 & ->)%ch_bind_inv & ->)%ch_bind_inv.
  injection H4 as <- <- <-. exists ready, r. split; [done|]. destruct ready; cbn in H3; [|injection H3 as <- <- <-; done].
  unfold Channel_notify, ch_bind, ch_gets, ch_modify, ch_when, ch_emit, ch_ret in H3. cbn in H3.
  destruct (negb (ch_has_data_to_send c)); cbn in H3; injection H3 as <- <- <-; done.
Qed.

Lemma via_inv {A} (s : LinkStream) (m : ChM A) c a es c' :
  via_channel s m c = Some (a, es, c') → ls_channel s = true ∧ m c = Some (a, es, c').
Proof.
  unfold via_channel, ch_check, ch_bind. destruct (ls_channel s); [|done]. cbn.
  destruct (m c) as [[[x es1] c1]|]; [|done]. cbn. by intros [= <- <- <-].
Qed.

(** Either kind of read: the length of what it returns, and what it leaves alone. *)
Lemma stream_read_inv mode count s c result s' es c' :
  0 ≤ count →
  (match mode with
   | Awake => LinkInputStream_read_round count s
   | _ => LinkInputStream_read count s
   end) c = Some ((result, s'), es, c') →
  (∀ bytes, result = Returned bytes → Z.of_nat (length bytes) ≤ count)
  ∧ (∃ st, s' = ls_with_status st s)
  ∧ ch_transmitter c' = ch_transmitter c ∧ ch_my_stream_id c' = ch_my_stream_id c
  ∧ ch_peer_stream_id c' = ch_peer_stream_id c.
Proof.
  intros Hc H.
  assert (Hs : s = ls_with_status (ls_status s) s) by (by destruct s).
  assert (Hround : ∀ m, (∀ a es1 c1, m c = Some (a, es1, c1) →
      (∀ bytes st, a = Returned (bytes, st) → Z.of_nat (length bytes) ≤ count)
      ∧ ch_transmitter c1 = ch_transmitter c ∧ ch_my_stream_id c1 = ch_my_stream_id c
      ∧ ch_peer_stream_id c1 = ch_peer_stream_id c) →
    (result <~ via_channel s m ;;
     ch_ret (match result with
             | Returned (bytes, status) => (Returned bytes, ls_with_status status s)
             | Blocked cv => (Blocked cv, s)
             end)) c = Some ((result, s'), es, c') →
    (∀ bytes, result = Returned bytes → Z.of_nat (length bytes) ≤ count) ∧ (∃ st, s' = ls_with_status st s)
    ∧ ch_transmitter c' = ch_transmitter c ∧ ch_my_stream_id c' = ch_my_stream_id c
    ∧ ch_peer_stream_id c' = ch_peer_stream_id c).
  { intros m Hm (a & es1 & c1 & es2 & [_ H1]%via_inv & H2 & ->)%ch_bind_inv. destruct (Hm _ _ _ H1) as (Hl & Hsame).
    destruct a as [[bytes st]|cv]; injection H2 as <- <- <- <-; (split; [|split; [eauto|done]]).
    - intros bytes' [= <-]. by eapply Hl.
    - done. }
  assert (Hread : LinkInputStream_read count s c = Some ((result, s'), es, c') →
    (∀ bytes, result = Returned bytes → Z.of_nat (length bytes) ≤ count) ∧ (∃ st, s' = ls_with_status st s)
    ∧ ch_transmitter c' = ch_transmitter c ∧ ch_my_stream_id c' = ch_my_stream_id c
    ∧ ch_peer_stream_id c' = ch_peer_stream_id c).
  { clear H. intros H. unfold LinkInputStream_read in H. destruct (_ || _).
    - injection H as <- <- <- <-. split; [intros ? [= <-]; cbn; lia|]. eauto.
    - revert H. apply Hround. intros a es1 c1 (ready & r & Hf & Hr & Hsame)%read_inv. split; [|done].
      intros bytes st ->. unfold ThreadSafeReceiver_read in Hf. destruct (count =? 0).
      + injection Hf as <- <- <- <-. cbn. lia.
      + destruct (ThreadSafeReceiver_checkConnectionStatus _ _); try (injection Hf as <- <- <- <-; cbn; lia).
        by apply (read_round_length _ _ _ _ _ _ _ Hc) in Hf. }
  destruct mode; [by apply Hread|by apply Hread|]. revert H. apply Hround.
  intros a es1 c1 (ready & r & Hf & Hr & Hsame)%read_inv. split; [|done]. intros bytes st ->.
  by apply (read_round_length _ _ _ _ _ _ _ Hc) in Hf.
Qed.

End Reads.

(** ** The receive thread *)

Section Reader.

Context {io : RooIo} {io_laws : RooIoLaws} {pf : Platform} {full : FullIo} {full_laws : FullIoLaws}.
Context (max : Z).

(** [Messaging.LinkMessaging_session] on bytes, with enough fuel. *)
Definition session_runs (id : Z) (bytes : list byte) (events : list MessagingEvent) : Prop :=
  ∃ fuel0, ∀ fuel, (fuel0 ≤ fuel)%nat → LinkMessaging_session fuel max id bytes = Some events.

Definition loop_runs (connections : list (Z * list byte)) (events : list MessagingEvent) : Prop :=
  ∃ fuel0, ∀ fuel, (fuel0 ≤ fuel)%nat → LinkMessaging_receiveLoop fuel max connections = Some events.

Lemma receive_whole size payload rest :
  length size = 4%nat → u32 (LoadBeU32 size) ≤ max → length payload = Z.to_nat (u32 (LoadBeU32 size)) →
  LinkMessaging_receive max (size ++ payload ++ rest) = Some (Some payload, rest).
Proof.
  intros Hs Hm Hp. unfold LinkMessaging_receive. cbn [in_readFully byte_source].
  rewrite take_app_length', drop_app_length' by done. rewrite Hs. change (4 <? 4)%nat with false.
  rewrite (proj2 (Z.ltb_ge _ _)) by done. pose proof (u32_range (LoadBeU32 size)). run_checks.
  rewrite take_app_length', drop_app_length' by done. by rewrite Hp, Nat.ltb_irrefl.
Qed.

(** The bytes end, or do not fit, before a whole message. *)
Definition cut_off (bytes : list byte) : Prop :=
  ∃ size payload, bytes = size ++ payload ∧ (length size ≤ 4)%nat
  ∧ (length size = 4%nat → max < u32 (LoadBeU32 size) ∨ (length payload < Z.to_nat (u32 (LoadBeU32 size)))%nat)
  ∧ ((length size < 4)%nat → payload = []).

Lemma receive_cut_off bytes : cut_off bytes → ∃ rest, LinkMessaging_receive max bytes = Some (None, rest).
Proof.
  intros (size & payload & -> & Hl & H4 & Hlt). unfold LinkMessaging_receive. cbn [in_readFully byte_source].
  destruct (decide (length size < 4)%nat) as [Hs|Hs].
  { rewrite (Hlt Hs), app_nil_r, (proj2 (Nat.ltb_lt _ _)) by (rewrite length_take; lia). eauto. }
  assert (Hs4 : length size = 4%nat) by lia. rewrite take_app_length', drop_app_length' by done. rewrite Hs4.
  change (4 <? 4)%nat with false. destruct (Z.ltb_spec max (u32 (LoadBeU32 size))) as [|Hm]; [eauto|].
  pose proof (u32_range (LoadBeU32 size)). run_checks. destruct (H4 Hs4) as [|Hp]; [lia|].
  rewrite (proj2 (Nat.ltb_lt _ _)) by (rewrite length_take; lia). eauto.
Qed.

(** Every sequence of bytes begins with a message or is cut off. *)
Lemma receive_cases bytes :
  cut_off bytes ∨ ∃ size payload rest, bytes = size ++ payload ++ rest ∧ length size = 4%nat
    ∧ u32 (LoadBeU32 size) ≤ max ∧ length payload = Z.to_nat (u32 (LoadBeU32 size)).
Proof.
  set (size := take 4 bytes). set (n := Z.to_nat (u32 (LoadBeU32 size))).
  assert (Hb : bytes = size ++ drop 4 bytes) by (symmetry; apply take_drop).
  destruct (decide (length size < 4)%nat) as [Hs|Hs].
  - left. exists size, []. rewrite app_nil_r. unfold size in *. rewrite length_take in *.
    rewrite take_ge by lia. split; [done|]. split; [lia|]. split; [lia|done].
  - assert (Hs4 : length size = 4%nat) by (unfold size in *; rewrite length_take in *; lia).
    destruct (decide (max < u32 (LoadBeU32 size) ∨ (length (drop 4 bytes) < n)%nat)) as [Hc|Hc].
    + left. exists size, (drop 4 bytes). split; [done|]. split; [lia|]. split; [auto|lia].
    + right. exists size, (take n (drop 4 bytes)), (drop n (drop 4 bytes)). rewrite take_drop.
      split; [done|]. split; [done|]. split; [lia|]. rewrite length_take. lia.
Qed.

Lemma session_cut_off id bytes : cut_off bytes → session_runs id bytes [Reset id].
Proof.
  intros [rest Hr]%receive_cut_off. exists 1%nat. intros [|fuel]; [lia|]. intros _. cbn.
  by rewrite (bind_step _ _ _ Hr).
Qed.

Lemma session_whole id size payload rest E :
  length size = 4%nat → u32 (LoadBeU32 size) ≤ max → length payload = Z.to_nat (u32 (LoadBeU32 size)) →
  session_runs id rest E → session_runs id (size ++ payload ++ rest) (Received id payload :: E).
Proof.
  intros Hs Hm Hp [fuel0 Hf]. exists (S fuel0). intros [|fuel]; [lia|]. intros Hle. cbn.
  rewrite (bind_step _ _ _ (receive_whole _ _ rest Hs Hm Hp)). by rewrite (bind_step _ _ _ (Hf fuel ltac:(lia))).
Qed.

Lemma session_total id bytes : ∃ E, session_runs id bytes E.
Proof.
  assert (Hn : ∀ n bytes, (length bytes < n)%nat → ∃ E, session_runs id bytes E); [|by apply (Hn (S (length bytes))); lia].
  clear bytes. induction n as [|n IH]; intros bytes Hl; [lia|].
  destruct (receive_cases bytes) as [Hc|(size & payload & rest & -> & Hs & Hm & Hp)].
  - exists [Reset id]. by apply session_cut_off.
  - rewrite !length_app in Hl. destruct (IH rest) as [E HE]; [lia|].
    exists (Received id payload :: E). by apply session_whole.
Qed.

Lemma loop_snoc connections before id bytes E :
  loop_runs connections before → session_runs id bytes E → loop_runs (connections ++ [(id, bytes)]) (before ++ E).
Proof.
  intros [f1 H1] [f2 H2]. exists (f1 + f2)%nat. intros fuel Hf. specialize (H1 fuel ltac:(lia)).
  specialize (H2 fuel ltac:(lia)). revert before H1.
  induction connections as [|[id' b] l IH]; intros before H1; cbn in H1 |- *.
  - injection H1 as <-. by rewrite (bind_step _ _ _ H2), app_nil_r.
  - inv_bind H1. injection H1 as <-. cbn. rewrite (bind_step _ _ _ (IH _ eq_refl)). by rewrite app_assoc.
Qed.

(** What has been read of a connection is the messages delivered and what is pending. *)
Definition reads (id : Z) (msgs : list (list byte)) (phase : read_phase) (got bytes : list byte) : Prop :=
  ∃ pending,
    (∀ rest E, session_runs id (pending ++ rest) E → session_runs id (bytes ++ rest) ((Received id <$> msgs) ++ E))
    ∧ match phase with
      | InSize => pending = got ∧ (length got ≤ 4)%nat
      | InPayload n => ∃ size, pending = size ++ got ∧ length size = 4%nat ∧ u32 (LoadBeU32 size) = n
          ∧ n ≤ max ∧ (length got ≤ Z.to_nat n)%nat
      end.

Definition reader_inv (p : reader_pc) (events : list MessagingEvent) (past : list (Z * list byte))
    (bytes : list byte) : Prop :=
  ∃ before, loop_runs past before ∧
  match p with
  | RNotStarted | RTest | RConnect | RDone | RIn _ => events = before ∧ bytes = []
  | RReading _ id phase got => ∃ msgs, events = before ++ (Received id <$> msgs) ∧ reads id msgs phase got bytes
  | RReset id => ∃ msgs, events = before ++ (Received id <$> msgs)
      ∧ session_runs id bytes ((Received id <$> msgs) ++ [Reset id])
  end.

Lemma reads_cut_off id msgs phase got bytes :
  reads id msgs phase got bytes → (length got < phase_size phase)%nat →
  session_runs id bytes ((Received id <$> msgs) ++ [Reset id]).
Proof.
  intros (pending & Hp & Hph) Hl. rewrite <- (app_nil_r bytes). apply Hp. rewrite app_nil_r. apply session_cut_off.
  destruct phase as [|n]; cbn [phase_size] in Hl.
  - destruct Hph as [-> _]. exists got, []. rewrite app_nil_r. split; [done|]. split; [lia|]. split; [lia|done].
  - destruct Hph as (size & -> & Hs & Hn & Hm & _). exists size, got. split; [done|]. split; [lia|].
    split; [|lia]. intros _. right. by rewrite Hn.
Qed.

Lemma reads_more id msgs phase got bytes more :
  reads id msgs phase got bytes → (length got + length more ≤ phase_size phase)%nat →
  reads id msgs phase (got ++ more) (bytes ++ more).
Proof.
  intros (pending & Hp & Hph) Hl. exists (pending ++ more). split.
  - intros rest E HE. rewrite <- app_assoc. apply Hp. by rewrite app_assoc.
  - destruct phase as [|n]; cbn [phase_size] in Hl.
    + destruct Hph as [-> _]. rewrite length_app. split; [done|lia].
    + destruct Hph as (size & -> & Hs & Hn & Hm & _). exists size. rewrite length_app, app_assoc.
      split; [done|]. split; [done|]. split; [done|]. split; [done|lia].
Qed.

Lemma reads_start id : reads id [] InSize [] [].
Proof. exists []. split; [done|]. split; [done|cbn; lia]. Qed.

Lemma reads_sized id msgs got bytes :
  reads id msgs InSize got bytes → length got = 4%nat → u32 (LoadBeU32 got) ≤ max →
  reads id msgs (InPayload (u32 (LoadBeU32 got))) [] bytes.
Proof.
  intros (pending & Hp & -> & _) Hl Hm. exists got. split; [done|]. exists got. rewrite app_nil_r.
  pose proof (u32_range (LoadBeU32 got)). do 4 (split; [done|]). cbn. lia.
Qed.

Lemma reads_message id msgs n got bytes :
  reads id msgs (InPayload n) got bytes → (Z.to_nat n ≤ length got)%nat → reads id (msgs ++ [got]) InSize [] bytes.
Proof.
  intros (pending & Hp & size & -> & Hs & <- & Hm & Hl) Hg. exists []. split; [|split; [done|cbn; lia]].
  intros rest E HE. rewrite fmap_app, <- app_assoc. apply Hp. rewrite <- app_assoc.
  apply session_whole; [done|done|lia|done].
Qed.

Lemma reader_have id phase got events past bytes s :
  reader_inv (RReading Trying id phase got) events past bytes →
  lm_events s = events → lm_past s = past → lm_bytes s = bytes →
  let s' := LinkMessaging_have max id phase got s in
  reader_inv (reader_key (lm_reader s')) (lm_events s') (lm_past s') (lm_bytes s').
Proof.
  intros (before & Hb & msgs & He & Hr) <- <- <-. cbv zeta. unfold LinkMessaging_have.
  destruct phase as [|n].
  - destruct (Nat.ltb_spec (length got) 4) as [Hlt|Hge].
    { exists before. split; [done|]. exists msgs. split; [done|]. by eapply reads_cut_off. }
    assert (length got = 4%nat) as Hl by (destruct Hr as (? & _ & _ & ?); lia).
    destruct (Z.ltb_spec max (u32 (LoadBeU32 got))) as [Hm|Hm].
    + exists before. split; [done|]. exists msgs. split; [done|].
      destruct Hr as (pending & Hp & -> & _). cbn. rewrite <- (app_nil_r (lm_bytes s)). apply Hp.
      rewrite app_nil_r. apply session_cut_off. exists got, []. rewrite app_nil_r. split; [done|]. split; [lia|].
      split; [auto|lia].
    + exists before. split; [done|]. exists msgs. split; [done|]. by apply reads_sized.
  - destruct (Nat.ltb_spec (length got) (Z.to_nat n)) as [Hlt|Hge].
    + exists before. split; [done|]. exists msgs. split; [done|]. by eapply reads_cut_off.
    + exists before. split; [done|]. exists (msgs ++ [got]). cbn. rewrite He, fmap_app, <- app_assoc.
      split; [done|]. by apply reads_message in Hr.
Qed.

Definition reader_ok (s : LmSystem) : Prop :=
  reader_inv (reader_key (lm_reader s)) (lm_events s) (lm_past s) (lm_bytes s).

Lemma reader_ok_same s s' : lm_same s s' → reader_ok s → reader_ok s'.
Proof. unfold reader_ok. by intros [_ _ _ -> _ _ -> -> -> _ _]. Qed.

Lemma reader_ok_after es c s : reader_ok s → reader_ok (lm_after es c s).
Proof. apply reader_ok_same, lm_same_after. Qed.

Lemma reader_ok_reconnected s : reader_ok s → reader_ok (lm_reconnected s).
Proof. apply reader_ok_same, lm_same_reconnected. Qed.

(** A reader that is in no connection can be in any place where it is in none. *)
Lemma reader_inv_outside p q events past bytes :
  reader_inv p events past bytes →
  match p with RReading _ _ _ _ | RReset _ => False | _ => True end →
  match q with RReading _ _ _ _ | RReset _ => False | _ => True end →
  reader_inv q events past bytes.
Proof. intros (before & Hb & Hp) ? ?. exists before. split; [done|]. by destruct p, q. Qed.

Lemma reader_ok_reading mode id phase got s s' :
  reader_ok s → lm_reader s = RReading mode id phase got → LinkMessaging_read max mode id phase got s = Some s' →
  reader_ok s'.
Proof.
  intros Hok Hr H. unfold LinkMessaging_read in H. unfold reader_ok in Hok. rewrite Hr in Hok. cbn [reader_key] in Hok.
  destruct (readFully_again _ _ _) eqn:Hagain.
  - apply readFully_again_iff in Hagain as [Hl _]. inv_bind H. destruct p as [[[result stream] es] c].
    assert (Hcount : 0 ≤ Z.of_nat (phase_size phase - length got)) by lia.
    destruct (stream_read_inv _ _ _ _ _ _ _ _ Hcount E) as [Hlen _].
    injection H as <-. destruct Hok as (before & Hb & msgs & He & Hreads).
    destruct (lm_same_after es c (lm_with_in stream s)) as [_ _ _ _ _ _ Hev Hpast Hbytes _ _].
    cbn in Hev, Hpast, Hbytes. destruct result as [bytes|cv]; unfold reader_ok; cbn; rewrite Hev, Hpast, Hbytes;
      exists before; (split; [done|]); exists msgs; (split; [done|]); [|done].
    apply reads_more; [done|]. specialize (Hlen _ eq_refl). lia.
  - injection H as <-. by apply (reader_have _ _ _ _ _ _ _ Hok).
Qed.

Lemma reader_ok_step draws start s s' :
  reader_ok s → LinkMessaging_reader_step max draws start s = Some s' → reader_ok s'.
Proof.
  intros Hok H. unfold LinkMessaging_reader_step in H. destruct (lm_reader s) eqn:Hr.
  - by injection H as <-.
  - injection H as <-. unfold reader_ok in *. rewrite Hr in Hok. cbn in *.
    apply (reader_inv_outside _ _ _ _ _ Hok); [done|]. by destruct (lm_is_closed s).
  - case_decide; [|by injection H as <-]. unfold LinkMessaging_reconnect in H. inv_bind H.
    destruct p as [[link es] c]. injection H as <-.
    assert (Hin : reader_ok (lm_reconnected (lm_after es c (lm_with_link link s))))
      by (apply reader_ok_reconnected, reader_ok_after; exact Hok).
    unfold reader_ok in Hin |- *. cbn [lm_reader lm_with_reader lm_with_written] in *.
    eapply reader_inv_outside; [exact Hin| |done].
    rewrite (sm_reader _ _ (lm_same_reconnected _)), (sm_reader _ _ (lm_same_after _ _ _)). cbn. by rewrite Hr.
  - case_decide; injection H as <-; [|done]. unfold reader_ok in *. rewrite Hr in Hok. cbn in *.
    destruct Hok as (before & Hb & -> & ->). exists before. split; [done|]. exists []. rewrite app_nil_r.
    split; [done|]. apply reads_start.
  - destruct mode; [by eapply reader_ok_reading|by injection H as <-|by eapply reader_ok_reading].
  - injection H as <-. unfold reader_ok in *. rewrite Hr in Hok. cbn in *.
    destruct Hok as (before & Hb & msgs & -> & Hs). rewrite <- app_assoc. eexists.
    split; [by apply loop_snoc|]. done.
  - by injection H as <-.
Qed.

Lemma reader_ok_sender i s s' : reader_ok s → LinkMessaging_sender_step i s = Some s' → reader_ok s'.
Proof.
  intros Hok H. unfold LinkMessaging_sender_step in H. destruct (lm_senders s !! i) as [[rq p]|]; [|by injection H as <-].
  destruct p as [| |mode id chunks|]; try by injection H as <-.
  - case_decide; injection H as <-; [|done]. unfold LinkMessaging_enter.
    destruct (lm_is_closed s); [done|]. destruct (rq_connection rq); [by destruct (_ =? _)|].
    by destruct (Link_status _ _).
  - assert (H' : LinkMessaging_write i rq mode id chunks s = Some s' ∨ s' = s)
      by (destruct mode; [by left|right; by injection H as <-|by left]).
    clear H. destruct H' as [H| ->]; [|done]. unfold LinkMessaging_write in H. destruct chunks as [|chunk chunks].
    + inv_bind H. destruct p as [[stream es] c]. injection H as <-.
      assert (Ha : reader_ok (lm_after es c (lm_with_out stream s))) by (by apply reader_ok_after).
      by destruct (stream_isOpen _).
    + destruct (writeFully_again _ _); [|by injection H as <-]. inv_bind H. destruct p as [[[result stream] es] c].
      injection H as <-. assert (Ha : reader_ok (lm_after es c (lm_with_out stream s))) by (by apply reader_ok_after).
      by destruct result.
Qed.

Lemma reader_ok_exec s e s' : reader_ok s → lm_exec max s e = Some s' → reader_ok s'.
Proof.
  intros Hok H. destruct e; cbn [lm_exec] in H.
  - unfold LinkMessaging_begin in H. destruct (lm_reader s) eqn:Hr; try done. injection H as <-.
    unfold reader_ok in *. rewrite Hr in Hok. by eapply reader_inv_outside.
  - injection H as <-. unfold LinkMessaging_end_call. by destruct (lm_is_closed s).
  - unfold LinkMessaging_end_step in H. destruct (lm_ender s); try by injection H as <-.
    + case_decide; [|by injection H as <-]. inv_bind H. destruct p as [[link es] c]. injection H as <-.
      assert (Ha : reader_ok (lm_reconnected (lm_after es c (lm_with_link link s))))
        by (by apply reader_ok_reconnected, reader_ok_after). exact Ha.
    + injection H as <-. unfold reader_ok in *. destruct (lm_reader s) eqn:Hr; try by rewrite Hr in *.
      * by eapply reader_inv_outside.
      * by eapply reader_inv_outside.
  - by eapply reader_ok_step.
  - by injection H as <-.
  - by eapply reader_ok_sender.
  - injection H as <-. apply reader_ok_reconnected. unfold reader_ok in *. cbn. by rewrite reader_key_wake.
  - inv_bind H. destruct p as [[u es] c]. injection H as <-. by apply reader_ok_after.
  - inv_bind H. destruct p as [[u es] c]. injection H as <-. by apply reader_ok_after.
Qed.

Lemma reader_ok_run es s s' : reader_ok s → lm_run max s es = Some s' → reader_ok s'.
Proof.
  revert s. induction es as [|e es IH]; intros s Hok H; cbn in H; [by injection H as <-|].
  inv_bind H. eapply IH; [|exact H]. by eapply reader_ok_exec.
Qed.

(** The connection the receive thread is in, with what came out of it. *)
Definition open_connection (s : LmSystem) : list (Z * list byte) :=
  match lm_reader s with RReading _ id _ _ | RReset id => [(id, lm_bytes s)] | _ => [] end.

(** C9: the receive thread delivers what the bytes say. Over every interleaving of the receive
    thread, threads in [send] and [end], packets and wake-ups, with every [read] returning as little as
    it likes: the calls of [received] and [reset] so far are what the receive loop, as a function of
    the streams, makes of the bytes that came out of the finished connections, in their order, followed by a
    part of what it makes of the bytes of the connection that is open, which is complete when none
    is. *)
Theorem LinkMessaging_thread_receives (c : Channel) (es : list lm_event) (s : LmSystem)
    (Hrun : lm_run max (lm_start c) es = Some s) :
  ∃ events fuel0, (∀ fuel, (fuel0 ≤ fuel)%nat →
      LinkMessaging_receiveLoop fuel max (lm_past s ++ open_connection s) = Some events)
    ∧ lm_events s `prefix_of` events ∧ (open_connection s = [] → lm_events s = events).
Proof.
  assert (Hok : reader_ok s).
  { eapply reader_ok_run; [|exact Hrun]. exists []. split; [by exists 0%nat|done]. }
  unfold reader_ok in Hok. destruct Hok as (before & Hb & Hp). unfold open_connection.
  assert (Hopen : ∀ id E, session_runs id (lm_bytes s) E → lm_events s `prefix_of` before ++ E →
    ∃ events fuel0, (∀ fuel, (fuel0 ≤ fuel)%nat →
      LinkMessaging_receiveLoop fuel max (lm_past s ++ [(id, lm_bytes s)]) = Some events)
    ∧ lm_events s `prefix_of` events ∧ ([(id, lm_bytes s)] = [] → lm_events s = events)).
  { intros id E HE Hpre. destruct (loop_snoc _ _ _ _ _ Hb HE) as [fuel0 Hf]. by exists (before ++ E), fuel0. }
  assert (Hclosed : lm_events s = before →
    ∃ events fuel0, (∀ fuel, (fuel0 ≤ fuel)%nat →
      LinkMessaging_receiveLoop fuel max (lm_past s ++ []) = Some events)
    ∧ lm_events s `prefix_of` events ∧ (@nil (Z * list byte) = [] → lm_events s = events)).
  { intros He. destruct Hb as [fuel0 Hf]. exists before, fuel0. rewrite app_nil_r. by rewrite He. }
  destruct (lm_reader s); cbn [reader_key] in Hp; try (by apply Hclosed; apply Hp).
  - destruct Hp as (msgs & He & pending & Hpend & _). destruct (session_total connection_id pending) as [E HE].
    apply (Hopen _ ((Received connection_id <$> msgs) ++ E)).
    + rewrite <- (app_nil_r (lm_bytes s)). apply Hpend. by rewrite app_nil_r.
    + rewrite He, app_assoc. by apply prefix_app_r.
  - destruct Hp as (msgs & He & HE). apply (Hopen _ _ HE). rewrite He, app_assoc. by apply prefix_app_r.
Qed.

End Reader.

(** ** The threads that send *)

Section Senders.

Context {io : RooIo} {io_laws : RooIoLaws} {pf : Platform} {full : FullIo} {full_laws : FullIoLaws}.
Context (max : Z).

Record senders_inv (mutex : option nat) (l : list (request * sending_pc)) (out : list byte)
    (sent : list (list byte)) (st : Status) : Prop := {
  si_mutex i : mutex = Some i ↔ ∃ rq id chunks, l !! i = Some (rq, SWriting Trying id chunks);
  si_out : ∃ partial, out = concat (message_bytes <$> sent) ++ partial
    ∧ (st = kOk → mutex = None → partial = [])
    ∧ (∀ i rq id chunks, st = kOk → l !! i = Some (rq, SWriting Trying id chunks) →
         partial ++ concat chunks = message_bytes (rq_message rq))
    ∧ (partial = [] ∨ ∃ rq, rq ∈ l.*1 ∧ partial `prefix_of` message_bytes (rq_message rq));
  si_sent m : m ∈ sent → ∃ rq id, (rq, SReturned true id) ∈ l ∧ m = rq_message rq;
  si_sizes : Forall (λ rq, message_ok (rq_message rq)) l.*1;
}.

Definition senders_ok (s : LmSystem) : Prop :=
  senders_inv (lm_mutex s) (sender_key <$> lm_senders s) (lm_out s) (lm_sent s) (ls_status (lk_out (lm_link s))).

Lemma senders_ok_same s s' : lm_same s s' → senders_ok s → senders_ok s'.
Proof. unfold senders_ok. by intros [-> _ -> _ _ -> _ _ _ -> ->]. Qed.

Lemma senders_ok_after es c s : senders_ok s → senders_ok (lm_after es c s).
Proof. apply senders_ok_same, lm_same_after. Qed.

Lemma senders_ok_reconnected s : senders_ok s → senders_ok (lm_reconnected s).
Proof. apply senders_ok_same, lm_same_reconnected. Qed.

(** What the invariant of a sender that has the lock says, and what it takes to restore it. *)
Lemma senders_move mutex l out sent st i rq p mutex' p' out' sent' st' :
  senders_inv mutex l out sent st → l !! i = Some (rq, p) → (mutex = None ∨ mutex = Some i) →
  (mutex' = Some i ∧ (∃ id chunks, p' = SWriting Trying id chunks)
   ∨ mutex' = None ∧ match p' with SWriting _ _ _ => False | _ => True end) →
  (∀ b id, p = SReturned b id → p' = p) →
  (sent' = sent ∨ ∃ id, p' = SReturned true id ∧ sent' = sent ++ [rq_message rq]) →
  (∀ partial, out = concat (message_bytes <$> sent) ++ partial →
     (st = kOk → mutex = None → partial = []) →
     (∀ id chunks, st = kOk → p = SWriting Trying id chunks → partial ++ concat chunks = message_bytes (rq_message rq)) →
     ∃ partial', out' = concat (message_bytes <$> sent') ++ partial'
       ∧ (st' = kOk → mutex' = None → partial' = [])
       ∧ (∀ id chunks, st' = kOk → p' = SWriting Trying id chunks → partial' ++ concat chunks = message_bytes (rq_message rq))
       ∧ (partial' = partial ∨ partial' `prefix_of` message_bytes (rq_message rq))) →
  senders_inv mutex' (<[i := (rq, p')]> l) out' sent' st'.
Proof.
  intros [Hm (partial & Ho & H1 & H2 & H3) Hsent Hsz] Hi Hmx Hmx' Hret Hs Hpart.
  assert (Hkeys : (<[i := (rq, p')]> l).*1 = l.*1).
  { rewrite list_fmap_insert. apply list_insert_id. by rewrite list_lookup_fmap, Hi. }
  assert (Hnone : ∀ j rq' id chunks, j ≠ i → l !! j ≠ Some (rq', SWriting Trying id chunks)).
  { intros j rq' id chunks Hj Hl. assert (mutex = Some j) by (apply Hm; eauto). destruct Hmx; congruence. }
  assert (Hil : (i < length l)%nat) by (by eapply lookup_lt_Some).
  destruct (Hpart partial Ho H1) as (partial' & Ho' & H1' & H2' & H3'); [intros id chunks Hst ->; exact (H2 _ _ _ _ Hst Hi)|].
  constructor.
  - intros j. destruct (decide (j = i)) as [->|Hj].
    + rewrite list_lookup_insert_eq by done. destruct Hmx' as [[-> (id & chunks & ->)]|[-> Hp']].
      * split; [intros _; eauto|done].
      * split; [done|]. intros (rq' & id & chunks & [= _ ->]). done.
    + rewrite list_lookup_insert_ne by done. split.
      * intros ->. destruct Hmx' as [[[= ->] _]|[[=] _]]. done.
      * intros (rq' & id & chunks & Hl). by apply Hnone in Hl.
  - exists partial'. split; [done|]. split; [done|]. split.
    + intros j rq' id chunks Hst Hl. destruct (decide (j = i)) as [->|Hj].
      * rewrite list_lookup_insert_eq in Hl by done. injection Hl as <- ->. by eapply H2'.
      * rewrite list_lookup_insert_ne in Hl by done. by apply Hnone in Hl.
    + rewrite Hkeys. destruct H3' as [->|Hpre]; [done|]. right. exists rq. split; [|done].
      apply list_elem_of_fmap. exists (rq, p). split; [done|]. by eapply list_elem_of_lookup_2.
  - assert (Hkeep : ∀ rq' id, (rq', SReturned true id) ∈ l → (rq', SReturned true id) ∈ <[i := (rq, p')]> l).
    { intros rq' id [j Hj]%list_elem_of_lookup. apply list_elem_of_lookup. exists j.
      destruct (decide (j = i)) as [->|Hne]; [|by rewrite list_lookup_insert_ne].
      rewrite list_lookup_insert_eq by done. rewrite Hi in Hj. injection Hj as -> ->. by rewrite (Hret _ _ eq_refl). }
    assert (Hold : ∀ m, m ∈ sent → ∃ rq0 id, (rq0, SReturned true id) ∈ <[i := (rq, p')]> l ∧ m = rq_message rq0).
    { intros m (rq' & id & Hin & ->)%Hsent. eauto. }
    destruct Hs as [->|(id & -> & ->)]; [done|]. intros m [Hin|Hin%list_elem_of_singleton]%elem_of_app; [auto|].
    exists rq, id. split; [|done]. apply list_elem_of_lookup. exists i. by rewrite list_lookup_insert_eq.
  - by rewrite Hkeys.
Qed.

Lemma senders_status mutex l out sent st st' :
  (st' = kOk → st = kOk) → senders_inv mutex l out sent st → senders_inv mutex l out sent st'.
Proof.
  intros Hst [Hm (partial & Ho & H1 & H2 & H3) Hsent Hsz]. constructor; [done| |done|done].
  exists partial. split; [done|]. split; [auto|]. split; [|done]. intros i rq id chunks ?. apply H2. auto.
Qed.

Lemma senders_reset l out sent st st' :
  senders_inv None l out sent st → senders_inv None l [] [] st'.
Proof.
  intros [Hm _ _ Hsz]. constructor; [done| |by intros ? ?%not_elem_of_nil|done].
  exists []. split; [done|]. split; [done|]. split; [|by left]. intros i rq id chunks _ Hl.
  assert (None = Some i) by (apply Hm; eauto). done.
Qed.

Lemma senders_new mutex l out sent st rq :
  message_ok (rq_message rq) → senders_inv mutex l out sent st → senders_inv mutex (l ++ [(rq, SEnter)]) out sent st.
Proof.
  intros Hrq [Hm (partial & Ho & H1 & H2 & H3) Hsent Hsz].
  assert (Hl : ∀ i rq' id chunks, (l ++ [(rq, SEnter)]) !! i = Some (rq', SWriting Trying id chunks) ↔
    l !! i = Some (rq', SWriting Trying id chunks)).
  { intros i rq' id chunks. rewrite lookup_app_Some. split; [|by left].
    intros [?|[_ [_ Hl]%list_lookup_singleton_Some]]; [done|by injection Hl]. }
  constructor.
  - intros i. rewrite Hm. by setoid_rewrite Hl.
  - exists partial. split; [done|]. split; [done|]. split; [intros i rq' id chunks ? ?%Hl; eauto|].
    destruct H3 as [?|(rq' & ? & ?)]; [by left|right]. exists rq'. rewrite fmap_app, elem_of_app. auto.
  - intros m (rq' & id & ? & ?)%Hsent. exists rq', id. rewrite elem_of_app. auto.
  - rewrite fmap_app. apply Forall_app. split; [done|]. cbn. auto.
Qed.

(** A step that ends with sender [i] at [p']. *)
Lemma senders_ok_set s i rq p' :
  senders_inv (lm_mutex s) (<[i := sender_key (rq, p')]> (sender_key <$> lm_senders s)) (lm_out s) (lm_sent s)
    (ls_status (lk_out (lm_link s))) →
  senders_ok (lm_with_sender i rq p' s).
Proof. unfold senders_ok. cbn. by rewrite list_fmap_insert. Qed.

Lemma message_chunks_concat rq : message_ok (rq_message rq) → concat (message_chunks rq) = message_bytes (rq_message rq).
Proof.
  unfold message_ok, rq_message, message_chunks, message_bytes. rewrite length_app. intros Hok. cbn.
  rewrite app_nil_r, u32_small by lia. by rewrite Nat2Z.inj_add.
Qed.

Lemma flush_status s c s' es c' : LinkOutputStream_flush s c = Some (s', es, c') → ls_status s' = kOk → ls_status s = kOk.
Proof.
  unfold LinkOutputStream_flush, is_ok. case_bool_decide as Hs; [done|]. cbn. intros [= <- <- <-]. done.
Qed.

Lemma disconnect_link l c l' es c' : Link_disconnect l c = Some (l', es, c') → lk_out l' = lk_out l ∧ lk_in l' = lk_in l
  ∧ lk_my_stream_id l' = lk_my_stream_id l ∧ lk_channel l' = false.
Proof.
  unfold Link_disconnect. destruct (lk_channel l) eqn:Hl; cbn [negb]; [|by intros [= <- <- <-]].
  intros (u & es1 & c1 & es2 & _ & H2 & _)%ch_bind_inv. by injection H2 as <- <- <-.
Qed.

Lemma senders_ok_enter i rq s :
  senders_ok s → lm_senders s !! i = Some (rq, SEnter) → lm_mutex s = None →
  senders_ok (LinkMessaging_enter i rq s).
Proof.
  intros Hok Hi Hm. assert (Hk : (sender_key <$> lm_senders s) !! i = Some (rq, SEnter)) by (by rewrite list_lookup_fmap, Hi).
  unfold senders_ok in Hok.
  assert (Hidle : ∀ p, p = SEnter ∨ p = SReturned false None → 
    senders_inv (lm_mutex s) (<[i := (rq, p)]> (sender_key <$> lm_senders s)) (lm_out s) (lm_sent s)
      (ls_status (lk_out (lm_link s)))).
  { intros p Hp. rewrite Hm in *. eapply (senders_move _ _ _ _ _ _ _ _ _ p); eauto.
    - right. split; [done|]. by destruct Hp as [-> | ->].
    - done.
    - intros partial ? ? _. exists partial. split; [done|]. split; [done|]. split; [|by left].
      intros id chunks _ ->. by destruct Hp. }
  assert (Hstart : senders_ok (lm_with_sender i rq (SWriting Trying (lk_my_stream_id (lm_link s)) (message_chunks rq))
    (lm_with_mutex (Some i) s))).
  { apply senders_ok_set. cbn. rewrite Hm in *.
    assert (Hsz : message_ok (rq_message rq)).
    { destruct Hok as [_ _ _ Hsz]. rewrite Forall_forall in Hsz. apply Hsz, list_elem_of_fmap.
      exists (rq, SEnter). split; [done|]. by eapply list_elem_of_lookup_2. }
    eapply senders_move; [exact Hok|exact Hk|by left|left; eauto|done|by left|]. intros partial Hout Hp _. exists partial. split; [done|].
    split; [done|]. split; [|by left]. intros id chunks Hst [= <- <-]. rewrite (Hp Hst eq_refl). cbn [app].
    by apply message_chunks_concat. }
  unfold LinkMessaging_enter. cbv zeta. destruct (lm_is_closed s); [apply senders_ok_set, Hidle; auto|].
  destruct (rq_connection rq) as [cid|].
  - destruct (_ =? _); [done|]. apply senders_ok_set, Hidle; auto.
  - destruct (Link_status _ _); try done; apply senders_ok_set, Hidle; auto.
Qed.

Lemma senders_ok_write i rq mode id chunks s s' :
  senders_ok s → lm_senders s !! i = Some (rq, SWriting mode id chunks) →
  LinkMessaging_write i rq mode id chunks s = Some s' → senders_ok s'.
Proof.
  intros Hok Hi H.
  assert (Hk : (sender_key <$> lm_senders s) !! i = Some (rq, SWriting Trying id chunks)) by (by rewrite list_lookup_fmap, Hi).
  assert (Hm : lm_mutex s = Some i) by (apply (si_mutex _ _ _ _ _ Hok); eauto).
  unfold LinkMessaging_write in H. destruct chunks as [|chunk chunks].
  - inv_bind H. destruct p as [[stream es] c]. injection H as <-. pose proof (flush_status _ _ _ _ _ E) as Hst.
    apply (senders_status _ _ _ _ _ _ Hst) in Hok.
    pose proof (lm_same_after es c (lm_with_out stream s)) as Hs.
    destruct (stream_isOpen (ls_status stream)) eqn:Hopen; apply senders_ok_set; cbn;
      rewrite (sm_senders _ _ Hs), (sm_out _ _ Hs), (sm_sent _ _ Hs), (sm_link _ _ Hs); cbn.
    + apply stream_isOpen_iff in Hopen.
      eapply senders_move; [exact Hok|exact Hk|by right|right; done|done|right; eauto|].
      intros partial -> _ Hp. exists []. specialize (Hp _ _ Hopen eq_refl). cbn in Hp. rewrite app_nil_r in Hp.
      rewrite fmap_app, concat_app, <- app_assoc. cbn. rewrite !app_nil_r, Hp.
      split; [done|]. split; [done|]. split; [done|]. right. apply prefix_nil.
    + assert (Hclosed : ls_status stream ≠ kOk) by (intros Hok2%stream_isOpen_iff; congruence).
      eapply senders_move; [exact Hok|exact Hk|by right|right; done|done|by left|].
      intros partial -> _ _. exists partial. split; [done|]. split; [done|]. split; [done|by left].
  - destruct (writeFully_again chunk _) eqn:Hagain.
    + apply writeFully_again_iff in Hagain as [_ Hst]. inv_bind H. destruct p as [[[result stream] es] c].
      injection H as <-. pose proof (lm_same_after es c (lm_with_out stream s)) as Hs.
      destruct result as [n|cv]; apply senders_ok_set; cbn;
        rewrite (sm_senders _ _ Hs), (sm_out _ _ Hs), (sm_sent _ _ Hs), (sm_link _ _ Hs), (sm_mutex _ _ Hs); cbn.
      * eapply senders_move; [exact Hok|exact Hk|by right|left; eauto|done|by left|].
        intros partial -> _ Hp. exists (partial ++ take (Z.to_nat n) chunk).
        split; [by rewrite app_assoc|]. split; [congruence|]. specialize (Hp _ _ Hst eq_refl).
        cbn [concat] in Hp. split.
        -- intros id' chunks' _ [= <- <-]. cbn [concat]. rewrite <- Hp, <- app_assoc. by rewrite (app_assoc (take _ _)), take_drop.
        -- right. exists (drop (Z.to_nat n) chunk ++ concat chunks). etrans; [symmetry; exact Hp|].
           rewrite <- app_assoc. by rewrite (app_assoc (take _ _)), take_drop.
      * eapply senders_move; [exact Hok|exact Hk|by right|left; eauto|done|by left|].
        intros partial -> _ Hp. exists partial. split; [done|]. split; [congruence|]. split; [|by left].
        intros id' chunks' _. by apply Hp.
    + injection H as <-. apply senders_ok_set. cbn.
      eapply senders_move; [exact Hok|exact Hk|by right|left; eauto|done|by left|].
      intros partial -> Hn Hp. exists partial. split; [done|]. split; [congruence|]. split; [|by left].
      intros id' chunks' Hst [= <- <-]. rewrite <- (Hp _ _ Hst eq_refl). cbn.
      destruct chunk as [|b chunk]; [done|]. exfalso.
      rewrite (proj2 (writeFully_again_iff (b :: chunk) _)) in Hagain; [done|]. by split.
Qed.

Lemma senders_ok_exec s e s' : senders_ok s → lm_env e → lm_exec max s e = Some s' → senders_ok s'.
Proof.
  intros Hok Henv H. destruct e; cbn [lm_exec] in H.
  - unfold LinkMessaging_begin in H. destruct (lm_reader s); try done. by injection H as <-.
  - injection H as <-. unfold LinkMessaging_end_call. by destruct (lm_is_closed s).
  - unfold LinkMessaging_end_step in H. destruct (lm_ender s); try by injection H as <-.
    + case_decide; [|by injection H as <-]. inv_bind H. destruct p as [[link es] c]. injection H as <-.
      destruct (disconnect_link _ _ _ _ _ E) as [Hout _].
      assert (Ha : senders_ok (lm_reconnected (lm_after es c (lm_with_link link s)))); [|exact Ha].
      apply senders_ok_reconnected, senders_ok_after. unfold senders_ok. cbn. by rewrite Hout.
    + injection H as <-. by destruct (lm_reader s).
  - unfold LinkMessaging_reader_step in H. destruct (lm_reader s); try by injection H as <-.
    + case_decide as Hm; [|by injection H as <-]. unfold LinkMessaging_reconnect in H. inv_bind H.
      destruct p as [[link es] c]. injection H as <-.
      unfold senders_ok. cbn. unfold senders_ok in Hok. rewrite Hm in Hok.
      rewrite sender_keys_waiting, (sm_mutex _ _ (lm_same_after _ _ _)), (sm_senders _ _ (lm_same_after _ _ _)). cbn.
      rewrite Hm. by eapply senders_reset.
    + injection H as <-. by case_decide.
    + assert (H' : LinkMessaging_read max mode connection_id phase got s = Some s' ∨ s' = s)
        by (destruct mode; [by left|right; by injection H as <-|by left]).
      clear H. destruct H' as [H| ->]; [|done]. unfold LinkMessaging_read in H. destruct (readFully_again _ _ _).
      * inv_bind H. destruct p as [[[result stream] es] c]. injection H as <-.
        assert (Ha : senders_ok (lm_after es c (lm_with_in stream s))) by (by apply senders_ok_after).
        by destruct result.
      * injection H as <-. unfold LinkMessaging_have. destruct phase; repeat case_match; done.
  - injection H as <-. unfold senders_ok in *. cbn. rewrite fmap_app. by apply senders_new.
  - unfold LinkMessaging_sender_step in H. destruct (lm_senders s !! i) as [[rq p]|] eqn:Hi; [|by injection H as <-].
    destruct p as [| |mode id chunks|]; try by injection H as <-.
    + case_decide; injection H as <-; [|done]. by apply senders_ok_enter.
    + destruct mode; [by eapply senders_ok_write|by injection H as <-|by eapply senders_ok_write].
  - injection H as <-. apply senders_ok_reconnected. unfold senders_ok in *. cbn. by rewrite sender_keys_wake.
  - inv_bind H. destruct p as [[u es] c]. injection H as <-. by apply senders_ok_after.
  - inv_bind H. destruct p as [[u es] c]. injection H as <-. by apply senders_ok_after.
Qed.

Lemma senders_ok_run es s s' : senders_ok s → Forall lm_env es → lm_run max s es = Some s' → senders_ok s'.
Proof.
  intros Hok Henv. revert s Hok. induction Henv as [|e es He Hes IH]; intros s Hok H; cbn in H; [by injection H as <-|].
  inv_bind H. eapply IH; [|exact H]. by eapply senders_ok_exec.
Qed.

(** C10: messages do not mix. Threads call [send] and [sendContinuation] at any time, each [write]
    takes as little of a message as it likes and may sleep, and the link is replaced meanwhile. What the
    current link has taken is then always messages of calls that returned [true], whole and
    one after the other, followed by at most a part of one more message. While the stream is intact,
    that part belongs to the call that holds the lock, which has exactly the rest left to write. *)
Theorem LinkMessaging_messages_whole (c : Channel) (es : list lm_event) (s : LmSystem)
    (Henv : Forall lm_env es) (Hrun : lm_run max (lm_start c) es = Some s) :
  ∃ part, lm_out s = concat (message_bytes <$> lm_sent s) ++ part
    ∧ (∀ m, m ∈ lm_sent s → ∃ rq id, (rq, SReturned true id) ∈ lm_senders s ∧ m = rq_message rq)
    ∧ (part = [] ∨ ∃ rq, rq ∈ (lm_senders s).*1 ∧ part `prefix_of` message_bytes (rq_message rq))
    ∧ (ls_status (lk_out (lm_link s)) = kOk → match lm_mutex s with
       | None => part = []
       | Some i => ∃ rq mode id chunks, lm_senders s !! i = Some (rq, SWriting mode id chunks)
           ∧ part ++ concat chunks = message_bytes (rq_message rq)
       end).
Proof.
  assert (Hok : senders_ok s).
  { eapply senders_ok_run; [|exact Henv|exact Hrun]. constructor; cbn.
    - intros i. split; [done|]. by intros (rq & id & chunks & ?).
    - exists []. split; [done|]. split; [done|]. split; [done|by left].
    - by intros m ?%not_elem_of_nil.
    - constructor. }
  destruct Hok as [Hm (part & Ho & H1 & H2 & H3) Hsent _].
  assert (Hkeys : ((sender_key <$> lm_senders s)).*1 = (lm_senders s).*1)
    by (rewrite <- list_fmap_compose; by apply list_fmap_ext).
  rewrite Hkeys in H3. exists part. split; [done|]. split.
  - intros m (rq & id & Hin & ->)%Hsent. exists rq, id. split; [|done].
    apply list_elem_of_fmap in Hin as ([rq' p] & Heq & Hin). unfold sender_key in Heq. cbn in Heq.
    injection Heq as -> Hp. destruct p; try done. by injection Hp as <- <-.
  - split; [done|]. intros Hst. destruct (lm_mutex s) as [i|]; [|auto].
    destruct (proj1 (Hm i) eq_refl) as (rq & id & chunks & Hi). pose proof (H2 _ _ _ _ Hst Hi) as Hp.
    rewrite list_lookup_fmap in Hi. destruct (lm_senders s !! i) as [[rq' p]|]; [|done].
    unfold sender_key in Hi. cbn in Hi. injection Hi as -> Hi. destruct p; try done. injection Hi as -> ->. eauto 10.
Qed.

End Senders.

(** ** Runs *)

Definition lm_demo_run (es : list lm_event) : option LmSystem := c ← chan_demo_new; lm_run 100 (lm_start c) es.

(** The receive thread connects, and waits. *)
Definition lm_demo_connect : list lm_event := [LmBegin; LmReader [] 0; LmReader [7] 100; LmReader [] 0; LmReader [] 0].

(** The peer answers and sends a message of two bytes, which the thread reads; then another thread sends one of
    three. *)
Definition lm_demo_messages : list lm_event :=
  lm_demo_connect ++ [LmPacket (handshake_bytes 500 9 7 0x83); LmPacket [129; 244; 0; 0; 0; 2; 5; 6]]
  ++ replicate 5 (LmReader [] 0) ++ [LmSend (mkRequest None [1] [2; 3])] ++ replicate 8 (LmSender 0).

Lemma lm_demo_starts es s : lm_demo_run es = Some s → ∃ c, lm_run 100 (lm_start c) es = Some s.
Proof.
  unfold lm_demo_run. destruct chan_demo_new_ok as (c & Hc & _). rewrite (bind_step _ _ _ Hc). by exists c.
Qed.

Lemma LinkMessaging_thread_receives_witness :
  ∃ s events fuel0, lm_demo_run lm_demo_messages = Some s
    ∧ lm_events s = [Received 7 [5; 6]] ∧ open_connection s = [(7, [0; 0; 0; 2; 5; 6])]
    ∧ (∀ fuel, (fuel0 ≤ fuel)%nat → LinkMessaging_receiveLoop fuel 100 [(7, [0; 0; 0; 2; 5; 6])] = Some events)
    ∧ lm_events s `prefix_of` events.
Proof.
  destruct (lm_demo_run lm_demo_messages) as [s|] eqn:Hrun; [|exfalso; revert Hrun; vm_compute; discriminate].
  assert (Hf : option_map (λ s, (lm_events s, lm_past s, open_connection s)) (lm_demo_run lm_demo_messages)
    = Some ([Received 7 [5; 6]], [], [(7, [0; 0; 0; 2; 5; 6])])) by (vm_compute; reflexivity).
  rewrite Hrun in Hf. injection Hf as H1 H2 H3. destruct (lm_demo_starts _ _ Hrun) as [c Hc].
  destruct (LinkMessaging_thread_receives 100 c lm_demo_messages s Hc) as (events & fuel0 & Hloop & Hpre & _).
  rewrite H2, H3 in Hloop. exists s, events, fuel0. split; [reflexivity|]. split; [exact H1|]. split; [exact H3|].
  split; [exact Hloop|exact Hpre].
Defined.

Lemma LinkMessaging_messages_whole_witness :
  ∃ s part, lm_demo_run lm_demo_messages = Some s ∧ lm_sent s = [[1; 2; 3]]
    ∧ lm_out s = concat (message_bytes <$> lm_sent s) ++ part ∧ part = [].
Proof.
  destruct (lm_demo_run lm_demo_messages) as [s|] eqn:Hrun; [|exfalso; revert Hrun; vm_compute; discriminate].
  assert (Hf : option_map (λ s, (lm_sent s, ls_status (lk_out (lm_link s)), lm_mutex s)) (lm_demo_run lm_demo_messages)
    = Some ([[1; 2; 3]], kOk, None)) by (vm_compute; reflexivity).
  rewrite Hrun in Hf. injection Hf as H1 H2 H3. destruct (lm_demo_starts _ _ Hrun) as [c Hc].
  destruct (LinkMessaging_messages_whole 100 c lm_demo_messages s) as (part & Hout & _ & _ & Hpart).
  - repeat apply Forall_cons_2; try apply Forall_nil_2; try exact I. vm_compute. reflexivity.
  - exact Hc.
  - specialize (Hpart H2). rewrite H3 in Hpart. exists s, part. split; [reflexivity|]. split; [exact H1|].
    split; [exact Hout|exact Hpart].
Defined.
