(* ===== verification/MessagingEnd.v ===== *)
(** * MessagingEnd: how LinkMessaging comes to an end

    [LinkMessaging::end] among the other threads of [MessagingThreads]: what holds once it has
    returned, when it does return, and three ways in which it does not. *)

From S2P Require Import Prelude.
From S2P Require Import SeqNum.
From S2P Require Import RingBuffer.
From S2P Require Import RooIo.
From S2P Require Import Protocol.
From S2P Require Import Buffers.
From S2P Require Import Transmitter.
From S2P Require Import Receiver.
From S2P Require Import ThreadSafe.
From S2P Require Import Channel.
From S2P Require Import ChannelCorrect.
From S2P Require Import ChannelHandshake.
From S2P Require Import Link.
From S2P Require Import Messaging.
From S2P Require Import MessagingThreads.
From S2P Require Import MessagingThreadsCorrect.

Local Open Scope Z_scope.
Local Open Scope roo_scope.

(** ** A channel that was disconnected *)

(** Both halves are idle, until the next [connect]. *)
Definition quiet (c : Channel) : Prop :=
  tx_state (ch_transmitter c) = TkIdle ∧ rx_state (ch_receiver c) = RkIdle ∧ rx_my_stream_id (ch_receiver c) = 0.

(** [m] keeps what [P] says of the channel. *)
Definition keeps {A} (P : Channel → Prop) (m : ChM A) : Prop :=
  ∀ c a es c', P c → m c = Some (a, es, c') → P c'.

Lemma keeps_bind {A B} P (m : ChM A) (k : A → ChM B) : keeps P m → (∀ a, keeps P (k a)) → keeps P (ch_bind m k).
Proof. intros Hm Hk c b es c' Hc (a & es1 & c1 & es2 & H1 & H2 & _)%ch_bind_inv. eapply Hk; [|exact H2]. by eapply Hm. Qed.


Lemma keeps_ret {A} P (a : A) : keeps P (ch_ret a).
Proof. by intros c b es c' Hc [= <- <- <-]. Qed.

Lemma keeps_gets {A} P (f : Channel → A) : keeps P (ch_gets f).
Proof. by intros c b es c' Hc [= <- <- <-]. Qed.

Lemma keeps_emit P es : keeps P (ch_emit es).
Proof. by intros c b es' c' Hc [= <- <- <-]. Qed.

Lemma keeps_when P b m : keeps P m → keeps P (ch_when b m).
Proof. intros. destruct b; [done|apply keeps_ret]. Qed.

Lemma keeps_modify (P : Channel → Prop) f : (∀ c, P c → P (f c)) → keeps P (ch_modify f).
Proof. intros Hf c b es c' Hc [= <- <- <-]. auto. Qed.

Lemma keeps_on_transmitter {A} (P : Channel → Prop) (f : Transmitter → option (A * list Condition * Transmitter)) :
  (∀ c a cs t, P c → f (ch_transmitter c) = Some (a, cs, t) → P (ch_with_transmitter t c)) → keeps P (ch_on_transmitter f).
Proof.
  intros Hf c b es c' Hc H. unfold ch_on_transmitter in H.
  destruct (f _) as [[[a cs] t]|] eqn:Ht; [|done]. cbn in H. injection H as <- <- <-. by eapply Hf.
Qed.

Lemma keeps_on_receiver {A} (P : Channel → Prop) (f : Receiver → option (A * list Condition * Receiver)) :
  (∀ c a cs r, P c → f (ch_receiver c) = Some (a, cs, r) → P (ch_with_receiver r c)) → keeps P (ch_on_receiver f).
Proof.
  intros Hf c b es c' Hc H. unfold ch_on_receiver in H.
  destruct (f _) as [[[a cs] r]|] eqn:Hr; [|done]. cbn in H. injection H as <- <- <-. by eapply Hf.
Qed.

Section Quiet.

Context {io : RooIo} {pf : Platform}.

Lemma quiet_channel_notify : keeps quiet Channel_notify.
Proof.
  unfold Channel_notify. apply keeps_bind; [apply keeps_gets|intros p]. apply keeps_bind; [by apply keeps_modify|].
  intros _. apply keeps_when, keeps_emit.
Qed.

Lemma quiet_when_notify b : keeps quiet (ch_when b Channel_notify).
Proof. apply keeps_when, quiet_channel_notify. Qed.

(** Nothing that arrives disturbs a quiet channel. *)
Lemma quiet_packet buf : keeps quiet (LinkTransport_processIncomingPacket buf).
Proof.
  unfold LinkTransport_processIncomingPacket, Channel_packetReceived. cbv zeta.
  destruct (_ || _); [apply keeps_ret|]. destruct (GetPacketType _).
  - destruct (_ =? _); [apply keeps_ret|]. apply keeps_bind; [|intros; apply quiet_when_notify].
    apply keeps_on_receiver. intros c a cs r (Ht & Hr & Hi) H.
    unfold ThreadSafeReceiver_handleDataPacket, Receiver_handleDataPacket in H. rewrite Hr in H. by injection H as <- <- <-.
  - apply keeps_bind; [|intros; apply quiet_when_notify].
    apply keeps_on_receiver. intros c a cs r (Ht & Hr & Hi) H.
    unfold ThreadSafeReceiver_handleDataPacket, Receiver_handleDataPacket in H. rewrite Hr in H. by injection H as <- <- <-.
  - apply keeps_bind; [|intros; apply quiet_when_notify].
    apply keeps_on_transmitter. intros c a cs t (Ht & Hr & Hi) H.
    unfold ThreadSafeTransmitter_ack, Transmitter_ack in H. rewrite Ht in H. injection H as <- <- <-. by split.
  - do 3 (match goal with |- keeps _ (if ?b then _ else _) => destruct b end; [apply keeps_ret|]).
    apply keeps_bind; [|intros; apply quiet_when_notify]. intros c a es c' Hc H. unfold Channel_handleHandshakePacket in H.
    apply ch_bind_inv in H as (my_id & es1 & c1 & es2 & H1 & H & _). injection H1 as _ <- <-.
    apply ch_bind_inv in H as (front & es3 & c3 & es4 & H3 & H & _). injection H3 as _ <- <-.
    destruct (_ && _); [by injection H as <- <- <-|].
    apply ch_bind_inv in H as (st & es5 & c5 & es6 & H5 & H & _). injection H5 as <- <- <-.
    destruct Hc as (Ht & Hr & Hi). rewrite Hr in H. by injection H as <- <- <-.
  - destruct (negb _); [apply keeps_ret|]. apply keeps_on_transmitter. intros c a cs t (Ht & Hr & Hi) H.
    unfold unit_result, ThreadSafeTransmitter_updateRecvHimark, Transmitter_updateRecvHimark in H. rewrite Ht in H.
    injection H as <- <- <-. by split.
  - apply keeps_ret.
Qed.

Lemma quiet_burst n env next : keeps quiet (Channel_burst n env next).
Proof.
  revert env next. induction n as [|n IH]; intros env next; cbn [Channel_burst]; [apply keeps_ret|].
  apply keeps_bind.
  - apply keeps_on_transmitter. intros c a cs t (Ht & Hr & Hi) H.
    unfold no_conditions, ThreadSafeTransmitter_send, Transmitter_send, Transmitter_getBufferToSend in H.
    rewrite Ht in H. cbn in H. injection H as <- <- <-. by split.
  - intros [packet next']. destruct packet; [apply keeps_ret|]. apply keeps_bind; [apply keeps_emit|intros; apply IH].
Qed.

(** What [ack] and [updateRecvHimark] leave alone. *)
Lemma receiver_ack_same r packet r' :
  Receiver_ack r = Some (packet, r') → r' = r ∨ r' = rx_with_needs_ack false r.
Proof.
  unfold Receiver_ack. destruct (_ || _); [intros [= _ <-]; by left|]. intros H. inv_bind H.
  destruct (_ =? _); [injection H as _ <-; by right|]. inv_bind H. injection H as _ <-. by right.
Qed.

Lemma quiet_conn now draw next : keeps quiet (Channel_conn now draw next).
Proof.
  intros c a es c' Hc H. unfold Channel_conn in H.
  do 3 (apply ch_bind_inv in H as (? & ? & ? & ? & Hg & H & _); injection Hg as <- <- <-).
  destruct Hc as (Ht & Hr & Hi). rewrite Ht in H. by injection H as <- <- <-.
Qed.

Lemma quiet_trySend now draw now' env : keeps quiet (Channel_trySend now draw now' env).
Proof.
  assert (Hp : ∀ p, keeps quiet (send_packet p)) by (intros []; [apply keeps_ret|apply keeps_emit]).
  unfold Channel_trySend. apply keeps_bind; [apply quiet_conn|intros [packet next]]. apply keeps_bind; [done|intros _].
  apply keeps_bind; [apply keeps_gets|intros st]. destruct (decide _); [apply keeps_ret|].
  apply keeps_bind.
  { apply keeps_on_receiver. intros c a cs r (Ht & Hr & Hi) H. unfold no_conditions in H.
    destruct (Receiver_ack _) as [[x r']|] eqn:Hack; [|done]. cbn in H. injection H as _ _ <-.
    by destruct (receiver_ack_same _ _ _ Hack) as [-> | ->]. }
  intros packet'. apply keeps_bind; [done|intros _]. apply keeps_bind.
  { apply keeps_on_receiver. intros c a cs r (Ht & Hr & Hi) H. unfold no_conditions, Receiver_updateRecvHimark in H.
    rewrite Hr in H. cbn in H. injection H as _ _ <-. by split. }
  intros [packet2 next2]. apply keeps_bind; [done|intros _]. apply quiet_burst.
Qed.

Lemma discard_same fuel r r' :
  Receiver_discard fuel r = Some r' → rx_state r' = rx_state r ∧ rx_my_stream_id r' = rx_my_stream_id r.
Proof.
  revert r. induction fuel as [|fuel IH]; intros r H; cbn in H; [done|].
  destruct (RingBuffer_empty _); [by injection H as <-|]. inv_bind H. destruct p as [x ring]. by apply IH in H.
Qed.

(** [disconnect] of the current stream makes the channel quiet, and wakes who reads. *)
Lemma disconnect_quiet id c u es c' :
  ch_my_stream_id c = id → Channel_disconnect id c = Some (u, es, c') → quiet c' ∧ Notify has_data ∈ es.
Proof.
  intros Hid H. unfold Channel_disconnect in H.
  apply ch_bind_inv in H as (i & es1 & c1 & es2 & H1 & H & ->). injection H1 as <- <- <-.
  rewrite Hid, Z.eqb_refl in H. cbn [negb] in H.
  do 3 (apply ch_bind_inv in H as (? & ? & ? & ? & Hg & H & ->); injection Hg as <- <- <-).
  apply ch_bind_inv in H as (v & es3 & c3 & es4 & H3 & H & ->).
  apply ch_bind_inv in H as (v' & es5 & c5 & es6 & H5 & H & ->).
  assert (Hq : quiet c5 ∧ Notify has_data ∈ es5).
  { unfold ch_on_transmitter, unit_result, ThreadSafeTransmitter_reset in H3.
    destruct (Transmitter_reset _) as [t|] eqn:Ht; [|done]. cbn in H3. injection H3 as <- <- <-.
    unfold Transmitter_reset in Ht. inv_bind Ht. injection Ht as <-.
    unfold ch_on_receiver, unit_result, ThreadSafeReceiver_reset in H5.
    destruct (Receiver_reset _) as [rx|] eqn:Hr; [|done]. cbn in H5. injection H5 as <- <- <-.
    unfold Receiver_reset in Hr. inv_bind Hr. injection Hr as <-.
    apply discard_same in E0 as [H1 H2]. cbn in H1, H2. split; [by repeat split|]. by left. }
  destruct Hq as [Hq Hin]. split.
  - revert Hq H. clear. intros Hq H.
    assert (Hk : keeps quiet (ch_emit [Notify connected_cv] ;;; disconnect_fn <~ ch_gets ch_disconnect_fn ;;
      ch_modify (ch_with_disconnect_fn None) ;;; Channel_notify ;;; call_disconnect_fn disconnect_fn)); [|by eapply Hk].
    apply keeps_bind; [apply keeps_emit|intros _]. apply keeps_bind; [apply keeps_gets|intros fn].
    apply keeps_bind; [by apply keeps_modify|intros _]. apply keeps_bind; [apply quiet_channel_notify|intros _].
    destruct fn; [apply keeps_emit|apply keeps_ret].
  - set_solver.
Qed.

(** A read from a stream of a quiet channel fails at once. *)
Lemma quiet_read mode count s c :
  quiet c → ls_channel s = true → ls_my_stream_id s ≠ 0 → ls_status s = kOk → count ≠ 0 →
  (match mode with
   | Awake => LinkInputStream_read_round count s
   | _ => LinkInputStream_read count s
   end) c = Some ((Returned [], ls_with_status kConnectionError s), [], c).
Proof.
  intros (Ht & Hr & Hi) Hs Hid Hst Hcount.
  assert (Hc : ch_with_receiver (ch_receiver c) c = c) by (by destruct c).
  assert (Hround : ∀ m : ChM (Blocking (list byte * Status)), m c = Some (Returned ([], kConnectionError), [], c) →
    (result <~ via_channel s m ;;
     ch_ret (match result with
             | Returned (bytes, status) => (Returned bytes, ls_with_status status s)
             | Blocked cv => (Blocked cv, s)
             end)) c = Some ((Returned [], ls_with_status kConnectionError s), [], c)).
  { intros m Hm. by erewrite ch_bind_run by (by apply via_run). }
  assert (Hstatus : ThreadSafeReceiver_checkConnectionStatus (ch_receiver c) (ls_my_stream_id s) = kConnectionError).
  { unfold ThreadSafeReceiver_checkConnectionStatus. rewrite Hi. by rewrite (proj2 (Z.eqb_neq _ 0)). }
  assert (Hread : LinkInputStream_read count s c = Some ((Returned [], ls_with_status kConnectionError s), [], c)).
  { unfold LinkInputStream_read, is_ok. rewrite Hst, (proj2 (Z.eqb_neq count 0)), bool_decide_true by done. cbn [orb negb].
    apply Hround. unfold Channel_read, ch_on_receiver, no_conditions, ThreadSafeReceiver_read, ch_bind.
    rewrite (proj2 (Z.eqb_neq count 0)), Hstatus by done. cbn. by rewrite Hc. }
  destruct mode; [done|done|]. unfold LinkInputStream_read_round. apply Hround.
  unfold Channel_read_round, ch_on_receiver, no_conditions, ThreadSafeReceiver_read_round, Receiver_tryRead, ch_bind.
  rewrite Hr. cbn. rewrite Hstatus. cbn. by rewrite Hc.
Qed.

End Quiet.

(** ** The invariant *)

Definition settled (rp : request * sending_pc) : Prop :=
  match rp.2 with SEnter | SReturned _ _ => True | _ => False end.

Definition in_connection (p : reader_pc) : bool :=
  match p with RIn _ | RReading _ _ _ _ | RReset _ => true | _ => false end.

(** Whether the receive thread can still call [connect] or the receiver, once it is closed. *)
Definition winding_down (p : reader_pc) : Prop :=
  match p with RNotStarted | RTest | RDone => True | _ => False end.

Definition not_ended (p : ender_pc) : Prop := p = ENotCalled ∨ p = EDisconnect.

Record end_inv (s : LmSystem) : Prop := {
  ei_closed : lm_ender s ≠ ENotCalled → lm_is_closed s = true;
  ei_joined : ¬ not_ended (lm_ender s) → lm_mutex s = None ∧ Forall settled (lm_senders s);
  ei_returned : lm_ender s = EReturned → winding_down (lm_reader s);
  ei_in : in_connection (lm_reader s) = true →
    ls_channel (lk_in (lm_link s)) = true ∧ ls_my_stream_id (lk_in (lm_link s)) ≠ 0
    ∧ ls_my_stream_id (lk_in (lm_link s)) = lk_my_stream_id (lm_link s)
    ∧ (not_ended (lm_ender s) → lk_channel (lm_link s) = true);
}.

Lemma in_connection_key p : in_connection (reader_key p) = in_connection p.
Proof. by destruct p. Qed.

Lemma winding_down_key p : winding_down (reader_key p) ↔ winding_down p.
Proof. by destruct p. Qed.

Lemma settled_wake l : Forall settled l → Forall settled (wake_writer <$> l).
Proof. intros Hl. apply Forall_fmap. eapply Forall_impl; [exact Hl|]. intros [rq []]; done. Qed.

Lemma settled_after es c s : Forall settled (lm_senders s) → Forall settled (lm_senders (lm_after es c s)).
Proof.
  intros Hs. unfold lm_after. induction es as [|e es IH]; cbn [foldr]; [done|].
  destruct e as [|[]| |]; cbn; auto using settled_wake.
Qed.

Lemma settled_reconnected l : Forall settled l → wake_waiting <$> l = l.
Proof.
  intros Hl. rewrite <- (list_fmap_id l) at 2. apply list_fmap_ext. intros i rp Hi.
  rewrite Forall_lookup in Hl. specialize (Hl _ _ Hi). by destruct rp as [rq []].
Qed.

(** Changing only who sleeps keeps the invariant, as long as nobody who sent is affected. *)
Lemma end_inv_same s s' :
  lm_same s s' → (Forall settled (lm_senders s) → Forall settled (lm_senders s')) → end_inv s → end_inv s'.
Proof.
  intros [Hlk Hcl Hmx Hrd Hen _ _ _ _ _ _] Hset [H1 H2 H3 H4]. constructor; rewrite ?Hcl, ?Hmx, ?Hen, ?Hlk.
  - done.
  - intros Hn. destruct (H2 Hn). auto.
  - intros He%H3. by rewrite <- winding_down_key, Hrd, winding_down_key.
  - intros Hin. apply H4. by rewrite <- in_connection_key, <- Hrd, in_connection_key.
Qed.

Lemma end_inv_after es c s : end_inv s → end_inv (lm_after es c s).
Proof. apply end_inv_same; [apply lm_same_after|apply settled_after]. Qed.

Lemma end_inv_reconnected s : end_inv s → end_inv (lm_reconnected s).
Proof.
  apply end_inv_same; [apply lm_same_reconnected|]. intros Hs. cbn. by rewrite settled_reconnected.
Qed.

(** The receive thread moves within its connection, or out of it. *)
Lemma end_inv_reader p s :
  end_inv s → (in_connection p = true → in_connection (lm_reader s) = true) →
  (lm_ender s = EReturned → winding_down p) → end_inv (lm_with_reader p s).
Proof. intros [H1 H2 H3 H4] Hin Hw. constructor; cbn; auto. Qed.

Section EndInv.

Context {io : RooIo} {io_laws : RooIoLaws} {pf : Platform} {full : FullIo} {full_laws : FullIoLaws}.
Context (max : Z).

Lemma draw_stream_id_ne draws d : draw_stream_id draws = Some d → d ≠ 0.
Proof. induction draws as [|x draws IH]; cbn; [done|]. destruct (Z.eqb_spec x 0); [done|]. by intros [= <-]. Qed.

Lemma connectAsync_link fn draws start c link es c' :
  LinkTransport_connectAsync fn draws start c = Some (link, es, c') → ∃ id, id ≠ 0 ∧ link = Link_new id.
Proof.
  intros (id & es1 & c1 & es2 & H1 & H2 & _)%ch_bind_inv. injection H2 as <- <- <-. exists id. split; [|done].
  unfold Channel_connect in H1.
  do 4 (apply ch_bind_inv in H1 as (? & ? & ? & ? & Hg & H1 & _); injection Hg as <- <- <-).
  apply ch_bind_inv in H1 as (u & es3 & c3 & es4 & Hd & H1 & _).
  destruct (draw_stream_id draws) as [d|] eqn:Hdraw; [|done]. cbn in Hd. injection Hd as <- <- <-.
  apply ch_bind_inv in H1 as (i & es5 & c5 & es6 & Hg & H1 & _). injection Hg as <- _ _.
  do 8 (apply ch_bind_inv in H1 as (? & ? & ? & ? & _ & H1 & _)). injection H1 as <- _ _.
  by apply (draw_stream_id_ne _ _ Hdraw).
Qed.

(** The receive thread, inside its connection. *)
Lemma end_inv_read mode id phase got s s' :
  end_inv s → lm_reader s = RReading mode id phase got → LinkMessaging_read max mode id phase got s = Some s' →
  end_inv s'.
Proof.
  intros Hok Hr H. assert (Hne : lm_ender s ≠ EReturned).
  { intros He. pose proof (ei_returned _ Hok He) as Hw. by rewrite Hr in Hw. }
  unfold LinkMessaging_read in H. destruct (readFully_again _ _ _).
  - inv_bind H. destruct p as [[[result stream] es] c].
    destruct (stream_read_inv _ _ _ _ _ _ _ _ (Zle_0_nat _) E) as (_ & [st ->] & _). injection H as <-.
    set (s1 := lm_after es c (lm_with_in (ls_with_status st (lk_in (lm_link s))) s)).
    assert (H1 : end_inv s1).
    { apply end_inv_after. destruct Hok as [H1 H2 H3 H4]. constructor; done. }
    pose proof (lm_same_after es c (lm_with_in (ls_with_status st (lk_in (lm_link s))) s)) as Hs. fold s1 in Hs.
    assert (Hin : in_connection (lm_reader s1) = true)
      by (rewrite <- in_connection_key, (sm_reader _ _ Hs); cbn; by rewrite Hr).
    destruct result as [bytes|cv].
    + assert (H2 : end_inv (lm_with_received (lm_past s1) (lm_bytes s1 ++ bytes) s1)) by (by destruct H1).
      apply end_inv_reader; [done|done|]. cbn. by rewrite (sm_ender _ _ Hs).
    + apply end_inv_reader; [done|done|]. by rewrite (sm_ender _ _ Hs).
  - injection H as <-. unfold LinkMessaging_have.
    assert (Hemit : ∀ e, end_inv (lm_emit e s)) by (intros e; by destruct Hok).
    destruct phase; repeat case_match; apply end_inv_reader; cbn; auto; by rewrite Hr.
Qed.

Lemma end_inv_reader_step draws start s s' :
  end_inv s → LinkMessaging_reader_step max draws start s = Some s' → end_inv s'.
Proof.
  intros Hok H. unfold LinkMessaging_reader_step in H. destruct (lm_reader s) eqn:Hr.
  - by injection H as <-.
  - injection H as <-. destruct (lm_is_closed s) eqn:Hc; apply end_inv_reader; try done.
    intros He. exfalso. pose proof (ei_closed _ Hok ltac:(congruence)). congruence.
  - case_decide; [|by injection H as <-]. unfold LinkMessaging_reconnect in H. inv_bind H.
    destruct p as [[link es] c]. destruct (connectAsync_link _ _ _ _ _ _ _ E) as (id & Hid & ->). injection H as <-.
    set (s1 := lm_with_reader (RIn id) (lm_with_link (Link_new id) s)).
    assert (Hne : lm_ender s ≠ EReturned).
    { intros He. pose proof (ei_returned _ Hok He) as Hw. by rewrite Hr in Hw. }
    assert (Hs1 : end_inv s1).
    { destruct Hok as [H1 H2 H3 H4]. constructor; [done|done|done|]. intros _. done. }
    destruct (lm_same_after es c (lm_with_link (Link_new id) s)) as [Hlk Hcl Hmx _ Hen Hse _ _ _ _ _].
    destruct Hs1 as [H1 H2 H3 H4]. constructor; cbn; rewrite ?Hcl, ?Hmx, ?Hen, ?Hlk; [done| | |].
    + intros Hn. destruct (H2 Hn) as [? Hset]. split; [done|].
      pose proof (settled_after es c (lm_with_link (Link_new id) s) Hset). by rewrite settled_reconnected.
    + done.
    + intros _. by apply H4.
  - case_decide; injection H as <-; [|done]. apply end_inv_reader; [done|by rewrite Hr|].
    intros He. pose proof (ei_returned _ Hok He) as Hw. by rewrite Hr in Hw.
  - destruct mode; [by eapply end_inv_read|by injection H as <-|by eapply end_inv_read].
  - injection H as <-. assert (H1 : end_inv (lm_emit (Reset connection_id)
      (lm_with_received (lm_past s ++ [(connection_id, lm_bytes s)]) [] s))) by (by destruct Hok).
    by apply end_inv_reader.
  - by injection H as <-.
Qed.

(** While the mutex is free, no thread is writing. *)
Lemma nobody_writes s : senders_ok s → lm_mutex s = None →
  Forall settled (wake_waiting <$> lm_senders s).
Proof.
  intros Hok Hm. apply Forall_fmap, Forall_lookup. intros i [rq p] Hi. destruct p as [| |mode id chunks|]; try done.
  assert (Some i = None) as Hs; [|done]. rewrite <- Hm. symmetry. apply (si_mutex _ _ _ _ _ Hok).
  exists rq, id, chunks. by rewrite list_lookup_fmap, Hi.
Qed.

Lemma end_inv_ender s s' :
  end_inv s → senders_ok s → LinkMessaging_end_step s = Some s' → end_inv s'.
Proof.
  intros Hok Hsend H. unfold LinkMessaging_end_step in H. destruct (lm_ender s) eqn:He; try by injection H as <-.
  - case_decide as Hm; [|by injection H as <-]. inv_bind H. destruct p as [[link es] c]. injection H as <-.
    destruct (disconnect_link _ _ _ _ _ E) as (_ & Hin & Hid & _).
    destruct (lm_same_after es c (lm_with_link link s)) as [Hlk Hcl Hmx Hrd Hen Hse _ _ _ _ _].
    destruct Hok as [H1 H2 H3 H4]. constructor; cbn; rewrite ?Hcl, ?Hmx, ?Hlk; cbn.
    + intros _. apply H1. by rewrite He.
    + intros _. split; [done|]. apply nobody_writes; [|by rewrite Hmx].
      apply senders_ok_after. unfold senders_ok in *. cbn.
      by destruct (disconnect_link _ _ _ _ _ E) as (-> & _).
    + done.
    + intros Hc. rewrite <- in_connection_key, Hrd, in_connection_key in Hc. cbn in Hc. rewrite Hin, Hid.
      destruct (H4 Hc) as (? & ? & ? & _). split_and!; try done. by intros [?|?].
  - injection H as <-. assert (Hj : ∀ p, winding_down p → end_inv (lm_with_ender EReturned (lm_with_reader p s))).
    { intros p Hp. destruct Hok as [H1 H2 H3 H4]. constructor; cbn.
      - intros _. apply H1. by rewrite He.
      - intros _. apply H2. rewrite He. by intros [?|?].
      - done.
      - by destruct p. }
    destruct (lm_reader s) eqn:Hr; try done; by apply Hj.
Qed.

(** What a thread that sends leaves alone. *)
Record sender_keeps (s s' : LmSystem) : Prop := {
  sk_closed : lm_is_closed s' = lm_is_closed s;
  sk_ender : lm_ender s' = lm_ender s;
  sk_reader : reader_key (lm_reader s') = reader_key (lm_reader s);
  sk_in : lk_in (lm_link s') = lk_in (lm_link s);
  sk_id : lk_my_stream_id (lm_link s') = lk_my_stream_id (lm_link s);
  sk_channel : lk_channel (lm_link s') = lk_channel (lm_link s);
  sk_events : lm_events s' = lm_events s;
}.

Lemma sender_step_keeps i s s' : LinkMessaging_sender_step i s = Some s' → sender_keeps s s'.
Proof.
  intros H. unfold LinkMessaging_sender_step in H.
  destruct (lm_senders s !! i) as [[rq p]|]; [|by injection H as <-]. destruct p as [| |mode id chunks|]; try by injection H as <-.
  - case_decide; injection H as <-; [|done]. unfold LinkMessaging_enter. cbv zeta. destruct (lm_is_closed s) eqn:Hc; [done|].
    destruct (rq_connection rq); [by destruct (_ =? _)|]. by destruct (Link_status _ _).
  - assert (H' : LinkMessaging_write i rq mode id chunks s = Some s' ∨ s' = s)
      by (destruct mode; [by left|right; by injection H as <-|by left]).
    clear H. destruct H' as [H| ->]; [|done]. unfold LinkMessaging_write in H.
    assert (Ha : ∀ stream es c, sender_keeps s (lm_after es c (lm_with_out stream s))).
    { intros stream es c. destruct (lm_same_after es c (lm_with_out stream s)) as [Hlk Hcl Hmx Hrd Hen _ Hev _ _ _ _].
      constructor; rewrite ?Hlk; done. }
    destruct chunks as [|chunk chunks].
    + inv_bind H. destruct p as [[stream es] c]. injection H as <-. destruct (Ha stream es c). by destruct (stream_isOpen _).
    + destruct (writeFully_again _ _); [|by injection H as <-]. inv_bind H. destruct p as [[[result stream] es] c].
      injection H as <-. destruct (Ha stream es c). by destruct result.
Qed.

(** After end() has passed the lock, [send] and [sendContinuation] refuse. *)
Lemma sender_step_ended i s s' :
  LinkMessaging_sender_step i s = Some s' → lm_is_closed s = true → lm_mutex s = None → Forall settled (lm_senders s) →
  s' = s ∨ ∃ rq, lm_senders s !! i = Some (rq, SEnter) ∧ s' = lm_with_sender i rq (SReturned false None) s.
Proof.
  intros H Hc Hm Hs. unfold LinkMessaging_sender_step in H. destruct (lm_senders s !! i) as [[rq p]|] eqn:Hi;
    [|left; by injection H as <-].
  rewrite Forall_lookup in Hs. specialize (Hs _ _ Hi). destruct p as [| |mode id chunks|]; try done.
  - rewrite decide_True in H by done. injection H as <-. right. exists rq. split; [done|].
    unfold LinkMessaging_enter. cbv zeta. by rewrite Hc.
  - left. by injection H as <-.
Qed.

Lemma end_inv_sender i s s' : end_inv s → LinkMessaging_sender_step i s = Some s' → end_inv s'.
Proof.
  intros Hok H. destruct (sender_step_keeps _ _ _ H) as [Hcl Hen Hrd Hin Hid Hch _]. destruct Hok as [H1 H2 H3 H4].
  constructor; rewrite ?Hcl, ?Hen, ?Hin, ?Hid, ?Hch.
  - done.
  - intros Hn. destruct (H2 Hn) as [Hm Hs].
    assert (Hc : lm_is_closed s = true) by (apply H1; intros He; apply Hn; by left).
    destruct (sender_step_ended _ _ _ H Hc Hm Hs) as [->|(rq & Hi & ->)]; [done|]. split; [done|].
    by apply Forall_insert.
  - intros He%H3. by rewrite <- winding_down_key, Hrd, winding_down_key.
  - intros Hc. apply H4. by rewrite <- in_connection_key, <- Hrd, in_connection_key.
Qed.

Lemma end_inv_exec s e s' :
  end_inv s → senders_ok s → lm_exec max s e = Some s' → end_inv s'.
Proof.
  intros Hok Hsend H. destruct e; cbn [lm_exec] in H.
  - unfold LinkMessaging_begin in H. destruct (lm_reader s); try done. injection H as <-. by apply end_inv_reader.
  - injection H as <-. unfold LinkMessaging_end_call. destruct (lm_is_closed s) eqn:Hc; [done|].
    destruct Hok as [H1 H2 H3 H4]. assert (He : lm_ender s = ENotCalled).
    { destruct (lm_ender s); [done|..]; by rewrite H1 in Hc. }
    constructor; cbn; [done| |done|].
    + intros Hn. destruct Hn. by right.
    + intros Hin%H4. rewrite He in Hin. destruct Hin as (? & ? & ? & Hl). split_and!; try done. intros _. apply Hl. by left.
  - by eapply end_inv_ender.
  - by eapply end_inv_reader_step.
  - injection H as <-. destruct Hok as [H1 H2 H3 H4]. constructor; cbn; try done.
    intros Hn. destruct (H2 Hn). split; [done|]. apply Forall_app. split; [done|]. by repeat constructor.
  - by eapply end_inv_sender.
  - injection H as <-. apply end_inv_reconnected. revert Hok. apply end_inv_same.
    + constructor; cbn; auto using reader_key_wake, sender_keys_wake.
    + cbn. apply settled_wake.
  - inv_bind H. destruct p as [[u es] c]. injection H as <-. by apply end_inv_after.
  - inv_bind H. destruct p as [[u es] c]. injection H as <-. by apply end_inv_after.
Qed.

Lemma lm_start_ok c : senders_ok (lm_start c) ∧ end_inv (lm_start c).
Proof.
  split.
  - constructor; cbn.
    + intros i. split; [done|]. by intros (rq & id & chunks & ?).
    + exists []. split; [done|]. split; [done|]. split; [done|by left].
    + by intros m ?%not_elem_of_nil.
    + constructor.
  - constructor; cbn; [done| |done|done]. intros Hn. destruct Hn. by left.
Qed.

Lemma end_inv_run es s s' :
  senders_ok s → end_inv s → Forall lm_env es → lm_run max s es = Some s' → senders_ok s' ∧ end_inv s'.
Proof.
  intros Hsend Hok Henv. revert s Hsend Hok. induction Henv as [|e es He Hes IH]; intros s Hsend Hok H; cbn in H.
  - by injection H as <-.
  - inv_bind H. eapply IH; [| |exact H]; [by eapply senders_ok_exec|by eapply end_inv_exec].
Qed.

Lemma lm_run_app es es' s s' :
  lm_run max s (es ++ es') = Some s' ↔ ∃ s1, lm_run max s es = Some s1 ∧ lm_run max s1 es' = Some s'.
Proof.
  revert s. induction es as [|e es IH]; intros s; cbn.
  - split; [by exists s|]. by intros (s1 & [= ->] & ?).
  - destruct (lm_exec max s e) as [s1|]; cbn; [apply IH|]. split; [done|by intros (? & ? & _)].
Qed.

End EndInv.

(** ** The contract *)

Section Contract.

Context {io : RooIo} {io_laws : RooIoLaws} {pf : Platform} {full : FullIo} {full_laws : FullIoLaws}.
Context (max : Z).

(** Once end() has returned, no step calls the receiver and no call of [send] is accepted. *)
Lemma returned_exec s e s' :
  senders_ok s → end_inv s → lm_ender s = EReturned → lm_exec max s e = Some s' →
  lm_ender s' = EReturned ∧ lm_events s' = lm_events s
  ∧ ∀ i rq id, lm_senders s' !! i = Some (rq, SReturned true id) → lm_senders s !! i = Some (rq, SReturned true id).
Proof.
  intros Hsend Hok He H. destruct (ei_joined _ Hok) as [Hm Hs]; [rewrite He; by intros [?|?]|].
  assert (Hc : lm_is_closed s = true) by (apply (ei_closed _ Hok); by rewrite He).
  pose proof (ei_returned _ Hok He) as Hw.
  assert (Hafter : ∀ es c, lm_ender (lm_after es c s) = EReturned ∧ lm_events (lm_after es c s) = lm_events s
    ∧ ∀ i rq id, lm_senders (lm_after es c s) !! i = Some (rq, SReturned true id) → lm_senders s !! i = Some (rq, SReturned true id)).
  { intros es c. destruct (lm_same_after es c s) as [_ _ _ _ -> Hse -> _ _ _ _]. split; [done|]. split; [done|].
    intros i rq id Hi. assert (Hk : (sender_key <$> lm_senders s) !! i = Some (rq, SReturned true id)).
    { rewrite <- Hse, list_lookup_fmap, Hi. done. }
    rewrite list_lookup_fmap in Hk. destruct (lm_senders s !! i) as [[rq' p]|]; [|done].
    unfold sender_key in Hk. cbn in Hk. injection Hk as -> Hp. destruct p; try done. by injection Hp as -> ->. }
  destruct e; cbn [lm_exec] in H.
  - unfold LinkMessaging_begin in H. destruct (lm_reader s); try done. by injection H as <-.
  - injection H as <-. unfold LinkMessaging_end_call. by rewrite Hc.
  - unfold LinkMessaging_end_step in H. rewrite He in H. by injection H as <-.
  - unfold LinkMessaging_reader_step in H. destruct (lm_reader s); try done; by injection H as <-.
  - injection H as <-. cbn. split; [done|]. split; [done|]. intros i rq' id Hi.
    apply lookup_app_Some in Hi as [?|[_ [_ Hi]%list_lookup_singleton_Some]]; [done|]. by injection Hi.
  - destruct (sender_step_ended _ _ _ H Hc Hm Hs) as [->|(rq & Hi & ->)]; [done|]. split; [done|]. split; [done|].
    intros j rq' id Hj. cbn in Hj. destruct (decide (j = i)) as [->|Hne].
    + rewrite list_lookup_insert_eq in Hj by (by eapply lookup_lt_Some). by injection Hj.
    + by rewrite list_lookup_insert_ne in Hj.
  - injection H as <-. cbn. rewrite settled_reconnected by (by apply settled_wake). split; [done|]. split; [done|].
    intros i rq id Hi. rewrite list_lookup_fmap in Hi. destruct (lm_senders s !! i) as [[rq' p]|]; [|done].
    cbn in Hi. injection Hi as -> Hp. destruct p; try done. by injection Hp as -> ->.
  - inv_bind H. destruct p as [[u es] c]. by injection H as <-.
  - inv_bind H. destruct p as [[u es] c]. by injection H as <-.
Qed.

(** C12: after end() nothing happens. Once end() has returned, and whatever is done to the object
    then, begin() included: the receiver is never called again, the receive thread is gone
    or about to go without having connected, no thread waits in [send] or holds the
    lock, every call of [send] or [sendContinuation] that has not returned returns [false] at its next step,
    and none is accepted. *)
Theorem LinkMessaging_end_is_final (c : Channel) (es es' : list lm_event) (s s' : LmSystem)
    (Henv : Forall lm_env es) (Henv' : Forall lm_env es')
    (Hrun : lm_run max (lm_start c) es = Some s) (Hended : lm_ender s = EReturned)
    (Hrun' : lm_run max s es' = Some s') :
  lm_events s' = lm_events s ∧ winding_down (lm_reader s') ∧ lm_mutex s' = None
  ∧ (∀ i rq id, lm_senders s' !! i = Some (rq, SReturned true id) → lm_senders s !! i = Some (rq, SReturned true id))
  ∧ (∀ i rq p, lm_senders s' !! i = Some (rq, p) → (∀ b id, p ≠ SReturned b id) →
       lm_exec max s' (LmSender i) = Some (lm_with_sender i rq (SReturned false None) s')).
Proof.
  destruct (lm_start_ok c) as [Hs0 He0]. destruct (end_inv_run max es _ _ Hs0 He0 Henv Hrun) as [Hs He].
  assert (Hall : senders_ok s' ∧ end_inv s' ∧ lm_ender s' = EReturned ∧ lm_events s' = lm_events s
    ∧ ∀ i rq id, lm_senders s' !! i = Some (rq, SReturned true id) → lm_senders s !! i = Some (rq, SReturned true id)).
  { clear Hrun Hs0 He0 Henv es. revert s Hs He Hended Hrun'.
    induction Henv' as [|e es He' Hes IH]; intros s Hs He Hended H; cbn in H; [by injection H as <-|].
    inv_bind H. destruct (returned_exec _ _ _ Hs He Hended E) as (Hen & Hev & Hret).
    pose proof (senders_ok_exec max _ _ _ Hs He' E) as Hs1. pose proof (end_inv_exec max _ _ _ He Hs E) as He1.
    destruct (IH _ Hs1 He1 Hen H) as (? & ? & ? & Hev' & Hret'). split_and!; try done; [congruence|]. eauto. }
  destruct Hall as (Hs' & He' & Hen & Hev & Hret).
  destruct (ei_joined _ He') as [Hm Hset]; [rewrite Hen; by intros [?|?]|].
  split; [done|]. split; [by apply ei_returned|]. split; [done|]. split; [done|].
  intros i rq p Hi Hp. rewrite Forall_lookup in Hset. specialize (Hset _ _ Hi).
  destruct p as [| |mode id chunks|b id]; try done; [|by destruct (Hp b id)].
  cbn. unfold LinkMessaging_sender_step. rewrite Hi, decide_True by done. unfold LinkMessaging_enter. cbv zeta.
  rewrite (ei_closed _ He'); [done|]. by rewrite Hen.
Qed.

(** *** end() returns *)

(** From here the receive thread ends by itself: the stream it reads is dead. *)
Definition cut (s : LmSystem) : Prop :=
  match lm_reader s with
  | RConnect | RReading Sleeping _ _ _ => False
  | RNotStarted | RTest | RDone => True
  | _ => quiet (lm_channel s)
  end.

Definition joining (s : LmSystem) : Prop := senders_ok s ∧ end_inv s ∧ ¬ not_ended (lm_ender s) ∧ cut s.

(** The effects of others leave a thread that is not asleep where it is. *)
Lemma cut_after es c s : (quiet (lm_channel s) → quiet c) → cut s → cut (lm_after es c s).
Proof.
  intros Hq Hc. unfold cut in *. rewrite lm_channel_after.
  assert (Hr : lm_reader (lm_after es c s) = lm_reader s ∨ lm_reader (lm_after es c s) = wake_reader (lm_reader s)).
  { clear Hc. unfold lm_after. induction es as [|e es IH]; cbn [foldr]; [by left|].
    destruct e as [|[]| |]; try done. cbn. right. destruct IH as [-> | ->]; [done|].
    by destruct (lm_reader s) as [| | | |[] ? ? ?| |]. }
  revert Hc. destruct Hr as [-> | ->]; destruct (lm_reader s) as [| | | |[] ? ? ?| |]; cbn; tauto.
Qed.

Lemma read_ender mode id phase got s s' : LinkMessaging_read max mode id phase got s = Some s' → lm_ender s' = lm_ender s.
Proof.
  intros H. unfold LinkMessaging_read in H. destruct (readFully_again _ _ _).
  - inv_bind H. destruct p as [[[result stream] es] c]. injection H as <-.
    pose proof (sm_ender _ _ (lm_same_after es c (lm_with_in stream s))). by destruct result.
  - injection H as <-. unfold LinkMessaging_have. by destruct phase; repeat case_match.
Qed.

Lemma cut_read mode id phase got s s' :
  end_inv s → cut s → lm_reader s = RReading mode id phase got → LinkMessaging_read max mode id phase got s = Some s' →
  cut s'.
Proof.
  intros Hok Hc Hr H. unfold cut in Hc. rewrite Hr in Hc. assert (Hq : quiet (lm_channel s)) by (by destruct mode).
  unfold LinkMessaging_read in H. destruct (readFully_again _ _ _) eqn:Hagain.
  - apply readFully_again_iff in Hagain as [Hl Hst]. destruct (ei_in _ Hok) as (Hch & Hid & _); [by rewrite Hr|].
    rewrite (quiet_read mode) in H by (done || lia). cbn in H. injection H as <-. exact Hq.
  - injection H as <-. unfold LinkMessaging_have. destruct phase; repeat case_match; exact Hq.
Qed.

Lemma joining_exec s e s' : joining s → lm_env e → lm_exec max s e = Some s' → joining s'.
Proof.
  intros (Hsend & Hok & Hn & Hc) Henv H.
  split; [by eapply senders_ok_exec|]. split; [by eapply end_inv_exec|].
  destruct (ei_joined _ Hok Hn) as [Hm Hs].
  assert (Hcl : lm_is_closed s = true) by (apply (ei_closed _ Hok); intros He; apply Hn; by left).
  destruct e; cbn [lm_exec] in H.
  - unfold LinkMessaging_begin in H. destruct (lm_reader s); try done. by injection H as <-.
  - injection H as <-. unfold LinkMessaging_end_call. by rewrite Hcl.
  - unfold LinkMessaging_end_step in H. destruct (lm_ender s) eqn:He;
      try (injection H as <-; by rewrite He); [by destruct Hn; right|].
    rewrite <- He in Hn. injection H as <-. destruct (lm_reader s) eqn:Hr; (split; [|done]); try done; by intros [?|?].
  - unfold LinkMessaging_reader_step in H. unfold cut in Hc. destruct (lm_reader s) eqn:Hr; try done.
    + injection H as <-. split; [done|]. unfold cut. by rewrite Hr.
    + injection H as <-. by rewrite Hcl.
    + rewrite decide_True in H by done. by injection H as <-.
    + assert (Hread : LinkMessaging_read max mode connection_id phase got s = Some s') by (by destruct mode).
      split; [by rewrite (read_ender _ _ _ _ _ _ Hread)|]. eapply cut_read; [done| |done|done]. unfold cut. by rewrite Hr.
    + by injection H as <-.
    + injection H as <-. split; [done|]. unfold cut. by rewrite Hr.
  - by injection H as <-.
  - destruct (sender_step_ended _ _ _ H Hcl Hm Hs) as [->|(rq & Hi & ->)]; done.
  - injection H as <-. split; [done|]. revert Hc. unfold cut. cbn. by destruct (lm_reader s) as [| | | |[] ? ? ?| |].
  - inv_bind H. destruct p as [[u es] c]. injection H as <-. rewrite (sm_ender _ _ (lm_same_after _ _ _)). split; [done|].
    apply cut_after; [|done]. intros Hq. by eapply quiet_packet.
  - inv_bind H. destruct p as [[u es] c]. injection H as <-. rewrite (sm_ender _ _ (lm_same_after _ _ _)). split; [done|].
    apply cut_after; [|done]. intros Hq. by eapply quiet_trySend.
Qed.

Lemma after_wakes es c s : Notify has_data ∈ es → lm_reader (lm_after es c s) = wake_reader (lm_reader s).
Proof.
  assert (Hidem : ∀ p, wake_reader (wake_reader p) = wake_reader p) by (by intros [| | | |[] ? ? ?| |]).
  assert (Hr : ∀ es, lm_reader (lm_after es c s) = lm_reader s ∨ lm_reader (lm_after es c s) = wake_reader (lm_reader s)).
  { intros l. unfold lm_after. induction l as [|e l IH]; cbn [foldr]; [by left|].
    destruct e as [|[]| |]; try done. cbn. right. destruct IH as [-> | ->]; [done|apply Hidem]. }
  induction es as [|e es IH]; intros Hin; [by apply not_elem_of_nil in Hin|].
  apply elem_of_cons in Hin as [<-|Hin].
  - change (wake_reader (lm_reader (lm_after es c s)) = wake_reader (lm_reader s)).
    destruct (Hr es) as [-> | ->]; [done|apply Hidem].
  - specialize (IH Hin). unfold lm_after in *. cbn [foldr]. destruct e as [|[]| |]; try done. cbn. by rewrite IH, Hidem.
Qed.

Lemma joining_start s s' :
  senders_ok s → end_inv s → lm_ender s = EDisconnect → lm_mutex s = None → lm_reader s ≠ RConnect →
  Link_status (lm_link s) (lm_channel s) ≠ kBroken → lm_exec max s LmEnder = Some s' → joining s'.
Proof.
  intros Hsend Hok He Hm Hne Hst H. split; [by eapply (senders_ok_exec max _ LmEnder)|].
  split; [by eapply (end_inv_exec max _ LmEnder)|]. cbn in H. unfold LinkMessaging_end_step in H.
  rewrite He, decide_True in H by done. inv_bind H. destruct p as [[link es] c]. injection H as <-.
  split; [by intros [?|?]|]. unfold cut. cbn. rewrite lm_channel_after.
  destruct (in_connection (lm_reader s)) eqn:Hin.
  - destruct (ei_in _ Hok Hin) as (_ & Hid & Hsame & Hl). rewrite Hsame in Hid.
    specialize (Hl (or_intror He)). unfold Link_status in Hst. rewrite Hl in Hst. cbn [negb] in Hst.
    unfold Channel_getLinkStatusInternal in Hst. rewrite (proj2 (Z.eqb_neq _ 0)) in Hst by done.
    destruct (Z.eqb_spec (ch_my_stream_id (lm_channel s)) (lk_my_stream_id (lm_link s))) as [Hmine|]; [|done].
    unfold Link_disconnect in E. rewrite Hl in E. cbn [negb] in E.
    apply ch_bind_inv in E as (u & es1 & c1 & es2 & E & Hret & ->). injection Hret as <- <- <-.
    destruct (disconnect_quiet _ _ _ _ _ Hmine E) as [Hq Hw].
    rewrite after_wakes by (apply elem_of_app; by left). cbn. by destruct (lm_reader s) as [| | | |[] ? ? ?| |].
  - pose proof (sm_reader _ _ (lm_same_after es c (lm_with_link link s))) as Hk. cbn in Hk.
    destruct (lm_reader s) as [| | | |[] ? ? ?| |]; try done;
      by destruct (lm_reader (lm_after es c (lm_with_link link s))).
Qed.

(** [n] steps of the receive thread are enough for it to end. *)
Definition finishes (n : nat) (s : LmSystem) : Prop :=
  ∃ k s', (k ≤ n)%nat ∧ lm_run max s (replicate k (LmReader [] 0)) = Some s'
  ∧ joining s' ∧ (lm_reader s' = RDone ∨ lm_reader s' = RNotStarted).

Lemma finishes_step n s s' : lm_exec max s (LmReader [] 0) = Some s' → finishes n s' → finishes (S n) s.
Proof.
  intros H (k & s2 & Hk & Hrun & Hj). exists (S k), s2. split; [lia|]. split; [|done]. cbn [replicate lm_run].
  by rewrite (bind_step _ _ _ H).
Qed.

Lemma finishes_le n m s : (n ≤ m)%nat → finishes n s → finishes m s.
Proof. intros Hle (k & s2 & Hk & Hrest). exists k, s2. split; [lia|done]. Qed.

(** A step of the receive thread, the state after it, and the invariant there. *)
Lemma finishes_by n s s' :
  joining s → LinkMessaging_reader_step max [] 0 s = Some s' → (joining s' → finishes n s') → finishes (S n) s.
Proof.
  intros Hj H Hn. apply (finishes_step n s s'); [exact H|]. apply Hn. by eapply (joining_exec s (LmReader [] 0)).
Qed.

Lemma finishes_test s : joining s → lm_reader s = RTest → finishes 1 s.
Proof.
  intros Hj Hr. destruct Hj as (Hs & Hok & Hn & Hc) eqn:Hjj. assert (Hcl : lm_is_closed s = true)
    by (apply (ei_closed _ Hok); intros He; apply Hn; by left).
  eapply finishes_by; [done|unfold LinkMessaging_reader_step; rewrite Hr, Hcl; reflexivity|].
  intros Hj'. eexists 0%nat, _. split; [lia|]. split; [reflexivity|]. split; [done|by left].
Qed.

Lemma finishes_reset id s : joining s → lm_reader s = RReset id → finishes 2 s.
Proof.
  intros Hj Hr. eapply finishes_by; [done|unfold LinkMessaging_reader_step; rewrite Hr; reflexivity|].
  intros Hj'. by apply finishes_test.
Qed.

(** A [readFully] that is over. *)
Lemma reader_step_over mode id phase got s :
  lm_reader s = RReading mode id phase got → mode ≠ Sleeping →
  readFully_again (phase_size phase) got (ls_status (lk_in (lm_link s))) = false →
  LinkMessaging_reader_step max [] 0 s = Some (LinkMessaging_have max id phase got s).
Proof.
  intros Hr Hm Ha. unfold LinkMessaging_reader_step, LinkMessaging_read. rewrite Hr, Ha. by destruct mode.
Qed.

(** What is read is cut off, or still to be read. *)
Lemma finishes_short mode id phase got s :
  joining s → lm_reader s = RReading mode id phase got → (length got < phase_size phase)%nat → finishes 4 s.
Proof.
  intros Hj Hr Hl. pose proof Hj as (Hs & Hok & Hn & Hc). unfold cut in Hc. rewrite Hr in Hc.
  assert (Hm : mode ≠ Sleeping) by (by intros ->). assert (Hq : quiet (lm_channel s)) by (by destruct mode).
  assert (Hshort : ∀ s, joining s → ∀ mode, lm_reader s = RReading mode id phase got → mode ≠ Sleeping →
    readFully_again (phase_size phase) got (ls_status (lk_in (lm_link s))) = false → finishes 3 s).
  { clear Hj Hr Hs Hok Hn Hc Hm Hq mode s. intros s Hj mode Hr Hm Ha.
    eapply finishes_by; [done|by eapply reader_step_over|]. intros Hj'. eapply (finishes_reset id); [done|].
    unfold LinkMessaging_have. destruct phase; cbn [phase_size] in Hl; by rewrite (proj2 (Nat.ltb_lt _ _) Hl). }
  destruct (readFully_again (phase_size phase) got (ls_status (lk_in (lm_link s)))) eqn:Ha;
    [|by apply (finishes_le 3); [lia|eapply Hshort]].
  pose proof Ha as [_ Hst]%readFully_again_iff. destruct (ei_in _ Hok) as (Hch & Hid & _); [by rewrite Hr|].
  set (s' := lm_with_reader (RReading Trying id phase (got ++ [])) (lm_with_received (lm_past s) (lm_bytes s ++ [])
    (lm_after [] (lm_channel s) (lm_with_in (ls_with_status kConnectionError (lk_in (lm_link s))) s)))).
  assert (Hstep : LinkMessaging_reader_step max [] 0 s = Some s').
  { unfold LinkMessaging_reader_step. rewrite Hr.
    assert (Hread : LinkMessaging_read max mode id phase got s = Some s'); [|by destruct mode].
    unfold LinkMessaging_read. rewrite Ha, (quiet_read mode) by (done || lia). reflexivity. }
  eapply finishes_by; [done|exact Hstep|]. intros Hj'. apply (Hshort s' Hj' Trying); [|done|].
  - unfold s'. cbn. by rewrite app_nil_r.
  - apply not_true_iff_false. intros [_ He]%readFully_again_iff. done.
Qed.

Lemma finishes_payload mode id n got s :
  joining s → lm_reader s = RReading mode id (InPayload n) got → finishes 5 s.
Proof.
  intros Hj Hr. destruct (decide (length got < phase_size (InPayload n))%nat) as [Hl|Hl].
  { apply (finishes_le 4); [lia|by eapply finishes_short]. }
  assert (Hm : mode ≠ Sleeping).
  { intros ->. destruct Hj as (_ & _ & _ & Hc). unfold cut in Hc. by rewrite Hr in Hc. }
  eapply finishes_by; [done|eapply reader_step_over; [exact Hr|done|]|].
  - apply not_true_iff_false. by intros [? _]%readFully_again_iff.
  - intros Hj'. unfold LinkMessaging_have in Hj' |- *. cbn [phase_size] in Hl.
    rewrite (proj2 (Nat.ltb_ge _ _)) in Hj' |- * by lia.
    eapply finishes_short; [done|reflexivity|cbn; lia].
Qed.

Lemma finishes_reading mode id phase got s :
  joining s → lm_reader s = RReading mode id phase got → finishes 6 s.
Proof.
  intros Hj Hr. destruct phase as [|n]; [|apply (finishes_le 5); [lia|by eapply finishes_payload]].
  destruct (decide (length got < 4)%nat) as [Hl|Hl]; [apply (finishes_le 4); [lia|by eapply finishes_short]|].
  assert (Hm : mode ≠ Sleeping).
  { intros ->. destruct Hj as (_ & _ & _ & Hc). unfold cut in Hc. by rewrite Hr in Hc. }
  eapply finishes_by; [done|eapply reader_step_over; [exact Hr|done|]|].
  - apply not_true_iff_false. by intros [? _]%readFully_again_iff.
  - intros Hj'. unfold LinkMessaging_have in Hj' |- *. rewrite (proj2 (Nat.ltb_ge _ _)) in Hj' |- * by lia.
    destruct (max <? u32 (LoadBeU32 got)).
    + apply (finishes_le 2); [lia|]. by eapply finishes_reset.
    + by eapply finishes_payload.
Qed.

Lemma finishes_all s : joining s → finishes 6 s.
Proof.
  intros Hj. pose proof Hj as (Hs & Hok & Hn & Hc). destruct (lm_reader s) eqn:Hr.
  - exists 0%nat, s. split; [lia|]. split; [done|]. split; [done|by right].
  - eapply finishes_le; [|by apply finishes_test]. lia.
  - unfold cut in Hc. by rewrite Hr in Hc.
  - apply (finishes_le 5); [lia|]. destruct (ei_joined _ Hok Hn) as [Hm _].
    eapply finishes_by; [done|unfold LinkMessaging_reader_step; rewrite Hr, decide_True by done; reflexivity|].
    intros Hj'. eapply finishes_short; [done|reflexivity|cbn; lia].
  - by eapply finishes_reading.
  - eapply finishes_le; [|by eapply finishes_reset]. lia.
  - exists 0%nat, s. split; [lia|]. split; [done|]. split; [done|by left].
Qed.

Lemma joining_run es s s' : joining s → Forall lm_env es → lm_run max s es = Some s' → joining s'.
Proof.
  intros Hj Henv. revert s Hj. induction Henv as [|e es He Hes IH]; intros s Hj H; cbn in H; [by injection H as <-|].
  inv_bind H. eapply IH; [|exact H]. by eapply joining_exec.
Qed.

(** C11: end() returns. Take end() at the point where it has set [closed_] and gets the lock, while the link is
    not broken by the peer and the receive thread is anywhere but between its test of [closed_]
    and its call of connect(). After end() has disconnected the link, and whatever
    happens then (packets, calls of [send], steps of any thread): the receive thread comes to its end
    within six of its own steps, without waiting for anybody, and end() returns at its next step. *)
Theorem LinkMessaging_end_returns (c : Channel) (es es' : list lm_event) (s s' : LmSystem)
    (Henv : Forall lm_env es) (Henv' : Forall lm_env es')
    (Hrun : lm_run max (lm_start c) es = Some s)
    (Hcalled : lm_ender s = EDisconnect) (Hlock : lm_mutex s = None)
    (Hreader : lm_reader s ≠ RConnect) (Hlink : Link_status (lm_link s) (lm_channel s) ≠ kBroken)
    (Hrun' : lm_run max s (LmEnder :: es') = Some s') :
  ∃ n s1 s2, (n ≤ 6)%nat ∧ lm_run max s' (replicate n (LmReader [] 0)) = Some s1
    ∧ lm_exec max s1 LmEnder = Some s2 ∧ lm_ender s2 = EReturned.
Proof.
  destruct (lm_start_ok c) as [Hs0 He0]. destruct (end_inv_run max es _ _ Hs0 He0 Henv Hrun) as [Hs He].
  cbn [lm_run] in Hrun'. inv_bind Hrun'.
  pose proof (joining_start _ _ Hs He Hcalled Hlock Hreader Hlink E) as Hj.
  destruct (finishes_all s' (joining_run _ _ _ Hj Henv' Hrun')) as (n & s1 & Hn & Hrun1 & (_ & _ & Hen & _) & Hr).
  exists n, s1. destruct (lm_ender s1) eqn:He1.
  - destruct Hen. by left.
  - destruct Hen. by right.
  - exists (lm_with_ender EReturned (lm_with_reader RNotStarted s1)). split; [done|]. split; [done|]. split; [|done].
    cbn. unfold LinkMessaging_end_step. rewrite He1. by destruct Hr as [-> | ->].
  - exists s1. split; [done|]. split; [done|]. split; [|done]. cbn. unfold LinkMessaging_end_step. by rewrite He1.
Qed.

End Contract.

(** ** Witnesses *)

(** end() while the receive thread reads, with a packet that still arrives. *)
Definition lm_demo_end : list lm_event := lm_demo_messages ++ [LmEnd].

Definition lm_demo_ended : list lm_event :=
  lm_demo_end ++ [LmEnder] ++ replicate 4 (LmReader [] 0) ++ [LmEnder].

Lemma lm_demo_end_env : Forall lm_env lm_demo_end ∧ Forall lm_env lm_demo_ended.
Proof.
  split; repeat apply Forall_cons_2; try apply Forall_nil_2; try exact I; vm_compute; reflexivity.
Qed.

Lemma LinkMessaging_end_returns_witness :
  ∃ s s' n s1 s2, lm_demo_run lm_demo_end = Some s
    ∧ lm_run 100 s [LmEnder; LmPacket [129; 245; 0; 0]] = Some s'
    ∧ (n ≤ 6)%nat ∧ lm_run 100 s' (replicate n (LmReader [] 0)) = Some s1
    ∧ lm_exec 100 s1 LmEnder = Some s2 ∧ lm_ender s2 = EReturned.
Proof.
  destruct (lm_demo_run lm_demo_end) as [s|] eqn:Hrun; [|exfalso; revert Hrun; vm_compute; discriminate].
  assert (Hf : option_map (λ s, (lm_ender s, lm_mutex s, lm_reader s, Link_status (lm_link s) (lm_channel s),
      bool_decide (is_Some (lm_run 100 s [LmEnder; LmPacket [129; 245; 0; 0]])))) (lm_demo_run lm_demo_end)
    = Some (EDisconnect, None, RReading Sleeping 7 InSize [], kConnected, true)) by (vm_compute; reflexivity).
  rewrite Hrun in Hf. injection Hf as H1 H2 H3 H4 H5. apply bool_decide_eq_true in H5 as [s' Hs'].
  destruct (lm_demo_starts _ _ Hrun) as [c Hc].
  destruct (LinkMessaging_end_returns 100 c lm_demo_end [LmPacket [129; 245; 0; 0]] s s') as (n & s1 & s2 & Hn & Hr & He & Hret).
  - exact (proj1 lm_demo_end_env).
  - apply Forall_cons_2; [exact I|apply Forall_nil_2].
  - exact Hc.
  - exact H1.
  - exact H2.
  - rewrite H3. discriminate.
  - rewrite H4. discriminate.
  - exact Hs'.
  - exists s, s', n, s1, s2. split; [reflexivity|]. split; [exact Hs'|]. split; [exact Hn|]. split; [exact Hr|].
    split; [exact He|exact Hret].
Defined.

Lemma LinkMessaging_end_is_final_witness :
  ∃ s s', lm_demo_run lm_demo_ended = Some s ∧ lm_ender s = EReturned
    ∧ lm_run 100 s [LmBegin; LmReader [] 0; LmSend (mkRequest None [] [9])] = Some s'
    ∧ lm_events s' = lm_events s ∧ winding_down (lm_reader s').
Proof.
  destruct (lm_demo_run lm_demo_ended) as [s|] eqn:Hrun; [|exfalso; revert Hrun; vm_compute; discriminate].
  assert (Hf : option_map (λ s, (lm_ender s,
      bool_decide (is_Some (lm_run 100 s [LmBegin; LmReader [] 0; LmSend (mkRequest None [] [9])]))))
      (lm_demo_run lm_demo_ended) = Some (EReturned, true)) by (vm_compute; reflexivity).
  rewrite Hrun in Hf. injection Hf as H1 H2. apply bool_decide_eq_true in H2 as [s' Hs'].
  destruct (lm_demo_starts _ _ Hrun) as [c Hc].
  destruct (LinkMessaging_end_is_final 100 c lm_demo_ended [LmBegin; LmReader [] 0; LmSend (mkRequest None [] [9])] s s')
    as (Hev & Hw & _).
  - exact (proj2 lm_demo_end_env).
  - repeat apply Forall_cons_2; try apply Forall_nil_2; try exact I. vm_compute. reflexivity.
  - exact Hc.
  - exact H1.
  - exact Hs'.
  - exists s, s'. split; [reflexivity|]. split; [exact H1|]. split; [exact Hs'|]. split; [exact Hev|exact Hw].
Defined.
