(* ===== verification/MessagingHangs.v ===== *)
(** * MessagingHangs: when LinkMessaging does not come to an end

    Three runs of the threads of [MessagingThreads] in which nothing but packets of a certain
    kind can help: the peer restarts while a packet is missing, end() comes between the receive
    thread's test and its call of connect(), and end() waits for a call of [send]. *)

From S2P Require Import Prelude.
From S2P Require Import SeqNum.
From S2P Require Import RingBuffer.
From S2P Require Import RooIo.
From S2P Require Import Protocol.
From S2P Require Import Buffers.
From S2P Require Import Transmitter.
From S2P Require Import Receiver.
From S2P Require Import ThreadSafe.
From S2P Require Import Channel.
From S2P Require Import ChannelCorrect.
From S2P Require Import ChannelHandshake.
From S2P Require Import Link.
From S2P Require Import Messaging.
From S2P Require Import MessagingThreads.
From S2P Require Import MessagingThreadsCorrect.
From S2P Require Import MessagingEnd.

Local Open Scope Z_scope.
Local Open Scope roo_scope.

(** ** When end() does not return *)

Section Hangs.

Context {io : RooIo} {io_laws : RooIoLaws} {pf : Platform} {full : FullIo} {full_laws : FullIoLaws}.
Context (max : Z).

(** *** The peer restarts while a packet is missing *)

(** The peer of stream [id] opened a new stream when a packet was missing in the window, which will
    not come any more: the receiver stays connected to the old one. *)
Record stranded (id peer : Z) (c : Channel) : Prop := {
  sr_state : rx_state (ch_receiver c) = RkConnected;
  sr_id : rx_my_stream_id (ch_receiver c) = id;
  sr_eos : rx_end_of_stream (ch_receiver c) = false;
  sr_ring : RingBuffer_empty (rx_in_ring (ch_receiver c)) = false;
  sr_slot : ∃ i b, Receiver_getInBuffer (ch_receiver c) (rb_begin (rx_in_ring (ch_receiver c))) = Some i
    ∧ rx_in_buffers (ch_receiver c) !! i = Some b ∧ ib_type b = kUnset
    ∧ (rx_current_in_buffer (ch_receiver c) = None ∨ rx_current_in_buffer (ch_receiver c) = Some i);
  sr_mine : ch_my_stream_id c = 0;
  sr_peer : ch_peer_stream_id c = peer;
}.

(** A packet that is no data and no handshake but the first of a new stream of the peer. *)
Definition restart_packet (peer : Z) (buf : list byte) : Prop :=
  match GetPacketType (LoadBeU16 (field buf 0 2)) with
  | kDataPacket | kFinPacket => False
  | kHandshakePacket =>
      LoadBeU32 (field buf 2 4) ≠ peer ∧ LoadBeU32 (field buf 6 4) = 0
      ∧ Z.land (LoadU8 (field buf 10 1)) 0x80 ≠ 0
  | _ => True
  end.

Section Stranded.

Context (id peer : Z).

Lemma stranded_same c c' :
  ch_receiver c' = ch_receiver c → ch_my_stream_id c' = ch_my_stream_id c → ch_peer_stream_id c' = ch_peer_stream_id c →
  stranded id peer c → stranded id peer c'.
Proof. intros Hr Hm Hp [H1 H2 H3 H4 H5 H6 H7]. constructor; rewrite ?Hr; congruence || done. Qed.

Lemma stranded_transmitter {A} (f : Transmitter → option (A * list Condition * Transmitter)) :
  keeps (stranded id peer) (ch_on_transmitter f).
Proof. apply keeps_on_transmitter. intros c a cs t Hc _. by apply (stranded_same c). Qed.

Lemma stranded_modify f :
  (∀ c, ch_receiver (f c) = ch_receiver c ∧ ch_my_stream_id (f c) = ch_my_stream_id c
        ∧ ch_peer_stream_id (f c) = ch_peer_stream_id c) → keeps (stranded id peer) (ch_modify f).
Proof. intros Hf. apply keeps_modify. intros c. destruct (Hf c) as (? & ? & ?). by apply stranded_same. Qed.

Lemma stranded_notify : keeps (stranded id peer) Channel_notify.
Proof.
  unfold Channel_notify. apply keeps_bind; [apply keeps_gets|intros p]. apply keeps_bind; [by apply stranded_modify|].
  intros _. apply keeps_when, keeps_emit.
Qed.

Lemma stranded_when_notify b : keeps (stranded id peer) (ch_when b Channel_notify).
Proof. apply keeps_when, stranded_notify. Qed.

(** A read finds nothing, and no reason to stop. *)
Lemma stranded_tryRead c count :
  stranded id peer c → 0 < count → ∃ r, Receiver_tryRead (ch_receiver c) count = Some ([], false, r)
    ∧ stranded id peer (ch_with_receiver r c) ∧ ThreadSafeReceiver_checkConnectionStatus r id = kOk.
Proof.
  intros [H1 H2 H3 H4 (i & b & Hi & Hb & Hty & Hcur) H6 H7] Hcount.
  set (r := match rx_current_in_buffer (ch_receiver c) with
            | None => rx_with_current_in_buffer_pos 0 (rx_with_current_in_buffer (Some i) (ch_receiver c))
            | Some _ => ch_receiver c
            end).
  exists r. assert (Hsel : Receiver_select (ch_receiver c) = Some (Some i, r)).
  { unfold Receiver_select, r. destruct Hcur as [-> | ->]; [|done]. by rewrite H4, (bind_step _ _ _ Hi). }
  assert (Hr : rx_state r = RkConnected ∧ rx_my_stream_id r = id ∧ rx_end_of_stream r = false
    ∧ rx_in_ring r = rx_in_ring (ch_receiver c) ∧ rx_in_buffers r = rx_in_buffers (ch_receiver c)
    ∧ rx_current_in_buffer r = Some i).
  { unfold r. destruct Hcur as [Hcur|Hcur]; rewrite Hcur; cbn; auto 10. }
  destruct Hr as (E1 & E2 & E3 & E4 & E5 & E6). split; [|split].
  - unfold Receiver_tryRead. rewrite H1. cbn [Receiver_tryRead_loop]. rewrite (bind_step _ _ _ Hsel).
    rewrite E5, (bind_step _ _ _ Hb). by rewrite decide_True.
  - constructor; cbn; try done; [by rewrite E4|]. unfold Receiver_getInBuffer in *. rewrite E4, E5, E6.
    exists i, b. auto.
  - unfold ThreadSafeReceiver_checkConnectionStatus. by rewrite E1, E2, E3, Z.eqb_refl.
Qed.

Lemma stranded_read mode count s c :
  stranded id peer c → ls_channel s = true → ls_my_stream_id s = id → ls_status s = kOk → 0 < count →
  ∃ c', (match mode with
         | Awake => LinkInputStream_read_round count s
         | _ => LinkInputStream_read count s
         end) c = Some ((Blocked has_data, s), [], c') ∧ stranded id peer c'.
Proof.
  intros Hc Hch Hid Hst Hcount. destruct (stranded_tryRead c count Hc Hcount) as (r & Hr & Hc' & Hok).
  exists (ch_with_receiver r c). split; [|done].
  assert (Hround : ∀ m : ChM (Blocking (list byte * Status)), m c = Some (Blocked has_data, [], ch_with_receiver r c) →
    (result <~ via_channel s m ;;
     ch_ret (match result with
             | Returned (bytes, status) => (Returned bytes, ls_with_status status s)
             | Blocked cv => (Blocked cv, s)
             end)) c = Some ((Blocked has_data, s), [], ch_with_receiver r c)).
  { intros m Hm. by erewrite ch_bind_run by (by apply via_run). }
  assert (Hrd : ThreadSafeReceiver_read_round (ch_receiver c) count id = Some (Blocked has_data, false, r)).
  { unfold ThreadSafeReceiver_read_round. rewrite (bind_step _ _ _ Hr). by rewrite Hok. }
  assert (Hread : LinkInputStream_read count s c = Some ((Blocked has_data, s), [], ch_with_receiver r c)).
  { unfold LinkInputStream_read, is_ok. rewrite Hst, (proj2 (Z.eqb_neq count 0)), bool_decide_true by (done || lia).
    cbn [orb negb]. apply Hround. unfold Channel_read, ch_on_receiver, no_conditions, ThreadSafeReceiver_read, ch_bind.
    rewrite (proj2 (Z.eqb_neq count 0)) by lia.
    assert (Hcs : ThreadSafeReceiver_checkConnectionStatus (ch_receiver c) (ls_my_stream_id s) = kOk).
    { unfold ThreadSafeReceiver_checkConnectionStatus. destruct Hc as [H1 H2 H3 _ _ _ _].
      by rewrite H1, H2, H3, Hid, Z.eqb_refl. }
    by rewrite Hcs, Hid, Hrd. }
  destruct mode; [done|done|]. unfold LinkInputStream_read_round. apply Hround.
  unfold Channel_read_round, ch_on_receiver, no_conditions, ch_bind. by rewrite Hid, Hrd.
Qed.

Lemma stranded_trySend now draw now' env : keeps (stranded id peer) (Channel_trySend now draw now' env).
Proof.
  assert (Hp : ∀ p, keeps (stranded id peer) (send_packet p)) by (intros []; [apply keeps_ret|apply keeps_emit]).
  assert (Hr : ∀ c r, stranded id peer c →
    (rx_state r, rx_my_stream_id r, rx_end_of_stream r, rx_in_ring r, rx_in_buffers r, rx_current_in_buffer r)
    = (rx_state (ch_receiver c), rx_my_stream_id (ch_receiver c), rx_end_of_stream (ch_receiver c),
       rx_in_ring (ch_receiver c), rx_in_buffers (ch_receiver c), rx_current_in_buffer (ch_receiver c)) →
    stranded id peer (ch_with_receiver r c)).
  { intros c r [H1 H2 H3 H4 H5 H6 H7] [= E1 E2 E3 E4 E5 E6]. unfold Receiver_getInBuffer in H5.
    constructor; cbn; unfold Receiver_getInBuffer; rewrite ?E1, ?E2, ?E3, ?E4, ?E5, ?E6; done. }
  unfold Channel_trySend. apply keeps_bind.
  { unfold Channel_conn. do 3 (apply keeps_bind; [apply keeps_gets|intros ?]). destruct a; try apply keeps_ret.
    - destruct (_ <? _); [apply keeps_ret|]. apply keeps_bind; [apply keeps_gets|intros ?].
      apply keeps_bind; [|intros ?].
      { intros c x es c' Hc H. destruct (Channel_Backoff _ _); [|done]. cbn in H. by injection H as _ _ <-. }
      do 3 (apply keeps_bind; [by apply stranded_modify|intros _]). apply keeps_bind; [apply keeps_gets|intros ?]. apply keeps_ret.
    - destruct (negb _); [apply keeps_ret|]. apply keeps_bind; [by apply stranded_modify|intros _].
      apply keeps_bind; [apply keeps_gets|intros ?]. apply keeps_ret. }
  intros [packet next]. apply keeps_bind; [done|intros _].
  apply keeps_bind; [apply keeps_gets|intros st]. destruct (decide _); [apply keeps_ret|].
  apply keeps_bind.
  { apply keeps_on_receiver. intros c a cs r Hc H. unfold no_conditions in H.
    destruct (Receiver_ack _) as [[x r']|] eqn:Hack; [|done]. cbn in H. injection H as _ _ <-.
    apply Hr; [done|]. by destruct (receiver_ack_same _ _ _ Hack) as [-> | ->]. }
  intros packet'. apply keeps_bind; [done|intros _]. apply keeps_bind.
  { apply keeps_on_receiver. intros c a cs r Hc H. unfold no_conditions, Receiver_updateRecvHimark in H. cbn in H.
    destruct (rx_state (ch_receiver c)) eqn:Hst; try (destruct Hc; congruence). destruct (now' <? _); injection H as _ _ <-.
    - by apply Hr.
    - by apply Hr. }
  intros [packet2 next2]. apply keeps_bind; [done|intros _].
  generalize dependent next2. generalize dependent env. induction kMaxDataPacketsPerBurst as [|k IH]; intros env next2;
    cbn [Channel_burst]; [apply keeps_ret|].
  apply keeps_bind; [apply stranded_transmitter|]. intros [p' n']. destruct p'; [apply keeps_ret|].
  apply keeps_bind; [apply keeps_emit|intros _; apply IH].
Qed.

Lemma stranded_packet buf : restart_packet peer buf → keeps (stranded id peer) (LinkTransport_processIncomingPacket buf).
Proof.
  intros Hbuf. unfold LinkTransport_processIncomingPacket, Channel_packetReceived. cbv zeta.
  destruct (_ || _); [apply keeps_ret|]. unfold restart_packet in Hbuf. destruct (GetPacketType _); try done.
  - apply keeps_bind; [apply stranded_transmitter|intros; apply stranded_when_notify].
  - destruct Hbuf as (Hpid & Hack & Hwant).
    do 3 (match goal with |- keeps _ (if ?b then _ else _) => destruct b end; [apply keeps_ret|]).
    apply keeps_bind; [|intros; apply stranded_when_notify].
    rewrite Hack, (proj2 (Z.eqb_neq _ _) Hwant). cbn [negb]. generalize dependent (LoadBeU32 (field buf 2 4)). intros pid Hpid.
    intros c a es c' Hc H. unfold Channel_handleHandshakePacket in H.
    apply ch_bind_inv in H as (my_id & es1 & c1 & es2 & H1 & H & _). injection H1 as <- <- <-.
    apply ch_bind_inv in H as (front & es3 & c3 & es4 & H3 & H & _). injection H3 as _ <- <-.
    destruct (_ && _); [by injection H as <- <- <-|].
    apply ch_bind_inv in H as (st & es5 & c5 & es6 & H5 & H & _). injection H5 as <- <- <-.
    rewrite (sr_state _ _ _ Hc) in H.
    apply ch_bind_inv in H as ([ready fn] & es7 & c7 & es8 & H7 & H & _).
    assert (Hc7 : stranded id peer c7).
    { unfold Channel_handshake_connected in H7.
      apply ch_bind_inv in H7 as (p & es9 & c9 & es10 & H9 & H7 & _). injection H9 as <- <- <-.
      rewrite (sr_peer _ _ _ Hc) in H7. rewrite (proj2 (Z.eqb_neq peer pid)) in H7 by done. cbn [negb andb] in H7.
      rewrite Z.eqb_refl in H7.
      apply ch_bind_inv in H7 as (fn' & es17 & c17 & es18 & H9 & H7 & _). injection H7 as _ _ _ <-.
      unfold Channel_peer_reset in H9.
      apply ch_bind_inv in H9 as (f & es11 & c11 & es12 & H11 & H9 & _).
      assert (Hc11 : stranded id peer c11).
      { unfold take_disconnect_fn in H11. cbn in H11. injection H11 as _ _ <-. by apply (stranded_same c). }
      apply ch_bind_inv in H9 as (dn & es13 & c13 & es14 & H13 & H9 & _). injection H13 as <- <- <-.
      apply ch_bind_inv in H9 as (ts & es15 & c15 & es16 & H15 & H9 & _). injection H15 as _ <- <-.
      unfold Receiver_done, Receiver_empty in H9. rewrite (sr_ring _ _ _ Hc11) in H9. cbn [andb negb] in H9.
      revert Hc11 H9. apply keeps_bind; [|intros; apply keeps_ret]. apply keeps_bind; [|intros _].
      { destruct (decide _); apply stranded_transmitter. }
      apply keeps_bind; [apply keeps_modify; by intros ? []|intros _]. apply keeps_bind; [apply keeps_emit|intros _].
      apply keeps_on_receiver. intros x a' cs r Hx Hr. unfold unit_result, ThreadSafeReceiver_setBroken, Receiver_setBroken in Hr.
      rewrite (sr_ring _ _ _ Hx) in Hr. cbn in Hr. injection Hr as _ _ <-. destruct Hx. by constructor. }
    revert Hc7 H. apply keeps_bind; [|intros; apply keeps_ret]. destruct fn; [apply keeps_emit|apply keeps_ret].
  - destruct (negb _); [apply keeps_ret|]. apply stranded_transmitter.
  - apply keeps_ret.
Qed.

End Stranded.

Lemma keeps_check P b : keeps P (ch_check b).
Proof. intros c a es c' Hc H. unfold ch_check in H. destruct b; [|done]. by injection H as _ _ <-. Qed.

Lemma keeps_via {A} P (s : LinkStream) (m : ChM A) : keeps P m → keeps P (via_channel s m).
Proof. intros Hm. apply keeps_bind; [apply keeps_check|done]. Qed.

(** Writing is the transmitter's business, and that of the flag of the sender thread. *)
Lemma keeps_write P mode buf s :
  keeps P Channel_notify →
  (∀ A (f : Transmitter → option (A * list Condition * Transmitter)), keeps P (ch_on_transmitter f)) →
  keeps P (match mode with Awake => LinkOutputStream_write_round buf s | _ => LinkOutputStream_write buf s end).
Proof.
  intros Hn Ht.
  assert (Hw : keeps P (LinkOutputStream_write buf s)).
  { unfold LinkOutputStream_write. destruct (negb _); [apply keeps_ret|]. destruct buf; [apply keeps_ret|].
    apply keeps_bind; [|intros; apply keeps_ret]. apply keeps_via. unfold Channel_write.
    apply keeps_bind; [apply Ht|intros [? ?]]. apply keeps_bind; [by apply keeps_when|intros _; apply keeps_ret]. }
  destruct mode; try done. unfold LinkOutputStream_write_round. apply keeps_bind; [|intros; apply keeps_ret].
  apply keeps_via. unfold Channel_write_round. apply keeps_bind; [apply Ht|intros [? ?]].
  apply keeps_bind; [by apply keeps_when|intros _; apply keeps_ret].
Qed.

Lemma keeps_flush P s :
  keeps P Channel_notify →
  (∀ A (f : Transmitter → option (A * list Condition * Transmitter)), keeps P (ch_on_transmitter f)) →
  keeps P (LinkOutputStream_flush s).
Proof.
  intros Hn Ht. unfold LinkOutputStream_flush. destruct (negb _); [apply keeps_ret|].
  apply keeps_bind; [|intros; apply keeps_ret]. apply keeps_via. unfold Channel_flush.
  apply keeps_bind; [apply Ht|intros [? ?]]. apply keeps_bind; [by apply keeps_when|intros _; apply keeps_ret].
Qed.

(** A thread that sends does what writes and flushes do to the channel. *)
Lemma keeps_sender (P : Channel → Prop) i s s' :
  keeps P Channel_notify →
  (∀ A (f : Transmitter → option (A * list Condition * Transmitter)), keeps P (ch_on_transmitter f)) →
  P (lm_channel s) → LinkMessaging_sender_step i s = Some s' → P (lm_channel s').
Proof.
  intros Hn Ht Hc H. unfold LinkMessaging_sender_step in H.
  destruct (lm_senders s !! i) as [[rq p]|]; [|by injection H as <-]. destruct p as [| |mode id chunks|]; try by injection H as <-.
  - case_decide; injection H as <-; [|done]. unfold LinkMessaging_enter. cbv zeta. destruct (lm_is_closed s); [done|].
    destruct (rq_connection rq); [by destruct (_ =? _)|]. by destruct (Link_status _ _).
  - assert (H' : LinkMessaging_write i rq mode id chunks s = Some s' ∨ s' = s)
      by (destruct mode; [by left|right; by injection H as <-|by left]).
    clear H. destruct H' as [H| ->]; [|done]. unfold LinkMessaging_write in H.
    destruct chunks as [|chunk chunks].
    + inv_bind H. destruct p as [[stream es] c]. injection H as <-. assert (P c) by (by eapply keeps_flush).
      pose proof (lm_channel_after es c (lm_with_out stream s)) as Hl. destruct (stream_isOpen _); cbn; by rewrite Hl.
    + destruct (writeFully_again _ _); [|by injection H as <-]. inv_bind H. destruct p as [[[result stream] es] c].
      injection H as <-. assert (P c) by (by eapply (keeps_write P mode)).
      pose proof (lm_channel_after es c (lm_with_out stream s)) as Hl. destruct result; cbn; by rewrite Hl.
Qed.

(** The receive thread waits for the rest of what it reads. *)
Record hung_reader (id peer : Z) (s : LmSystem) : Prop := {
  hr_reader : ∃ mode cid phase got, lm_reader s = RReading mode cid phase got ∧ (length got < phase_size phase)%nat;
  hr_stream : ls_channel (lk_in (lm_link s)) = true ∧ ls_my_stream_id (lk_in (lm_link s)) = id
    ∧ ls_status (lk_in (lm_link s)) = kOk ∧ lk_my_stream_id (lm_link s) = id ∧ id ≠ 0;
  hr_ender : lm_ender s ≠ EReturned;
  hr_channel : stranded id peer (lm_channel s);
}.

(** Everything but packets, and of those only the ones of [restart_packet]. *)
Definition no_help (peer : Z) (e : lm_event) : Prop :=
  match e with LmPacket buf => restart_packet peer buf | _ => True end.

Lemma hung_reader_after id peer es c s :
  hung_reader id peer s → stranded id peer c → hung_reader id peer (lm_after es c s).
Proof.
  intros [(mode & cid & phase & got & Hr & Hl) Hs He Hc] Hc'. destruct (lm_same_after es c s) as [Hlk _ _ Hk Hen _ _ _ _ _ _].
  constructor; [|by rewrite Hlk|by rewrite Hen|by rewrite lm_channel_after].
  rewrite Hr in Hk. cbn in Hk. destruct (lm_reader (lm_after es c s)); try done. injection Hk as -> -> ->. eauto 10.
Qed.

Lemma hung_reader_exec id peer s e s' :
  hung_reader id peer s → no_help peer e → lm_exec max s e = Some s' → hung_reader id peer s'.
Proof.
  intros Hh He H. pose proof Hh as [(mode & cid & phase & got & Hr & Hl) (Hch & Hid & Hst & Hlid & Hne) Hen Hc].
  destruct e; cbn [lm_exec] in H.
  - unfold LinkMessaging_begin in H. by rewrite Hr in H.
  - injection H as <-. unfold LinkMessaging_end_call. destruct (lm_is_closed s); [done|]. constructor; cbn; [eauto 10|done|done|done].
  - unfold LinkMessaging_end_step in H. destruct (lm_ender s) eqn:Hend; try (by injection H as <-).
    + case_decide; [|by injection H as <-]. inv_bind H. destruct p as [[link es] c]. injection H as <-.
      assert (Hsame : link = mkLink false (lk_my_stream_id (lm_link s)) (lk_in (lm_link s)) (lk_out (lm_link s)) ∧ es = [] ∧ c = lm_channel s).
      { unfold Link_disconnect in E. destruct (lk_channel (lm_link s)) eqn:Hlc; cbn [negb] in E.
        - unfold Channel_disconnect in E. apply ch_bind_inv in E as (u & es1 & c1 & es2 & H1 & H2 & ->).
          injection H2 as <- <- <-. apply ch_bind_inv in H1 as (m & es3 & c3 & es4 & H3 & H4 & ->). injection H3 as <- <- <-.
          rewrite (sr_mine _ _ _ Hc), Hlid, (proj2 (Z.eqb_neq 0 id)) in H4 by done. cbn [negb] in H4. by injection H4 as <- <- <-.
        - injection E as <- <- <-. split; [|done]. destruct (lm_link s). cbn in *. by rewrite Hlc. }
      destruct Hsame as (-> & -> & ->). constructor; cbn; [eauto 10|done|done|done].
    + rewrite Hr in H. by injection H as <-.
  - unfold LinkMessaging_reader_step in H. rewrite Hr in H.
    assert (Hrd : s' = s ∨ LinkMessaging_read max mode cid phase got s = Some s')
      by (destruct mode; [by right|left; by injection H as <-|by right]).
    clear H. destruct Hrd as [->|H]; [done|]. unfold LinkMessaging_read in H.
    rewrite (proj2 (readFully_again_iff _ _ _)) in H by done.
    destruct (stranded_read id peer mode (Z.of_nat (phase_size phase - length got)) _ _ Hc Hch Hid Hst) as (c' & Hread & Hc'); [lia|].
    rewrite Hread in H. cbn in H. injection H as <-. constructor; cbn; [eauto 10|done|done|done].
  - injection H as <-. constructor; cbn; [eauto 10|done|done|done].
  - destruct (sender_step_keeps _ _ _ H) as [_ Hen' Hk Hin Hi _ _]. constructor; rewrite ?Hin, ?Hi, ?Hen'; [|done|done|].
    + rewrite Hr in Hk. cbn in Hk. destruct (lm_reader s'); try done. injection Hk as -> -> ->. eauto 10.
    + eapply keeps_sender; [apply stranded_notify|intros; apply stranded_transmitter|exact Hc|exact H].
  - injection H as <-. constructor; cbn; [|done|done|done]. rewrite Hr. cbn. eauto 10.
  - inv_bind H. destruct p as [[u es] c]. injection H as <-. apply hung_reader_after; [done|]. by eapply stranded_packet.
  - inv_bind H. destruct p as [[u es] c]. injection H as <-. apply hung_reader_after; [done|]. by eapply stranded_trySend.
Qed.

Lemma hung_reader_run id peer es s s' :
  hung_reader id peer s → Forall (no_help peer) es → lm_run max s es = Some s' → hung_reader id peer s'.
Proof.
  intros Hh He. revert s Hh. induction He as [|e es He Hes IH]; intros s Hh H; cbn in H; [by injection H as <-|].
  inv_bind H. eapply IH; [|exact H]. by eapply hung_reader_exec.
Qed.

(** *** A connection that the peer does not answer *)

Definition halves (t : Transmitter) (r : Receiver) (c : Channel) : Prop := ch_transmitter c = t ∧ ch_receiver c = r.

(** The halves of a channel that is connecting; what is left to write is not taken yet. *)
Record unanswered (id : Z) (chunk : list byte) (t : Transmitter) (r : Receiver) : Prop := {
  un_tx : tx_state t = TkConnecting;
  un_tx_id : tx_my_stream_id t = id;
  un_full : chunk ≠ [] → Transmitter_tryWrite t chunk = Some (0, false, t);
  un_rx : rx_state r = RkConnecting;
  un_rx_id : rx_my_stream_id r = id;
  un_eos : rx_end_of_stream r = false;
}.

Section Unanswered.

Context (id : Z) (chunk : list byte) (t : Transmitter) (r : Receiver) (Hun : unanswered id chunk t r).

Lemma halves_modify f :
  (∀ c, ch_transmitter (f c) = ch_transmitter c ∧ ch_receiver (f c) = ch_receiver c) → keeps (halves t r) (ch_modify f).
Proof. intros Hf. apply keeps_modify. intros c [<- <-]. apply Hf. Qed.

Lemma unanswered_trySend now draw now' env : keeps (halves t r) (Channel_trySend now draw now' env).
Proof.
  intros c a es c' Hc H. unfold Channel_trySend in H.
  apply ch_bind_inv in H as ([packet next] & es1 & c1 & es2 & H1 & H & _).
  assert (Hc1 : halves t r c1).
  { revert Hc H1. unfold Channel_conn. do 3 (apply keeps_bind; [apply keeps_gets|intros ?]).
    destruct a0; try apply keeps_ret.
    - destruct (_ <? _); [apply keeps_ret|]. apply keeps_bind; [apply keeps_gets|intros ?].
      apply keeps_bind; [|intros ?].
      { intros x y l x' Hx Hb. destruct (Channel_Backoff _ _); [|done]. cbn in Hb. by injection Hb as _ _ <-. }
      do 3 (apply keeps_bind; [by apply halves_modify|intros _]). apply keeps_bind; [apply keeps_gets|intros ?]. apply keeps_ret.
    - destruct (negb _); [apply keeps_ret|]. apply keeps_bind; [by apply halves_modify|intros _].
      apply keeps_bind; [apply keeps_gets|intros ?]. apply keeps_ret. }
  apply ch_bind_inv in H as (u & es3 & c3 & es4 & H3 & H & _).
  assert (Hc3 : halves t r c3) by (revert Hc1 H3; destruct packet; [apply keeps_ret|apply keeps_emit]).
  apply ch_bind_inv in H as (st & es5 & c5 & es6 & H5 & H & _). injection H5 as <- <- <-.
  destruct Hc3 as [Ht Hr]. rewrite Ht, (un_tx _ _ _ _ Hun) in H. rewrite decide_True in H by done.
  by injection H as _ _ <-.
Qed.

Lemma unanswered_read mode count s c :
  halves t r c → ls_channel s = true → ls_my_stream_id s = id → ls_status s = kOk → 0 < count →
  ∃ c', (match mode with
         | Awake => LinkInputStream_read_round count s
         | _ => LinkInputStream_read count s
         end) c = Some ((Blocked has_data, s), [], c') ∧ halves t r c'.
Proof.
  intros [Ht Hr] Hch Hid Hst Hcount. exists c. split; [|done].
  assert (Hsame : ch_with_receiver r c = c) by (rewrite <- Hr; by destruct c).
  assert (Hok : ThreadSafeReceiver_checkConnectionStatus r id = kOk).
  { unfold ThreadSafeReceiver_checkConnectionStatus. destruct Hun as [_ _ _ H1 H2 H3]. by rewrite H1, H2, H3, Z.eqb_refl. }
  assert (Hrd : ThreadSafeReceiver_read_round r count id = Some (Blocked has_data, false, r)).
  { unfold ThreadSafeReceiver_read_round, Receiver_tryRead. rewrite (un_rx _ _ _ _ Hun). cbn. by rewrite Hok. }
  assert (Hround : ∀ m : ChM (Blocking (list byte * Status)), m c = Some (Blocked has_data, [], c) →
    (result <~ via_channel s m ;;
     ch_ret (match result with
             | Returned (bytes, status) => (Returned bytes, ls_with_status status s)
             | Blocked cv => (Blocked cv, s)
             end)) c = Some ((Blocked has_data, s), [], c)).
  { intros m Hm. by erewrite ch_bind_run by (by apply via_run). }
  assert (Hread : LinkInputStream_read count s c = Some ((Blocked has_data, s), [], c)).
  { unfold LinkInputStream_read, is_ok. rewrite Hst, (proj2 (Z.eqb_neq count 0)), bool_decide_true by (done || lia).
    cbn [orb negb]. apply Hround. unfold Channel_read, ch_on_receiver, no_conditions, ThreadSafeReceiver_read, ch_bind.
    rewrite (proj2 (Z.eqb_neq count 0)), Hr, Hid, Hok, Hrd by lia. cbn. by rewrite Hsame. }
  destruct mode; [done|done|]. unfold LinkInputStream_read_round. apply Hround.
  unfold Channel_read_round, ch_on_receiver, no_conditions, ch_bind. rewrite Hr, Hid, Hrd. cbn. by rewrite Hsame.
Qed.

Lemma unanswered_write mode s c :
  halves t r c → chunk ≠ [] → ls_channel s = true → ls_my_stream_id s = id → ls_status s = kOk →
  (match mode with Awake => LinkOutputStream_write_round chunk s | _ => LinkOutputStream_write chunk s end) c
  = Some ((Blocked has_space, s), [], c).
Proof.
  intros [Ht Hr] Hne Hch Hid Hst. assert (Hsame : ch_with_transmitter t c = c) by (rewrite <- Ht; by destruct c).
  assert (Hok : ThreadSafeTransmitter_checkConnectionStatus t id = kOk).
  { unfold ThreadSafeTransmitter_checkConnectionStatus. destruct Hun as [H1 H2 _ _ _ _]. by rewrite H1, H2, Z.eqb_refl. }
  assert (Hwr : ThreadSafeTransmitter_write_round t chunk id = Some (Blocked has_space, false, t)).
  { unfold ThreadSafeTransmitter_write_round. rewrite (un_full _ _ _ _ Hun Hne). cbn. by rewrite Hok. }
  assert (Hround : ∀ m : ChM (Blocking (Z * Status)), m c = Some (Blocked has_space, [], c) →
    (result <~ via_channel s m ;;
     ch_ret (match result with
             | Returned (n, status) => (Returned n, ls_with_status status s)
             | Blocked cv => (Blocked cv, s)
             end)) c = Some ((Blocked has_space, s), [], c)).
  { intros m Hm. by erewrite ch_bind_run by (by apply via_run). }
  assert (Hwrite : LinkOutputStream_write chunk s c = Some ((Blocked has_space, s), [], c)).
  { unfold LinkOutputStream_write, is_ok. rewrite Hst, bool_decide_true by done. cbn [negb].
    destruct chunk as [|b bs] eqn:Hchunk; [done|]. rewrite <- Hchunk in *. apply Hround.
    unfold Channel_write, ch_on_transmitter, no_conditions, ThreadSafeTransmitter_write, ch_bind.
    rewrite Ht, Hid, Hok, Hwr. cbn. by rewrite Hsame. }
  destruct mode; [done|done|]. unfold LinkOutputStream_write_round. apply Hround.
  unfold Channel_write_round, ch_on_transmitter, no_conditions, ch_bind. rewrite Ht, Hid, Hwr. cbn. by rewrite Hsame.
Qed.

(** No packet arrives. *)
Definition no_packet (e : lm_event) : Prop := match e with LmPacket _ => False | _ => lm_env e end.

Lemma no_packet_env es : Forall no_packet es → Forall lm_env es.
Proof. intros He. eapply Forall_impl; [exact He|]. by intros []. Qed.

(** end() waits for the receive thread, which waits on a connection made after end() closed the last. *)
Record hung_join (s : LmSystem) : Prop := {
  hj_ok : senders_ok s ∧ end_inv s;
  hj_ender : lm_ender s = EJoin;
  hj_reader : ∃ mode cid phase got, lm_reader s = RReading mode cid phase got ∧ (length got < phase_size phase)%nat;
  hj_stream : ls_channel (lk_in (lm_link s)) = true ∧ ls_my_stream_id (lk_in (lm_link s)) = id
    ∧ ls_status (lk_in (lm_link s)) = kOk;
  hj_channel : halves t r (lm_channel s);
}.

Lemma hung_join_exec s e s' : hung_join s → no_packet e → lm_exec max s e = Some s' → hung_join s'.
Proof.
  intros Hh He H. pose proof Hh as [[Hs Hok] Hen (mode & cid & phase & got & Hr & Hl) (Hch & Hid & Hst) Hc].
  assert (Henv : lm_env e) by (by destruct e).
  pose proof (senders_ok_exec max _ _ _ Hs Henv H) as Hs'. pose proof (end_inv_exec max _ _ _ Hok Hs H) as Hok'.
  destruct (ei_joined _ Hok) as [Hm Hset]; [rewrite Hen; by intros [?|?]|].
  assert (Hcl : lm_is_closed s = true) by (apply (ei_closed _ Hok); by rewrite Hen).
  destruct e; cbn [lm_exec] in H; try done.
  - unfold LinkMessaging_begin in H. by rewrite Hr in H.
  - injection H as <-. unfold LinkMessaging_end_call. by rewrite Hcl.
  - unfold LinkMessaging_end_step in H. rewrite Hen, Hr in H. by injection H as <-.
  - unfold LinkMessaging_reader_step in H. rewrite Hr in H.
    assert (Hrd : s' = s ∨ LinkMessaging_read max mode cid phase got s = Some s')
      by (destruct mode; [by right|left; by injection H as <-|by right]).
    clear H. destruct Hrd as [->|H]; [done|]. unfold LinkMessaging_read in H.
    rewrite (proj2 (readFully_again_iff _ _ _)) in H by done.
    destruct (unanswered_read mode (Z.of_nat (phase_size phase - length got)) _ _ Hc Hch Hid Hst) as (c' & Hread & Hc'); [lia|].
    rewrite Hread in H. cbn in H. injection H as <-. constructor; cbn; [done|done|eauto 10|done|done].
  - injection H as <-. constructor; cbn; [done|done|eauto 10|done|done].
  - destruct (sender_step_ended _ _ _ H Hcl Hm Hset) as [->|(rq & Hi & ->)]; [done|].
    constructor; cbn; [done|done|eauto 10|done|done].
  - injection H as <-. constructor; cbn; [done|done| |done|done]. rewrite Hr. cbn. eauto 10.
  - inv_bind H. destruct p as [[u es] c]. injection H as <-. pose proof (unanswered_trySend _ _ _ _ _ _ _ _ Hc E) as Hc'.
    destruct (lm_same_after es c s) as [Hlk _ _ Hk Hen' _ _ _ _ _ _].
    constructor; [done|by rewrite Hen'| |by rewrite Hlk|by rewrite lm_channel_after].
    rewrite Hr in Hk. cbn in Hk. destruct (lm_reader (lm_after es c s)); try done. injection Hk as -> -> ->. eauto 10.
Qed.

Lemma hung_join_run es s s' : hung_join s → Forall no_packet es → lm_run max s es = Some s' → hung_join s'.
Proof.
  intros Hh He. revert s Hh. induction He as [|e es He Hes IH]; intros s Hh H; cbn in H; [by injection H as <-|].
  inv_bind H. eapply IH; [|exact H]. by eapply hung_join_exec.
Qed.

(** end() waits for the lock, which a thread in [send] has while it waits for the peer. *)
Record hung_lock (i : nat) (s : LmSystem) : Prop := {
  hl_ok : senders_ok s;
  hl_ender : not_ended (lm_ender s);
  hl_sender : lm_mutex s = Some i
    ∧ ∃ rq mode cid chunks, lm_senders s !! i = Some (rq, SWriting mode cid (chunk :: chunks));
  hl_stream : ls_channel (lk_out (lm_link s)) = true ∧ ls_my_stream_id (lk_out (lm_link s)) = id
    ∧ ls_status (lk_out (lm_link s)) = kOk;
  hl_reader : ∃ mode cid phase got, lm_reader s = RReading mode cid phase got ∧ (length got < phase_size phase)%nat;
  hl_in : ls_channel (lk_in (lm_link s)) = true ∧ ls_my_stream_id (lk_in (lm_link s)) = id
    ∧ ls_status (lk_in (lm_link s)) = kOk;
  hl_channel : halves t r (lm_channel s);
}.

Lemma hung_lock_after i es c s : hung_lock i s → senders_ok (lm_after es c s) → halves t r c → hung_lock i (lm_after es c s).
Proof.
  intros [Hs Hen [Hm (rq & mode & cid & chunks & Hi)] Hst (rmode & rid & phase & got & Hr & Hl) Hin Hc] Hs' Hc'.
  destruct (lm_same_after es c s) as [Hlk _ Hmx Hk Hen' Hse _ _ _ _ _].
  constructor; [done|by rewrite Hen'| |by rewrite Hlk| |by rewrite Hlk|by rewrite lm_channel_after].
  - rewrite Hmx. split; [done|].
    assert (Hki : (sender_key <$> lm_senders (lm_after es c s)) !! i = Some (rq, SWriting Trying cid (chunk :: chunks)))
      by (rewrite Hse, list_lookup_fmap, Hi; done).
    rewrite list_lookup_fmap in Hki. destruct (lm_senders (lm_after es c s) !! i) as [[rq' p]|]; [|done].
    unfold sender_key in Hki. cbn in Hki. injection Hki as -> Hp. destruct p; try done. injection Hp as -> ->. eauto 10.
  - rewrite Hr in Hk. cbn in Hk. destruct (lm_reader (lm_after es c s)); try done. injection Hk as -> -> ->. eauto 10.
Qed.

Lemma hung_lock_exec i s e s' : chunk ≠ [] → hung_lock i s → no_packet e → lm_exec max s e = Some s' → hung_lock i s'.
Proof.
  intros Hne Hh He H.
  pose proof Hh as [Hs Hen [Hm (rq & mode & cid & chunks & Hi)] (Och & Oid & Ost) (rmode & rid & phase & got & Hr & Hl) (Hch & Hid & Hst) Hc].
  assert (Henv : lm_env e) by (by destruct e). pose proof (senders_ok_exec max _ _ _ Hs Henv H) as Hs'.
  destruct e; cbn [lm_exec] in H; try done.
  - unfold LinkMessaging_begin in H. by rewrite Hr in H.
  - injection H as <-. unfold LinkMessaging_end_call in *. destruct (lm_is_closed s); [done|].
    constructor; cbn; [done|by right|eauto 10|done|eauto 10|done|done].
  - unfold LinkMessaging_end_step in H. destruct Hen as [Hen|Hen]; rewrite Hen in H; [by injection H as <-|].
    rewrite decide_False in H by (by rewrite Hm). by injection H as <-.
  - unfold LinkMessaging_reader_step in H. rewrite Hr in H.
    assert (Hrd : s' = s ∨ LinkMessaging_read max rmode rid phase got s = Some s')
      by (destruct rmode; [by right|left; by injection H as <-|by right]).
    clear H. destruct Hrd as [->|H]; [done|]. unfold LinkMessaging_read in H.
    rewrite (proj2 (readFully_again_iff _ _ _)) in H by done.
    destruct (unanswered_read rmode (Z.of_nat (phase_size phase - length got)) _ _ Hc Hch Hid Hst) as (c' & Hread & Hc'); [lia|].
    rewrite Hread in H. cbn in H. injection H as <-. constructor; cbn; [done|done|eauto 10|done|eauto 10|done|done].
  - injection H as <-. constructor; cbn; [done|done| |done|eauto 10|done|done]. split; [done|].
    exists rq, mode, cid, chunks. by apply lookup_app_l_Some.
  - unfold LinkMessaging_sender_step in H. destruct (decide (i0 = i)) as [->|Hj].
    + rewrite Hi in H.
      assert (Hw : s' = s ∨ LinkMessaging_write i rq mode cid (chunk :: chunks) s = Some s')
        by (destruct mode; [by right|left; by injection H as <-|by right]).
      clear H. destruct Hw as [->|H]; [done|]. unfold LinkMessaging_write in H.
      rewrite (proj2 (writeFully_again_iff _ _)) in H by done.
      rewrite (unanswered_write mode _ _ Hc Hne Och Oid Ost) in H. cbn in H. injection H as <-.
      constructor; cbn; [done|done| |done|eauto 10|done|done]. split; [done|].
      rewrite list_lookup_insert_eq by (by eapply lookup_lt_Some). eauto 10.
    + destruct (lm_senders s !! i0) as [[rq' p]|] eqn:Hj'; [|by injection H as <-].
      destruct p as [| |mode' cid' chunks'|]; try by injection H as <-.
      * rewrite decide_False in H by (by rewrite Hm). by injection H as <-.
      * exfalso. assert (Hmj : lm_mutex s = Some i0) by (apply (si_mutex _ _ _ _ _ Hs);
          exists rq', cid', chunks'; by rewrite list_lookup_fmap, Hj'). congruence.
  - injection H as <-. constructor; cbn; [done|done| |done| |done|done].
    + split; [done|]. rewrite !list_lookup_fmap, Hi. cbn. eauto 10.
    + rewrite Hr. cbn. eauto 10.
  - inv_bind H. destruct p as [[u es] c]. injection H as <-. pose proof (unanswered_trySend _ _ _ _ _ _ _ _ Hc E) as Hc'.
    by apply hung_lock_after.
Qed.

Lemma hung_lock_run i es s s' :
  chunk ≠ [] → hung_lock i s → Forall no_packet es → lm_run max s es = Some s' → hung_lock i s'.
Proof.
  intros Hne Hh He. revert s Hh. induction He as [|e es He Hes IH]; intros s Hh H; cbn in H; [by injection H as <-|].
  inv_bind H. eapply IH; [|exact H]. by eapply hung_lock_exec.
Qed.

End Unanswered.

End Hangs.

(** ** The runs *)

(** The peer answers, and its second packet comes before the first; then it restarts. *)
Definition lm_demo_restart : list lm_event :=
  lm_demo_connect ++ [LmPacket (handshake_bytes 500 9 7 0x83); LmPacket [129; 245; 1; 2; 3]; LmReader [] 0; LmReader [] 0;
    LmPacket (handshake_bytes 600 10 0 0x83)].

(** When the peer restarts while one of its packets is missing, the receive thread waits for that packet
    for ever: [read] neither returns nor fails, although the link is broken, so that
    LinkMessaging never reconnects; handshake packets of the restarted peer change nothing, send() waits for the
    new connection, and end() does not return. *)
Theorem LinkMessaging_restart_hangs :
  ∃ s, lm_demo_run lm_demo_restart = Some s ∧ Link_status (lm_link s) (lm_channel s) = kBroken
  ∧ ∀ es s', Forall (no_help 9) es → lm_run 100 s es = Some s' →
      lm_ender s' ≠ EReturned ∧ ∃ mode id phase got, lm_reader s' = RReading mode id phase got.
Proof.
  destruct (lm_demo_run lm_demo_restart) as [s|] eqn:Hrun; [|exfalso; revert Hrun; vm_compute; discriminate].
  exists s. split; [done|].
  assert (Hf : option_map (λ s, let r := ch_receiver (lm_channel s) in
      (lm_reader s, lm_ender s, lk_in (lm_link s), Link_status (lm_link s) (lm_channel s), lk_my_stream_id (lm_link s),
       (rx_state r, rx_my_stream_id r, rx_end_of_stream r, RingBuffer_empty (rx_in_ring r), rx_current_in_buffer r),
       (Receiver_getInBuffer r (rb_begin (rx_in_ring r)), ib_type <$> (rx_in_buffers r !! 4%nat)),
       (ch_my_stream_id (lm_channel s), ch_peer_stream_id (lm_channel s)))) (lm_demo_run lm_demo_restart)
    = Some (RReading Awake 7 InSize [], ENotCalled, mkLinkStream true 7 kOk, kBroken, 7,
            (RkConnected, 7, false, false, None), (Some 4%nat, Some kUnset), (0, 9))) by (vm_compute; reflexivity).
  rewrite Hrun in Hf. injection Hf as H1 H2 H3 H4 H5 H6 H7 H8 H9 H10 H11 H12 H13 H14. split; [exact H4|].
  assert (Hh : hung_reader 7 9 s).
  { constructor; [|rewrite H3, H5; clear; repeat split; lia|rewrite H2; discriminate|].
    - exists Awake, 7, InSize, []. split; [exact H1|cbn; lia].
    - constructor; [exact H6|exact H7|exact H8|exact H9| |exact H13|exact H14].
      destruct (rx_in_buffers _ !! 4%nat) as [b|] eqn:Hb; [|done].
      exists 4%nat, b. split; [done|]. split; [done|]. split; [by injection H12|by left]. }
  intros es s' Hes Hrun'. destruct (hung_reader_run 100 7 9 es s s' Hh Hes Hrun') as [(m & cid & ph & got & Hr & _) _ Hen _].
  split; [done|]. by exists m, cid, ph, got.
Qed.

(** Such packets are the ones a peer sends that has restarted. *)
Example restart_packet_demo : restart_packet 9 (handshake_bytes 600 10 0 0x83).
Proof. vm_compute. split; [discriminate|]. split; [reflexivity|discriminate]. Qed.

Lemma lm_demo_ok es s : Forall lm_env es → lm_demo_run es = Some s → senders_ok s ∧ end_inv s.
Proof.
  unfold lm_demo_run. destruct chan_demo_new_ok as (c & Hc & _). rewrite (bind_step _ _ _ Hc). intros He Hrun.
  destruct (lm_start_ok c) as [H1 H2]. by eapply end_inv_run.
Qed.

(** end() comes between the test of [closed_] and connect(). *)
Definition lm_demo_late : list lm_event :=
  [LmBegin; LmReader [] 0; LmEnd; LmEnder; LmReader [7] 100; LmReader [] 0; LmReader [] 0].

(** When the receive thread has tested [closed_] and not yet called connect(), end() disconnects the old
    link, and the thread then makes a new one and waits for its bytes: end() waits for that
    thread until the peer sends something or resets the link. *)
Theorem LinkMessaging_end_hangs :
  ∃ s, lm_demo_run lm_demo_late = Some s
  ∧ ∀ es s', Forall no_packet es → lm_run 100 s es = Some s' → lm_ender s' = EJoin.
Proof.
  destruct (lm_demo_run lm_demo_late) as [s|] eqn:Hrun; [|exfalso; revert Hrun; vm_compute; discriminate].
  exists s. split; [done|].
  assert (Hf : option_map (λ s, let r := ch_receiver (lm_channel s) in let t := ch_transmitter (lm_channel s) in
      (lm_reader s, lm_ender s, lk_in (lm_link s),
       (rx_state r, rx_my_stream_id r, rx_end_of_stream r), (tx_state t, tx_my_stream_id t))) (lm_demo_run lm_demo_late)
    = Some (RReading Sleeping 7 InSize [], EJoin, mkLinkStream true 7 kOk,
            (RkConnecting, 7, false), (TkConnecting, 7))) by (vm_compute; reflexivity).
  rewrite Hrun in Hf. injection Hf as H1 H2 H3 H4 H5 H6 H7 H8.
  assert (Hun : unanswered 7 [] (ch_transmitter (lm_channel s)) (ch_receiver (lm_channel s))) by (by constructor).
  assert (Hh : hung_join 7 (ch_transmitter (lm_channel s)) (ch_receiver (lm_channel s)) s).
  { constructor; [|exact H2| |by rewrite H3|done].
    - eapply lm_demo_ok; [|exact Hrun]. by repeat constructor.
    - exists Sleeping, 7, InSize, []. split; [exact H1|cbn; lia]. }
  intros es s' Hes Hrun'. by destruct (hung_join_run 100 7 [] _ _ Hun es s s' Hh Hes Hrun').
Qed.

(** A message is sent while the link is connecting, and then end() is called. *)
Definition lm_demo_send : list lm_event :=
  lm_demo_connect ++ [LmSend (mkRequest None [] [1; 2; 3]); LmSender 0; LmSender 0; LmEnd].

(** [send] keeps the lock while it waits for room, and end() needs the lock to disconnect the link, which
    would end that wait: when the peer does not answer, end() and [send] both wait. *)
Theorem LinkMessaging_end_waits_for_send :
  ∃ s, lm_demo_run lm_demo_send = Some s ∧ lm_is_closed s = true
  ∧ ∀ es s', Forall no_packet es → lm_run 100 s es = Some s' →
      lm_ender s' ≠ EReturned ∧ ∃ rq mode id chunks, lm_senders s' !! 0%nat = Some (rq, SWriting mode id chunks).
Proof.
  destruct (lm_demo_run lm_demo_send) as [s|] eqn:Hrun; [|exfalso; revert Hrun; vm_compute; discriminate].
  exists s. split; [done|].
  assert (Hf : option_map (λ s, let r := ch_receiver (lm_channel s) in let t := ch_transmitter (lm_channel s) in
      (lm_reader s, lm_ender s, lm_link s, lm_is_closed s, lm_mutex s, lm_senders s !! 0%nat,
       (rx_state r, rx_my_stream_id r, rx_end_of_stream r), (tx_state t, tx_my_stream_id t))) (lm_demo_run lm_demo_send)
    = Some (RReading Sleeping 7 InSize [], EDisconnect, Link_new 7, true, Some 0%nat,
            Some (mkRequest None [] [1; 2; 3], SWriting Sleeping 7 [[0; 0; 0; 3]; []; [1; 2; 3]]),
            (RkConnecting, 7, false), (TkConnecting, 7))) by (vm_compute; reflexivity).
  assert (Hfull : option_map (λ s, Transmitter_tryWrite (ch_transmitter (lm_channel s)) [0; 0; 0; 3]) (lm_demo_run lm_demo_send)
    = option_map (λ s, Some (0, false, ch_transmitter (lm_channel s))) (lm_demo_run lm_demo_send)) by (vm_compute; reflexivity).
  rewrite Hrun in Hf, Hfull. injection Hf as H1 H2 H3 H4 H5 H6 H7 H8 H9 H10 H11. injection Hfull as Hfull. split; [exact H4|].
  assert (Hun : unanswered 7 [0; 0; 0; 3] (ch_transmitter (lm_channel s)) (ch_receiver (lm_channel s))) by (by constructor).
  assert (Hh : hung_lock 7 [0; 0; 0; 3] (ch_transmitter (lm_channel s)) (ch_receiver (lm_channel s)) 0 s).
  { constructor; [|right; exact H2| |rewrite H3; repeat split| |rewrite H3; repeat split|split; reflexivity].
    - apply (lm_demo_ok lm_demo_send); [|exact Hrun].
      repeat apply Forall_cons_2; try apply Forall_nil_2; try exact I. vm_compute. reflexivity.
    - split; [exact H5|]. eexists _, _, _, _. exact H6.
    - exists Sleeping, 7, InSize, []. split; [exact H1|cbn; lia]. }
  intros es s' Hes Hrun'.
  destruct (hung_lock_run 100 7 [0; 0; 0; 3] _ _ Hun 0 es s s' ltac:(discriminate) Hh Hes Hrun')
    as [_ Hen [_ (rq & m & cid & chunks & Hi)] _ _ _ _].
  split; [by intros He; destruct Hen; congruence|]. eexists rq, m, cid, _. exact Hi.
Qed.

