(* ===== verification/RpcHeader.v ===== *)
(** * RpcHeader: status codes and the header of a request or response

    [rpc/status.{h,cpp}], [rpc/rpc.h] and [rpc/internal/header.{h,cpp}]. The iterators
    of roo_io over a memory range, and its variable-length integers, are the fields of
    [RooIoData]; an iterator is the bytes ahead of it, or [None] once a read has failed.
    The union of the header is its last field. *)

From Stdlib Require Import String.
From S2P Require Import Prelude.
From S2P Require Import RooIo.

Local Open Scope Z_scope.
Local Open Scope roo_scope.

(** ** Status codes *)

Inductive RpcStatus :=
  | RpcOk | RpcCancelled | RpcUnknown | RpcInvalidArgument | RpcDeadlineExceeded | RpcNotFound
  | RpcAlreadyExists | RpcPermissionDenied | RpcUnauthenticated | RpcResourceExhausted
  | RpcFailedPrecondition | RpcAborted | RpcOutOfRange | RpcUnimplemented | RpcInternal
  | RpcUnavailable | RpcDataLoss
  | RpcOther (code : Z).

#[export] Instance RpcStatus_eq_dec : EqDecision RpcStatus.
Proof. solve_decision. Defined.

(** The numeric value of an enumerator; [RpcOther] is a value without a name. *)
Definition RpcStatus_code (s : RpcStatus) : Z :=
  match s with
  | RpcOk => 0 | RpcCancelled => 1 | RpcUnknown => 2 | RpcInvalidArgument => 3
  | RpcDeadlineExceeded => 4 | RpcNotFound => 5 | RpcAlreadyExists => 6 | RpcPermissionDenied => 7
  | RpcUnauthenticated => 16 | RpcResourceExhausted => 8 | RpcFailedPrecondition => 9
  | RpcAborted => 10 | RpcOutOfRange => 11 | RpcUnimplemented => 12 | RpcInternal => 13
  | RpcUnavailable => 14 | RpcDataLoss => 15
  | RpcOther code => code
  end.

(** [(RpcStatus)code] *)
Definition RpcStatus_of_code (code : Z) : RpcStatus :=
  match code with
  | 0 => RpcOk | 1 => RpcCancelled | 2 => RpcUnknown | 3 => RpcInvalidArgument
  | 4 => RpcDeadlineExceeded | 5 => RpcNotFound | 6 => RpcAlreadyExists | 7 => RpcPermissionDenied
  | 16 => RpcUnauthenticated | 8 => RpcResourceExhausted | 9 => RpcFailedPrecondition
  | 10 => RpcAborted | 11 => RpcOutOfRange | 12 => RpcUnimplemented | 13 => RpcInternal
  | 14 => RpcUnavailable | 15 => RpcDataLoss
  | _ => RpcOther code
  end.

Definition RpcStatusAsString (s : RpcStatus) : string :=
  match s with
  | RpcOk => "OK" | RpcCancelled => "cancelled" | RpcUnknown => "unknown"
  | RpcInvalidArgument => "invalid argument" | RpcDeadlineExceeded => "deadline exceeded"
  | RpcNotFound => "not found" | RpcAlreadyExists => "already exists"
  | RpcPermissionDenied => "permission denied" | RpcUnauthenticated => "unauthenticated"
  | RpcResourceExhausted => "resource exhausted" | RpcFailedPrecondition => "failed precondition"
  | RpcAborted => "aborted" | RpcOutOfRange => "out of range" | RpcUnimplemented => "unimplemented"
  | RpcInternal => "internal" | RpcUnavailable => "unavailable" | RpcDataLoss => "data loss"
  | RpcOther _ => "unknown error"
  end%string.

(** A value of the enumeration that is not one of the names. *)
Definition status_ok (s : RpcStatus) : Prop :=
  match s with RpcOther code => 16 < code < 256 | _ => True end.

Lemma RpcStatus_roundtrip s : status_ok s → RpcStatus_of_code (RpcStatus_code s) = s.
Proof.
  destruct s; try done. cbn. intros Hc. repeat (destruct code as [|code|code]; try lia; try done).
Qed.

(** ** Iterators of roo_io *)

(** The bytes ahead, or [None] once the status is not OK. *)
Abbreviation Cursor := (option (list byte)) (only parsing).

Class RooIoData := {
  ReadU8 : Cursor → Z * Cursor;
  ReadBeU24 : Cursor → Z * Cursor;
  ReadVarU32 : Cursor → option Z * Cursor;
  WriteBeU24 : Z → list byte;
  WriteVarU64 : Z → list byte;
}.

(** A read of what was written yields it and advances; a read past the end fails, and
    so does every read after a failure. [ReadVarU32] returns false when it fails. A
    32-bit value takes at most five bytes of seven bits. *)
Class RooIoDataLaws {data : RooIoData} : Prop := {
  ReadU8_cons b rest : is_byte b → ReadU8 (Some (b :: rest)) = (b, Some rest);
  ReadU8_nil : (ReadU8 (Some [])).2 = None;
  WriteBeU24_be x : 0 ≤ x < 2 ^ 24 → WriteBeU24 x = be_bytes 3 x;
  ReadBeU24_app x rest : 0 ≤ x < 2 ^ 24 → ReadBeU24 (Some (be_bytes 3 x ++ rest)) = (x, Some rest);
  ReadBeU24_short bs : (length bs < 3)%nat → (ReadBeU24 (Some bs)).2 = None;
  ReadVarU32_app x rest : 0 ≤ x < 2 ^ 32 → ReadVarU32 (Some (WriteVarU64 x ++ rest)) = (Some x, Some rest);
  ReadVarU32_short x k : 0 ≤ x < 2 ^ 32 → (k < length (WriteVarU64 x))%nat →
    (ReadVarU32 (Some (take k (WriteVarU64 x)))).1 = None;
  WriteVarU64_length x : 0 ≤ x < 2 ^ 32 → (1 ≤ length (WriteVarU64 x) ≤ 5)%nat;
  ReadU8_failed : (ReadU8 None).2 = None;
  ReadBeU24_failed : (ReadBeU24 None).2 = None;
  ReadVarU32_failed : ReadVarU32 None = (None, None);
}.

(** ** The header *)

Inductive MessageType := RkUnset | RkRequest | RkResponse.

#[export] Instance MessageType_eq_dec : EqDecision MessageType.
Proof. solve_decision. Defined.

Inductive RpcHeaderFields :=
  | NewRequest (function_id timeout_ms : Z)
  | LastResponse (status : RpcStatus)
  | Continuation.

Record RpcHeader := mkRpcHeader {
  rh_type : MessageType;
  rh_first_message : bool;
  rh_last_message : bool;
  rh_has_timeout : bool;
  rh_stream_id : Z;
  rh_fields : RpcHeaderFields;
}.

Definition RpcHeader_kMaxSerializedSize : nat := 32.

Definition RpcHeader_NewUnaryRequest (function_id stream_id : Z) : RpcHeader :=
  mkRpcHeader RkRequest true true false stream_id (NewRequest function_id 0).

Definition RpcHeader_NewUnaryRequestWithTimeout (function_id stream_id timeout_ms : Z) : RpcHeader :=
  mkRpcHeader RkRequest true true true stream_id (NewRequest function_id timeout_ms).

Definition RpcHeader_NewUnaryResponse (stream_id : Z) (status : RpcStatus) : RpcHeader :=
  mkRpcHeader RkResponse true true false stream_id (LastResponse status).

Definition is_type (ty : MessageType) (h : RpcHeader) : bool := bool_decide (rh_type h = ty).

(** The accessors of the union [CHECK] the tag. *)
Definition RpcHeader_functionId (h : RpcHeader) : option Z :=
  CHECK is_type RkRequest h && rh_first_message h ;;
  match rh_fields h with NewRequest function_id _ => Some function_id | _ => None end.

Definition RpcHeader_timeoutMs (h : RpcHeader) : option Z :=
  CHECK is_type RkRequest h && rh_first_message h && rh_has_timeout h ;;
  match rh_fields h with NewRequest _ timeout_ms => Some timeout_ms | _ => None end.

Definition RpcHeader_responseStatus (h : RpcHeader) : option RpcStatus :=
  CHECK is_type RkResponse h && rh_last_message h ;;
  match rh_fields h with LastResponse status => Some status | _ => None end.

Section Operations.

Context {io : RooIo} {data : RooIoData}.

Definition RpcHeader_mask (h : RpcHeader) : Z :=
  Z.lor (if is_type RkRequest h then 0x01 else 0)
    (Z.lor (if rh_first_message h then 0x02 else 0)
      (Z.lor (if rh_last_message h then 0x04 else 0) (if rh_has_timeout h then 0x08 else 0))).

(** Aborts when the buffer is too small. *)
Definition RpcHeader_serialize (h : RpcHeader) (buffer_size : nat) : option (list byte) :=
  let bytes :=
    RpcHeader_mask h :: WriteBeU24 (rh_stream_id h)
    ++ (if is_type RkRequest h && rh_first_message h
        then match rh_fields h with
             | NewRequest function_id timeout_ms =>
                 WriteVarU64 function_id ++ (if rh_has_timeout h then WriteVarU64 timeout_ms else [])
             | _ => []
             end
        else if is_type RkResponse h && rh_last_message h
        then match rh_fields h with
             | LastResponse status => StoreU8 (u8 (RpcStatus_code status))
             | _ => []
             end
        else []) in
  CHECK bool_decide (length bytes ≤ buffer_size)%nat ;; Some bytes.

(** The union, by the tag. *)
Definition RpcHeader_deserialize_fields (request first last has_timeout : bool) (it : Cursor)
    : option (RpcHeaderFields * Cursor) :=
  if request && first then
    let '(function_id, it) := ReadVarU32 it in
    function_id ← function_id;
    if has_timeout then
      let '(timeout_ms, it) := ReadVarU32 it in
      timeout_ms ← timeout_ms; Some (NewRequest function_id timeout_ms, it)
    else Some (NewRequest function_id 0, it)
  else if negb request && last then
    let '(status, it) := ReadU8 it in
    Some (LastResponse (RpcStatus_of_code status), it)
  else Some (Continuation, it).

(** The header and the bytes after it; [None] is the return value 0. *)
Definition RpcHeader_deserialize (buffer : list byte) : option (RpcHeader * list byte) :=
  let '(mask, it) := ReadU8 (Some buffer) in
  let mask := u8 mask in
  if negb (Z.land mask 0xF0 =? 0) then None
  else
    let request := negb (Z.land mask 0x01 =? 0) in
    let first := negb (Z.land mask 0x02 =? 0) in
    let last := negb (Z.land mask 0x04 =? 0) in
    let has_timeout := negb (Z.land mask 0x08 =? 0) in
    let '(stream_id, it) := ReadBeU24 it in
    '(fields, it) ← RpcHeader_deserialize_fields request first last has_timeout it;
    rest ← it;
    Some (mkRpcHeader (if request then RkRequest else RkResponse) first last has_timeout stream_id fields,
          rest).

End Operations.

(** ** Round trip *)

Section Roundtrip.

Context {io : RooIo} {io_laws : RooIoLaws} {data : RooIoData} {data_laws : RooIoDataLaws}.

(** The headers there are: the fields fit the tag and their widths. *)
Definition rh_ok (h : RpcHeader) : Prop :=
  rh_type h ≠ RkUnset ∧ 0 ≤ rh_stream_id h < 2 ^ 24
  ∧ match rh_fields h with
    | NewRequest function_id timeout_ms =>
        rh_type h = RkRequest ∧ rh_first_message h = true ∧ 0 ≤ function_id < 2 ^ 32
        ∧ 0 ≤ timeout_ms < 2 ^ 32 ∧ (rh_has_timeout h = false → timeout_ms = 0)
    | LastResponse status => rh_type h = RkResponse ∧ rh_last_message h = true ∧ status_ok status
    | Continuation =>
        (rh_type h = RkRequest → rh_first_message h = false)
        ∧ (rh_type h = RkResponse → rh_last_message h = false)
    end.

(** The union on the wire. *)
Definition fields_bytes (h : RpcHeader) : list byte :=
  match rh_fields h with
  | NewRequest function_id timeout_ms =>
      WriteVarU64 function_id ++ (if rh_has_timeout h then WriteVarU64 timeout_ms else [])
  | LastResponse status => StoreU8 (u8 (RpcStatus_code status))
  | Continuation => []
  end.

Lemma status_code_u8 s : status_ok s → 0 ≤ RpcStatus_code s < 256.
Proof. destruct s; cbn; lia. Qed.

Lemma status_bytes s : status_ok s → StoreU8 (u8 (RpcStatus_code s)) = [RpcStatus_code s].
Proof.
  intros Hs%status_code_u8. rewrite u8_small, StoreU8_be by lia. cbn.
  by rewrite Z.div_1_r, Z.mod_small by lia.
Qed.

Lemma fields_bytes_length h : rh_ok h → (length (fields_bytes h) ≤ 10)%nat.
Proof.
  intros (_ & _ & Hf). unfold fields_bytes. destruct (rh_fields h) as [f t|st|]; [|..|cbn; lia].
  - destruct Hf as (_ & _ & Hf & Ht & _). pose proof (WriteVarU64_length f Hf).
    pose proof (WriteVarU64_length t Ht). rewrite length_app. destruct (rh_has_timeout h); cbn; lia.
  - destruct Hf as (_ & _ & Hs). rewrite status_bytes by done. cbn. lia.
Qed.

Lemma serialize_bytes h n :
  rh_ok h → (14 ≤ n)%nat →
  RpcHeader_serialize h n = Some (RpcHeader_mask h :: be_bytes 3 (rh_stream_id h) ++ fields_bytes h).
Proof.
  intros Hok Hn. pose proof (fields_bytes_length h Hok) as Hl. destruct Hok as (Hty & Hid & Hf).
  unfold RpcHeader_serialize. rewrite WriteBeU24_be by done.
  match goal with |- context [(be_bytes 3 _ ++ ?b) : list _] => assert (b = fields_bytes h) as -> end.
  { unfold fields_bytes, is_type. destruct (rh_fields h) as [f t|st|].
    - destruct Hf as (-> & -> & _). by rewrite bool_decide_true.
    - destruct Hf as (-> & -> & _). by rewrite bool_decide_false, bool_decide_true.
    - destruct (rh_type h); [done|..]; destruct Hf as [Hr Hs]; cbn; rewrite ?Hr, ?Hs by done; done. }
  rewrite bool_decide_true; [done|]. cbn [length]. rewrite length_app, length_be_bytes. lia.
Qed.

(** Parsing back the mask. *)
Lemma mask_bits h :
  rh_type h ≠ RkUnset →
  is_byte (RpcHeader_mask h) ∧ Z.land (u8 (RpcHeader_mask h)) 0xF0 = 0
  ∧ negb (Z.land (u8 (RpcHeader_mask h)) 0x01 =? 0) = is_type RkRequest h
  ∧ negb (Z.land (u8 (RpcHeader_mask h)) 0x02 =? 0) = rh_first_message h
  ∧ negb (Z.land (u8 (RpcHeader_mask h)) 0x04 =? 0) = rh_last_message h
  ∧ negb (Z.land (u8 (RpcHeader_mask h)) 0x08 =? 0) = rh_has_timeout h.
Proof.
  destruct h as [[] [] [] [] id f]; intros H; try done;
    (split; [unfold is_byte; vm_compute; split; congruence|vm_compute; auto]).
Qed.

Lemma fields_parse h rest :
  rh_ok h →
  RpcHeader_deserialize_fields (is_type RkRequest h) (rh_first_message h) (rh_last_message h)
    (rh_has_timeout h) (Some (fields_bytes h ++ rest)) = Some (rh_fields h, Some rest).
Proof.
  intros (Hty & _ & Hf). unfold fields_bytes, RpcHeader_deserialize_fields, is_type.
  destruct (rh_fields h) as [f t|st|].
  - destruct Hf as (-> & -> & Hf & Ht & Hz). rewrite bool_decide_true by done. cbn [andb].
    rewrite <- app_assoc, ReadVarU32_app by done. cbn [mbind option_bind].
    destruct (rh_has_timeout h); [by rewrite ReadVarU32_app|]. by rewrite Hz.
  - destruct Hf as (-> & -> & Hs). rewrite bool_decide_false by done. cbn [andb negb].
    rewrite status_bytes by done. cbn [app].
    rewrite ReadU8_cons by (unfold is_byte; by apply status_code_u8).
    by rewrite RpcStatus_roundtrip.
  - destruct (rh_type h); [done|..]; destruct Hf as [Hr Hs]; cbn; rewrite ?Hr, ?Hs by done; done.
Qed.

Lemma fields_truncated h k :
  rh_ok h → (k < length (fields_bytes h))%nat →
  match RpcHeader_deserialize_fields (is_type RkRequest h) (rh_first_message h) (rh_last_message h)
    (rh_has_timeout h) (Some (take k (fields_bytes h))) with
  | Some (_, Some _) => False
  | _ => True
  end.
Proof.
  intros (Hty & _ & Hf) Hk. unfold fields_bytes, RpcHeader_deserialize_fields, is_type in *.
  destruct (rh_fields h) as [f t|st|]; [|..|cbn in Hk; lia].
  - destruct Hf as (-> & -> & Hf & Ht & Hz). rewrite bool_decide_true by done. cbn [andb].
    destruct (decide (k < length (WriteVarU64 f))%nat) as [Hlt|Hge].
    + rewrite take_app_le by lia. pose proof (ReadVarU32_short f k Hf Hlt) as Hs.
      destruct (ReadVarU32 _) as [v it]. cbn in Hs. by subst v.
    + rewrite take_app_ge by lia. rewrite ReadVarU32_app by done. cbn [mbind option_bind].
      rewrite length_app in Hk. destruct (rh_has_timeout h); [|cbn in Hk; lia].
      pose proof (ReadVarU32_short t (k - length (WriteVarU64 f)) Ht ltac:(lia)) as Hs.
      destruct (ReadVarU32 _) as [v it]. cbn in Hs. by subst v.
  - destruct Hf as (-> & -> & Hs). rewrite bool_decide_false by done. cbn [andb negb].
    rewrite status_bytes in * by done. cbn in Hk. assert (k = 0)%nat as -> by lia. cbn [take].
    pose proof ReadU8_nil as Hn. destruct (ReadU8 _) as [v it]. cbn in Hn. by subst it.
Qed.

(** Once a read has failed nothing is parsed. *)
Lemma fields_failed r f l t :
  match RpcHeader_deserialize_fields r f l t None with Some (_, Some _) => False | _ => True end.
Proof.
  unfold RpcHeader_deserialize_fields. rewrite ReadVarU32_failed. cbn.
  destruct (r && f); [done|]. destruct (negb r && l); [|done].
  pose proof ReadU8_failed as Hn. destruct (ReadU8 _) as [v it]. cbn in Hn. by subst it.
Qed.

Lemma header_roundtrip h payload :
  rh_ok h →
  ∃ bytes, RpcHeader_serialize h RpcHeader_kMaxSerializedSize = Some bytes
    ∧ (0 < length bytes)%nat ∧ RpcHeader_deserialize (bytes ++ payload) = Some (h, payload).
Proof.
  intros Hok. eexists. rewrite serialize_bytes by (done || (unfold RpcHeader_kMaxSerializedSize; lia)).
  split; [done|]. split; [cbn; lia|]. destruct (mask_bits h (proj1 Hok)) as (Hb & H0 & H1 & H2 & H3 & H4).
  unfold RpcHeader_deserialize. cbn [app]. rewrite ReadU8_cons by done. cbv zeta.
  rewrite H0, H1, H2, H3, H4. cbn [negb Z.eqb].
  rewrite <- app_assoc, ReadBeU24_app by apply Hok. rewrite fields_parse by done. cbn [mbind option_bind].
  destruct Hok as [Hty _]. destruct h as [[] ? ? ? ? ?]; done.
Qed.

(** C38: a header survives the wire. Every header whose fields fit their widths is
    serialized within the 32 bytes of the callers' buffers, and parsing the message
    yields it again and leaves the payload. *)
Theorem RpcHeader_roundtrip (h : RpcHeader) (payload : list byte) (Hok : rh_ok h) :
  ∃ bytes, RpcHeader_serialize h RpcHeader_kMaxSerializedSize = Some bytes
    ∧ RpcHeader_deserialize (bytes ++ payload) = Some (h, payload).
Proof. destruct (header_roundtrip h payload Hok) as (bytes & H1 & _ & H2). by exists bytes. Qed.

(** A header that is cut short anywhere is rejected, and so is one with a reserved
    bit set. *)
Theorem RpcHeader_rejects (h : RpcHeader) (bytes buffer : list byte) (mask : Z) (k : nat) (Hok : rh_ok h)
    (Hbytes : RpcHeader_serialize h RpcHeader_kMaxSerializedSize = Some bytes)
    (Hk : (k < length bytes)%nat) (Hmask : is_byte mask) (Hreserved : Z.land mask 0xF0 ≠ 0) :
  RpcHeader_deserialize (take k bytes) = None ∧ RpcHeader_deserialize (mask :: buffer) = None.
Proof.
  split.
  2:{ unfold RpcHeader_deserialize. rewrite ReadU8_cons by done. cbv zeta. rewrite u8_small by done.
      by rewrite (proj2 (Z.eqb_neq _ _)). }
  rewrite serialize_bytes in Hbytes by (done || (unfold RpcHeader_kMaxSerializedSize; lia)).
  apply (inj Some) in Hbytes. subst bytes. destruct (mask_bits h (proj1 Hok)) as (Hb & H0 & H1 & H2 & H3 & H4).
  assert (Hdead : ∀ (r f l t : bool) (it : Cursor) (g : RpcHeaderFields → list byte → RpcHeader * list byte),
    match RpcHeader_deserialize_fields r f l t it with Some (_, Some _) => False | _ => True end →
    ('(fields, it) ← RpcHeader_deserialize_fields r f l t it; rest ← it; Some (g fields rest)) = None).
  { intros r f l t it g Hf. destruct (RpcHeader_deserialize_fields r f l t it) as [[? [?|]]|]; done. }
  unfold RpcHeader_deserialize. destruct k as [|k]; cbn [take].
  { pose proof ReadU8_nil as Hn. destruct (ReadU8 _) as [v it]. cbn in Hn. subst it. cbv zeta.
    destruct (negb (Z.land (u8 v) 0xF0 =? 0)); [done|]. pose proof ReadBeU24_failed as Hn.
    destruct (ReadBeU24 _) as [v' it]. cbn in Hn. subst it.
    apply (Hdead _ _ _ _ _ (λ fields rest, (_, rest))), fields_failed. }
  rewrite ReadU8_cons by done. cbv zeta. rewrite H0, H1, H2, H3, H4. cbn [negb Z.eqb].
  cbn [length] in Hk. rewrite length_app, length_be_bytes in Hk.
  destruct (decide (k < 3)%nat) as [Hlt|Hge].
  - rewrite take_app_le by (rewrite length_be_bytes; lia).
    pose proof (ReadBeU24_short (take k (be_bytes 3 (rh_stream_id h)))
      ltac:(rewrite length_take, length_be_bytes; lia)) as Hn.
    destruct (ReadBeU24 _) as [v' it]. cbn in Hn. subst it.
    apply (Hdead _ _ _ _ _ (λ fields rest, (_, rest))), fields_failed.
  - rewrite take_app_ge by (rewrite length_be_bytes; lia). rewrite length_be_bytes.
    rewrite ReadBeU24_app by apply Hok.
    apply (Hdead _ _ _ _ _ (λ fields rest, (_, rest))), fields_truncated; [done|lia].
Qed.

End Roundtrip.

(** ** A reference for the iterators: seven bits per byte, low bits first *)

Fixpoint var_bytes (fuel : nat) (x : Z) : list byte :=
  match fuel with
  | O => []
  | S fuel => if x <? 128 then [x] else (x mod 128 + 128) :: var_bytes fuel (x / 128)
  end.

Fixpoint var_read (bs : list byte) : option (Z * list byte) :=
  match bs with
  | [] => None
  | b :: bs => if b <? 128 then Some (b, bs) else '(x, rest) ← var_read bs; Some (b - 128 + 128 * x, rest)
  end.

Lemma var_read_bytes fuel x rest :
  0 ≤ x < 128 ^ Z.of_nat fuel → (0 < fuel)%nat → var_read (var_bytes fuel x ++ rest) = Some (x, rest).
Proof.
  revert x. induction fuel as [|fuel IH]; intros x Hx Hf; [lia|]. cbn [var_bytes].
  destruct (Z.ltb_spec x 128) as [Hlt|Hge].
  - cbn. by rewrite (proj2 (Z.ltb_lt _ _)).
  - rewrite Nat2Z.inj_succ, Z.pow_succ_r in Hx by lia.
    assert (Hpos : (0 < fuel)%nat) by (destruct fuel; [cbn in Hx; lia|lia]).
    pose proof (Z.mod_pos_bound x 128 ltac:(lia)). cbn. rewrite (proj2 (Z.ltb_ge _ _)) by lia.
    rewrite IH; [cbn; do 2 f_equal; rewrite (Z.div_mod x 128) at 3 by lia; lia| |done].
    split; [apply Z.div_pos; lia|apply Z.div_lt_upper_bound; lia].
Qed.

Lemma var_read_short fuel x k :
  0 ≤ x < 128 ^ Z.of_nat fuel → (k < length (var_bytes fuel x))%nat →
  var_read (take k (var_bytes fuel x)) = None.
Proof.
  revert x k. induction fuel as [|fuel IH]; intros x k Hx Hk; [cbn in Hk; lia|]. cbn [var_bytes] in *.
  destruct (Z.ltb_spec x 128) as [Hlt|Hge].
  - cbn in Hk. by assert (k = 0)%nat as -> by lia.
  - destruct k as [|k]; [done|]. cbn in Hk |- *. pose proof (Z.mod_pos_bound x 128 ltac:(lia)).
    rewrite (proj2 (Z.ltb_ge _ _)) by lia. rewrite Nat2Z.inj_succ, Z.pow_succ_r in Hx by lia.
    rewrite IH; [done| |lia]. split; [apply Z.div_pos; lia|apply Z.div_lt_upper_bound; lia].
Qed.

Lemma var_bytes_length fuel x : (0 < fuel)%nat → (1 ≤ length (var_bytes fuel x) ≤ fuel)%nat.
Proof.
  revert x. induction fuel as [|[|fuel] IH]; intros x Hf; [lia|..].
  - cbn. destruct (x <? 128); cbn; lia.
  - cbn [var_bytes]. destruct (x <? 128); cbn [length]; [lia|].
    specialize (IH (x / 128) ltac:(lia)). cbn [var_bytes] in IH. lia.
Qed.

Instance roo_io_data_reference : RooIoData := {|
  ReadU8 it := match it with Some (b :: rest) => (b, Some rest) | _ => (0, None) end;
  ReadBeU24 it :=
    match it with
    | Some (a :: b :: c :: rest) => (be_value [a; b; c], Some rest)
    | _ => (0, None)
    end;
  ReadVarU32 it :=
    match it with
    | None => (None, None)
    | Some bs => match var_read bs with Some (x, rest) => (Some x, Some rest) | None => (None, None) end
    end;
  WriteBeU24 := be_bytes 3;
  WriteVarU64 x := var_bytes 5 x;
|}.

Instance roo_io_data_reference_laws : RooIoDataLaws (data := roo_io_data_reference).
Proof.
  constructor; cbn -[var_bytes be_bytes]; try done.
  - intros x rest Hx. rewrite <- (be_value_bytes 3 x) at 2 by (cbn; lia). done.
  - intros [|a [|b [|c bs]]] Hl; cbn in *; try done; lia.
  - intros x rest Hx. by rewrite var_read_bytes by (cbn; lia).
  - intros x k Hx Hk. by rewrite var_read_short by (cbn -[var_bytes]; lia).
  - intros x _. apply var_bytes_length. lia.
Qed.

(** ** Witnesses *)

Definition demo_header : RpcHeader := RpcHeader_NewUnaryRequestWithTimeout 300 66051 1000000.

Lemma demo_header_ok : rh_ok demo_header.
Proof. unfold rh_ok, demo_header. cbn. split; [done|]. repeat split; lia || done. Qed.

Lemma RpcHeader_roundtrip_witness :
  RpcHeader_deserialize ([15; 1; 2; 3; 172; 2; 192; 132; 61] ++ [7; 7]) = Some (demo_header, [7; 7]).
Proof.
  destruct (RpcHeader_roundtrip demo_header [7; 7] demo_header_ok) as (bytes & H1 & H2).
  vm_compute in H1. injection H1 as <-. exact H2.
Defined.

Lemma RpcHeader_rejects_witness : RpcHeader_deserialize [15; 1; 2; 3; 172; 2; 192] = None.
Proof.
  destruct (RpcHeader_rejects demo_header [15; 1; 2; 3; 172; 2; 192; 132; 61] [] 0x80 7 demo_header_ok)
    as [H _]; [reflexivity|cbn; lia|unfold is_byte; lia|discriminate|exact H].
Defined.
