(* ===== verification/Serialization.v ===== *)
(** * Serialization: the arguments and results of calls as bytes

    [rpc/serialization.h]. The templates [Serializer<T>] and [Deserializer<T>] are
    classes, with an instance per specialization. [DynamicSerialized] is a buffer with a
    write position, into which the members of a pair or tuple are written behind their
    length in two bytes. The signed loads and stores of roo_io are a class of
    their own. *)

From S2P Require Import Prelude.
From S2P Require Import RooIo.
From S2P Require Import RpcHeader.

Local Open Scope Z_scope.
Local Open Scope roo_scope.

(** ** Signed integers of roo_io *)

Class RooIoSigned := {
  StoreS8 : Z → list byte;
  StoreBeS16 : Z → list byte;
  StoreBeS32 : Z → list byte;
  StoreBeS64 : Z → list byte;
  LoadS8 : list byte → Z;
  LoadBeS16 : list byte → Z;
  LoadBeS32 : list byte → Z;
  LoadBeS64 : list byte → Z;
}.

(** The value of an [n]-byte two's complement number. *)
Definition signed_value (n : nat) (x : Z) : Z :=
  if x <? 256 ^ Z.of_nat n / 2 then x else x - 256 ^ Z.of_nat n.

(** A signed value is stored as its two's complement, in network order. *)
Class RooIoSignedLaws {sio : RooIoSigned} : Prop := {
  StoreS8_be x : -2 ^ 7 ≤ x < 2 ^ 7 → StoreS8 x = be_bytes 1 (x mod 2 ^ 8);
  StoreBeS16_be x : -2 ^ 15 ≤ x < 2 ^ 15 → StoreBeS16 x = be_bytes 2 (x mod 2 ^ 16);
  StoreBeS32_be x : -2 ^ 31 ≤ x < 2 ^ 31 → StoreBeS32 x = be_bytes 4 (x mod 2 ^ 32);
  StoreBeS64_be x : -2 ^ 63 ≤ x < 2 ^ 63 → StoreBeS64 x = be_bytes 8 (x mod 2 ^ 64);
  LoadS8_be bs : length bs = 1%nat → Forall is_byte bs → LoadS8 bs = signed_value 1 (be_value bs);
  LoadBeS16_be bs : length bs = 2%nat → Forall is_byte bs → LoadBeS16 bs = signed_value 2 (be_value bs);
  LoadBeS32_be bs : length bs = 4%nat → Forall is_byte bs → LoadBeS32 bs = signed_value 4 (be_value bs);
  LoadBeS64_be bs : length bs = 8%nat → Forall is_byte bs → LoadBeS64 bs = signed_value 8 (be_value bs);
}.

Instance roo_io_signed_reference : RooIoSigned := {|
  StoreS8 x := be_bytes 1 (x mod 2 ^ 8); StoreBeS16 x := be_bytes 2 (x mod 2 ^ 16);
  StoreBeS32 x := be_bytes 4 (x mod 2 ^ 32); StoreBeS64 x := be_bytes 8 (x mod 2 ^ 64);
  LoadS8 bs := signed_value 1 (be_value bs); LoadBeS16 bs := signed_value 2 (be_value bs);
  LoadBeS32 bs := signed_value 4 (be_value bs); LoadBeS64 bs := signed_value 8 (be_value bs);
|}.

Instance roo_io_signed_reference_laws : RooIoSignedLaws (sio := roo_io_signed_reference).
Proof. by constructor. Qed.

(** ** DynamicSerialized *)

Record DynamicSerialized := mkDynamicSerialized {
  ds_status : RpcStatus;
  ds_data : list byte;
  ds_pos : nat;
}.

Definition DynamicSerialized_new : DynamicSerialized := mkDynamicSerialized RpcOk [] 0.

Definition DynamicSerialized_fail (status : RpcStatus) (d : DynamicSerialized) : DynamicSerialized :=
  mkDynamicSerialized status [] 0.

Definition DynamicSerialized_eos (d : DynamicSerialized) : bool :=
  bool_decide (length (ds_data d) ≤ ds_pos d)%nat.

(** [data_.insert(data_.end(), pos_ - data_.size(), 0)], when [pos_] is past the end. *)
Definition ds_pad (d : DynamicSerialized) : list byte :=
  ds_data d ++ replicate (ds_pos d - length (ds_data d)) 0.

(** [write(byte)] *)
Definition DynamicSerialized_write1 (b : byte) (d : DynamicSerialized) : DynamicSerialized :=
  mkDynamicSerialized (ds_status d)
    (if DynamicSerialized_eos d then ds_pad d ++ [b] else <[ds_pos d := b]> (ds_data d))
    (S (ds_pos d)).

(** [write(buf, count)]; it returns [count]. *)
Definition DynamicSerialized_write (buf : list byte) (d : DynamicSerialized) : DynamicSerialized :=
  let data := ds_pad d in
  let copy_over := Nat.min (length data - ds_pos d) (length buf) in
  let data := take (ds_pos d) data ++ take copy_over buf ++ drop (ds_pos d + copy_over) data in
  let pos := (ds_pos d + copy_over)%nat in
  let remaining := (length buf - copy_over)%nat in
  if (remaining =? 0)%nat then mkDynamicSerialized (ds_status d) data pos
  else mkDynamicSerialized (ds_status d) (data ++ drop copy_over buf) (pos + remaining).

Definition DynamicSerialized_seek (position : nat) (d : DynamicSerialized) : DynamicSerialized :=
  mkDynamicSerialized (ds_status d) (ds_data d) position.

(** ** The templates *)

(** [serialize] returns a status and bytes. [serializeInto] is defined by some
    specializations only. *)
Class Serializer (T : Type) := {
  serialize : T → RpcStatus * list byte;
  serialize_into : option (T → DynamicSerialized → DynamicSerialized);
}.

(** The status when it fails. *)
Class Deserializer (T : Type) := { deserialize : list byte → RpcStatus + T }.

(** [IntoSerializer]: by [serializeInto] if there is one, else by [serialize], whose
    status is not looked at. *)
Definition SerializeInto {T} `{Serializer T} (v : T) (output : DynamicSerialized) : DynamicSerialized :=
  match serialize_into with
  | Some into => into v output
  | None => DynamicSerialized_write (serialize v).2 output
  end.

Section Operations.

Context {io : RooIo} {sio : RooIoSigned}.

Definition SerializeMemberInto {T} `{Serializer T} (v : T) (result : DynamicSerialized) : DynamicSerialized :=
  let begin := ds_pos result in
  let result := SerializeInto v (DynamicSerialized_seek (begin + 2) result) in
  if negb (bool_decide (ds_status result = RpcOk)) then result
  else
    let end_ := ds_pos result in
    let len := (end_ - (begin + 2))%nat in
    if 65535 <? Z.of_nat len then DynamicSerialized_fail RpcInvalidArgument result
    else
      DynamicSerialized_seek end_
        (DynamicSerialized_write (StoreBeU16 (u16 (Z.of_nat len))) (DynamicSerialized_seek begin result)).

(** Returns the value and the bytes after it. *)
Definition DeserializeMember {T} `{Deserializer T} (data : list byte) : RpcStatus + (T * list byte) :=
  if (length data <? 2)%nat then inl RpcInvalidArgument
  else
    let member_len := LoadBeU16 (take 2 data) in
    if Z.of_nat (length data) - 2 <? member_len then inl RpcInvalidArgument
    else
      let data := drop 2 data in
      match deserialize (take (Z.to_nat member_len) data) with
      | inl status => inl status
      | inr v => inr (v, drop (Z.to_nat member_len) data)
      end.

(** *** Basic types *)

(** A fixed-size value: stored in exactly [n] bytes. *)
Definition fixed_deserialize {T} (n : nat) (load : list byte → T) (data : list byte) : RpcStatus + T :=
  if negb (length data =? n)%nat then inl RpcInvalidArgument else inr (load data).

#[global] Instance Serializer_Void : Serializer unit := {| serialize := λ _ : unit, (RpcOk, []); serialize_into := None |}.
#[global] Instance Deserializer_Void : Deserializer unit :=
  {| deserialize data := if negb (length data =? 0)%nat then inl RpcInvalidArgument else inr tt |}.

#[global] Instance Serializer_bool : Serializer bool :=
  {| serialize := λ v : bool, (RpcOk, StoreU8 (if v then 1 else 0)); serialize_into := None |}.
#[global] Instance Deserializer_bool : Deserializer bool :=
  {| deserialize data :=
       if negb (length data =? 1)%nat then inl RpcInvalidArgument
       else let val := LoadU8 data in
            if 1 <? val then inl RpcInvalidArgument else inr (negb (val =? 0)) |}.

(** [uintN_t] and [intN_t] are values of these types. *)
Inductive uint8_t := U8 (z : Z).
Inductive uint16_t := U16 (z : Z).
Inductive uint32_t := U32 (z : Z).
Inductive uint64_t := U64 (z : Z).
Inductive int8_t := S8 (z : Z).
Inductive int16_t := S16 (z : Z).
Inductive int32_t := S32 (z : Z).
Inductive int64_t := S64 (z : Z).

#[global] Instance Serializer_uint8 : Serializer uint8_t :=
  {| serialize := λ '(U8 v), (RpcOk, StoreU8 v); serialize_into := None |}.
#[global] Instance Deserializer_uint8 : Deserializer uint8_t :=
  {| deserialize := fixed_deserialize 1 (λ data, U8 (LoadU8 data)) |}.
#[global] Instance Serializer_uint16 : Serializer uint16_t :=
  {| serialize := λ '(U16 v), (RpcOk, StoreBeU16 v); serialize_into := None |}.
#[global] Instance Deserializer_uint16 : Deserializer uint16_t :=
  {| deserialize := fixed_deserialize 2 (λ data, U16 (LoadBeU16 data)) |}.
#[global] Instance Serializer_uint32 : Serializer uint32_t :=
  {| serialize := λ '(U32 v), (RpcOk, StoreBeU32 v); serialize_into := None |}.
#[global] Instance Deserializer_uint32 : Deserializer uint32_t :=
  {| deserialize := fixed_deserialize 4 (λ data, U32 (LoadBeU32 data)) |}.
#[global] Instance Serializer_uint64 : Serializer uint64_t :=
  {| serialize := λ '(U64 v), (RpcOk, StoreBeU64 v); serialize_into := None |}.
#[global] Instance Deserializer_uint64 : Deserializer uint64_t :=
  {| deserialize := fixed_deserialize 8 (λ data, U64 (LoadBeU64 data)) |}.
#[global] Instance Serializer_int8 : Serializer int8_t :=
  {| serialize := λ '(S8 v), (RpcOk, StoreS8 v); serialize_into := None |}.
#[global] Instance Deserializer_int8 : Deserializer int8_t :=
  {| deserialize := fixed_deserialize 1 (λ data, S8 (LoadS8 data)) |}.
#[global] Instance Serializer_int16 : Serializer int16_t :=
  {| serialize := λ '(S16 v), (RpcOk, StoreBeS16 v); serialize_into := None |}.
#[global] Instance Deserializer_int16 : Deserializer int16_t :=
  {| deserialize := fixed_deserialize 2 (λ data, S16 (LoadBeS16 data)) |}.
#[global] Instance Serializer_int32 : Serializer int32_t :=
  {| serialize := λ '(S32 v), (RpcOk, StoreBeS32 v); serialize_into := None |}.
#[global] Instance Deserializer_int32 : Deserializer int32_t :=
  {| deserialize := fixed_deserialize 4 (λ data, S32 (LoadBeS32 data)) |}.
#[global] Instance Serializer_int64 : Serializer int64_t :=
  {| serialize := λ '(S64 v), (RpcOk, StoreBeS64 v); serialize_into := None |}.
#[global] Instance Deserializer_int64 : Deserializer int64_t :=
  {| deserialize := fixed_deserialize 8 (λ data, S64 (LoadBeS64 data)) |}.

(** [roo::string_view]: the bytes as they are. *)
#[global] Instance Serializer_string_view : Serializer (list byte) :=
  {| serialize v := (RpcOk, v); serialize_into := None |}.
#[global] Instance Deserializer_string_view : Deserializer (list byte) := {| deserialize data := inr data |}.

(** *** Pairs *)

Definition serializeInto_pair {T1 T2} `{Serializer T1, Serializer T2} (v : T1 * T2)
    (result : DynamicSerialized) : DynamicSerialized :=
  let result := SerializeMemberInto v.1 result in
  if negb (bool_decide (ds_status result = RpcOk)) then result
  else SerializeMemberInto v.2 result.

(** What the caller of [serialize] sees of a [DynamicSerialized]. *)
Definition ds_result (d : DynamicSerialized) : RpcStatus * list byte := (ds_status d, ds_data d).

#[global] Instance Serializer_pair {T1 T2} `{Serializer T1, Serializer T2} : Serializer (T1 * T2) :=
  {| serialize v := ds_result (serializeInto_pair v DynamicSerialized_new);
     serialize_into := Some serializeInto_pair |}.

#[global] Instance Deserializer_pair {T1 T2} `{Deserializer T1, Deserializer T2} : Deserializer (T1 * T2) :=
  {| deserialize data :=
       match DeserializeMember data with
       | inl status => inl status
       | inr (v1, data) =>
           match DeserializeMember data with
           | inl status => inl status
           | inr (v2, data) =>
               if negb (length data =? 0)%nat then inl RpcInvalidArgument else inr (v1, v2)
           end
       end |}.

End Operations.

(** *** Tuples *)

(** A tuple of one member, and of one more member: [tuple<A, B, C>] is
    [TCons A (TCons B (TOne C))]. *)
Inductive tone (T : Type) := TOne (v : T).
Inductive tcons (T Ts : Type) := TCons (v : T) (vs : Ts).
Inductive tuple (Ts : Type) := Tuple (vs : Ts).
Arguments TOne {T} v.
Arguments TCons {T Ts} v vs.
Arguments Tuple {Ts} vs.

Class TupleSerializer (Ts : Type) := {
  SerializeTupleRecursive : Ts → DynamicSerialized → DynamicSerialized;
}.

Class TupleDeserializer (Ts : Type) := {
  DeserializeTupleRecursive : list byte → RpcStatus + Ts;
}.

Section Tuples.

Context {io : RooIo}.

#[global] Instance TupleSerializer_one {T} `{Serializer T} : TupleSerializer (tone T) :=
  {| SerializeTupleRecursive := λ '(TOne v) result, SerializeMemberInto v result |}.

#[global] Instance TupleSerializer_cons {T Ts} `{Serializer T, TupleSerializer Ts} : TupleSerializer (tcons T Ts) :=
  {| SerializeTupleRecursive := λ '(TCons v vs) result,
       let result := SerializeMemberInto v result in
       if negb (bool_decide (ds_status result = RpcOk)) then result
       else SerializeTupleRecursive vs result |}.

#[global] Instance TupleDeserializer_one {T} `{Deserializer T} : TupleDeserializer (tone T) :=
  {| DeserializeTupleRecursive data :=
       match DeserializeMember data with
       | inl status => inl status
       | inr (v, data) => if negb (length data =? 0)%nat then inl RpcInvalidArgument else inr (TOne v)
       end |}.

#[global] Instance TupleDeserializer_cons {T Ts} `{Deserializer T, TupleDeserializer Ts}
    : TupleDeserializer (tcons T Ts) :=
  {| DeserializeTupleRecursive data :=
       match DeserializeMember data with
       | inl status => inl status
       | inr (v, data) =>
           match DeserializeTupleRecursive data with
           | inl status => inl status
           | inr vs => inr (TCons v vs)
           end
       end |}.

#[global] Instance Serializer_tuple {Ts} `{TupleSerializer Ts} : Serializer (tuple Ts) :=
  {| serialize := λ '(Tuple vs), ds_result (SerializeTupleRecursive vs DynamicSerialized_new);
     serialize_into := Some (λ '(Tuple vs) result, SerializeTupleRecursive vs result) |}.

#[global] Instance Deserializer_tuple {Ts} `{TupleDeserializer Ts} : Deserializer (tuple Ts) :=
  {| deserialize data :=
       match DeserializeTupleRecursive data with inl status => inl status | inr vs => inr (Tuple vs) end |}.

End Tuples.

(** ** The wire format, and what it promises *)

(** The bytes of a value, [None] if some member is too long for its length field, and
    the values that fit their type. *)
Class WireFormat (T : Type) := { wire : T → option (list byte); valid : T → Prop }.

(** What writing a value at the end of a buffer leaves. *)
Definition appended (bs : option (list byte)) (d : DynamicSerialized) : DynamicSerialized :=
  match bs with
  | Some bs => mkDynamicSerialized RpcOk (ds_pad d ++ bs) (ds_pos d + length bs)
  | None => mkDynamicSerialized RpcInvalidArgument [] 0
  end.

Definition at_end (d : DynamicSerialized) : Prop :=
  ds_status d = RpcOk ∧ (length (ds_data d) ≤ ds_pos d)%nat.

(** The encoder writes the wire format wherever it is asked to; the decoder accepts the
    wire format of the valid values, and nothing else. *)
Class WireFormatLaws (T : Type) `{Serializer T, Deserializer T, WireFormat T} : Prop := {
  into_wire v d : valid v → at_end d → SerializeInto v d = appended (wire v) d;
  serialize_wire v : valid v →
    serialize v = match wire v with Some bs => (RpcOk, bs) | None => (RpcInvalidArgument, []) end;
  wire_is_byte v bs : valid v → wire v = Some bs → Forall is_byte bs;
  deserialize_wire v bs : valid v → wire v = Some bs → deserialize bs = inr v;
  deserialize_only bs v : Forall is_byte bs → deserialize bs = inr v → valid v ∧ wire v = Some bs;
}.

(** ** Writing into the buffer *)

Lemma length_ds_pad d : (length (ds_data d) ≤ ds_pos d)%nat → length (ds_pad d) = ds_pos d.
Proof. intros. unfold ds_pad. rewrite length_app, length_replicate. lia. Qed.

Lemma ds_pad_short d : (ds_pos d ≤ length (ds_data d))%nat → ds_pad d = ds_data d.
Proof.
  intros. unfold ds_pad. replace (ds_pos d - length (ds_data d))%nat with 0%nat by lia. apply app_nil_r.
Qed.

Lemma ds_write_end buf d : at_end d → DynamicSerialized_write buf d = appended (Some buf) d.
Proof.
  intros [Hs Hl]. unfold DynamicSerialized_write. rewrite length_ds_pad, Nat.sub_diag by done.
  cbn [Nat.min take]. rewrite Nat.add_0_r, drop_ge, take_ge by (rewrite length_ds_pad; lia).
  rewrite !app_nil_r, Nat.sub_0_r, Hs. unfold appended. destruct buf; cbn; [|done].
  by rewrite app_nil_r, Nat.add_0_r.
Qed.

Lemma ds_write_over buf d :
  (ds_pos d + length buf ≤ length (ds_data d))%nat →
  DynamicSerialized_write buf d
  = mkDynamicSerialized (ds_status d)
      (take (ds_pos d) (ds_data d) ++ buf ++ drop (ds_pos d + length buf) (ds_data d))
      (ds_pos d + length buf).
Proof.
  intros Hl. unfold DynamicSerialized_write. rewrite ds_pad_short by lia.
  rewrite Nat.min_r, Nat.sub_diag by lia. cbn [Nat.eqb]. by rewrite (take_ge buf).
Qed.

Section Members.

Context {io : RooIo} {io_laws : RooIoLaws}.
Context {T : Type} `{Serializer T, Deserializer T, WireFormat T} {laws : WireFormatLaws T}.

(** A member of a pair or tuple: its length in two bytes, then its bytes. *)
Definition member_wire (v : T) : option (list byte) :=
  bs ← wire v;
  if Z.of_nat (length bs) <=? 65535 then Some (be_bytes 2 (Z.of_nat (length bs)) ++ bs) else None.

Lemma member_into v d : valid v → at_end d → SerializeMemberInto v d = appended (member_wire v) d.
Proof.
  intros Hv [Hs Hl]. unfold SerializeMemberInto, member_wire.
  set (d2 := DynamicSerialized_seek (ds_pos d + 2) d).
  assert (Hd2 : at_end d2) by (split; cbn; [done|lia]).
  rewrite into_wire by done. destruct (wire v) as [bs|]; [|done]. cbn [appended mbind option_bind].
  rewrite bool_decide_true by done. cbn [negb ds_pos ds_data ds_status DynamicSerialized_seek].
  change (ds_pos d2) with (ds_pos d + 2)%nat.
  replace (ds_pos d + 2 + length bs - (ds_pos d + 2))%nat with (length bs) by lia.
  destruct (Z.ltb_spec 65535 (Z.of_nat (length bs))) as [Hbig|Hsmall].
  { by rewrite (proj2 (Z.leb_gt _ _)) by lia. }
  rewrite (proj2 (Z.leb_le _ _)) by lia. rewrite u16_small, StoreBeU16_be by lia.
  assert (Hpad : ds_pad d2 = ds_pad d ++ [0; 0]).
  { unfold ds_pad. cbn [ds_pos ds_data DynamicSerialized_seek d2]. rewrite <- app_assoc. f_equal.
    change [0; 0] with (replicate 2 0). rewrite <- replicate_add. f_equal. lia. }
  assert (Hlp : length (ds_pad d) = ds_pos d) by (by apply length_ds_pad).
  rewrite ds_write_over; cbn [ds_pos ds_data ds_status DynamicSerialized_seek];
    rewrite length_be_bytes, Hpad; [|rewrite !length_app, Hlp; cbn; lia].
  unfold DynamicSerialized_seek, appended. cbn [ds_status ds_data]. f_equal.
  - rewrite (drop_app_length' (ds_pad d ++ [0; 0])) by (rewrite length_app; cbn; lia).
    by rewrite <- (app_assoc (ds_pad d)), (take_app_length' (ds_pad d)) by done.
  - rewrite length_app, length_be_bytes. lia.
Qed.

Lemma member_is_byte v bs : valid v → member_wire v = Some bs → Forall is_byte bs.
Proof.
  intros Hv. unfold member_wire. destruct (wire v) as [w|] eqn:Hw; [|done].
  cbn [mbind option_bind].
  destruct (_ <=? _); [|done]. intros Hm%(inj Some). subst bs.
  apply Forall_app. split; [apply be_bytes_is_byte|by eapply wire_is_byte].
Qed.

Lemma member_parse v bs rest :
  valid v → member_wire v = Some bs → DeserializeMember (bs ++ rest) = inr (v, rest).
Proof.
  intros Hv. unfold member_wire. destruct (wire v) as [w|] eqn:Hw; [|done]. cbn [mbind option_bind].
  destruct (Z.leb_spec (Z.of_nat (length w)) 65535) as [Hle|]; [|done].
  intros Hm%(inj Some). subst bs. unfold DeserializeMember.
  rewrite <- app_assoc, !length_app, length_be_bytes.
  rewrite (proj2 (Nat.ltb_ge _ _)) by lia.
  rewrite take_app_length', drop_app_length' by (by rewrite length_be_bytes).
  rewrite LoadBeU16_be, be_value_bytes by (auto using length_be_bytes, be_bytes_is_byte; cbn; lia).
  rewrite (proj2 (Z.ltb_ge _ _)) by lia. rewrite Nat2Z.id, take_app_length, drop_app_length.
  by rewrite (deserialize_wire v w).
Qed.

Lemma member_only data v rest :
  Forall is_byte data → DeserializeMember data = inr (v, rest) →
  valid v ∧ ∃ bs, member_wire v = Some bs ∧ data = bs ++ rest.
Proof.
  intros Hb. unfold DeserializeMember. destruct (Nat.ltb_spec (length data) 2) as [|Hlen]; [done|].
  destruct data as [|b1 [|b2 data]]; [cbn in Hlen; lia..|].
  change (take 2 (b1 :: b2 :: data)) with [b1; b2]. change (drop 2 (b1 :: b2 :: data)) with data.
  cbn [length].
  inversion_clear Hb as [|? ? Hb1 Hb']. inversion_clear Hb' as [|? ? Hb2 Hb].
  assert (Hb12 : Forall is_byte [b1; b2]) by (by rewrite !Forall_cons).
  rewrite LoadBeU16_be by done. set (n := be_value [b1; b2]).
  assert (Hn : 0 ≤ n < 65536) by (by apply (be_value_range [b1; b2])).
  destruct (Z.ltb_spec (Z.of_nat (S (S (length data))) - 2) n) as [|Hle]; [done|].
  destruct (deserialize (take (Z.to_nat n) data)) as [|v'] eqn:Hd; [done|]. intros [= <- <-].
  apply deserialize_only in Hd as [Hv Hw]; [|by apply Forall_take]. split; [done|].
  unfold member_wire. rewrite Hw. cbn [mbind option_bind]. rewrite length_take, Nat.min_l, Z2Nat.id by lia.
  rewrite (proj2 (Z.leb_le _ _)) by lia. eexists. split; [done|]. rewrite <- app_assoc, take_drop.
  unfold n. change 2%nat with (length [b1; b2]). by rewrite be_bytes_value.
Qed.

End Members.

(** ** The laws, type by type *)

Section Laws.

Context {io : RooIo} {io_laws : RooIoLaws} {sio : RooIoSigned} {sio_laws : RooIoSignedLaws}.

(** A specialization without [serializeInto] that never fails. *)
Lemma plain_laws {T} `{Serializer T, Deserializer T, WireFormat T} :
  serialize_into = None →
  (∀ v, valid v → ∃ bs, wire v = Some bs ∧ serialize v = (RpcOk, bs) ∧ Forall is_byte bs
     ∧ deserialize bs = inr v) →
  (∀ bs v, Forall is_byte bs → deserialize bs = inr v → valid v ∧ wire v = Some bs) →
  WireFormatLaws T.
Proof.
  intros Hn Hs Hd. constructor; auto.
  - intros v d Hv Hend. destruct (Hs v Hv) as (bs & -> & Hser & _).
    unfold SerializeInto. rewrite Hn, Hser. by apply ds_write_end.
  - intros v Hv. by destruct (Hs v Hv) as (bs & -> & -> & _).
  - intros v bs Hv Hw. destruct (Hs v Hv) as (bs' & Hw' & _ & Hb & _). congruence.
  - intros v bs Hv Hw. destruct (Hs v Hv) as (bs' & Hw' & _ & _ & Hd'). congruence.
Qed.

(** An integer of [n] bytes: [enc] is its bit pattern. *)
Lemma fixed_laws {T} `{Serializer T, Deserializer T, WireFormat T} (n : nat) (mk : Z → T) (enc dec : Z → Z)
    (ok : Z → Prop) (load : list byte → Z) :
  serialize_into = None →
  (∀ v, valid v → ∃ x, v = mk x ∧ ok x) →
  (∀ x, ok x → valid (mk x) ∧ wire (mk x) = Some (be_bytes n (enc x))
     ∧ serialize (mk x) = (RpcOk, be_bytes n (enc x)) ∧ 0 ≤ enc x < 256 ^ Z.of_nat n ∧ dec (enc x) = x) →
  (∀ y, 0 ≤ y < 256 ^ Z.of_nat n → ok (dec y) ∧ enc (dec y) = y) →
  (∀ bs, length bs = n → Forall is_byte bs → load bs = dec (be_value bs)) →
  (∀ bs, deserialize bs = fixed_deserialize n (λ data, mk (load data)) bs) →
  WireFormatLaws T.
Proof.
  intros Hn Hmk Hser Hdec Hload Hdes. apply plain_laws; [done|..].
  - intros v (x & -> & Hx)%Hmk. destruct (Hser x Hx) as (_ & Hw & Hs & Hr & He).
    eexists. split; [done|]. split; [done|]. split; [apply be_bytes_is_byte|].
    rewrite Hdes. unfold fixed_deserialize. rewrite length_be_bytes, Nat.eqb_refl. cbn [negb].
    rewrite Hload, be_value_bytes by auto using length_be_bytes, be_bytes_is_byte. by rewrite He.
  - intros bs v Hb. rewrite Hdes. unfold fixed_deserialize.
    destruct (Nat.eqb_spec (length bs) n) as [<-|]; [|done]. intros [= <-].
    rewrite Hload by done. pose proof (be_value_range bs Hb) as Hr.
    destruct (Hdec _ Hr) as [Hok Henc]. destruct (Hser _ Hok) as (Hv & Hw & _). split; [done|].
    by rewrite Hw, Henc, be_bytes_value.
Qed.

#[global] Instance WireFormat_Void : WireFormat unit := {| wire _ := Some []; valid _ := True |}.
#[global] Instance WireFormat_bool : WireFormat bool := {| wire v := Some [Z.b2z v]; valid _ := True |}.
#[global] Instance WireFormat_string_view : WireFormat (list byte) :=
  {| wire v := Some v; valid := Forall is_byte |}.
#[global] Instance WireFormat_uint8 : WireFormat uint8_t :=
  {| wire := λ '(U8 x), Some (be_bytes 1 x); valid := λ '(U8 x), 0 ≤ x < 2 ^ 8 |}.
#[global] Instance WireFormat_uint16 : WireFormat uint16_t :=
  {| wire := λ '(U16 x), Some (be_bytes 2 x); valid := λ '(U16 x), 0 ≤ x < 2 ^ 16 |}.
#[global] Instance WireFormat_uint32 : WireFormat uint32_t :=
  {| wire := λ '(U32 x), Some (be_bytes 4 x); valid := λ '(U32 x), 0 ≤ x < 2 ^ 32 |}.
#[global] Instance WireFormat_uint64 : WireFormat uint64_t :=
  {| wire := λ '(U64 x), Some (be_bytes 8 x); valid := λ '(U64 x), 0 ≤ x < 2 ^ 64 |}.
#[global] Instance WireFormat_int8 : WireFormat int8_t :=
  {| wire := λ '(S8 x), Some (be_bytes 1 (x mod 2 ^ 8)); valid := λ '(S8 x), -2 ^ 7 ≤ x < 2 ^ 7 |}.
#[global] Instance WireFormat_int16 : WireFormat int16_t :=
  {| wire := λ '(S16 x), Some (be_bytes 2 (x mod 2 ^ 16)); valid := λ '(S16 x), -2 ^ 15 ≤ x < 2 ^ 15 |}.
#[global] Instance WireFormat_int32 : WireFormat int32_t :=
  {| wire := λ '(S32 x), Some (be_bytes 4 (x mod 2 ^ 32)); valid := λ '(S32 x), -2 ^ 31 ≤ x < 2 ^ 31 |}.
#[global] Instance WireFormat_int64 : WireFormat int64_t :=
  {| wire := λ '(S64 x), Some (be_bytes 8 (x mod 2 ^ 64)); valid := λ '(S64 x), -2 ^ 63 ≤ x < 2 ^ 63 |}.

#[global] Instance Void_laws : WireFormatLaws unit.
Proof.
  apply plain_laws; [done|intros [] _; by exists []|]. intros [|b bs] []; [done|]. cbn. done.
Qed.

#[global] Instance bool_laws : WireFormatLaws bool.
Proof.
  apply plain_laws; [done|..].
  - intros v _. exists [Z.b2z v]. cbn. rewrite StoreU8_be by (destruct v; cbn; lia).
    split; [done|]. split; [by destruct v|].
    assert (Forall is_byte [Z.b2z v]) by (rewrite Forall_singleton; unfold is_byte; destruct v; cbn; lia).
    split; [done|]. rewrite LoadU8_be by done. by destruct v.
  - intros [|b [|? ?]] v Hb; cbn [deserialize Deserializer_bool length Nat.eqb negb]; [done| |done].
    rewrite LoadU8_be by done. change (be_value [b]) with b.
    pose proof (proj1 (Forall_singleton _ _) Hb) as Hb1. unfold is_byte in Hb1.
    destruct (Z.ltb_spec 1 b); [done|]. intros [= <-]. split; [done|].
    assert (b = 0 ∨ b = 1) as [-> | ->] by lia; done.
Qed.

#[global] Instance string_view_laws : WireFormatLaws (list byte).
Proof. apply plain_laws; [done|intros v Hv; by exists v|]. by intros bs v Hb [= <-]. Qed.

(** Two's complement. *)
Lemma signed_pattern (n : nat) (x : Z) :
  let m := 256 ^ Z.of_nat (S n) in
  - (m / 2) ≤ x < m / 2 → 0 ≤ x mod m < m ∧ signed_value (S n) (x mod m) = x.
Proof.
  intros m Hx. assert (Hm : m = 2 * (128 * 256 ^ Z.of_nat n))
    by (unfold m; rewrite Nat2Z.inj_succ, Z.pow_succ_r by lia; lia).
  assert (0 < 256 ^ Z.of_nat n) by (apply Z.pow_pos_nonneg; lia).
  assert (Hd : m / 2 = 128 * 256 ^ Z.of_nat n) by (rewrite Hm, Z.mul_comm, Z.div_mul; lia).
  split; [apply Z.mod_pos_bound; lia|]. unfold signed_value. fold m. rewrite Hd in *.
  destruct (Z_lt_ge_dec x 0).
  - replace (x mod m) with (x + m) by (apply Z.mod_unique with (-1); lia).
    rewrite (proj2 (Z.ltb_ge _ _)) by lia. lia.
  - rewrite Z.mod_small by lia. by rewrite (proj2 (Z.ltb_lt _ _)) by lia.
Qed.

Lemma signed_value_pattern (n : nat) (y : Z) :
  let m := 256 ^ Z.of_nat (S n) in
  0 ≤ y < m → - (m / 2) ≤ signed_value (S n) y < m / 2 ∧ signed_value (S n) y mod m = y.
Proof.
  intros m Hy. assert (Hm : m = 2 * (128 * 256 ^ Z.of_nat n))
    by (unfold m; rewrite Nat2Z.inj_succ, Z.pow_succ_r by lia; lia).
  assert (0 < 256 ^ Z.of_nat n) by (apply Z.pow_pos_nonneg; lia).
  assert (Hd : m / 2 = 128 * 256 ^ Z.of_nat n) by (rewrite Hm, Z.mul_comm, Z.div_mul; lia).
  unfold signed_value. fold m. rewrite Hd. destruct (Z.ltb_spec y (128 * 256 ^ Z.of_nat n)).
  - split; [lia|]. apply Z.mod_small. lia.
  - split; [lia|]. symmetry. apply Z.mod_unique with (-1); lia.
Qed.

#[global] Instance uint8_laws : WireFormatLaws uint8_t.
Proof.
  apply (fixed_laws 1 U8 id id (λ x, 0 ≤ x < 2 ^ 8) LoadU8); auto.
  - intros [x] Hx. eauto.
  - intros x Hx. cbn -[be_bytes]. rewrite StoreU8_be by done. auto.
  - intros. by apply LoadU8_be.
Qed.

#[global] Instance uint16_laws : WireFormatLaws uint16_t.
Proof.
  apply (fixed_laws 2 U16 id id (λ x, 0 ≤ x < 2 ^ 16) LoadBeU16); auto.
  - intros [x] Hx. eauto.
  - intros x Hx. cbn -[be_bytes]. rewrite StoreBeU16_be by done. auto.
  - intros. by apply LoadBeU16_be.
Qed.

#[global] Instance uint32_laws : WireFormatLaws uint32_t.
Proof.
  apply (fixed_laws 4 U32 id id (λ x, 0 ≤ x < 2 ^ 32) LoadBeU32); auto.
  - intros [x] Hx. eauto.
  - intros x Hx. cbn -[be_bytes]. rewrite StoreBeU32_be by done. auto.
  - intros. by apply LoadBeU32_be.
Qed.

#[global] Instance uint64_laws : WireFormatLaws uint64_t.
Proof.
  apply (fixed_laws 8 U64 id id (λ x, 0 ≤ x < 2 ^ 64) LoadBeU64); auto.
  - intros [x] Hx. eauto.
  - intros x Hx. cbn -[be_bytes]. rewrite StoreBeU64_be by done. auto.
  - intros. by apply LoadBeU64_be.
Qed.

#[global] Instance int8_laws : WireFormatLaws int8_t.
Proof.
  apply (fixed_laws 1 S8 (λ x, x mod 2 ^ 8) (signed_value 1) (λ x, -2 ^ 7 ≤ x < 2 ^ 7) LoadS8); auto.
  - intros [x] Hx. eauto.
  - intros x Hx. cbn -[be_bytes Z.pow]. rewrite StoreS8_be by done.
    destruct (signed_pattern 0 x Hx). auto.
  - intros y Hy. by apply (signed_value_pattern 0).
  - intros. by apply LoadS8_be.
Qed.

#[global] Instance int16_laws : WireFormatLaws int16_t.
Proof.
  apply (fixed_laws 2 S16 (λ x, x mod 2 ^ 16) (signed_value 2) (λ x, -2 ^ 15 ≤ x < 2 ^ 15) LoadBeS16); auto.
  - intros [x] Hx. eauto.
  - intros x Hx. cbn -[be_bytes Z.pow]. rewrite StoreBeS16_be by done.
    destruct (signed_pattern 1 x Hx). auto.
  - intros y Hy. by apply (signed_value_pattern 1).
  - intros. by apply LoadBeS16_be.
Qed.

#[global] Instance int32_laws : WireFormatLaws int32_t.
Proof.
  apply (fixed_laws 4 S32 (λ x, x mod 2 ^ 32) (signed_value 4) (λ x, -2 ^ 31 ≤ x < 2 ^ 31) LoadBeS32); auto.
  - intros [x] Hx. eauto.
  - intros x Hx. cbn -[be_bytes Z.pow]. rewrite StoreBeS32_be by done.
    destruct (signed_pattern 3 x Hx). auto.
  - intros y Hy. by apply (signed_value_pattern 3).
  - intros. by apply LoadBeS32_be.
Qed.

#[global] Instance int64_laws : WireFormatLaws int64_t.
Proof.
  apply (fixed_laws 8 S64 (λ x, x mod 2 ^ 64) (signed_value 8) (λ x, -2 ^ 63 ≤ x < 2 ^ 63) LoadBeS64); auto.
  - intros [x] Hx. eauto.
  - intros x Hx. cbn -[be_bytes Z.pow]. rewrite StoreBeS64_be by done.
    destruct (signed_pattern 7 x Hx). auto.
  - intros y Hy. by apply (signed_value_pattern 7).
  - intros. by apply LoadBeS64_be.
Qed.

End Laws.

(** ** Pairs and tuples *)

Lemma appended_end bs d : at_end d → at_end (appended (Some bs) d).
Proof.
  intros [Hs Hl]. split; [done|]. cbn. rewrite length_app, length_ds_pad by done. lia.
Qed.

Lemma appended_app a b d :
  at_end d → appended b (appended (Some a) d) = appended (b ← b; Some (a ++ b)) d.
Proof.
  intros [Hs Hl]. destruct b as [b|]; [|done]. unfold appended. cbn [mbind option_bind ds_pos ds_data].
  rewrite ds_pad_short by (cbn; rewrite length_app, length_ds_pad; lia). cbn [ds_data].
  rewrite length_app, app_assoc. f_equal. lia.
Qed.

Lemma new_at_end : at_end DynamicSerialized_new.
Proof. done. Qed.

(** Serialization into a new buffer. *)
Lemma ds_result_appended bs :
  ds_result (appended bs DynamicSerialized_new)
  = match bs with Some bs => (RpcOk, bs) | None => (RpcInvalidArgument, []) end.
Proof. by destruct bs. Qed.

Section Composite.

Context {io : RooIo} {io_laws : RooIoLaws}.

(** Writing one member, then more, with the code's test of the status between them. *)
Lemma member_then {T} `{Serializer T, Deserializer T, WireFormat T} {laws : WireFormatLaws T}
    (v : T) (rest : option (list byte)) (k : DynamicSerialized → DynamicSerialized) d :
  valid v → at_end d → (∀ d', at_end d' → k d' = appended rest d') →
  (let result := SerializeMemberInto v d in
   if negb (bool_decide (ds_status result = RpcOk)) then result else k result)
  = appended (a ← member_wire v; b ← rest; Some (a ++ b)) d.
Proof.
  intros Hv Hd Hk. cbv zeta. rewrite member_into by done. destruct (member_wire v) as [a|]; [|done].
  rewrite bool_decide_true by done. cbn [negb]. rewrite Hk by (by apply appended_end).
  by rewrite appended_app.
Qed.

Section Pair.

Context {T1 T2 : Type} `{Serializer T1, Deserializer T1, WireFormat T1} {laws1 : WireFormatLaws T1}.
Context `{Serializer T2, Deserializer T2, WireFormat T2} {laws2 : WireFormatLaws T2}.

#[global] Instance WireFormat_pair : WireFormat (T1 * T2) :=
  {| wire v := a ← member_wire v.1; b ← member_wire v.2; Some (a ++ b);
     valid v := valid v.1 ∧ valid v.2 |}.

#[global] Instance pair_laws : WireFormatLaws (T1 * T2).
Proof.
  assert (Hinto : ∀ (v : T1 * T2) d, valid v → at_end d → serializeInto_pair v d = appended (wire v) d).
  { intros v d [Hv1 Hv2] Hd. apply member_then; [done|done|]. intros d' Hd'. by apply member_into. }
  constructor.
  - intros v d Hv Hd. by apply Hinto.
  - intros v Hv. cbn [serialize Serializer_pair]. rewrite Hinto by done. apply ds_result_appended.
  - intros [v1 v2] bs [Hv1 Hv2]. cbn. destruct (member_wire v1) as [a|] eqn:Ha; [|done]. cbn.
    destruct (member_wire v2) as [b|] eqn:Hb; [|done]. intros [= <-].
    apply Forall_app. split; [exact (member_is_byte v1 a Hv1 Ha)|exact (member_is_byte v2 b Hv2 Hb)].
  - intros [v1 v2] bs [Hv1 Hv2]. cbn. destruct (member_wire v1) as [a|] eqn:Ha; [|done]. cbn.
    destruct (member_wire v2) as [b|] eqn:Hb; [|done]. intros [= <-].
    rewrite (member_parse v1 a b) by done. rewrite <- (app_nil_r b).
    by rewrite (member_parse v2 b []) by done.
  - intros bs [v1 v2] Hb. cbn. destruct (DeserializeMember bs) as [|[w1 rest]] eqn:H1'; [done|].
    apply member_only in H1' as (Hv1 & a & Ha & ->); [|done]. apply Forall_app in Hb as [_ Hb].
    destruct (DeserializeMember rest) as [|[w2 rest']] eqn:H2'; [done|].
    apply member_only in H2' as (Hv2 & b & Hb' & ->); [|done].
    destruct rest'; [|done]. intros [= <- <-]. rewrite Ha. cbn. rewrite Hb', app_nil_r. done.
Qed.

End Pair.

Class TupleFormat (Ts : Type) := { twire : Ts → option (list byte); tvalid : Ts → Prop }.

Class TupleFormatLaws (Ts : Type) `{TupleSerializer Ts, TupleDeserializer Ts, TupleFormat Ts} : Prop := {
  tuple_into vs d : tvalid vs → at_end d → SerializeTupleRecursive vs d = appended (twire vs) d;
  twire_is_byte vs bs : tvalid vs → twire vs = Some bs → Forall is_byte bs;
  tuple_parse vs bs : tvalid vs → twire vs = Some bs → DeserializeTupleRecursive bs = inr vs;
  tuple_only bs vs : Forall is_byte bs → DeserializeTupleRecursive bs = inr vs →
    tvalid vs ∧ twire vs = Some bs;
}.

#[global] Instance TupleFormat_one {T} `{WireFormat T} : TupleFormat (tone T) :=
  {| twire := λ '(TOne v), member_wire v; tvalid := λ '(TOne v), valid v |}.

#[global] Instance TupleFormat_cons {T Ts} `{WireFormat T, TupleFormat Ts} : TupleFormat (tcons T Ts) :=
  {| twire := λ '(TCons v vs), a ← member_wire v; b ← twire vs; Some (a ++ b);
     tvalid := λ '(TCons v vs), valid v ∧ tvalid vs |}.

#[global] Instance TupleFormatLaws_one {T} `{Serializer T, Deserializer T, WireFormat T}
    {laws : WireFormatLaws T} : TupleFormatLaws (tone T).
Proof.
  constructor.
  - intros [v] d Hv Hd. by apply member_into.
  - intros [v] bs Hv. by apply member_is_byte.
  - intros [v] bs Hv Hw. cbn. rewrite <- (app_nil_r bs). by rewrite (member_parse v bs []).
  - intros bs [v] Hb. cbn. destruct (DeserializeMember bs) as [|[w rest]] eqn:H1'; [done|].
    apply member_only in H1' as (Hv & a & Ha & ->); [|done].
    destruct rest; [|done]. intros [= <-]. by rewrite app_nil_r.
Qed.

#[global] Instance TupleFormatLaws_cons {T Ts} `{Serializer T, Deserializer T, WireFormat T}
    {laws : WireFormatLaws T} `{TupleSerializer Ts, TupleDeserializer Ts, TupleFormat Ts}
    {tlaws : TupleFormatLaws Ts} : TupleFormatLaws (tcons T Ts).
Proof.
  constructor.
  - intros [v vs] d [Hv Hvs] Hd. apply member_then; [done|done|]. intros d' Hd'. by apply tuple_into.
  - intros [v vs] bs [Hv Hvs]. cbn. destruct (member_wire v) as [a|] eqn:Ha; [|done]. cbn.
    destruct (twire vs) as [b|] eqn:Hb; [|done]. intros [= <-].
    apply Forall_app. split; [by eapply member_is_byte|by eapply twire_is_byte].
  - intros [v vs] bs [Hv Hvs]. cbn. destruct (member_wire v) as [a|] eqn:Ha; [|done]. cbn.
    destruct (twire vs) as [b|] eqn:Hb; [|done]. intros [= <-].
    rewrite (member_parse v a b) by done. by rewrite (tuple_parse vs b).
  - intros bs [v vs] Hb. cbn. destruct (DeserializeMember bs) as [|[w rest]] eqn:H1'; [done|].
    apply member_only in H1' as (Hv & a & Ha & ->); [|done]. apply Forall_app in Hb as [_ Hb].
    destruct (DeserializeTupleRecursive rest) as [|ws] eqn:H2'; [done|]. intros [= <- <-].
    apply tuple_only in H2' as (Hvs & Hw); [|done]. rewrite Ha. cbn. by rewrite Hw.
Qed.

#[global] Instance WireFormat_tuple {Ts} `{TupleFormat Ts} : WireFormat (tuple Ts) :=
  {| wire := λ '(Tuple vs), twire vs; valid := λ '(Tuple vs), tvalid vs |}.

#[global] Instance tuple_laws {Ts} `{TupleSerializer Ts, TupleDeserializer Ts, TupleFormat Ts}
    {tlaws : TupleFormatLaws Ts} : WireFormatLaws (tuple Ts).
Proof.
  constructor.
  - intros [vs] d Hv Hd. by apply tuple_into.
  - intros [vs] Hv. cbn [serialize Serializer_tuple]. rewrite tuple_into by done. apply ds_result_appended.
  - intros [vs] bs. apply twire_is_byte.
  - intros [vs] bs Hv Hw. cbn. by rewrite (tuple_parse vs bs).
  - intros bs [vs] Hb. cbn. destruct (DeserializeTupleRecursive bs) eqn:Hd; [done|].
    intros [= <-]. by apply tuple_only in Hd.
Qed.

(** A pair survives the wire, whatever its members are (integers, booleans, strings,
    further pairs and tuples). If both members' encodings fit their two-byte lengths,
    [serialize] succeeds and [deserialize] yields the pair again; otherwise it fails
    with kInvalidArgument and no bytes. The decoder accepts only what the encoder
    produces. *)
Theorem Serializer_pair_roundtrip {T1 T2 : Type} `{Serializer T1, Deserializer T1, WireFormat T1}
    `{Serializer T2, Deserializer T2, WireFormat T2} (laws1 : WireFormatLaws T1)
    (laws2 : WireFormatLaws T2) (v : T1 * T2) (Hv1 : valid v.1) (Hv2 : valid v.2) :
  match member_wire v.1, member_wire v.2 with
  | Some a, Some b => serialize v = (RpcOk, a ++ b) ∧ deserialize (a ++ b) = inr v
  | _, _ => serialize v = (RpcInvalidArgument, [])
  end
  ∧ ∀ bs, Forall is_byte bs → deserialize bs = inr v → serialize v = (RpcOk, bs).
Proof.
  assert (Hv : valid v) by done. pose proof (serialize_wire v Hv) as Hs.
  pose proof (deserialize_wire v) as Hd. cbn [wire WireFormat_pair] in Hs, Hd. split.
  - destruct (member_wire v.1) as [a|]; [|done]. destruct (member_wire v.2) as [b|]; [|done]. auto.
  - intros bs Hb Hbs. destruct (deserialize_only bs v Hb Hbs) as [_ Hw].
    cbn [wire WireFormat_pair] in Hw. by rewrite Hw in Hs.
Qed.

End Composite.

(** ** Every type of the templates

    The types for which [rpc/serialization.h] has a serializer, pairs and tuples of
    any depth and length included. *)
Inductive wire_type :=
  | WVoid | WBool | WUint8 | WUint16 | WUint32 | WUint64 | WInt8 | WInt16 | WInt32 | WInt64
  | WString
  | WPair (t1 t2 : wire_type)
  | WTuple (ts : tuple_type)
with tuple_type :=
  | WOne (t : wire_type)
  | WMore (t : wire_type) (ts : tuple_type).

Scheme wire_type_mut := Induction for wire_type Sort Prop
with tuple_type_mut := Induction for tuple_type Sort Prop.
Combined Scheme wire_types_ind from wire_type_mut, tuple_type_mut.

(** The type of the values. *)
Fixpoint denote (t : wire_type) : Type :=
  match t with
  | WVoid => unit | WBool => bool
  | WUint8 => uint8_t | WUint16 => uint16_t | WUint32 => uint32_t | WUint64 => uint64_t
  | WInt8 => int8_t | WInt16 => int16_t | WInt32 => int32_t | WInt64 => int64_t
  | WString => list byte
  | WPair t1 t2 => denote t1 * denote t2
  | WTuple ts => tuple (denote_tuple ts)
  end
with denote_tuple (ts : tuple_type) : Type :=
  match ts with
  | WOne t => tone (denote t)
  | WMore t ts => tcons (denote t) (denote_tuple ts)
  end.

Section Universe.

Context {io : RooIo} {io_laws : RooIoLaws} {sio : RooIoSigned} {sio_laws : RooIoSignedLaws}.

(** The specializations that the templates resolve to. *)
Fixpoint denote_serializer (t : wire_type) : Serializer (denote t) :=
  match t with
  | WVoid => Serializer_Void
  | WBool => Serializer_bool
  | WUint8 => Serializer_uint8
  | WUint16 => Serializer_uint16
  | WUint32 => Serializer_uint32
  | WUint64 => Serializer_uint64
  | WInt8 => Serializer_int8
  | WInt16 => Serializer_int16
  | WInt32 => Serializer_int32
  | WInt64 => Serializer_int64
  | WString => Serializer_string_view
  | WPair t1 t2 => @Serializer_pair _ _ _ (denote_serializer t1) (denote_serializer t2)
  | WTuple ts => @Serializer_tuple _ (denote_tuple_serializer ts)
  end
with denote_tuple_serializer (ts : tuple_type) : TupleSerializer (denote_tuple ts) :=
  match ts with
  | WOne t => @TupleSerializer_one _ _ (denote_serializer t)
  | WMore t ts => @TupleSerializer_cons _ _ _ (denote_serializer t) (denote_tuple_serializer ts)
  end.

(** And those that read the values back. *)
Fixpoint denote_deserializer (t : wire_type) : Deserializer (denote t) :=
  match t with
  | WVoid => Deserializer_Void
  | WBool => Deserializer_bool
  | WUint8 => Deserializer_uint8
  | WUint16 => Deserializer_uint16
  | WUint32 => Deserializer_uint32
  | WUint64 => Deserializer_uint64
  | WInt8 => Deserializer_int8
  | WInt16 => Deserializer_int16
  | WInt32 => Deserializer_int32
  | WInt64 => Deserializer_int64
  | WString => Deserializer_string_view
  | WPair t1 t2 => @Deserializer_pair _ _ _ (denote_deserializer t1) (denote_deserializer t2)
  | WTuple ts => @Deserializer_tuple _ (denote_tuple_deserializer ts)
  end
with denote_tuple_deserializer (ts : tuple_type) : TupleDeserializer (denote_tuple ts) :=
  match ts with
  | WOne t => @TupleDeserializer_one _ _ (denote_deserializer t)
  | WMore t ts => @TupleDeserializer_cons _ _ _ (denote_deserializer t) (denote_tuple_deserializer ts)
  end.

(** The bytes that stand for each value. *)
Fixpoint denote_format (t : wire_type) : WireFormat (denote t) :=
  match t with
  | WVoid => WireFormat_Void
  | WBool => WireFormat_bool
  | WUint8 => WireFormat_uint8
  | WUint16 => WireFormat_uint16
  | WUint32 => WireFormat_uint32
  | WUint64 => WireFormat_uint64
  | WInt8 => WireFormat_int8
  | WInt16 => WireFormat_int16
  | WInt32 => WireFormat_int32
  | WInt64 => WireFormat_int64
  | WString => WireFormat_string_view
  | WPair t1 t2 => @WireFormat_pair _ _ (denote_format t1) (denote_format t2)
  | WTuple ts => @WireFormat_tuple _ (denote_tuple_format ts)
  end
with denote_tuple_format (ts : tuple_type) : TupleFormat (denote_tuple ts) :=
  match ts with
  | WOne t => @TupleFormat_one _ (denote_format t)
  | WMore t ts => @TupleFormat_cons _ _ (denote_format t) (denote_tuple_format ts)
  end.

#[global] Existing Instance denote_serializer.
#[global] Existing Instance denote_tuple_serializer.
#[global] Existing Instance denote_deserializer.
#[global] Existing Instance denote_tuple_deserializer.
#[global] Existing Instance denote_format.
#[global] Existing Instance denote_tuple_format.

(** The serializer and the deserializer of every type agree on its format. *)
Lemma denote_laws :
  (∀ t, WireFormatLaws (denote t)) ∧ (∀ ts, TupleFormatLaws (denote_tuple ts)).
Proof.
  apply wire_types_ind; cbn; intros; eauto with typeclass_instances.
Qed.

(** C39: a tuple survives the wire. Its members, one or more, are of any of the types
    that have a serializer: the empty type, booleans, signed and unsigned integers of
    8 to 64 bits, strings, and pairs and tuples of these, nested at will; the integers
    are in the range of their type and strings are bytes ([tvalid]). The format is
    every member in turn, behind its length in two bytes ([twire]). If every member
    fits, [serialize] succeeds with those bytes and [deserialize] yields the tuple
    again; if some member, at any depth, is longer than 65535 bytes, [serialize] fails
    with kInvalidArgument and no bytes. And whatever bytes [deserialize] accepts are
    what [serialize] makes of the tuple that it returns. *)
Theorem Serializer_tuple_roundtrip (ts : tuple_type) (vs : denote_tuple ts) (Hvs : tvalid vs) :
  match twire vs with
  | Some bs => serialize (Tuple vs) = (RpcOk, bs) ∧ deserialize bs = inr (Tuple vs)
  | None => serialize (Tuple vs) = (RpcInvalidArgument, [])
  end
  ∧ ∀ bs (vs' : denote_tuple ts), Forall is_byte bs → deserialize bs = inr (Tuple vs') →
      tvalid vs' ∧ serialize (Tuple vs') = (RpcOk, bs).
Proof.
  destruct denote_laws as [_ Hlaws]. specialize (Hlaws ts).
  pose proof (serialize_wire (Tuple vs) Hvs) as Hs.
  pose proof (deserialize_wire (Tuple vs)) as Hd. cbn [wire WireFormat_tuple] in Hs, Hd. split.
  - destruct (twire vs) as [bs|]; auto.
  - intros bs vs' Hb Hbs. destruct (deserialize_only bs (Tuple vs') Hb Hbs) as [Hv Hw].
    pose proof (serialize_wire (Tuple vs') Hv) as Hs'. by rewrite Hw in Hs'.
Qed.

End Universe.

(** ** Witnesses *)

(** A pair of a number and a pair. *)
Lemma Serializer_pair_roundtrip_witness :
  serialize (U16 513, (true, [7; 8; 9])) = (RpcOk, [0; 2; 2; 1; 0; 8; 0; 1; 1; 0; 3; 7; 8; 9])
  ∧ deserialize [0; 2; 2; 1; 0; 8; 0; 1; 1; 0; 3; 7; 8; 9] = inr (U16 513, (true, [7; 8; 9])).
Proof.
  destruct (Serializer_pair_roundtrip uint16_laws pair_laws (U16 513, (true, [7; 8; 9]))) as [H _].
  - cbn. lia.
  - split; [done|]. repeat constructor; lia.
  - exact H.
Defined.

(** An int32_t, a Void, and a pair of a bool and a string. *)
Lemma Serializer_tuple_roundtrip_witness :
  let ts := WMore WInt32 (WMore WVoid (WOne (WPair WBool WString))) in
  let vs : denote_tuple ts := TCons (S32 (-2)) (TCons tt (TOne (true, [7; 8]))) in
  serialize (Tuple vs) = (RpcOk, [0; 4; 255; 255; 255; 254; 0; 0; 0; 7; 0; 1; 1; 0; 2; 7; 8])
  ∧ deserialize [0; 4; 255; 255; 255; 254; 0; 0; 0; 7; 0; 1; 1; 0; 2; 7; 8] = inr (Tuple vs).
Proof.
  intros ts vs. destruct (Serializer_tuple_roundtrip ts vs) as [H _].
  - cbn. repeat (split; [lia || done|]). repeat constructor; lia.
  - exact H.
Defined.

(** ** Where the code falls short *)

(** A type whose [serialize] can fail, as [SimpleSerialized] provides for. *)
Inductive Refusing := refuse.

Instance Serializer_Refusing : Serializer Refusing :=
  {| serialize _ := (RpcFailedPrecondition, []); serialize_into := None |}.

(** The error is lost when the value is a member of a pair: the pair is serialized
    successfully, with an empty member. *)
Theorem Serializer_pair_loses_error : serialize (refuse, U8 5) = (RpcOk, [0; 0; 0; 1; 5]).
Proof. reflexivity. Qed.
