(* ===== verification/RpcClient.v ===== *)
(** * RpcClient: calls waiting for their responses

    [rpc/client.{h,cpp}]. The client keeps a table of calls by stream id; a call is a
    shared object that holds its completion callback until the callback is taken. The
    operations are cut where the code releases a mutex: a response or a reset first
    claims calls under the registry's mutex, then completes each under its own; a send
    registers the call, and if the transport refuses it, erases the entry, then clears
    the callback. [rc_step] lets these sections interleave freely. *)

From stdpp Require Import gmap relations.
From S2P Require Import Prelude.
From S2P Require Import RooIo.
From S2P Require Import RpcHeader.
From S2P Require Import Serialization.

Local Open Scope Z_scope.
Local Open Scope roo_scope.

(** [rc_calls] is the memory of the shared [OutgoingCall] objects, by reference: the
    callback, until it is moved out or cleared. Callbacks are identified by numbers. *)
Record RpcClient := mkRpcClient {
  rc_next_stream_id : Z;
  rc_outgoing_calls : gmap Z nat;
  rc_calls : list (option Z);
}.

Definition RpcClient_init : RpcClient := mkRpcClient 1 ∅ [].

Section Operations.

Context {io : RooIo} {data : RooIoData}.

(** [std::make_shared<OutgoingCall>(cb)] *)
Definition RpcClient_new_call (cb : Z) (c : RpcClient) : nat * RpcClient :=
  (length (rc_calls c),
   mkRpcClient (rc_next_stream_id c) (rc_outgoing_calls c) (rc_calls c ++ [Some cb])).

(** [insert] leaves an entry that is there already. *)
Definition RpcClient_new_stream (call : nat) (c : RpcClient) : Z * RpcClient :=
  let stream_id := rc_next_stream_id c in
  let next := u32 (stream_id + 1) in
  let next := if 0x00FFFFFF <? next then 1 else next in
  let calls := rc_outgoing_calls c in
  (stream_id,
   mkRpcClient next (match calls !! stream_id with Some _ => calls | None => <[stream_id := call]> calls end)
     (rc_calls c)).

(** The first part of [sendUnaryRpc] and of [sendUnaryRpcWithTimeout], up to
    [messaging_.send]: the call, its stream id and the header of the message. *)
Definition RpcClient_send_begin (function_id : Z) (timeout_ms : option Z) (cb : Z) (c : RpcClient)
    : option (nat * Z * list byte * RpcClient) :=
  let '(call, c) := RpcClient_new_call cb c in
  let '(stream_id, c) := RpcClient_new_stream call c in
  let header :=
    match timeout_ms with
    | None => RpcHeader_NewUnaryRequest function_id stream_id
    | Some timeout_ms => RpcHeader_NewUnaryRequestWithTimeout function_id stream_id timeout_ms
    end in
  header_bytes ← RpcHeader_serialize header RpcHeader_kMaxSerializedSize;
  CHECK (0 <? Z.of_nat (length header_bytes)) ;;
  Some (call, stream_id, header_bytes, c).

(** The two sections of [cancelSend]. *)
Definition RpcClient_cancel_erase (stream_id : Z) (c : RpcClient) : RpcClient :=
  mkRpcClient (rc_next_stream_id c) (delete stream_id (rc_outgoing_calls c)) (rc_calls c).

Definition RpcClient_cancel_clear (call : nat) (c : RpcClient) : RpcClient :=
  mkRpcClient (rc_next_stream_id c) (rc_outgoing_calls c) (<[call := None]> (rc_calls c)).

(** [complete]: the callback, if it is still there, is taken and called. *)
Definition RpcClient_complete (call : nat) (c : RpcClient) : option Z * RpcClient :=
  (mjoin (rc_calls c !! call), RpcClient_cancel_clear call c).

(** [handleResponse], up to [complete]: the call it claims, the payload and the status.
    The outer [option] is for the [CHECK] in [responseStatus]. *)
Definition RpcClient_handleResponse (bytes : list byte) (c : RpcClient)
    : option (option (nat * list byte * RpcStatus) * RpcClient) :=
  match RpcHeader_deserialize bytes with
  | None => Some (None, c)
  | Some (header, payload) =>
      if negb (is_type RkResponse header) then Some (None, c)
      else match rc_outgoing_calls c !! rh_stream_id header with
      | None => Some (None, c)
      | Some call =>
          let c := RpcClient_cancel_erase (rh_stream_id header) c in
          status ← (if rh_last_message header then RpcHeader_responseStatus header else Some RpcOk);
          Some (Some (call, payload, status), c)
      end
  end.

(** [connectionReset], up to the loop over [complete]: the calls it claims. *)
Definition RpcClient_connectionReset (c : RpcClient) : list nat * RpcClient :=
  ((map_to_list (rc_outgoing_calls c)).*2, mkRpcClient (rc_next_stream_id c) ∅ (rc_calls c)).

(** [UnaryStub]: what its completion callback makes of a response. *)
Definition UnaryStub_complete {Response} `{Deserializer Response} (payload : list byte) (status : RpcStatus)
    : RpcStatus * option Response :=
  if bool_decide (status = RpcOk)
  then match deserialize payload with
       | inl status => (status, None)
       | inr response => (RpcOk, Some response)
       end
  else (status, None).

(** [UnaryStub::call], up to the wait: refuses a request that does not serialize. *)
Definition UnaryStub_call {Request} `{Serializer Request} (function_id : Z) (request : Request) (cb : Z)
    (c : RpcClient) : option (RpcStatus + (nat * Z * list byte * RpcClient)) :=
  let '(status, payload) := serialize request in
  if negb (bool_decide (status = RpcOk)) then Some (inl status)
  else
    '(call, stream_id, header, c) ← RpcClient_send_begin function_id None cb c;
    Some (inr (call, stream_id, header ++ payload, c)).

(** [UnaryStub::callAsync] sends the same request and does not wait. *)
Definition UnaryStub_callAsync {Request} `{Serializer Request} (function_id : Z) (request : Request)
    (cb : Z) (c : RpcClient) : option (RpcStatus + (nat * Z * list byte * RpcClient)) :=
  UnaryStub_call function_id request cb c.

(** ** Interleavings *)

(** A thread between two critical sections. *)
Inductive rc_thread :=
  | Sending (stream_id : Z) (call : nat)
  | Cancelling (call : nat)
  | Completing (call : nat) (payload : list byte) (status : RpcStatus).

(** A callback that ran. *)
Record rc_completion := mkCompletion {
  cp_call : nat;
  cp_payload : list byte;
  cp_status : RpcStatus;
}.

(** The client, the threads inside it, and what has happened: the completions, the
    calls whose send was refused, and those that got the stream id of a call that was
    still pending or being sent, which takes 2^24 calls to happen. *)
Record rc_config := mkRcConfig {
  rg_client : RpcClient;
  rg_threads : list rc_thread;
  rg_log : list rc_completion;
  rg_refused : list nat;
  rg_reused : list nat;
}.

Definition id_in_use (id : Z) (c : RpcClient) (ts : list rc_thread) : Prop :=
  is_Some (rc_outgoing_calls c !! id) ∨ Exists (λ t, ∃ call, t = Sending id call) ts.

#[export] Instance id_in_use_dec id c ts : Decision (id_in_use id c ts).
Proof.
  apply or_dec; [apply _|]. apply Exists_dec. intros [id' call|call|call p st]; [|right; by intros [? ?]..].
  destruct (decide (id' = id)) as [->|]; [left; by eexists|right; intros [? [=]]; congruence].
Defined.

Definition rc_start : rc_config := mkRcConfig RpcClient_init [] [] [] [].

Inductive rc_step : rc_config → rc_config → Prop :=
  | rc_send_begin function_id timeout_ms cb call id header c c' ts log refused reused :
      RpcClient_send_begin function_id timeout_ms cb c = Some (call, id, header, c') →
      rc_step (mkRcConfig c ts log refused reused)
        (mkRcConfig c' (Sending id call :: ts) log refused
           (if decide (id_in_use id c ts) then call :: reused else reused))
  | rc_send_accepted id call c ts1 ts2 log refused reused :
      rc_step (mkRcConfig c (ts1 ++ Sending id call :: ts2) log refused reused)
        (mkRcConfig c (ts1 ++ ts2) log refused reused)
  | rc_send_refused id call c ts1 ts2 log refused reused :
      rc_step (mkRcConfig c (ts1 ++ Sending id call :: ts2) log refused reused)
        (mkRcConfig (RpcClient_cancel_erase id c) (ts1 ++ Cancelling call :: ts2) log refused reused)
  | rc_send_cancelled call c ts1 ts2 log refused reused :
      rc_step (mkRcConfig c (ts1 ++ Cancelling call :: ts2) log refused reused)
        (mkRcConfig (RpcClient_cancel_clear call c) (ts1 ++ ts2) log (call :: refused) reused)
  | rc_response bytes claimed c c' ts log refused reused :
      RpcClient_handleResponse bytes c = Some (claimed, c') →
      rc_step (mkRcConfig c ts log refused reused)
        (mkRcConfig c' (match claimed with
                        | Some (call, payload, status) => Completing call payload status :: ts
                        | None => ts
                        end) log refused reused)
  | rc_reset calls c c' ts log refused reused :
      RpcClient_connectionReset c = (calls, c') →
      rc_step (mkRcConfig c ts log refused reused)
        (mkRcConfig c' (((λ call, Completing call [] RpcUnavailable) <$> calls) ++ ts) log refused reused)
  | rc_complete call payload status cb c c' ts1 ts2 log refused reused :
      RpcClient_complete call c = (cb, c') →
      rc_step (mkRcConfig c (ts1 ++ Completing call payload status :: ts2) log refused reused)
        (mkRcConfig c' (ts1 ++ ts2)
           (match cb with Some _ => mkCompletion call payload status :: log | None => log end)
           refused reused).

Definition rc_reachable : rc_config → Prop := rtc rc_step rc_start.

End Operations.

(** ** At most once *)

Section Correct.

Context {io : RooIo} {io_laws : RooIoLaws} {data : RooIoData} {data_laws : RooIoDataLaws}.

(** What an operation does to the call objects. *)
Lemma send_begin_inv function_id timeout_ms cb c call id header c' :
  RpcClient_send_begin function_id timeout_ms cb c = Some (call, id, header, c') →
  call = length (rc_calls c) ∧ id = rc_next_stream_id c ∧ rc_calls c' = rc_calls c ++ [Some cb]
  ∧ rc_outgoing_calls c' = match rc_outgoing_calls c !! id with
                           | Some _ => rc_outgoing_calls c
                           | None => <[id := call]> (rc_outgoing_calls c)
                           end.
Proof.
  unfold RpcClient_send_begin. cbn. intros H. destruct (RpcHeader_serialize _ _); [|done].
  cbn in H. destruct (check _); [|done]. cbn in H. injection H as <- <- <- <-. done.
Qed.

Lemma handleResponse_inv bytes c claimed c' :
  RpcClient_handleResponse bytes c = Some (claimed, c') →
  rc_calls c' = rc_calls c
  ∧ match claimed with
    | None => c' = c
    | Some (call, payload, status) =>
        ∃ id, rc_outgoing_calls c !! id = Some call
          ∧ rc_outgoing_calls c' = delete id (rc_outgoing_calls c)
    end.
Proof.
  unfold RpcClient_handleResponse. destruct (RpcHeader_deserialize bytes) as [[h p]|]; [|by intros [= <- <-]].
  destruct (negb _); [by intros [= <- <-]|].
  destruct (rc_outgoing_calls c !! rh_stream_id h) as [call|] eqn:Hc; [|by intros [= <- <-]].
  intros H. destruct (if rh_last_message h then _ else _); [|done]. cbn in H. injection H as <- <-.
  split; [done|]. by exists (rh_stream_id h).
Qed.

Definition thread_call (t : rc_thread) : nat :=
  match t with Sending _ call | Cancelling call | Completing call _ _ => call end.

(** A completed call has no callback any more, and neither has a refused one. *)
Record rc_safe (g : rc_config) : Prop := {
  rs_log : NoDup (cp_call <$> rg_log g);
  rs_completed call : call ∈ cp_call <$> rg_log g → rc_calls (rg_client g) !! call = Some None;
  rs_refused call : call ∈ rg_refused g → rc_calls (rg_client g) !! call = Some None;
  rs_threads : Forall (λ t, (thread_call t < length (rc_calls (rg_client g)))%nat) (rg_threads g);
  rs_table : map_Forall (λ _ call, (call < length (rc_calls (rg_client g)))%nat)
               (rc_outgoing_calls (rg_client g));
}.

(** The callbacks only ever go away. *)
Definition callbacks_shrink (c c' : RpcClient) : Prop :=
  ∀ call, rc_calls c !! call = Some None → rc_calls c' !! call = Some None.

Lemma clear_shrink call c : callbacks_shrink c (RpcClient_cancel_clear call c).
Proof.
  intros i Hi. cbn. destruct (decide (call = i)) as [->|Hne].
  - apply list_lookup_insert_eq. by apply lookup_lt_Some in Hi.
  - by rewrite list_lookup_insert_ne.
Qed.

Lemma rc_step_shrink g g' : rc_step g g' → callbacks_shrink (rg_client g) (rg_client g').
Proof.
  destruct 1 as [fid tmo cb call id header c c' ts log refused reused Hb| | |call c
    |bytes claimed c c' ts log refused reused Hr|calls c c' ts log refused reused Hr
    |call payload status cb c c' ts1 ts2 log refused reused Hc]; cbn; try by intros ?.
  - apply send_begin_inv in Hb as (_ & _ & Hc & _). intros i Hi. rewrite Hc. by apply lookup_app_l_Some.
  - apply clear_shrink.
  - apply handleResponse_inv in Hr as [Hc _]. intros i. by rewrite Hc.
  - unfold RpcClient_connectionReset in Hr. injection Hr as <- <-. by intros ?.
  - unfold RpcClient_complete in Hc. injection Hc as <- <-. apply clear_shrink.
Qed.

Lemma rc_step_log g g' :
  rc_safe g → rc_step g g' →
  rg_log g' = rg_log g
  ∨ ∃ cp cb, rg_log g' = cp :: rg_log g ∧ rc_calls (rg_client g) !! cp_call cp = Some (Some cb)
      ∧ rc_calls (rg_client g') !! cp_call cp = Some None.
Proof.
  intros Hs. destruct 1 as [| | | | | |call payload status cb c c' ts1 ts2 log refused reused Hc]; auto.
  unfold RpcClient_complete in Hc. injection Hc as <- <-. cbn.
  destruct (rc_calls c !! call) as [[cb|]|] eqn:Hcall; cbn; auto. right.
  exists (mkCompletion call payload status), cb. split; [done|]. split; [done|]. cbn.
  apply list_lookup_insert_eq. by apply lookup_lt_Some in Hcall.
Qed.

Lemma rc_safe_start : rc_safe rc_start.
Proof. constructor; cbn; try done; [constructor|by intros ? ?%elem_of_nil..]. Qed.

Lemma rc_step_threads g g' :
  rc_safe g → rc_step g g' →
  let n := length (rc_calls (rg_client g')) in
  (length (rc_calls (rg_client g)) ≤ n)%nat
  ∧ Forall (λ t, (thread_call t < n)%nat) (rg_threads g')
  ∧ map_Forall (λ _ call, (call < n)%nat) (rc_outgoing_calls (rg_client g')).
Proof.
  intros [_ _ _ Ht Hm] Hst.
  destruct Hst as [fid tmo cb call id header c c' ts log refused reused Hb| | |
    |bytes claimed c c' ts log refused reused Hr|calls c c' ts log refused reused Hr
    |call payload status cb c c' ts1 ts2 log refused reused Hc]; cbn in *;
    rewrite ?length_insert; rewrite ?Forall_app, ?Forall_cons in *.
  - apply send_begin_inv in Hb as (-> & -> & Hcs & Ho). rewrite Hcs, Ho, length_app. cbn.
    assert (Hm' : map_Forall (λ _ call, (call < length (rc_calls c) + 1)%nat) (rc_outgoing_calls c))
      by (eapply map_Forall_impl; [exact Hm|cbn; lia]).
    split_and!; [lia|lia|by eapply Forall_impl; [exact Ht|cbn; lia]|].
    destruct (_ !! _); [done|]. apply map_Forall_insert_2; [lia|done].
  - naive_solver.
  - split; [done|]. split; [naive_solver|]. by apply map_Forall_delete.
  - naive_solver.
  - apply handleResponse_inv in Hr as [-> Hcl]. split; [done|].
    destruct claimed as [[[call p] st]|]; [|by subst c'].
    destruct Hcl as (id & Hid & ->). split; [|by apply map_Forall_delete].
    constructor; [exact (Hm _ _ Hid)|done].
  - unfold RpcClient_connectionReset in Hr. injection Hr as <- <-. cbn. split; [done|].
    split; [|apply map_Forall_empty]. split; [|done]. apply Forall_fmap, Forall_forall.
    intros i ([id i'] & -> & Hin%elem_of_map_to_list)%list_elem_of_fmap. exact (Hm _ _ Hin).
  - unfold RpcClient_complete in Hc. injection Hc as <- <-. cbn. rewrite length_insert. naive_solver.
Qed.

Lemma rc_safe_step g g' : rc_safe g → rc_step g g' → rc_safe g'.
Proof.
  intros Hs Hst. destruct (rc_step_threads g g' Hs Hst) as (_ & Ht & Hm).
  pose proof (rc_step_shrink g g' Hst) as Hsh. pose proof (rc_step_log g g' Hs Hst) as Hlog.
  constructor; [| | |done|done].
  - destruct Hlog as [-> | (cp & cb & -> & Hcb & _)]; [apply Hs|]. cbn. constructor; [|apply Hs].
    intros Hin%(rs_completed _ Hs). congruence.
  - destruct Hlog as [-> | (cp & cb & -> & _ & Hn)]; intros call Hin;
      [by apply Hsh, (rs_completed _ Hs)|].
    cbn in Hin. apply elem_of_cons in Hin as [-> |Hin]; [done|]. by apply Hsh, (rs_completed _ Hs).
  - intros call Hin. destruct (decide (call ∈ rg_refused g)) as [Hr|Hr];
      [by apply Hsh, (rs_refused _ Hs)|].
    pose proof (rs_threads _ Hs) as Htg. destruct Hst; try done. cbn in *.
    apply elem_of_cons in Hin as [-> |Hin]; [|done]. apply list_lookup_insert_eq.
    rewrite Forall_app, Forall_cons in Htg. naive_solver.
Qed.

Lemma rc_safe_reachable g g' : rc_safe g → rtc rc_step g g' → rc_safe g'.
Proof. intros Hs. induction 1; eauto using rc_safe_step. Qed.

(** A call without callback is never completed (again). *)
Lemma rc_never_again g g' call :
  rc_safe g → rc_calls (rg_client g) !! call = Some None → rtc rc_step g g' →
  filter (λ cp, cp_call cp = call) (rg_log g') = filter (λ cp, cp_call cp = call) (rg_log g).
Proof.
  intros Hs Hn Hst. induction Hst as [|g g1 g' Hst _ IH]; [done|].
  rewrite IH by (eauto using rc_safe_step, rc_step_shrink || by eapply rc_step_shrink).
  destruct (rc_step_log g g1 Hs Hst) as [-> | (cp & cb & -> & Hcb & _)]; [done|].
  rewrite filter_cons_False; [done|]. intros <-. congruence.
Qed.

(** C40: a completion callback runs at most once, whatever the interleaving of sends,
    responses, connection resets and refused sends; and it does not run after the send
    has returned with an error. *)
Theorem RpcClient_at_most_once (g g' : rc_config) (call : nat) (Hreach : rc_reachable g)
    (Hlater : rtc rc_step g g') :
  NoDup (cp_call <$> rg_log g')
  ∧ (call ∈ rg_refused g →
     filter (λ cp, cp_call cp = call) (rg_log g') = filter (λ cp, cp_call cp = call) (rg_log g)).
Proof.
  pose proof (rc_safe_reachable _ _ rc_safe_start Hreach) as Hs. split.
  - exact (rs_log _ (rc_safe_reachable _ _ Hs Hlater)).
  - intros Hin. apply rc_never_again; [done|by apply (rs_refused _ Hs)|done].
Qed.

(** ** No call is lost *)

(** A claimed call, about to be completed or cleared. *)
Definition claims (call : nat) (t : rc_thread) : Prop :=
  match t with Sending _ _ => False | Cancelling i | Completing i _ _ => i = call end.

Definition tracked (g : rc_config) (call : nat) : Prop :=
  (∃ id, rc_outgoing_calls (rg_client g) !! id = Some call) ∨ Exists (claims call) (rg_threads g).

Record rc_live (g : rc_config) : Prop := {
  rl_tracked call cb : rc_calls (rg_client g) !! call = Some (Some cb) → tracked g call;
  rl_done call : rc_calls (rg_client g) !! call = Some None →
    call ∈ cp_call <$> rg_log g ∨ call ∈ rg_refused g;
  rl_sending : Forall (λ t, ∀ id call, t = Sending id call →
    ∀ other, rc_outgoing_calls (rg_client g) !! id = Some other → other = call) (rg_threads g);
}.

Lemma rc_live_start : rc_live rc_start.
Proof. constructor; cbn; [by intros ? ? ?|by intros ? ?|constructor]. Qed.

Lemma rc_step_reused g g' : rc_step g g' → rg_reused g' = [] → rg_reused g = [].
Proof. destruct 1; cbn; try done. by case_decide. Qed.

Lemma sending_delete id ts (m : gmap Z nat) :
  Forall (λ t, ∀ i call, t = Sending i call → ∀ other, m !! i = Some other → other = call) ts →
  Forall (λ t, ∀ i call, t = Sending i call → ∀ other, delete id m !! i = Some other → other = call) ts.
Proof.
  intros H. eapply Forall_impl; [exact H|]. cbn. intros t Ht i call -> other [_ Hi]%lookup_delete_Some.
  by eapply Ht.
Qed.

Lemma rc_live_begin fid tmo cb call id header c c' ts log refused reused :
  RpcClient_send_begin fid tmo cb c = Some (call, id, header, c') → ¬ id_in_use id c ts →
  rc_live (mkRcConfig c ts log refused reused) →
  rc_live (mkRcConfig c' (Sending id call :: ts) log refused reused).
Proof.
  intros Hb Hfree [Ha Hd Hs]. apply send_begin_inv in Hb as (-> & -> & Hcs & Ho).
  assert (Hnone : rc_outgoing_calls c !! rc_next_stream_id c = None).
  { destruct (rc_outgoing_calls c !! _) eqn:E; [|done]. destruct Hfree. left. by eexists. }
  rewrite Hnone in Ho. constructor; cbn in *.
  - intros i cb' Hi. rewrite Hcs in Hi. unfold tracked. cbn. rewrite Ho, Exists_cons.
    apply lookup_app_Some in Hi as [Hi|[Hge Hi]].
    + destruct (Ha _ _ Hi) as [[id Hid]|Hex]; [|by auto]. left. exists id. cbn in Hid.
      rewrite lookup_insert_ne; [done|congruence].
    + assert (i = length (rc_calls c)) as ->.
      { apply lookup_lt_Some in Hi. cbn in Hi. lia. }
      left. exists (rc_next_stream_id c). by rewrite lookup_insert_eq.
  - intros i Hi. rewrite Hcs in Hi. apply lookup_app_Some in Hi as [Hi|[Hge Hi]]; [by apply Hd|].
    destruct (i - length (rc_calls c))%nat as [|k]; [by injection Hi|by destruct k].
  - rewrite Ho. constructor.
    + intros ? ? [= <- <-] other. rewrite lookup_insert_eq. by intros [= <-].
    + apply Forall_forall. intros t Ht id call -> other Hl. rewrite Forall_forall in Hs.
      apply (Hs _ Ht _ _ eq_refl). rewrite lookup_insert_ne in Hl; [done|]. intros <-.
      destruct Hfree. right. apply Exists_exists. eauto.
Qed.

(** The callback of [call] goes, and with it the thread that had claimed [call]. *)
Lemma rc_live_clear call t c ts1 ts2 log refused log' refused' reused :
  (∀ i, claims i t → i = call) →
  (∀ i, i ∈ cp_call <$> log → i ∈ cp_call <$> log') → (∀ i, i ∈ refused → i ∈ refused') →
  (∀ x, rc_calls c !! call = Some x → call ∈ cp_call <$> log' ∨ call ∈ refused') →
  rc_live (mkRcConfig c (ts1 ++ t :: ts2) log refused reused) →
  rc_live (mkRcConfig (RpcClient_cancel_clear call c) (ts1 ++ ts2) log' refused' reused).
Proof.
  intros Hc Hlog Href Hcall [Ha Hd Hs]. constructor; cbn in *.
  - intros i cb Hi. destruct (decide (call = i)) as [->|Hne].
    { apply list_lookup_insert_Some in Hi as [(_ & ? & _)|[? _]]; congruence. }
    rewrite list_lookup_insert_ne in Hi by done.
    destruct (Ha _ _ Hi) as [?|Hex]; [by left|]. right. cbn in *.
    rewrite Exists_app, Exists_cons in Hex. rewrite Exists_app.
    destruct Hex as [?|[Ht|?]]; [by left| |by right]. apply Hc in Ht. congruence.
  - intros i Hi. destruct (decide (call = i)) as [->|Hne].
    { apply list_lookup_insert_Some in Hi as [(_ & _ & Hlt)|[? _]]; [|done].
      apply lookup_lt_is_Some_2 in Hlt as [x Hx]. by eapply Hcall. }
    rewrite list_lookup_insert_ne in Hi by done. destruct (Hd _ Hi); auto.
  - rewrite Forall_app, Forall_cons in Hs. rewrite Forall_app. naive_solver.
Qed.

Lemma rc_live_step g g' : rc_live g → rc_step g g' → rg_reused g' = [] → rc_live g'.
Proof.
  intros Hl Hst. destruct Hst as [fid tmo cb call id header c c' ts log refused reused Hb
    |id call c ts1 ts2 log refused reused|id call c ts1 ts2 log refused reused
    |call c ts1 ts2 log refused reused
    |bytes claimed c c' ts log refused reused Hr|calls c c' ts log refused reused Hr
    |call payload status cb c c' ts1 ts2 log refused reused Hc]; intros Hru; cbn in Hru.
  - case_decide; [done|]. by eapply rc_live_begin.
  - destruct Hl as [Ha Hd Hs]. constructor; cbn in *; [|done|].
    + intros i cb Hi. destruct (Ha _ _ Hi) as [?|Hex]; [by left|]. right. cbn in *.
      rewrite Exists_app, Exists_cons in Hex. rewrite Exists_app. by destruct Hex as [?|[[]|?]]; auto.
    + rewrite Forall_app, Forall_cons in Hs. rewrite Forall_app. naive_solver.
  - destruct Hl as [Ha Hd Hs]. constructor; cbn in *; [|done|].
    + intros i cb Hi. unfold tracked. cbn. rewrite Exists_app, Exists_cons.
      destruct (Ha _ _ Hi) as [[id' Hid]|Hex]; cbn in *.
      * destruct (decide (id = id')) as [<-|Hne].
        { rewrite Forall_app, Forall_cons in Hs. destruct Hs as (_ & Hs & _).
          rewrite (Hs _ _ eq_refl _ Hid). cbn. auto. }
        left. exists id'. by rewrite lookup_delete_ne.
      * rewrite Exists_app, Exists_cons in Hex. destruct Hex as [?|[[]|?]]; auto.
    + apply sending_delete. rewrite Forall_app, Forall_cons in Hs |- *.
      destruct Hs as (? & _ & ?). split; [done|]. split; [by intros ? ? [=]|done].
  - eapply rc_live_clear; [..|exact Hl]; cbn; try done; [by intros; right|]. intros _ _. right. by left.
  - destruct claimed as [[[call p] st]|].
    2:{ apply handleResponse_inv in Hr as [_ ->]. done. }
    apply handleResponse_inv in Hr as [Hcs (id & Hid & Ho)]. destruct Hl as [Ha Hd Hs].
    constructor; cbn in *; rewrite ?Hcs, ?Ho; [|done|].
    + intros i cb Hi. unfold tracked. cbn. rewrite Ho, Exists_cons.
      destruct (Ha _ _ Hi) as [[id' Hid']|Hex]; cbn in *; [|by auto].
      destruct (decide (id = id')) as [<-|Hne]; [right; left; congruence|].
      left. exists id'. by rewrite lookup_delete_ne.
    + constructor; [by intros ? ? [=]|]. by apply sending_delete.
  - unfold RpcClient_connectionReset in Hr. injection Hr as <- <-. destruct Hl as [Ha Hd Hs].
    constructor; cbn in *; [|done|].
    + intros i cb Hi. right. cbn. rewrite Exists_app.
      destruct (Ha _ _ Hi) as [[id' Hid']|Hex]; cbn in *; [left|by right].
      apply Exists_exists. exists (Completing i [] RpcUnavailable). split; [|done].
      apply list_elem_of_fmap. exists i. split; [done|]. apply list_elem_of_fmap.
      exists (id', i). split; [done|]. by apply elem_of_map_to_list.
    + apply Forall_forall. intros t _ id call _ other [=].
  - unfold RpcClient_complete in Hc. injection Hc as <- <-.
    eapply rc_live_clear; [..|exact Hl]; cbn; try done.
    + intros i Hi. destruct (mjoin _); [|done]. cbn. by right.
    + intros x Hx. rewrite Hx. destruct x; cbn; [left; by left|].
      by apply (rl_done _ Hl).
Qed.

Lemma rc_live_reachable g : rc_reachable g → rg_reused g = [] → rc_live g.
Proof.
  revert g. apply (rtc_ind_r (λ g, rg_reused g = [] → rc_live g) rc_start).
  - intros _. apply rc_live_start.
  - intros g1 g2 _ Hst IH Hr. eapply rc_live_step; [|done|done]. by eapply IH, rc_step_reused.
Qed.


(** ** Messages *)

(** The message of a call parses back as the request it is. *)
Lemma send_begin_message fid tmo cb c payload :
  0 ≤ fid < 2 ^ 32 → (∀ t, tmo = Some t → 0 ≤ t < 2 ^ 32) → 0 ≤ rc_next_stream_id c < 2 ^ 24 →
  ∃ call header c' h, RpcClient_send_begin fid tmo cb c = Some (call, rc_next_stream_id c, header, c')
    ∧ RpcHeader_deserialize (header ++ payload) = Some (h, payload)
    ∧ h = mkRpcHeader RkRequest true true (bool_decide (is_Some tmo)) (rc_next_stream_id c)
            (NewRequest fid (default 0 tmo)).
Proof.
  intros Hf Ht Hid. unfold RpcClient_send_begin. cbn [RpcClient_new_call RpcClient_new_stream].
  set (h := mkRpcHeader RkRequest true true (bool_decide (is_Some tmo)) (rc_next_stream_id c)
            (NewRequest fid (default 0 tmo))).
  assert (Hok : rh_ok h).
  { assert (0 ≤ default 0 tmo < 2 ^ 32) by (destruct tmo as [t|]; cbn; [by apply Ht|lia]).
    split; [done|]. split; [done|]. split; [done|]. split; [done|]. split; [done|]. split; [done|].
    cbn. destruct tmo as [t|]; [|done]. intros Hb%bool_decide_eq_false. destruct Hb. by eexists. }
  destruct (header_roundtrip h payload Hok) as (header & Hs & Hl & Hd).
  assert (Hh : match tmo with
               | None => RpcHeader_NewUnaryRequest fid (rc_next_stream_id c)
               | Some t => RpcHeader_NewUnaryRequestWithTimeout fid (rc_next_stream_id c) t
               end = h) by (by destruct tmo).
  cbn [rc_next_stream_id]. rewrite Hh, Hs. cbn [mbind option_bind].
  rewrite (proj2 (Z.ltb_lt 0 (Z.of_nat (length header)))) by lia. cbn [check mbind option_bind].
  do 4 eexists. eauto.
Qed.

(** The response to a call claims that call. *)
Lemma handleResponse_unary id status payload call c :
  0 ≤ id < 2 ^ 24 → status_ok status → rc_outgoing_calls c !! id = Some call →
  ∃ header, RpcHeader_serialize (RpcHeader_NewUnaryResponse id status) RpcHeader_kMaxSerializedSize
            = Some header
    ∧ RpcClient_handleResponse (header ++ payload) c
      = Some (Some (call, payload, status), RpcClient_cancel_erase id c).
Proof.
  intros Hid Hst Hc.
  destruct (header_roundtrip (RpcHeader_NewUnaryResponse id status) payload) as (header & Hs & _ & Hd).
  { split; [done|]. split; done. }
  exists header. split; [done|]. unfold RpcClient_handleResponse. rewrite Hd. cbn. by rewrite Hc.
Qed.

End Correct.

(** ** Witnesses *)

(** One call, a connection reset that claims it, and its completion. *)
Definition demo_client : RpcClient :=
  match RpcClient_send_begin 300 None 5 RpcClient_init with
  | Some (_, _, _, c) => c
  | None => RpcClient_init
  end.

Definition demo_end : rc_config :=
  mkRcConfig (RpcClient_complete 0 (RpcClient_connectionReset demo_client).2).2 []
    [mkCompletion 0 [] RpcUnavailable] [] [].

Lemma demo_reachable : rc_reachable demo_end.
Proof.
  eapply rtc_l.
  { eapply (rc_send_begin 300 None 5 0 1 [7; 0; 0; 1; 172; 2] RpcClient_init demo_client).
    vm_compute. reflexivity. }
  eapply rtc_l; [exact (rc_send_accepted 1 0 demo_client [] [] [] [] [])|].
  eapply rtc_l; [exact (rc_reset [0%nat] demo_client (RpcClient_connectionReset demo_client).2 [] [] [] [] eq_refl)|].
  eapply rtc_l; [|apply rtc_refl].
  exact (rc_complete 0 [] RpcUnavailable (Some 5) (RpcClient_connectionReset demo_client).2
    (RpcClient_complete 0 (RpcClient_connectionReset demo_client).2).2 [] [] [] [] [] eq_refl).
Defined.

Lemma RpcClient_at_most_once_witness :
  rc_reachable demo_end ∧ NoDup (cp_call <$> rg_log demo_end).
Proof.
  split; [exact demo_reachable|].
  destruct (RpcClient_at_most_once demo_end demo_end 0 demo_reachable (rtc_refl _ _)) as [H _]. exact H.
Defined.


(** ** Where the code falls short *)

(** After 2^24 - 1 calls the stream ids start over. A call that gets the id of one that is
    still pending is not entered in the table, so that it can never be completed. *)
Theorem RpcClient_stream_id_collision :
  let c := mkRpcClient 1 {[1 := 0%nat]} [Some 5] in
  match RpcClient_send_begin 300 None 6 c with
  | Some (call, id, _, c') =>
      call = 1%nat ∧ id = 1 ∧ rc_calls c' !! 1%nat = Some (Some 6)
      ∧ map_to_list (rc_outgoing_calls c') = [(1, 0%nat)]
  | None => False
  end.
Proof. vm_compute. auto. Qed.
