(* ===== verification/RpcServer.v ===== *)
(** * RpcServer: requests waiting for their responses

    [rpc/server.{h,cpp}] and [rpc/internal/server/*]. The server keeps the requests it
    has accepted and not yet answered. Each operation is a function of the state that
    returns the responses it sends and the handlers it invokes; the times it reads are
    arguments. A handler answers later, through its [RequestHandle], which is the pair
    of the connection and stream ids. *)

From Stdlib Require Import String Ascii.
From stdpp Require Import gmap.
From S2P Require Import Prelude.
From S2P Require Import RooIo.
From S2P Require Import RpcHeader.
From S2P Require Import Serialization.
From S2P Require Import RpcClient.

Local Open Scope Z_scope.
Local Open Scope roo_scope.

Record RpcRequest := mkRpcRequest {
  rq_connection_id : Z;
  rq_function_id : Z;
  rq_stream_id : Z;
  rq_deadline : Z;
  rq_client_closed : bool;
  rq_server_closed : bool;
}.

Definition RpcRequest_new (connection_id function_id stream_id deadline : Z) (fin : bool) : RpcRequest :=
  mkRpcRequest connection_id function_id stream_id deadline fin false.

(** [rv_deadline_thread]: the timer thread has been started. *)
Record RpcServer := mkRpcServer {
  rv_connection_id : Z;
  rv_active : bool;
  rv_deadline_thread : bool;
  rv_pending_calls : gmap Z RpcRequest;
}.

Definition rv_with_pending_calls (v : gmap Z RpcRequest) (s : RpcServer) : RpcServer :=
  mkRpcServer (rv_connection_id s) (rv_active s) (rv_deadline_thread s) v.

(** A message sent with [sendContinuation], and a call of a handler. *)
Inductive rv_effect :=
  | Respond (connection_id stream_id : Z) (header payload : list byte)
  | Invoke (handler : nat) (connection_id stream_id : Z) (payload : list byte) (fin : bool).

(** The bytes of a message text. *)
Fixpoint text (s : string) : list byte :=
  match s with
  | EmptyString => []
  | String c s => Z.of_N (N_of_ascii c) :: text s
  end.

Definition RpcServer_new : RpcServer := mkRpcServer 0 false false ∅.

(** [setReceiver] and [unsetReceiver] are the transport's side of these. *)
Definition RpcServer_begin (s : RpcServer) : RpcServer :=
  mkRpcServer (rv_connection_id s) true (rv_deadline_thread s) (rv_pending_calls s).

Definition RpcServer_end (s : RpcServer) : RpcServer :=
  mkRpcServer (rv_connection_id s) false false ∅.

Definition RpcServer_reconnected (connection_id : Z) (s : RpcServer) : RpcServer :=
  if connection_id =? rv_connection_id s then s
  else mkRpcServer connection_id (rv_active s) (rv_deadline_thread s) ∅.

Definition RpcServer_connectionReset (connection_id : Z) (s : RpcServer) : RpcServer :=
  if negb (connection_id =? rv_connection_id s) then s
  else mkRpcServer 0 (rv_active s) (rv_deadline_thread s) ∅.

(** The status to send, [None] if there is nothing to answer. *)
Definition RpcServer_prepForResponse (connection_id stream_id : Z) (status : RpcStatus) (now : Z)
    (s : RpcServer) : option RpcStatus * RpcServer :=
  if negb (connection_id =? rv_connection_id s) then (None, s)
  else match rv_pending_calls s !! stream_id with
  | None => (None, s)
  | Some request =>
      if negb (rq_connection_id request =? connection_id) then (None, s)
      else (Some (if rq_deadline request <=? now then RpcDeadlineExceeded else status),
            rv_with_pending_calls (delete stream_id (rv_pending_calls s)) s)
  end.

Section Operations.

Context {io : RooIo} {data : RooIoData} {pf : Platform}.

Definition RpcServer_sendResponse (connection_id stream_id : Z) (status : RpcStatus) (payload : list byte)
    : option rv_effect :=
  header ← RpcHeader_serialize (RpcHeader_NewUnaryResponse stream_id status) RpcHeader_kMaxSerializedSize;
  Some (Respond connection_id stream_id header payload).

Definition RpcServer_sendSuccessResponse (connection_id stream_id : Z) (payload : list byte) (now : Z)
    (s : RpcServer) : option (list rv_effect * RpcServer) :=
  match RpcServer_prepForResponse connection_id stream_id RpcOk now s with
  | (None, s) => Some ([], s)
  | (Some status, s) =>
      let payload := if decide (status = RpcDeadlineExceeded) then [] else payload in
      response ← RpcServer_sendResponse connection_id stream_id status payload;
      Some ([response], s)
  end.

Definition RpcServer_sendFailureResponse (connection_id stream_id : Z) (status : RpcStatus)
    (msg : list byte) (now : Z) (s : RpcServer) : option (list rv_effect * RpcServer) :=
  match RpcServer_prepForResponse connection_id stream_id status now s with
  | (None, s) => Some ([], s)
  | (Some status, s) =>
      let msg := if decide (status = RpcDeadlineExceeded) then text "deadline exceeded" else msg in
      response ← RpcServer_sendResponse connection_id stream_id status msg;
      Some ([response], s)
  end.

(** The locked section of [handleRequest] that registers a new request, and starts the timer
    thread for the first one with a timeout; [None] if it is a duplicate or the server is
    not active. *)
Definition RpcServer_accept (connection_id function_id stream_id deadline : Z) (has_timeout fin : bool)
    (s : RpcServer) : option RpcServer :=
  match rv_pending_calls s !! stream_id with
  | Some _ => None
  | None =>
      if negb (rv_active s) then None
      else
        let request := RpcRequest_new connection_id function_id stream_id deadline fin in
        Some (mkRpcServer (rv_connection_id s) (rv_active s) (rv_deadline_thread s || has_timeout)
                (<[stream_id := request]> (rv_pending_calls s)))
  end.

(** [handlers] is the function table. The clock is read up to three times, at [now], [now1]
    and [now2]. A message of a stream after its first is fatal. *)
Definition RpcServer_handleRequest (handlers : Z → option nat) (connection_id : Z) (bytes : list byte)
    (now now1 now2 : Z) (s : RpcServer) : option (list rv_effect * RpcServer) :=
  let s := RpcServer_reconnected connection_id s in
  match RpcHeader_deserialize bytes with
  | None => Some ([], s)
  | Some (header, payload) =>
      let stream_id := rh_stream_id header in
      if negb (is_type RkRequest header) then Some ([], s)
      else if negb (rh_first_message header) then None
      else
        function_id ← RpcHeader_functionId header;
        deadline ← (if rh_has_timeout header
                    then t ← RpcHeader_timeoutMs header; Some (now + 1000 * t)
                    else Some Uptime_Max);
        match RpcServer_accept connection_id function_id stream_id deadline (rh_has_timeout header)
                (rh_last_message header) s with
        | None => Some ([], s)
        | Some s =>
            if deadline <=? now1
            then RpcServer_sendFailureResponse connection_id stream_id RpcDeadlineExceeded
                   (text "deadline exceeded") now2 s
            else match handlers function_id with
            | None => RpcServer_sendFailureResponse connection_id stream_id RpcUnimplemented
                        (text "Unknown function ID") now2 s
            | Some handler =>
                Some ([Invoke handler connection_id stream_id payload (rh_last_message header)], s)
            end
        end
  end.

(** The loop over [pending_calls_]: the first request with the earliest deadline. *)
Definition earliest (calls : list (Z * RpcRequest)) : option (Z * RpcRequest) :=
  foldl (λ next it,
    let deadline := match next with Some n => rq_deadline n.2 | None => Uptime_Max end in
    if rq_deadline it.2 <? deadline then Some it else next) None calls.

(** A round of [deadlineLoop]: it waits, with or without a time limit, or answers the
    earliest request. *)
Inductive rv_round := Wait | WaitUntil (deadline : Z) | Expired (response : rv_effect) (s : RpcServer).

Definition RpcServer_deadlineLoop_round (now : Z) (s : RpcServer) : option rv_round :=
  match earliest (map_to_list (rv_pending_calls s)) with
  | None => Some Wait
  | Some (stream_id, request) =>
      if now <? rq_deadline request then Some (WaitUntil (rq_deadline request))
      else
        response ← RpcServer_sendResponse (rq_connection_id request) (rq_stream_id request)
                     RpcDeadlineExceeded [];
        Some (Expired response (rv_with_pending_calls (delete stream_id (rv_pending_calls s)) s))
  end.

(** The loop at one time, until it waits. *)
Fixpoint RpcServer_deadlineLoop (fuel : nat) (now : Z) (s : RpcServer) : option (list rv_effect * RpcServer) :=
  match fuel with
  | O => None
  | S fuel =>
      if negb (rv_active s) then Some ([], s)
      else
        round ← RpcServer_deadlineLoop_round now s;
        match round with
        | Expired response s =>
            '(es, s) ← RpcServer_deadlineLoop fuel now s; Some (response :: es, s)
        | _ => Some ([], s)
        end
  end.

(** [UnaryHandler]: how it answers. The status of the serialized response is not looked
    at. *)
Definition UnaryHandler {Request Response} `{Deserializer Request, Serializer Response}
    (fn : Request → RpcStatus * Response) (connection_id stream_id : Z) (payload : list byte) (now : Z)
    (s : RpcServer) : option (list rv_effect * RpcServer) :=
  match deserialize payload with
  | inl status => RpcServer_sendFailureResponse connection_id stream_id status
                    (text "request deserialization failed") now s
  | inr req =>
      let '(status, resp) := fn req in
      if negb (bool_decide (status = RpcOk))
      then RpcServer_sendFailureResponse connection_id stream_id status (text "application error") now s
      else RpcServer_sendSuccessResponse connection_id stream_id (serialize resp).2 now s
  end.

(** [AsyncUnaryHandler]: what it passes to the application, or its answer; and the
    completion function that it passes along. *)
Definition AsyncUnaryHandler_start {Request} `{Deserializer Request} (connection_id stream_id : Z)
    (payload : list byte) (now : Z) (s : RpcServer) : option ((list rv_effect * RpcServer) + Request) :=
  match deserialize payload with
  | inl status =>
      r ← RpcServer_sendFailureResponse connection_id stream_id status
            (text "request deserialization failed") now s;
      Some (inl r)
  | inr req => Some (inr req)
  end.

Definition AsyncUnaryHandler_complete {Response} `{Serializer Response} (resp_status : RpcStatus)
    (resp_val : Response) (connection_id stream_id : Z) (now : Z) (s : RpcServer)
    : option (list rv_effect * RpcServer) :=
  if negb (bool_decide (resp_status = RpcOk))
  then RpcServer_sendFailureResponse connection_id stream_id resp_status (text "application error") now s
  else RpcServer_sendSuccessResponse connection_id stream_id (serialize resp_val).2 now s.

(** ** The transition system *)

Inductive rv_event :=
  | RvBegin
  | RvEnd
  | RvRequest (connection_id : Z) (bytes : list byte) (now now1 now2 : Z)
  | RvReset (connection_id : Z)
  | RvSuccess (connection_id stream_id : Z) (payload : list byte) (now : Z)
  | RvFailure (connection_id stream_id : Z) (status : RpcStatus) (msg : list byte) (now : Z)
  | RvDeadline (now : Z).

Definition rv_exec (handlers : Z → option nat) (s : RpcServer) (e : rv_event)
    : option (list rv_effect * RpcServer) :=
  match e with
  | RvBegin => Some ([], RpcServer_begin s)
  | RvEnd => Some ([], RpcServer_end s)
  | RvRequest conn bytes now now1 now2 => RpcServer_handleRequest handlers conn bytes now now1 now2 s
  | RvReset conn => Some ([], RpcServer_connectionReset conn s)
  | RvSuccess conn sid payload now => RpcServer_sendSuccessResponse conn sid payload now s
  | RvFailure conn sid status msg now => RpcServer_sendFailureResponse conn sid status msg now s
  | RvDeadline now => RpcServer_deadlineLoop (S (size (rv_pending_calls s))) now s
  end.

Fixpoint rv_run (handlers : Z → option nat) (s : RpcServer) (evs : list rv_event)
    : option (list rv_effect * RpcServer) :=
  match evs with
  | [] => Some ([], s)
  | e :: evs =>
      '(es, s) ← rv_exec handlers s e;
      '(es', s) ← rv_run handlers s evs;
      Some (es ++ es', s)
  end.

End Operations.

(** ** One response per request *)

Section Accounting.

Context {io : RooIo} {data : RooIoData} {pf : Platform}.

(** The requests that were answered, and those that wait. *)
Definition responses (es : list rv_effect) : list (Z * Z) :=
  omap (λ e, match e with Respond conn sid _ _ => Some (conn, sid) | Invoke _ _ _ _ _ => None end) es.

Definition request_key (it : Z * RpcRequest) : Z * Z := (rq_connection_id it.2, it.1).

Definition rv_waiting (s : RpcServer) : list (Z * Z) := request_key <$> map_to_list (rv_pending_calls s).

(** The requests an event brings: a well-formed first message whose stream id is not in
    use on that connection, while the server is active. *)
Definition rv_accepts (s : RpcServer) (e : rv_event) : list (Z * Z) :=
  match e with
  | RvRequest conn bytes _ _ _ =>
      match RpcHeader_deserialize bytes with
      | Some (header, _) =>
          let in_use := bool_decide (conn = rv_connection_id s)
                        && bool_decide (is_Some (rv_pending_calls s !! rh_stream_id header)) in
          if is_type RkRequest header && rh_first_message header && rv_active s && negb in_use
          then [(conn, rh_stream_id header)] else []
      | None => []
      end
  | _ => []
  end.

(** The requests that a run accepts. *)
Fixpoint rv_accepted (handlers : Z → option nat) (s : RpcServer) (evs : list rv_event) : list (Z * Z) :=
  match evs with
  | [] => []
  | e :: evs =>
      rv_accepts s e
      ++ match rv_exec handlers s e with Some (_, s) => rv_accepted handlers s evs | None => [] end
  end.

Lemma responses_app es es' : responses (es ++ es') = responses es ++ responses es'.
Proof. apply omap_app. Qed.

(** The pending requests are those of the current connection, under their stream ids. *)
Definition rv_wf (s : RpcServer) : Prop :=
  map_Forall (λ sid rq, rq_stream_id rq = sid ∧ rq_connection_id rq = rv_connection_id s)
    (rv_pending_calls s).

Lemma rv_wf_empty conn active th : rv_wf (mkRpcServer conn active th ∅).
Proof. apply map_Forall_empty. Qed.

Lemma waiting_delete s sid rq :
  rv_pending_calls s !! sid = Some rq →
  rv_waiting s ≡ₚ (rq_connection_id rq, sid) :: rv_waiting (rv_with_pending_calls (delete sid (rv_pending_calls s)) s).
Proof.
  intros Hl. unfold rv_waiting. cbn [rv_pending_calls rv_with_pending_calls].
  rewrite <- (map_to_list_delete (rv_pending_calls s) sid rq) by done. done.
Qed.

Lemma sendResponse_key conn sid st p e :
  RpcServer_sendResponse conn sid st p = Some e → responses [e] = [(conn, sid)].
Proof.
  unfold RpcServer_sendResponse. destruct (RpcHeader_serialize _ _); [|done]. by intros [= <-].
Qed.

Lemma prep_accounts conn sid st now s r s' :
  rv_wf s → RpcServer_prepForResponse conn sid st now s = (r, s') →
  rv_wf s' ∧ rv_waiting s ≡ₚ match r with Some _ => [(conn, sid)] | None => [] end ++ rv_waiting s'.
Proof.
  unfold RpcServer_prepForResponse. intros Hwf.
  destruct (negb _); [by intros [= <- <-]|].
  destruct (rv_pending_calls s !! sid) as [rq|] eqn:Hl; [|by intros [= <- <-]].
  destruct (Z.eqb_spec (rq_connection_id rq) conn) as [Hc|]; cbn [negb]; [|by intros [= <- <-]].
  intros [= <- <-]. split; [by apply map_Forall_delete|]. rewrite <- Hc. by apply waiting_delete.
Qed.

Lemma respond_accounts conn sid st now s (f : RpcStatus → RpcStatus * list byte) es s' :
  rv_wf s →
  match RpcServer_prepForResponse conn sid st now s with
  | (None, s) => Some ([], s)
  | (Some status, s) =>
      response ← RpcServer_sendResponse conn sid (f status).1 (f status).2; Some ([response], s)
  end = Some (es, s') →
  rv_wf s' ∧ rv_waiting s ≡ₚ responses es ++ rv_waiting s'.
Proof.
  intros Hwf H. destruct (RpcServer_prepForResponse conn sid st now s) as [r s1] eqn:Hp.
  apply prep_accounts in Hp as [Hwf1 Hk]; [|done]. destruct r as [status|]; [|by injection H as <- <-].
  destruct (RpcServer_sendResponse _ _ _ _) as [e|] eqn:He; [|done]. cbn in H. injection H as <- <-.
  rewrite (sendResponse_key _ _ _ _ _ He). done.
Qed.

Lemma success_accounts conn sid payload now s es s' :
  rv_wf s → RpcServer_sendSuccessResponse conn sid payload now s = Some (es, s') →
  rv_wf s' ∧ rv_waiting s ≡ₚ responses es ++ rv_waiting s'.
Proof.
  apply (respond_accounts conn sid RpcOk now s
    (λ st, (st, if decide (st = RpcDeadlineExceeded) then [] else payload))).
Qed.

Lemma failure_accounts conn sid st msg now s es s' :
  rv_wf s → RpcServer_sendFailureResponse conn sid st msg now s = Some (es, s') →
  rv_wf s' ∧ rv_waiting s ≡ₚ responses es ++ rv_waiting s'.
Proof.
  apply (respond_accounts conn sid st now s
    (λ st, (st, if decide (st = RpcDeadlineExceeded) then text "deadline exceeded" else msg))).
Qed.

Lemma reconnected_wf conn s :
  rv_wf s → let s' := RpcServer_reconnected conn s in
  rv_wf s' ∧ rv_connection_id s' = conn ∧ rv_active s' = rv_active s ∧ rv_waiting s' ⊆+ rv_waiting s.
Proof.
  intros Hwf. unfold RpcServer_reconnected. destruct (Z.eqb_spec conn (rv_connection_id s)) as [->|].
  - auto.
  - cbn. split; [apply rv_wf_empty|]. split; [done|]. split; [done|]. apply submseteq_nil_l.
Qed.

Lemma request_accounts handlers conn bytes now now1 now2 s es s' :
  rv_wf s → RpcServer_handleRequest handlers conn bytes now now1 now2 s = Some (es, s') →
  rv_wf s' ∧ responses es ++ rv_waiting s' ⊆+ rv_waiting s ++ rv_accepts s (RvRequest conn bytes now now1 now2).
Proof.
  intros Hwf H. unfold RpcServer_handleRequest in H. cbn [rv_accepts].
  destruct (reconnected_wf conn s Hwf) as (Hwf1 & Hc1 & Ha1 & Hk1).
  assert (Hin : ∀ sid, bool_decide (conn = rv_connection_id s)
      && bool_decide (is_Some (rv_pending_calls s !! sid))
      = bool_decide (is_Some (rv_pending_calls (RpcServer_reconnected conn s) !! sid))).
  { intros sid. unfold RpcServer_reconnected. destruct (Z.eqb_spec conn (rv_connection_id s)) as [->|Hne].
    - by rewrite bool_decide_true.
    - rewrite bool_decide_false by done. cbn. by rewrite lookup_empty. }
  set (s1 := RpcServer_reconnected conn s) in *. clearbody s1.
  destruct (RpcHeader_deserialize bytes) as [[h p]|].
  2:{ injection H as <- <-. rewrite app_nil_r. done. }
  rewrite Hin. destruct (is_type RkRequest h); cbn [negb andb] in *.
  2:{ injection H as <- <-. rewrite app_nil_r. done. }
  destruct (rh_first_message h); cbn [negb andb] in *; [|done].
  destruct (RpcHeader_functionId h) as [fid|]; [|done]. cbn [mbind option_bind] in H.
  destruct (if rh_has_timeout h then _ else _) as [deadline|]; [|done]. cbn [mbind option_bind] in H.
  unfold RpcServer_accept in H. destruct (rv_pending_calls s1 !! rh_stream_id h) as [rq|] eqn:Hl.
  { injection H as <- <-. rewrite (bool_decide_true (is_Some (Some rq))) by (by eexists).
    rewrite andb_false_r, app_nil_r. done. }
  rewrite Ha1 in H. destruct (rv_active s); cbn [negb andb] in *.
  2:{ injection H as <- <-. rewrite app_nil_r. done. }
  rewrite (bool_decide_false (is_Some None)) by (by intros [? ?]). cbn [negb].
  match type of H with context [mkRpcServer ?a ?b ?d ?m] => set (s2 := mkRpcServer a b d m) in * end.
  assert (Hwf2 : rv_wf s2) by (apply map_Forall_insert_2; [split; [done|exact (eq_sym Hc1)]|done]).
  assert (Hk2 : rv_waiting s2 ≡ₚ (conn, rh_stream_id h) :: rv_waiting s1).
  { unfold rv_waiting, s2. cbn [rv_pending_calls]. by rewrite map_to_list_insert by done. }
  assert (Hgoal : rv_wf s' ∧ rv_waiting s2 ≡ₚ responses es ++ rv_waiting s').
  { destruct (deadline <=? now1); [by eapply failure_accounts|].
    destruct (handlers fid); [|by eapply failure_accounts]. injection H as <- <-. done. }
  destruct Hgoal as [Hwf' Hk]. split; [done|]. rewrite <- Hk, Hk2, Permutation_app_comm. cbn.
  by apply submseteq_skip.
Qed.

Lemma earliest_in calls it : earliest calls = Some it → it ∈ calls.
Proof.
  unfold earliest. induction calls as [|x calls IH] using rev_ind; [done|].
  rewrite foldl_app. cbn. destruct (_ <? _).
  - intros [= <-]. apply elem_of_app. right. by left.
  - intros H. apply elem_of_app. left. auto.
Qed.

Lemma deadline_accounts fuel now :
  ∀ s es s', rv_wf s → RpcServer_deadlineLoop fuel now s = Some (es, s') →
  rv_wf s' ∧ rv_waiting s ≡ₚ responses es ++ rv_waiting s'.
Proof.
  induction fuel as [|fuel IH]; intros s es s' Hwf H; [done|]. cbn [RpcServer_deadlineLoop] in H.
  destruct (negb (rv_active s)); [by injection H as <- <-|].
  unfold RpcServer_deadlineLoop_round in H.
  destruct (earliest _) as [[sid rq]|] eqn:He; [|by injection H as <- <-].
  destruct (now <? rq_deadline rq); [by injection H as <- <-|].
  destruct (RpcServer_sendResponse _ _ _ _) as [e|] eqn:Hs; [|done]. cbn [mbind option_bind] in H.
  destruct (RpcServer_deadlineLoop fuel now _) as [[es1 s1]|] eqn:Hd; [|done].
  cbn [mbind option_bind] in H. injection H as <- <-.
  apply earliest_in, elem_of_map_to_list in He. destruct (Hwf _ _ He) as [Hsid _].
  apply IH in Hd as [Hwf' Hk]; [|by apply map_Forall_delete]. split; [done|].
  change (e :: es1) with ([e] ++ es1). rewrite responses_app, (sendResponse_key _ _ _ _ _ Hs), <- app_assoc.
  rewrite <- Hk, Hsid. by apply waiting_delete.
Qed.

Lemma exec_accounts handlers s e es s' :
  rv_wf s → rv_exec handlers s e = Some (es, s') →
  rv_wf s' ∧ responses es ++ rv_waiting s' ⊆+ rv_waiting s ++ rv_accepts s e.
Proof.
  intros Hwf H. destruct e; cbn [rv_exec rv_accepts] in *; rewrite ?app_nil_r.
  - by injection H as <- <-.
  - injection H as <- <-. split; [apply rv_wf_empty|apply submseteq_nil_l].
  - by eapply request_accounts.
  - injection H as <- <-. unfold RpcServer_connectionReset. destruct (negb _); [done|].
    split; [apply rv_wf_empty|apply submseteq_nil_l].
  - apply success_accounts in H as [? Hk]; [|done]. by rewrite Hk.
  - apply failure_accounts in H as [? Hk]; [|done]. by rewrite Hk.
  - apply deadline_accounts in H as [? Hk]; [|done]. by rewrite Hk.
Qed.

(** C16: every request is answered at most once, and only requests are answered. Over any
    sequence of requests, responses of handlers (in any order, repeated or late),
    deadlines and connection resets, the responses sent together with the requests
    still waiting are, as multisets of connection and stream ids, among the requests
    waiting at the start and those accepted since. *)
Theorem RpcServer_one_response (handlers : Z → option nat) (evs : list rv_event) (s s' : RpcServer)
    (es : list rv_effect) (Hwf : rv_wf s) (Hrun : rv_run handlers s evs = Some (es, s')) :
  rv_wf s' ∧ responses es ++ rv_waiting s' ⊆+ rv_waiting s ++ rv_accepted handlers s evs.
Proof.
  revert s es Hwf Hrun. induction evs as [|e evs IH]; intros s es Hwf Hrun; cbn in *.
  { injection Hrun as <- <-. by rewrite app_nil_r. }
  destruct (rv_exec handlers s e) as [[es1 s1]|] eqn:He; [|done]. cbn in Hrun.
  destruct (rv_run handlers s1 evs) as [[es2 s2]|] eqn:Hr; [|done]. cbn in Hrun. injection Hrun as <- <-.
  apply exec_accounts in He as [Hwf1 Hk1]; [|done]. destruct (IH _ _ Hwf1 Hr) as [Hwf2 Hk2].
  split; [done|]. rewrite responses_app, <- app_assoc.
  transitivity (responses es1 ++ rv_waiting s1 ++ rv_accepted handlers s1 evs).
  - by apply submseteq_skips_l.
  - rewrite !app_assoc. by apply submseteq_skips_r.
Qed.

End Accounting.

(** ** Asynchronous handlers *)

Section Async.

Context {io : RooIo} {data : RooIoData} {pf : Platform}.

(** A synchronous handler is an asynchronous one that completes at once. *)
Lemma UnaryHandler_async {Request Response} `{Deserializer Request, Serializer Response}
    (fn : Request → RpcStatus * Response) conn sid payload now s :
  UnaryHandler fn conn sid payload now s
  = r ← AsyncUnaryHandler_start conn sid payload now s;
    match r with
    | inl answered => Some answered
    | inr req => AsyncUnaryHandler_complete (fn req).1 (fn req).2 conn sid now s
    end.
Proof.
  unfold UnaryHandler, AsyncUnaryHandler_start, AsyncUnaryHandler_complete.
  destruct (deserialize payload) as [st|req]; cbn [mbind option_bind]; [|by destruct (fn req)].
  by destruct (RpcServer_sendFailureResponse _ _ _ _ _ _).
Qed.

(** A request that is no longer pending is not answered, whatever the handler says. *)
Lemma answered_once conn sid s st now msg payload :
  rv_pending_calls s !! sid = None →
  RpcServer_sendFailureResponse conn sid st msg now s = Some ([], s)
  ∧ RpcServer_sendSuccessResponse conn sid payload now s = Some ([], s).
Proof.
  intros Hn. unfold RpcServer_sendFailureResponse, RpcServer_sendSuccessResponse, RpcServer_prepForResponse.
  rewrite Hn. split; by destruct (negb _).
Qed.

Lemma answered_gone conn sid st now s r s' :
  rv_wf s → RpcServer_prepForResponse conn sid st now s = (r, s') → conn = rv_connection_id s →
  rv_pending_calls s' !! sid = None.
Proof.
  intros Hwf Hp ->. unfold RpcServer_prepForResponse in Hp. rewrite Z.eqb_refl in Hp. cbn [negb] in Hp.
  destruct (rv_pending_calls s !! sid) as [rq|] eqn:Hl; [|injection Hp as <- <-; done].
  destruct (Hwf _ _ Hl) as [_ Hc]. rewrite Hc, Z.eqb_refl in Hp. injection Hp as <- <-. apply lookup_delete_eq.
Qed.

(** Calling the completion function again has no effect: of several completions of one
    request, with any statuses, values and times, the first one answers. *)
Theorem AsyncUnaryHandler_first_wins {Response} `{Serializer Response} (st st' : RpcStatus)
    (v v' : Response) (conn sid now now' : Z) (s s' : RpcServer) (es : list rv_effect)
    (Hwf : rv_wf s) (Hconn : conn = rv_connection_id s)
    (Hfirst : AsyncUnaryHandler_complete st v conn sid now s = Some (es, s')) :
  AsyncUnaryHandler_complete st' v' conn sid now' s' = Some ([], s').
Proof.
  assert (Hgone : rv_pending_calls s' !! sid = None).
  { unfold AsyncUnaryHandler_complete, RpcServer_sendFailureResponse, RpcServer_sendSuccessResponse in Hfirst.
    destruct (negb _); (destruct (RpcServer_prepForResponse _ _ _ _ _) as [r s1] eqn:Hp;
      pose proof (answered_gone _ _ _ _ _ _ _ Hwf Hp Hconn) as Hg;
      destruct r; [inv_bind Hfirst|]; injection Hfirst as _ <-; exact Hg). }
  destruct (answered_once conn sid s' st' now' (text "application error") (serialize v').2 Hgone) as [Hf Hs].
  unfold AsyncUnaryHandler_complete. by destruct (negb _).
Qed.

End Async.

(** ** Deadlines *)

Section Deadlines.

Context {io : RooIo} {io_laws : RooIoLaws} {data : RooIoData} {data_laws : RooIoDataLaws}.
Context {pf : Platform}.

Definition rv_ids (s : RpcServer) : Prop :=
  map_Forall (λ sid _, 0 ≤ sid < 2 ^ 24) (rv_pending_calls s).

Lemma response_serializes sid status :
  0 ≤ sid < 2 ^ 24 → status_ok status →
  ∃ header, RpcHeader_serialize (RpcHeader_NewUnaryResponse sid status) RpcHeader_kMaxSerializedSize
            = Some header.
Proof.
  intros Hid Hs. destruct (header_roundtrip (RpcHeader_NewUnaryResponse sid status) []) as (h & H & _);
    [|by exists h]. split; [done|]. split; done.
Qed.

Lemma earliest_spec calls :
  match earliest calls with
  | None => Forall (λ it, Uptime_Max ≤ rq_deadline it.2) calls
  | Some n => rq_deadline n.2 < Uptime_Max ∧ Forall (λ it, rq_deadline n.2 ≤ rq_deadline it.2) calls
  end.
Proof.
  unfold earliest. induction calls as [|x calls IH] using rev_ind; [constructor|].
  rewrite foldl_app. cbn. destruct (foldl _ None calls) as [n|].
  - destruct IH as [Hn Hall]. destruct (Z.ltb_spec (rq_deadline x.2) (rq_deadline n.2)).
    + split; [lia|]. apply Forall_app. split; [|by constructor].
      eapply Forall_impl; [exact Hall|]. cbn. lia.
    + split; [done|]. apply Forall_app. split; [done|]. by constructor.
  - destruct (Z.ltb_spec (rq_deadline x.2) Uptime_Max).
    + split; [done|]. apply Forall_app. split; [|by constructor].
      eapply Forall_impl; [exact IH|]. cbn. lia.
    + apply Forall_app. split; [done|]. by constructor.
Qed.

(** The requests whose deadline has not come. *)
Definition unexpired (now : Z) (calls : gmap Z RpcRequest) : gmap Z RpcRequest :=
  filter (λ it, now < rq_deadline it.2) calls.

(** An answer to an expired request. *)
Definition expiry (e : rv_effect) : Prop :=
  ∃ conn sid header, e = Respond conn sid header []
    ∧ RpcHeader_serialize (RpcHeader_NewUnaryResponse sid RpcDeadlineExceeded) RpcHeader_kMaxSerializedSize
      = Some header.

Lemma deadlineLoop_spec fuel now :
  ∀ s, now < Uptime_Max → rv_wf s → rv_ids s → rv_active s = true → (size (rv_pending_calls s) < fuel)%nat →
  ∃ es s', RpcServer_deadlineLoop fuel now s = Some (es, s')
    ∧ rv_pending_calls s' = unexpired now (rv_pending_calls s) ∧ Forall expiry es.
Proof.
  induction fuel as [|fuel IH]; intros s Hnow Hwf Hids Hact Hf; [lia|]. cbn [RpcServer_deadlineLoop].
  rewrite Hact. cbn [negb]. unfold RpcServer_deadlineLoop_round.
  pose proof (earliest_spec (map_to_list (rv_pending_calls s))) as Hspec.
  assert (Hquiet : (∀ sid rq, rv_pending_calls s !! sid = Some rq → now < rq_deadline rq) →
    rv_pending_calls s = unexpired now (rv_pending_calls s)).
  { intros Hq. symmetry. apply map_filter_id. intros sid rq Hl. cbn. by eapply Hq. }
  destruct (earliest _) as [[sid rq]|] eqn:He.
  - destruct Hspec as [Hmax Hall]. cbn in Hmax, Hall. apply earliest_in, elem_of_map_to_list in He.
    destruct (Z.ltb_spec now (rq_deadline rq)) as [Hlt|Hge].
    { exists [], s. split; [done|]. split; [|constructor]. apply Hquiet. intros sid' rq' Hl.
      rewrite Forall_forall in Hall. apply elem_of_map_to_list in Hl. specialize (Hall _ Hl). cbn in Hall. lia. }
    destruct (Hwf _ _ He) as [Hsid Hconn]. rewrite Hsid.
    destruct (response_serializes sid RpcDeadlineExceeded (Hids _ _ He) I) as [h Hh].
    unfold RpcServer_sendResponse. rewrite Hh. cbn [mbind option_bind].
    destruct (IH (rv_with_pending_calls (delete sid (rv_pending_calls s)) s)) as (es & s' & Hd & Hp & Hes);
      [done|by apply map_Forall_delete|by apply map_Forall_delete|done| |].
    { cbn. rewrite map_size_delete_Some by (by eexists). assert (size (rv_pending_calls s) ≠ 0%nat).
      { intros Hz%map_size_empty_iff. rewrite Hz in He. by apply lookup_empty_Some in He. } lia. }
    rewrite Hd. cbn [mbind option_bind]. do 2 eexists. split; [done|]. split.
    + rewrite Hp. unfold unexpired. cbn [rv_pending_calls rv_with_pending_calls].
      rewrite map_filter_delete. apply delete_id. apply map_lookup_filter_None. right.
      intros x Hx. cbn. assert (x = rq) as -> by congruence. lia.
    + constructor; [|done]. by exists (rq_connection_id rq), sid, h.
  - exists [], s. split; [done|]. split; [|constructor]. apply Hquiet. intros sid rq Hl.
    rewrite Forall_forall in Hspec. apply elem_of_map_to_list in Hl. specialize (Hspec _ Hl). cbn in Hspec. lia.
Qed.

(** Deadlines are kept. When the timer thread runs at time [now], it comes back to its
    wait having answered every request whose deadline has passed, each once, with
    kDeadlineExceeded and no payload, and having left all other requests as they are. *)
Theorem RpcServer_deadline_expires (now : Z) (s : RpcServer) (Hnow : now < Uptime_Max) (Hwf : rv_wf s)
    (Hids : rv_ids s) (Hactive : rv_active s = true) :
  ∃ es s', RpcServer_deadlineLoop (S (size (rv_pending_calls s))) now s = Some (es, s')
    ∧ rv_pending_calls s' = unexpired now (rv_pending_calls s)
    ∧ rv_waiting s ≡ₚ responses es ++ rv_waiting s' ∧ Forall expiry es.
Proof.
  destruct (deadlineLoop_spec (S (size (rv_pending_calls s))) now s) as (es & s' & Hd & Hp & He); [done..|lia|].
  exists es, s'. split; [done|]. split; [done|]. split; [|done].
  by apply deadline_accounts in Hd as [_ Hk].
Qed.

End Deadlines.

(** ** A whole call *)

Section Call.

Context {io : RooIo} {io_laws : RooIoLaws} {data : RooIoData} {data_laws : RooIoDataLaws}.
Context {pf : Platform}.
Context {Request Response : Type}.
Context `{Serializer Request, Deserializer Request, WireFormat Request} {req_laws : WireFormatLaws Request}.
Context `{Serializer Response, Deserializer Response, WireFormat Response} {resp_laws : WireFormatLaws Response}.

(** A pending request of the current connection is answered. *)
Lemma prep_pending conn sid status now s rq :
  conn = rv_connection_id s → rv_pending_calls s !! sid = Some rq → rq_connection_id rq = conn →
  now < rq_deadline rq →
  RpcServer_prepForResponse conn sid status now s
  = (Some status, rv_with_pending_calls (delete sid (rv_pending_calls s)) s).
Proof.
  intros -> Hl Hc Hd. unfold RpcServer_prepForResponse. rewrite Z.eqb_refl, Hl, Hc, Z.eqb_refl. cbn [negb].
  by rewrite (proj2 (Z.leb_gt _ _)).
Qed.

Lemma handleRequest_new handlers conn bytes payload sid fid h now now1 now2 s :
  RpcHeader_deserialize bytes
  = Some (mkRpcHeader RkRequest true true false sid (NewRequest fid 0), payload) →
  rv_active s = true → rv_pending_calls (RpcServer_reconnected conn s) !! sid = None →
  handlers fid = Some h → now1 < Uptime_Max →
  ∃ s1, RpcServer_handleRequest handlers conn bytes now now1 now2 s
        = Some ([Invoke h conn sid payload true], s1)
    ∧ rv_connection_id s1 = conn
    ∧ rv_pending_calls s1 !! sid = Some (RpcRequest_new conn fid sid Uptime_Max true).
Proof.
  intros Hd Ha Hn Hh Hnow. unfold RpcServer_handleRequest. rewrite Hd.
  assert (Hs1 : rv_active (RpcServer_reconnected conn s) = true
                ∧ rv_connection_id (RpcServer_reconnected conn s) = conn).
  { unfold RpcServer_reconnected. destruct (Z.eqb_spec conn (rv_connection_id s)); done. }
  set (s1 := RpcServer_reconnected conn s) in *. clearbody s1. destruct Hs1 as [Ha1 Hc1].
  change (is_type RkRequest _) with true.
  change (RpcHeader_functionId _) with (Some fid).
  unfold RpcServer_accept. cbn -[Z.leb RpcServer_sendFailureResponse]. rewrite Hn, Ha1. cbn [negb].
  rewrite (proj2 (Z.leb_gt Uptime_Max now1)) by done. rewrite Hh.
  eexists. split; [done|]. cbn. split; [done|]. by rewrite lookup_insert_eq.
Qed.

(** C14: a unary call computes the function of the server. Assumed: the request is a
    valid value that serializes; no deadline is given and the clock is before
    Uptime::Max(); the stream id that the client's 24-bit counter has reached is free, at
    the client and, among the requests that it still has to answer on the same
    connection, at the server (the code does not check that the counter has not come
    round to an id in use); the server is active and has a handler for the function id;
    and the function returns a status of the enumeration and, with OK, a valid value.
    Then the request is sent under that stream id; the server parses it back and invokes
    the handler of the function id with exactly the bytes of the request; the handler's
    answer reaches the client as the response to that call, with the status of the
    function, and the stub reports that status and, if it is OK, the result. The one
    exception is a result that cannot be serialized: the server does not notice
    ([UnaryHandler_ignores_serialization_failure]), and the client gets an OK response
    without bytes in place of the result. *)
Theorem Rpc_unary_call (fn : Request → RpcStatus * Response) (req : Request) (payload : list byte)
    (fid cb conn now now1 now2 now3 : Z) (h : nat) (handlers : Z → option nat)
    (c : RpcClient) (s : RpcServer)
    (Hreq : valid req) (Hwire : wire req = Some payload) (Hfid : 0 ≤ fid < 2 ^ 32)
    (Hfn : status_ok (fn req).1)
    (Hresp : (fn req).1 = RpcOk → valid (fn req).2)
    (Hnext : 1 ≤ rc_next_stream_id c ≤ 0xFFFFFF)
    (Hfree : rc_outgoing_calls c !! rc_next_stream_id c = None)
    (Hactive : rv_active s = true)
    (Hnew : rv_pending_calls (RpcServer_reconnected conn s) !! rc_next_stream_id c = None)
    (Hhandler : handlers fid = Some h) (Hnow1 : now1 < Uptime_Max) (Hnow3 : now3 < Uptime_Max) :
  ∃ call id message c1 s1 header answer s2 status c2,
    UnaryStub_call fid req cb c = Some (inr (call, id, message, c1))
    ∧ RpcServer_handleRequest handlers conn message now now1 now2 s
      = Some ([Invoke h conn id payload true], s1)
    ∧ UnaryHandler fn conn id payload now3 s1 = Some ([Respond conn id header answer], s2)
    ∧ RpcClient_handleResponse (header ++ answer) c1 = Some (Some (call, answer, status), c2)
    ∧ id = rc_next_stream_id c ∧ status = (fn req).1
    ∧ if decide ((fn req).1 = RpcOk ∧ wire (fn req).2 = None) then answer = []
      else UnaryStub_complete answer status
           = ((fn req).1, if decide ((fn req).1 = RpcOk) then Some (fn req).2 else None).
Proof.
  set (id := rc_next_stream_id c) in *.
  destruct (send_begin_message fid None cb c payload) as (call & hd & c1 & rh & Hb & Hd & ->);
    [done|done|unfold id in *; lia|].
  destruct (send_begin_inv _ _ _ _ _ _ _ _ Hb) as (_ & _ & _ & Ho). fold id in Ho, Hb, Hd.
  rewrite Hfree in Ho.
  destruct (handleRequest_new handlers conn (hd ++ payload) payload id fid h now now1 now2 s Hd Hactive Hnew
    Hhandler Hnow1) as (s1 & Hr & Hc1 & Hp1).
  set (answer := if decide ((fn req).1 = RpcOk) then (serialize (fn req).2).2
                 else if decide ((fn req).1 = RpcDeadlineExceeded) then text "deadline exceeded"
                 else text "application error").
  destruct (handleResponse_unary id (fn req).1 answer call c1) as (header & Hs & Hcl);
    [unfold id; lia|done|by rewrite Ho, lookup_insert_eq|].
  exists call, id, (hd ++ payload), c1, s1, header, answer,
    (rv_with_pending_calls (delete id (rv_pending_calls s1)) s1), (fn req).1, (RpcClient_cancel_erase id c1).
  split.
  { unfold UnaryStub_call. rewrite serialize_wire, Hwire by done. rewrite bool_decide_true by done.
    cbn [negb]. by rewrite (bind_step _ _ _ Hb). }
  split; [done|]. split; [|split_and!; [done..|]].
  - unfold UnaryHandler. rewrite (deserialize_wire req payload) by done.
    assert (Hprep : ∀ status, RpcServer_prepForResponse conn id status now3 s1
      = (Some status, rv_with_pending_calls (delete id (rv_pending_calls s1)) s1))
      by (intros status; by eapply prep_pending).
    unfold RpcServer_sendFailureResponse, RpcServer_sendSuccessResponse, RpcServer_sendResponse, answer in *.
    destruct (fn req) as [st r]. cbn [fst snd] in *. case_decide as Hst.
    + rewrite bool_decide_true by done. cbn [negb]. subst st. rewrite Hprep, Hs. done.
    + rewrite bool_decide_false by done. cbn [negb]. rewrite Hprep, Hs. by case_decide.
  - unfold answer. case_decide as Hno.
    + destruct Hno as [Hst Hw]. rewrite decide_True by done. by rewrite serialize_wire, Hw by auto.
    + unfold UnaryStub_complete. case_decide as Hst; [|by rewrite bool_decide_false by done].
      rewrite bool_decide_true by done. specialize (Hresp Hst).
      destruct (wire (fn req).2) as [w|] eqn:Hw; [|by destruct Hno].
      rewrite serialize_wire, Hw by done. cbn [snd]. rewrite (deserialize_wire (fn req).2 w) by done.
      by rewrite Hst.
Qed.

End Call.

(** ** Witnesses *)

(** Function 300 has handler 1. *)
Definition demo_handlers (fid : Z) : option nat := if fid =? 300 then Some 1%nat else None.

(** A request with a timeout of one second and stream id 9, and one for an unknown
    function; two answers to the first. *)
Definition demo_events : list rv_event :=
  [RvBegin; RvRequest 7 [15; 0; 0; 9; 172; 2; 232; 7; 42] 5000 5001 5002;
   RvRequest 7 [7; 0; 0; 10; 5; 1] 6000 6001 6002;
   RvSuccess 7 9 [1] 7000; RvSuccess 7 9 [2] 7001].

Lemma RpcServer_one_response_witness :
  ∃ es s', rv_run demo_handlers RpcServer_new demo_events = Some (es, s')
    ∧ responses es = [(7, 10); (7, 9)]
    ∧ responses es ++ rv_waiting s' ⊆+ rv_waiting RpcServer_new
        ++ rv_accepted demo_handlers RpcServer_new demo_events.
Proof.
  destruct (rv_run demo_handlers RpcServer_new demo_events) as [[es s']|] eqn:Hrun;
    [|vm_compute in Hrun; discriminate Hrun].
  exists es, s'. split; [reflexivity|].
  destruct (RpcServer_one_response demo_handlers demo_events RpcServer_new s' es
    (rv_wf_empty 0 false false) Hrun) as [_ H].
  split; [|exact H]. vm_compute in Hrun. injection Hrun as <- <-. reflexivity.
Defined.

(** Two pending requests, one of them late. *)
Definition demo_server : RpcServer :=
  mkRpcServer 7 true true
    (<[9 := RpcRequest_new 7 300 9 5000 true]> (<[10 := RpcRequest_new 7 300 10 9000 true]> ∅)).

Lemma RpcServer_deadline_expires_witness :
  ∃ es s', RpcServer_deadlineLoop 3 6000 demo_server = Some (es, s')
    ∧ rv_pending_calls s' = unexpired 6000 (rv_pending_calls demo_server) ∧ Forall expiry es.
Proof.
  destruct (RpcServer_deadline_expires 6000 demo_server) as (es & s' & Hd & Hp & _ & He).
  - vm_compute. reflexivity.
  - apply map_Forall_insert_2; [done|]. apply map_Forall_insert_2; [done|]. apply map_Forall_empty.
  - apply map_Forall_insert_2; [lia|]. apply map_Forall_insert_2; [lia|]. apply map_Forall_empty.
  - reflexivity.
  - exists es, s'. split; [exact Hd|]. split; [exact Hp|exact He].
Defined.

(** A function that returns its argument and whether it is even. *)
Definition demo_fn (req : uint16_t) : RpcStatus * (uint16_t * bool) :=
  match req with U16 x => (RpcOk, (U16 x, Z.even x)) end.

Lemma Rpc_unary_call_witness :
  ∃ answer status, UnaryStub_complete (Response := uint16_t * bool) answer status
    = (RpcOk, Some (U16 513, false)).
Proof.
  destruct (Rpc_unary_call (req_laws := uint16_laws) (resp_laws := pair_laws) demo_fn (U16 513) [2; 1]
    300 5 7 1000 1001 1002 1003 1 demo_handlers RpcClient_init (RpcServer_begin RpcServer_new))
    as (call & id & message & c1 & s1 & header & answer & s2 & status & c2 & _ & _ & _ & _ & _ & _ & H).
  - cbn. lia.
  - reflexivity.
  - lia.
  - exact I.
  - intros _. split; [cbn; lia|exact I].
  - cbn. lia.
  - reflexivity.
  - reflexivity.
  - reflexivity.
  - reflexivity.
  - vm_compute. reflexivity.
  - vm_compute. reflexivity.
  - exists answer, status. rewrite decide_False in H; [exact H|]. intros [_ Hw]. discriminate Hw.
Defined.

(** ** Where the code falls short *)

(** A function whose result is too long for the wire: 65536 bytes in a pair. *)
Definition long_fn (req : uint8_t) : RpcStatus * (list byte * uint8_t) :=
  (RpcOk, (replicate (Z.to_nat 65536) 0, U8 0)).

(** The handler does not look at the status of the serialized response: it answers with
    kOk and no bytes. *)
Theorem UnaryHandler_ignores_serialization_failure :
  (serialize (long_fn (U8 5)).2).1 = RpcInvalidArgument
  ∧ option_map fst (UnaryHandler long_fn 7 9 [5] 1000 demo_server)
    = Some [Respond 7 9 [6; 0; 0; 9; 0] []].
Proof. split; vm_compute; reflexivity. Qed.
