(* ===== verification/RpcTimer.v ===== *)
(** * RpcTimer: the timer thread of the RPC server

    [RpcServer::deadlineLoop] as the thread it is (rpc/server.cpp): asleep on
    [deadlines_changed_], at the lock, or sending a response without the lock, against
    every critical section of [begin], [end], [handleRequest], [connectionReset] and the
    responses of the application, the clock, and wake-ups without a reason. The sections
    themselves are those of [RpcServer]; here each also says whether it calls
    [notify_all]. *)

From stdpp Require Import gmap.
From S2P Require Import Prelude.
From S2P Require Import RooIo.
From S2P Require Import RpcHeader.
From S2P Require Import RpcServer.

Local Open Scope Z_scope.
Local Open Scope roo_scope.

(** Where the thread is: not joinable, at the lock before the test of [active_], in
    [wait], in [wait_until], in [sendResponse], and at its end. *)
Inductive timer_pc :=
  | TNone
  | TReady
  | TWait
  | TWaitUntil (deadline : Z)
  | TSending (response : rv_effect)
  | TDone.

(** [tm_ending]: a thread is in [end], past its locked section. [tm_sent] is what the timer
    thread has sent. *)
Record TimerSystem := mkTimerSystem {
  tm_server : RpcServer;
  tm_pc : timer_pc;
  tm_now : Z;
  tm_ending : bool;
  tm_sent : list rv_effect;
}.

Definition tm_at (pc : timer_pc) (t : TimerSystem) : TimerSystem :=
  mkTimerSystem (tm_server t) pc (tm_now t) (tm_ending t) (tm_sent t).

(** [deadlines_changed_.notify_all()]: only the timer thread waits. *)
Definition timer_wake (pc : timer_pc) : timer_pc :=
  match pc with TWait | TWaitUntil _ => TReady | _ => pc end.

(** The locked section of [end], and its join. *)
Definition RpcServer_end_section (s : RpcServer) : RpcServer :=
  mkRpcServer (rv_connection_id s) false (rv_deadline_thread s) ∅.

Definition RpcServer_end_join (s : RpcServer) : RpcServer :=
  mkRpcServer (rv_connection_id s) (rv_active s) false (rv_pending_calls s).

(** The critical sections of the other threads. *)
Inductive tm_call :=
  | CallBegin
  | CallEnd
  | CallReconnected (connection_id : Z)
  | CallReset (connection_id : Z)
  | CallAccept (connection_id function_id stream_id deadline : Z) (has_timeout fin : bool)
  | CallRespond (connection_id stream_id : Z) (status : RpcStatus).

Section Timer.

Context {io : RooIo} {data : RooIoData} {pf : Platform}.

(** What a section does, and whether it notifies. *)
Definition tm_section (now : Z) (call : tm_call) (s : RpcServer) : bool * RpcServer :=
  match call with
  | CallBegin => (false, RpcServer_begin s)
  | CallEnd => (true, RpcServer_end_section s)
  | CallReconnected connection_id =>
      (negb (connection_id =? rv_connection_id s), RpcServer_reconnected connection_id s)
  | CallReset connection_id =>
      (connection_id =? rv_connection_id s, RpcServer_connectionReset connection_id s)
  | CallAccept connection_id function_id stream_id deadline has_timeout fin =>
      match RpcServer_accept connection_id function_id stream_id deadline has_timeout fin s with
      | Some s => (true, s)
      | None => (false, s)
      end
  | CallRespond connection_id stream_id status =>
      match RpcServer_prepForResponse connection_id stream_id status now s with
      | (Some _, s) => (true, s)
      | (None, s) => (false, s)
      end
  end.

(** A section of another thread; the first request with a timeout starts the thread. *)
Definition tm_exec (call : tm_call) (t : TimerSystem) : TimerSystem :=
  let '(notified, server) := tm_section (tm_now t) call (tm_server t) in
  let started := negb (rv_deadline_thread (tm_server t)) && rv_deadline_thread server in
  let pc := if started then TReady else if notified then timer_wake (tm_pc t) else tm_pc t in
  mkTimerSystem server pc (tm_now t)
    (match call with CallEnd => true | _ => tm_ending t end) (tm_sent t).

(** A step of the timer thread: a round of the loop, with the lock, up to the wait or the
    unlock; the return of [sendResponse]; or the end of [wait_until]. Sending may take any
    time: the thread is in [TSending] from the unlock until this step, and every other
    thread, or code that the send calls, takes any number of steps meanwhile. *)
Definition timer_step (t : TimerSystem) : option TimerSystem :=
  match tm_pc t with
  | TReady =>
      if negb (rv_active (tm_server t)) then Some (tm_at TDone t)
      else
        round ← RpcServer_deadlineLoop_round (tm_now t) (tm_server t);
        Some match round with
             | Wait => tm_at TWait t
             | WaitUntil deadline => tm_at (TWaitUntil deadline) t
             | Expired response s =>
                 mkTimerSystem s (TSending response) (tm_now t) (tm_ending t) (tm_sent t)
             end
  | TSending response =>
      Some (mkTimerSystem (tm_server t) TReady (tm_now t) (tm_ending t) (tm_sent t ++ [response]))
  | TWaitUntil deadline => Some (if deadline <=? tm_now t then tm_at TReady t else t)
  | TNone | TWait | TDone => Some t
  end.

Fixpoint timer_steps (n : nat) (t : TimerSystem) : option TimerSystem :=
  match n with
  | O => Some t
  | S n => t ← timer_step t; timer_steps n t
  end.

(** [begin] and [end] are not called while another thread is in [end]; stream ids have the 24
    bits of the header, and a request without a timeout has no deadline. *)
Definition call_allowed (t : TimerSystem) (call : tm_call) : Prop :=
  match call with
  | CallBegin | CallEnd => tm_ending t = false
  | CallAccept _ _ stream_id deadline has_timeout _ =>
      0 ≤ stream_id < 2 ^ 24 ∧ (has_timeout = false → deadline = Uptime_Max)
  | _ => True
  end.

Inductive tm_step : TimerSystem → TimerSystem → Prop :=
  | tm_timer t t' : timer_step t = Some t' → tm_step t t'
  | tm_spurious t : tm_step t (tm_at (timer_wake (tm_pc t)) t)
  | tm_clock t now : tm_now t ≤ now < Uptime_Max →
      tm_step t (mkTimerSystem (tm_server t) (tm_pc t) now (tm_ending t) (tm_sent t))
  | tm_other t call : call_allowed t call → tm_step t (tm_exec call t)
  | tm_join t : tm_ending t = true → tm_pc t = TDone ∨ rv_deadline_thread (tm_server t) = false →
      tm_step t (mkTimerSystem (RpcServer_end_join (tm_server t)) TNone (tm_now t) false (tm_sent t)).

Definition tm_start (now : Z) : TimerSystem := mkTimerSystem RpcServer_new TNone now false [].

Definition tm_reachable (t : TimerSystem) : Prop :=
  ∃ now, now < Uptime_Max ∧ rtc tm_step (tm_start now) t.

End Timer.

(** ** The invariant *)

Definition waiting (pc : timer_pc) : bool :=
  match pc with TWait | TWaitUntil _ => true | _ => false end.

Section Invariant.

Context {io : RooIo} {io_laws : RooIoLaws} {data : RooIoData} {data_laws : RooIoDataLaws} {pf : Platform}.

Local Notation calls t := (rv_pending_calls (tm_server t)).

(** No deadline is before the end of the wait. *)
Definition sleeps_enough (pc : timer_pc) (calls : gmap Z RpcRequest) : Prop :=
  match pc with
  | TWait => map_Forall (λ _ rq, Uptime_Max ≤ rq_deadline rq) calls
  | TWaitUntil deadline => map_Forall (λ _ rq, deadline ≤ rq_deadline rq) calls
  | TSending response => expiry response
  | _ => True
  end.

Record tm_inv (t : TimerSystem) : Prop := {
  ti_ids : map_Forall (λ sid rq, rq_stream_id rq = sid ∧ 0 ≤ sid < 2 ^ 24) (calls t);
  ti_thread : rv_deadline_thread (tm_server t) = true ↔ tm_pc t ≠ TNone;
  ti_timed : rv_deadline_thread (tm_server t) = false → map_Forall (λ _ rq, rq_deadline rq = Uptime_Max) (calls t);
  ti_inactive : rv_active (tm_server t) = false → calls t = ∅ ∧ waiting (tm_pc t) = false;
  ti_ending : tm_ending t = true → rv_active (tm_server t) = false;
  ti_alone : rv_active (tm_server t) = false → tm_pc t ≠ TNone → tm_ending t = true;
  ti_done : tm_pc t = TDone → rv_active (tm_server t) = false;
  ti_sleep : sleeps_enough (tm_pc t) (calls t);
  ti_now : tm_now t < Uptime_Max;
}.

Lemma tm_start_inv now : now < Uptime_Max → tm_inv (tm_start now).
Proof. intros Hnow. split; cbn; try done; apply map_Forall_empty. Qed.

Lemma map_Forall_sub (P : Z → RpcRequest → Prop) (m m' : gmap Z RpcRequest) : m' ⊆ m → map_Forall P m → map_Forall P m'.
Proof. intros Hs H sid rq Hl. apply H. by eapply lookup_weaken. Qed.

Lemma sub_empty (m : gmap Z RpcRequest) : m ⊆ ∅ → m = ∅.
Proof. intros H. apply map_eq. intros i. destruct (m !! i) eqn:Hl; [|done]. by apply (lookup_weaken _ _ _ _ Hl) in H. Qed.

Lemma sleeps_wake pc calls calls' : sleeps_enough pc calls → sleeps_enough (timer_wake pc) calls'.
Proof. by destruct pc. Qed.

Lemma sleeps_subset pc (calls calls' : gmap Z RpcRequest) : calls' ⊆ calls → sleeps_enough pc calls → sleeps_enough pc calls'.
Proof. intros Hs. destruct pc; cbn; auto; by apply map_Forall_sub. Qed.

Lemma waiting_wake pc : waiting (timer_wake pc) = false.
Proof. by destruct pc. Qed.

Lemma wake_none pc : timer_wake pc = TNone ↔ pc = TNone.
Proof. by destruct pc. Qed.

Lemma wake_done pc : timer_wake pc = TDone ↔ pc = TDone.
Proof. by destruct pc. Qed.

(** A section that only removes requests, with or without a notification. *)
Lemma tm_removed_inv t server pc :
  tm_inv t → rv_active server = rv_active (tm_server t) →
  rv_deadline_thread server = rv_deadline_thread (tm_server t) →
  rv_pending_calls server ⊆ calls t → pc = tm_pc t ∨ pc = timer_wake (tm_pc t) →
  tm_inv (mkTimerSystem server pc (tm_now t) (tm_ending t) (tm_sent t)).
Proof.
  intros [Hids Hth Htm Hin Hend Hal Hdone Hsl Hnow] Ha Hf Hsub Hpc.
  assert (Hnone : pc = TNone ↔ tm_pc t = TNone) by (destruct Hpc as [-> | ->]; [done|apply wake_none]).
  assert (Hd : pc = TDone ↔ tm_pc t = TDone) by (destruct Hpc as [-> | ->]; [done|apply wake_done]).
  split; cbn; rewrite ?Ha, ?Hf; auto.
  - by eapply map_Forall_sub.
  - by rewrite Hth, Hnone.
  - intros H. eapply map_Forall_sub; [done|by apply Htm].
  - intros H. destruct (Hin H) as [He Hw]. rewrite He in Hsub. split; [by apply sub_empty|].
    destruct Hpc as [-> | ->]; [done|apply waiting_wake].
  - rewrite Hnone. auto.
  - rewrite Hd. auto.
  - destruct Hpc as [-> | ->]; [by eapply sleeps_subset|by eapply sleeps_wake].
Qed.

Lemma prep_removes conn sid status now s :
  let '(answer, s') := RpcServer_prepForResponse conn sid status now s in
  rv_active s' = rv_active s ∧ rv_deadline_thread s' = rv_deadline_thread s
  ∧ rv_pending_calls s' ⊆ rv_pending_calls s ∧ (answer = None → s' = s).
Proof.
  unfold RpcServer_prepForResponse. destruct (negb _); [done|].
  destruct (rv_pending_calls s !! sid); [|done]. destruct (negb _); [done|]. cbn.
  split_and!; try done. apply delete_subseteq.
Qed.

Lemma tm_begin_inv t : tm_inv t → tm_ending t = false → tm_inv (tm_exec CallBegin t).
Proof.
  intros [Hids Hth Htm Hin Hend Hal Hdone Hsl Hnow] Hne. unfold tm_exec. cbn [tm_section]. cbv zeta.
  unfold RpcServer_begin. cbn [rv_deadline_thread]. rewrite andb_negb_l. split; cbn; auto; try done.
  - congruence.
  - intros Hd. pose proof (Hal (Hdone Hd)) as H. rewrite Hd in H. specialize (H ltac:(done)). congruence.
Qed.

Lemma tm_end_inv t : tm_inv t → tm_inv (tm_exec CallEnd t).
Proof.
  intros [Hids Hth Htm Hin Hend Hal Hdone Hsl Hnow]. unfold tm_exec. cbn [tm_section]. cbv zeta.
  unfold RpcServer_end_section. cbn [rv_deadline_thread]. rewrite andb_negb_l.
  split; cbn; auto; try (intros; apply map_Forall_empty).
  - by rewrite wake_none.
  - intros _. split; [done|apply waiting_wake].
  - by eapply sleeps_wake.
Qed.

Lemma tm_accept_inv t conn fid sid deadline has_timeout fin :
  tm_inv t → 0 ≤ sid < 2 ^ 24 → (has_timeout = false → deadline = Uptime_Max) →
  tm_inv (tm_exec (CallAccept conn fid sid deadline has_timeout fin) t).
Proof.
  intros Hi Hsid Hdl. unfold tm_exec. cbn [tm_section]. unfold RpcServer_accept.
  assert (Hsame : tm_inv (mkTimerSystem (tm_server t) (tm_pc t) (tm_now t) (tm_ending t) (tm_sent t)))
    by (apply tm_removed_inv; auto).
  destruct (calls t !! sid) eqn:Hl; [by rewrite andb_negb_l|].
  destruct (rv_active (tm_server t)) eqn:Hact; cbn [negb]; [|by rewrite andb_negb_l].
  destruct Hi as [Hids Hth Htm Hin Hend Hal Hdone Hsl Hnow]. cbn [rv_deadline_thread].
  set (th := rv_deadline_thread (tm_server t)) in *.
  assert (Hpc : ∀ pc, (if negb th && (th || has_timeout) then TReady else timer_wake (tm_pc t)) = pc →
    (pc = TReady ∨ pc = timer_wake (tm_pc t)) ∧ (th || has_timeout = true ↔ pc ≠ TNone)).
  { intros pc <-. destruct th, has_timeout; cbn; rewrite ?wake_none; intuition congruence. }
  set (pc := if _ && _ then _ else _) in *. destruct (Hpc pc eq_refl) as [Hor Hiff]. clearbody pc.
  split; cbn; auto; try congruence.
  - by apply map_Forall_insert_2.
  - intros [Hf ->]%orb_false_iff. apply map_Forall_insert_2; [cbn; auto|by apply Htm].
  - intros He. specialize (Hend He). congruence.
  - intros ->. destruct Hor as [|Hw]; [done|]. symmetry in Hw. apply (proj1 (wake_done _)) in Hw. specialize (Hdone Hw). congruence.
  - destruct Hor as [-> | ->]; [done|by eapply sleeps_wake].
Qed.

Lemma tm_exec_inv call t : tm_inv t → call_allowed t call → tm_inv (tm_exec call t).
Proof.
  intros Hi Hok. destruct call as [| |conn|conn|conn fid sid dl ht fin|conn sid status]; cbn in Hok.
  - by apply tm_begin_inv.
  - by apply tm_end_inv.
  - unfold tm_exec. cbn [tm_section]. unfold RpcServer_reconnected.
    destruct (conn =? _); cbn; rewrite andb_negb_l; apply tm_removed_inv; cbn; auto; apply map_empty_subseteq.
  - unfold tm_exec. cbn [tm_section]. unfold RpcServer_connectionReset.
    destruct (conn =? _); cbn; rewrite andb_negb_l; apply tm_removed_inv; cbn; auto; apply map_empty_subseteq.
  - apply tm_accept_inv; tauto.
  - unfold tm_exec. cbn [tm_section].
    pose proof (prep_removes conn sid status (tm_now t) (tm_server t)) as Hp.
    destruct (RpcServer_prepForResponse _ _ _ _ _) as [[st|] s]; destruct Hp as (Ha & Hf & Hsub & _); cbn;
      rewrite Hf, andb_negb_l; apply tm_removed_inv; auto.
Qed.

(** *** The thread itself *)

(** What a round does: it goes to sleep when no deadline has come, and otherwise
    takes out a request and answers it. *)
Lemma round_spec now s :
  now < Uptime_Max →
  map_Forall (λ sid rq, rq_stream_id rq = sid ∧ 0 ≤ sid < 2 ^ 24) (rv_pending_calls s) →
  ∃ round, RpcServer_deadlineLoop_round now s = Some round
    ∧ match round with
      | Wait => map_Forall (λ _ rq, Uptime_Max ≤ rq_deadline rq) (rv_pending_calls s)
      | WaitUntil d => now < d ∧ map_Forall (λ _ rq, d ≤ rq_deadline rq) (rv_pending_calls s)
      | Expired response s' =>
          ∃ sid rq, rv_pending_calls s !! sid = Some rq ∧ rq_deadline rq ≤ now
            ∧ s' = rv_with_pending_calls (delete sid (rv_pending_calls s)) s
            ∧ expiry response ∧ responses [response] = [(rq_connection_id rq, sid)]
      end.
Proof.
  intros Hnow Hids. unfold RpcServer_deadlineLoop_round.
  pose proof (earliest_spec (map_to_list (rv_pending_calls s))) as Hspec.
  destruct (earliest _) as [[sid rq]|] eqn:He.
  - destruct Hspec as [_ Hall]. apply earliest_in, elem_of_map_to_list in He.
    destruct (Z.ltb_spec now (rq_deadline rq)) as [Hlt|Hge].
    + eexists. split; [done|]. split; [done|]. intros sid' rq' Hl.
      rewrite Forall_forall in Hall. apply elem_of_map_to_list in Hl. exact (Hall _ Hl).
    + destruct (Hids _ _ He) as [Hs Hr]. rewrite Hs.
      destruct (response_serializes sid RpcDeadlineExceeded Hr I) as [h Hh].
      unfold RpcServer_sendResponse. rewrite Hh. cbn [mbind option_bind].
      eexists. split; [done|]. exists sid, rq. split_and!; try done. by exists (rq_connection_id rq), sid, h.
  - eexists. split; [done|]. intros sid' rq' Hl. rewrite Forall_forall in Hspec.
    apply elem_of_map_to_list in Hl. exact (Hspec _ Hl).
Qed.

(** A move of the thread that leaves the server alone. *)
Lemma tm_at_inv t pc :
  tm_inv t → tm_pc t ≠ TNone → pc ≠ TNone → sleeps_enough pc (calls t) →
  (rv_active (tm_server t) = false → waiting pc = false) → (pc = TDone → rv_active (tm_server t) = false) →
  tm_inv (tm_at pc t).
Proof.
  intros [Hids Hth Htm Hin Hend Hal Hdone Hsl Hnow] Hpc Hne Hsl' Hw Hd. split; cbn; auto.
  - tauto.
  - intros H. split; [by apply Hin|auto].
Qed.

Lemma timer_step_inv t : tm_inv t → ∃ t', timer_step t = Some t' ∧ tm_inv t'.
Proof.
  intros Hi. pose proof Hi as [Hids Hth Htm Hin Hend Hal Hdone Hsl Hnow]. unfold timer_step.
  destruct (tm_pc t) as [| | |d|r|] eqn:Hpc; [by eexists| |by eexists| | |by eexists].
  - destruct (rv_active (tm_server t)) eqn:Hact; cbn [negb].
    2:{ eexists. split; [done|]. by apply tm_at_inv; rewrite ?Hpc. }
    destruct (round_spec (tm_now t) (tm_server t) Hnow Hids) as (round & -> & Hr). cbn [mbind option_bind].
    eexists. split; [done|]. destruct round as [|d|r s].
    + by apply tm_at_inv; rewrite ?Hpc, ?Hact.
    + by apply tm_at_inv; rewrite ?Hpc, ?Hact; [..|apply Hr| |].
    + destruct Hr as (sid & rq & Hl & _ & -> & Hexp & _).
      split; cbn; auto; try (rewrite Hact; done); try done.
      * by apply map_Forall_delete.
      * by rewrite Hth.
      * intros Hf. by apply map_Forall_delete, Htm.
  - eexists. split; [done|]. destruct (d <=? tm_now t); [|done]. by apply tm_at_inv; rewrite ?Hpc.
  - eexists. split; [done|]. split; cbn; auto; try done. by rewrite Hth.
Qed.

Lemma tm_step_inv t t' : tm_inv t → tm_step t t' → tm_inv t'.
Proof.
  intros Hi H. destruct H as [t t' Hex|t|t now Hnow|t call Hok|t Hend Hj].
  - destruct (timer_step_inv t Hi) as (t1 & H1 & Hi1). by rewrite H1 in Hex; injection Hex as <-.
  - by apply (tm_removed_inv t (tm_server t)); auto.
  - destruct Hi as [Hids Hth Htm Hin Hen Hal Hdone Hsl _]. split; cbn; auto. lia.
  - by apply tm_exec_inv.
  - destruct Hi as [Hids Hth Htm Hin Hen Hal Hdone Hsl Hnow]. pose proof (Hen Hend) as Hact.
    destruct (Hin Hact) as [He _]. split; cbn; auto; try done.
    intros _. rewrite He. apply map_Forall_empty.
Qed.

Lemma tm_reachable_inv t : tm_reachable t → tm_inv t.
Proof.
  intros (now & Hnow & Hr). eapply (rtc_ind_r tm_inv); [by apply tm_start_inv| |exact Hr].
  intros t1 t2 _ Hstep Hi. by eapply tm_step_inv.
Qed.

(** ** Deadlines are kept *)

Lemma timer_steps_app n m t t1 t2 :
  timer_steps n t = Some t1 → timer_steps m t1 = Some t2 → timer_steps (n + m) t = Some t2.
Proof.
  revert t. induction n as [|n IH]; intros t H1 H2; cbn [timer_steps Nat.add] in *; [by injection H1 as <-|].
  destruct (timer_step t) as [t0|]; [|done]. cbn [mbind option_bind] in *. by apply IH.
Qed.

(** What [n] steps of the thread from [t] do: nothing expired is left, and what was has
    been answered. *)
Definition drains (t : TimerSystem) (n : nat) : Prop :=
  ∃ t' es, timer_steps n t = Some t' ∧ calls t' = unexpired (tm_now t) (calls t)
    ∧ tm_sent t' = tm_sent t ++ es ∧ Forall expiry es
    ∧ (∀ sid rq, calls t !! sid = Some rq → rq_deadline rq ≤ tm_now t → (rq_connection_id rq, sid) ∈ responses es).

Lemma unexpired_all now (m : gmap Z RpcRequest) :
  map_Forall (λ _ rq, now < rq_deadline rq) m → m = unexpired now m.
Proof. intros H. symmetry. apply map_filter_id. intros sid rq Hl. by apply (H sid rq). Qed.

Lemma drains_asleep t : map_Forall (λ _ rq, tm_now t < rq_deadline rq) (calls t) → drains t 0.
Proof.
  intros H. exists t, []. split; [done|]. split; [by apply unexpired_all|]. rewrite app_nil_r.
  split_and!; try done. intros sid rq Hl Hle. specialize (H _ _ Hl). cbn in H. lia.
Qed.

(** A step that leaves the requests alone and may send a response. *)
Lemma drains_step t t1 es n :
  timer_step t = Some t1 → calls t1 = calls t → tm_now t1 = tm_now t → tm_sent t1 = tm_sent t ++ es →
  Forall expiry es → drains t1 n → drains t (S n).
Proof.
  intros H1 Hc Hn Hs Hes (t' & fs & H2 & Hc' & Hs' & Hfs & Hans). exists t', (es ++ fs).
  split; [cbn [timer_steps]; by rewrite (bind_step _ _ _ H1)|]. rewrite Hc', Hs', Hs, Hc, Hn, <- app_assoc.
  split_and!; try done; [by apply Forall_app|]. intros sid rq Hl Hle. rewrite responses_app.
  apply elem_of_app. right. apply Hans; rewrite ?Hc, ?Hn; done.
Qed.

Lemma unexpired_delete now sid rq (m : gmap Z RpcRequest) :
  m !! sid = Some rq → rq_deadline rq ≤ now → unexpired now (delete sid m) = unexpired now m.
Proof.
  intros Hl Hle. unfold unexpired. rewrite map_filter_delete. apply delete_id. apply map_lookup_filter_None.
  right. intros x Hx. cbn. assert (x = rq) as -> by congruence. lia.
Qed.

Lemma drains_ready k : ∀ t,
  tm_inv t → rv_active (tm_server t) = true → tm_pc t = TReady → (size (calls t) ≤ k)%nat →
  ∃ n, (n ≤ 2 * k + 1)%nat ∧ drains t n.
Proof.
  induction k as [|k IH]; intros t Hi Hact Hpc Hk; pose proof Hi as [Hids _ _ _ _ _ _ _ Hnow];
    destruct (round_spec (tm_now t) (tm_server t) Hnow Hids) as (round & Hr & Hspec);
    (assert (Hstep : timer_step t = Some match round with
       | Wait => tm_at TWait t | WaitUntil deadline => tm_at (TWaitUntil deadline) t
       | Expired response s => mkTimerSystem s (TSending response) (tm_now t) (tm_ending t) (tm_sent t) end)
      by (unfold timer_step; rewrite Hpc, Hact; cbn [negb]; by rewrite (bind_step _ _ _ Hr)));
    (destruct round as [|d|r s];
     [exists 1%nat; split; [lia|]; eapply (drains_step t _ []); try done; [by rewrite app_nil_r|];
      apply drains_asleep; intros sid rq Hl; specialize (Hspec _ _ Hl); cbn in *; lia
     |exists 1%nat; split; [lia|]; eapply (drains_step t _ []); try done; [by rewrite app_nil_r|];
      apply drains_asleep; intros sid rq Hl; destruct Hspec as [Hd Hall]; specialize (Hall _ _ Hl); cbn in *; lia
     |destruct Hspec as (sid & rq & Hl & Hle & -> & Hexp & Hresp)]).
  - exfalso. assert (size (calls t) = 0%nat) as Hz%map_size_empty_iff by lia. rewrite Hz in Hl.
    by apply lookup_empty_Some in Hl.
  - destruct (timer_step_inv t Hi) as (t1 & H1 & Hi1). rewrite Hstep in H1. injection H1 as <-.
    destruct (timer_step_inv _ Hi1) as (t2 & H2 & Hi2). cbn in H2. injection H2 as <-.
    destruct (IH _ Hi2) as (n & Hn & t' & es & Ht & Hc & Hs & Hes & Hans); [done|done| |].
    { cbn. rewrite map_size_delete_Some by (by eexists). lia. }
    cbn in Hc, Hs, Hans. exists (S (S n)). split; [lia|]. exists t', (r :: es).
    split; [cbn [timer_steps]; rewrite (bind_step _ _ _ Hstep); exact Ht|].
    split; [by rewrite Hc, (unexpired_delete _ sid rq)|].
    split; [by rewrite Hs, <- app_assoc|]. split; [by constructor|].
    intros sid' rq' Hl' Hle'. change (r :: es) with ([r] ++ es). rewrite responses_app, Hresp.
    destruct (decide (sid' = sid)) as [->|Hne]; [assert (rq' = rq) as -> by congruence; by left|].
    right. apply Hans; [|done]. by rewrite lookup_delete_ne.
Qed.

Lemma tm_no_thread t : tm_inv t → tm_pc t = TNone → rv_deadline_thread (tm_server t) = false.
Proof. intros Hi Hpc. apply not_true_is_false. intros H. by apply (ti_thread _ Hi) in H. Qed.

Lemma drains_all t :
  tm_inv t → rv_active (tm_server t) = true → ∃ n, (n ≤ 2 * size (calls t) + 2)%nat ∧ drains t n.
Proof.
  intros Hi Hact. pose proof Hi as [Hids Hth Htm _ _ _ Hdone Hsl Hnow].
  destruct (timer_step_inv t Hi) as (t1 & H1 & Hi1). pose proof H1 as Hstep. unfold timer_step in H1.
  destruct (tm_pc t) as [| | |d|r|] eqn:Hpc.
  - exists 0%nat. split; [lia|]. apply drains_asleep. intros sid rq Hl.
    rewrite (Htm (tm_no_thread t Hi Hpc) sid rq Hl). done.
  - destruct (drains_ready (size (calls t)) t Hi Hact Hpc (le_n _)) as (n & Hn & Hd).
    exists n. split; [lia|done].
  - exists 0%nat. split; [lia|]. apply drains_asleep. intros sid rq Hl. specialize (Hsl sid rq Hl). cbn in Hsl. lia.
  - injection H1 as <-. destruct (Z.leb_spec d (tm_now t)) as [Hle|Hgt].
    + destruct (drains_ready (size (calls t)) _ Hi1 Hact eq_refl (le_n _)) as (n & Hn & Hd).
      exists (S n). split; [lia|]. eapply (drains_step t _ []); try done. by rewrite app_nil_r.
    + exists 0%nat. split; [lia|]. apply drains_asleep. intros sid rq Hl. specialize (Hsl sid rq Hl). cbn in Hsl. lia.
  - injection H1 as <-. destruct (drains_ready (size (calls t)) _ Hi1 Hact eq_refl (le_n _)) as (n & Hn & Hd).
    exists (S n). split; [lia|]. eapply (drains_step t _ [r]); try done. by constructor.
  - specialize (Hdone eq_refl). congruence.
Qed.

(** C26: the timer thread keeps the deadlines, and end() returns. For every interleaving of the
    timer thread with requests, responses, resets, begin() and end() on other threads, with the clock and
    with wake-ups without a reason: while a request with a deadline is pending, the thread is
    there and awake, or sleeps no longer than until that deadline; at any time, it takes at
    most two steps for each pending request and two more to answer every request whose
    deadline has passed, on its connection, with kDeadlineExceeded and no payload, and to leave the
    others as they are; and once end() has left its locked section, the thread does not wait any more and
    takes at most two steps to the point where the join in end() returns. *)
Theorem RpcServer_timer_keeps_deadlines (t : TimerSystem) (Hreach : tm_reachable t) :
  (∀ sid rq, calls t !! sid = Some rq → rq_deadline rq < Uptime_Max →
     tm_pc t = TReady ∨ (∃ response, tm_pc t = TSending response)
     ∨ ∃ d, tm_pc t = TWaitUntil d ∧ d ≤ rq_deadline rq)
  ∧ (rv_active (tm_server t) = true →
     ∃ n t' es, (n ≤ 2 * size (calls t) + 2)%nat ∧ timer_steps n t = Some t'
       ∧ calls t' = unexpired (tm_now t) (calls t)
       ∧ tm_sent t' = tm_sent t ++ es ∧ Forall expiry es
       ∧ (∀ sid rq, calls t !! sid = Some rq → rq_deadline rq ≤ tm_now t →
            (rq_connection_id rq, sid) ∈ responses es))
  ∧ (tm_ending t = true →
     waiting (tm_pc t) = false
     ∧ ∃ n t', (n ≤ 2)%nat ∧ timer_steps n t = Some t' ∧ tm_ending t' = true
         ∧ (tm_pc t' = TDone ∨ rv_deadline_thread (tm_server t') = false)).
Proof.
  apply tm_reachable_inv in Hreach as Hi. pose proof Hi as [Hids Hth Htm Hin Hend _ Hdone Hsl Hnow].
  split; [|split].
  - intros sid rq Hl Hd. destruct (tm_pc t) as [| | |d|r|] eqn:Hpc; [| |specialize (Hsl sid rq Hl)|specialize (Hsl sid rq Hl)| |].
    + specialize (Htm (tm_no_thread t Hi Hpc) sid rq Hl). cbn in Htm. lia.
    + by left.
    + cbn in Hsl. lia.
    + right. right. by exists d.
    + right. left. by exists r.
    + destruct (Hin (Hdone eq_refl)) as [He _]. rewrite He in Hl. by apply lookup_empty_Some in Hl.
  - intros Hact. destruct (drains_all t Hi Hact) as (n & Hn & t' & es & Hd). by exists n, t', es.
  - intros He. pose proof (Hend He) as Hact. destruct (Hin Hact) as [_ Hw]. split; [done|].
    destruct (tm_pc t) as [| | |d|r|] eqn:Hpc; try discriminate Hw.
    + exists 0%nat, t. split_and!; [lia|done|done|]. right. by apply tm_no_thread.
    + exists 1%nat. cbn [timer_steps]. unfold timer_step. rewrite Hpc, Hact. eexists. split; [lia|]. split; [done|]. auto.
    + set (t1 := mkTimerSystem (tm_server t) TReady (tm_now t) (tm_ending t) (tm_sent t ++ [r])).
      assert (H1 : timer_step t = Some t1) by (unfold timer_step; by rewrite Hpc).
      assert (H2 : timer_step t1 = Some (tm_at TDone t1)) by (unfold timer_step; cbn; by rewrite Hact).
      exists 2%nat, (tm_at TDone t1). cbn [timer_steps]. rewrite (bind_step _ _ _ H1), (bind_step _ _ _ H2).
      split_and!; [lia|done|done|by left].
    + exists 0%nat, t. split_and!; [lia|done|done|]. by left.
Qed.

End Invariant.

(** ** Witness *)

(** A request with a deadline has come, the thread was started and sleeps until it, and the
    deadline has passed. *)
Lemma RpcServer_timer_keeps_deadlines_witness :
  ∃ t n t' es, tm_reachable t ∧ tm_pc t = TWaitUntil 1000 ∧ tm_now t = 2000
    ∧ timer_steps n t = Some t' ∧ tm_sent t' = es ∧ (7, 9) ∈ responses es ∧ (n ≤ 4)%nat.
Proof.
  set (rq := RpcRequest_new 7 300 9 1000 true).
  set (s active := mkRpcServer 0 active true {[9 := rq]}).
  set (t := mkTimerSystem (s true) (TWaitUntil 1000) 2000 false []).
  assert (Hr : tm_reachable t).
  { exists 5. split; [reflexivity|].
    apply (rtc_l _ _ (tm_exec CallBegin (tm_start 5))); [by apply tm_other|].
    apply (rtc_l _ _ (mkTimerSystem (s true) TReady 5 false []));
      [exact (tm_other (tm_exec CallBegin (tm_start 5)) (CallAccept 7 300 9 1000 true true) ltac:(split; [lia|done]))|].
    apply (rtc_l _ _ (mkTimerSystem (s true) (TWaitUntil 1000) 5 false [])); [apply tm_timer; vm_compute; reflexivity|].
    apply rtc_once. apply (tm_clock (mkTimerSystem (s true) (TWaitUntil 1000) 5 false []) 2000). vm_compute. split; discriminate || reflexivity. }
  destruct (RpcServer_timer_keeps_deadlines t Hr) as (_ & Hall & _).
  destruct (Hall eq_refl) as (n & t' & es & Hn & Ht & _ & Hs & _ & Hans).
  exists t, n, t', es. split; [exact Hr|]. split; [reflexivity|]. split; [reflexivity|]. split; [exact Ht|].
  split; [exact Hs|]. split; [apply (Hans 9 rq); [reflexivity|vm_compute; discriminate]|].
  change (size (rv_pending_calls (tm_server t))) with 1%nat in Hn. lia.
Defined.
