(* ===== verification/RpcPair.v ===== *)
(** * RpcPair: a client and a server over a connection

    The whole of rpc/: a [RpcClient] with its threads as in [RpcClient], a [RpcServer] with
    its running handlers, and between them the messages on their way over a [Messaging]
    that keeps them whole and in order (what [MessagingThreadsCorrect] shows of
    LinkMessaging). Any number of calls are under way at once; handlers answer when they
    like, more than once if they like; deadlines pass; the connection breaks, with all
    that was on it, and either side learns of it at any time; dispatchers are registered
    and unregistered. *)

From stdpp Require Import gmap relations strings.
From S2P Require Import Prelude.
From S2P Require Import RooIo.
From S2P Require Import RpcHeader.
From S2P Require Import Serialization.
From S2P Require Import RpcClient.
From S2P Require Import RpcServer.

Local Open Scope Z_scope.
Local Open Scope roo_scope.

(** A call of a handler: which, for which connection and stream, with which request. *)
Record Invocation := mkInvocation {
  iv_handler : nat;
  iv_connection_id : Z;
  iv_stream_id : Z;
  iv_payload : list byte;
}.

(** [pp_client_on] and [pp_server_on]: the dispatcher is registered as the receiver. A
    message to the server is kept with its stream id, which is history. As history also the
    function and the request of every call, its message, and the stream ids of all
    invocations. *)
Record RpcPair := mkRpcPair {
  pp_client : rc_config;
  pp_client_on : bool;
  pp_server : RpcServer;
  pp_server_on : bool;
  pp_connection : Z;
  pp_to_server : list (Z * list byte);
  pp_to_client : list (list byte);
  pp_running : list Invocation;
  pp_requests : list (Z * list byte);
  pp_messages : list (list byte);
  pp_invoked : list Z;
}.

Definition pp_with_client (g : rc_config) (p : RpcPair) : RpcPair :=
  mkRpcPair g (pp_client_on p) (pp_server p) (pp_server_on p) (pp_connection p) (pp_to_server p)
    (pp_to_client p) (pp_running p) (pp_requests p) (pp_messages p) (pp_invoked p).

Definition pp_with_server (s : RpcServer) (p : RpcPair) : RpcPair :=
  mkRpcPair (pp_client p) (pp_client_on p) s (pp_server_on p) (pp_connection p) (pp_to_server p)
    (pp_to_client p) (pp_running p) (pp_requests p) (pp_messages p) (pp_invoked p).

Definition pp_with_to_server (ms : list (Z * list byte)) (p : RpcPair) : RpcPair :=
  mkRpcPair (pp_client p) (pp_client_on p) (pp_server p) (pp_server_on p) (pp_connection p) ms
    (pp_to_client p) (pp_running p) (pp_requests p) (pp_messages p) (pp_invoked p).

Definition pp_with_to_client (ms : list (list byte)) (p : RpcPair) : RpcPair :=
  mkRpcPair (pp_client p) (pp_client_on p) (pp_server p) (pp_server_on p) (pp_connection p) (pp_to_server p)
    ms (pp_running p) (pp_requests p) (pp_messages p) (pp_invoked p).

(** [begin] and [end] only register and unregister the dispatcher ([setReceiver],
    [unsetReceiver]): the counter of stream ids and the table of calls outlive a restart. *)
Definition RpcClient_begin (p : RpcPair) : RpcPair :=
  mkRpcPair (pp_client p) true (pp_server p) (pp_server_on p) (pp_connection p) (pp_to_server p)
    (pp_to_client p) (pp_running p) (pp_requests p) (pp_messages p) (pp_invoked p).

Definition RpcClient_end (p : RpcPair) : RpcPair :=
  mkRpcPair (pp_client p) false (pp_server p) (pp_server_on p) (pp_connection p) (pp_to_server p)
    (pp_to_client p) (pp_running p) (pp_requests p) (pp_messages p) (pp_invoked p).

Definition pp_server_register (on : bool) (s : RpcServer) (p : RpcPair) : RpcPair :=
  mkRpcPair (pp_client p) (pp_client_on p) s on (pp_connection p) (pp_to_server p)
    (pp_to_client p) (pp_running p) (pp_requests p) (pp_messages p) (pp_invoked p).

(** An effect of the server: a response goes on the connection it is for, if that is still
    the current one, and a handler is called. *)
Definition pp_effect (p : RpcPair) (e : rv_effect) : RpcPair :=
  match e with
  | Respond connection_id _ header payload =>
      if connection_id =? pp_connection p
      then pp_with_to_client (pp_to_client p ++ [header ++ payload]) p
      else p
  | Invoke handler connection_id stream_id payload _ =>
      mkRpcPair (pp_client p) (pp_client_on p) (pp_server p) (pp_server_on p) (pp_connection p)
        (pp_to_server p) (pp_to_client p)
        (mkInvocation handler connection_id stream_id payload :: pp_running p)
        (pp_requests p) (pp_messages p) (stream_id :: pp_invoked p)
  end.

Definition pp_effects (es : list rv_effect) (p : RpcPair) : RpcPair := foldl pp_effect p es.

Section System.

Context {io : RooIo} {data : RooIoData} {pf : Platform}.

(** The function table, and what a handler may answer to a request: a status, with the
    serialized response when it is OK and a text when it is not. *)
Context (handlers : Z → option nat) (may_answer : nat → list byte → RpcStatus → list byte → Prop).

(** How a handler answers. *)
Definition pp_respond (iv : Invocation) (status : RpcStatus) (result : list byte) (now : Z) (s : RpcServer)
    : option (list rv_effect * RpcServer) :=
  if decide (status = RpcOk)
  then RpcServer_sendSuccessResponse (iv_connection_id iv) (iv_stream_id iv) result now s
  else RpcServer_sendFailureResponse (iv_connection_id iv) (iv_stream_id iv) status result now s.

Inductive pp_step : RpcPair → RpcPair → Prop :=
  | pp_call p function_id timeout_ms cb payload call id header c' :
      let g := pp_client p in
      0 ≤ function_id < 2 ^ 32 → (∀ t, timeout_ms = Some t → 0 ≤ t < 2 ^ 32) →
      RpcClient_send_begin function_id timeout_ms cb (rg_client g) = Some (call, id, header, c') →
      pp_step p
        (mkRpcPair (mkRcConfig c' (Sending id call :: rg_threads g) (rg_log g) (rg_refused g)
                      (if decide (id_in_use id (rg_client g) (rg_threads g)) then call :: rg_reused g
                       else rg_reused g))
           (pp_client_on p) (pp_server p) (pp_server_on p) (pp_connection p) (pp_to_server p)
           (pp_to_client p) (pp_running p) (pp_requests p ++ [(function_id, payload)])
           (pp_messages p ++ [header ++ payload]) (pp_invoked p))
  | pp_sent p id call ts1 ts2 message :
      let g := pp_client p in
      rg_threads g = ts1 ++ Sending id call :: ts2 → pp_messages p !! call = Some message →
      pp_step p
        (pp_with_to_server (pp_to_server p ++ [(id, message)])
           (pp_with_client (mkRcConfig (rg_client g) (ts1 ++ ts2) (rg_log g) (rg_refused g) (rg_reused g)) p))
  | pp_refused p id call ts1 ts2 :
      let g := pp_client p in
      rg_threads g = ts1 ++ Sending id call :: ts2 →
      pp_step p (pp_with_client (mkRcConfig (RpcClient_cancel_erase id (rg_client g))
        (ts1 ++ Cancelling call :: ts2) (rg_log g) (rg_refused g) (rg_reused g)) p)
  | pp_cancelled p call ts1 ts2 :
      let g := pp_client p in
      rg_threads g = ts1 ++ Cancelling call :: ts2 →
      pp_step p (pp_with_client (mkRcConfig (RpcClient_cancel_clear call (rg_client g))
        (ts1 ++ ts2) (rg_log g) (call :: rg_refused g) (rg_reused g)) p)
  | pp_complete p call payload status cb c' ts1 ts2 :
      let g := pp_client p in
      rg_threads g = ts1 ++ Completing call payload status :: ts2 →
      RpcClient_complete call (rg_client g) = (cb, c') →
      pp_step p (pp_with_client (mkRcConfig c' (ts1 ++ ts2)
        (match cb with Some _ => mkCompletion call payload status :: rg_log g | None => rg_log g end)
        (rg_refused g) (rg_reused g)) p)
  | pp_response p message rest claimed c' :
      let g := pp_client p in
      pp_to_client p = message :: rest → pp_client_on p = true →
      RpcClient_handleResponse message (rg_client g) = Some (claimed, c') →
      pp_step p (pp_with_to_client rest (pp_with_client (mkRcConfig c'
        (match claimed with
         | Some (call, payload, status) => Completing call payload status :: rg_threads g
         | None => rg_threads g
         end) (rg_log g) (rg_refused g) (rg_reused g)) p))
  | pp_response_lost p message rest :
      pp_to_client p = message :: rest → pp_client_on p = false → pp_step p (pp_with_to_client rest p)
  | pp_client_reset p calls c' :
      let g := pp_client p in
      pp_client_on p = true → RpcClient_connectionReset (rg_client g) = (calls, c') →
      pp_step p (pp_with_client (mkRcConfig c'
        (((λ call, Completing call [] RpcUnavailable) <$> calls) ++ rg_threads g)
        (rg_log g) (rg_refused g) (rg_reused g)) p)
  | pp_client_begin p : pp_step p (RpcClient_begin p)
  | pp_client_end p : pp_step p (RpcClient_end p)
  | pp_request p id message rest now now1 now2 es s' :
      pp_to_server p = (id, message) :: rest → pp_server_on p = true →
      RpcServer_handleRequest handlers (pp_connection p) message now now1 now2 (pp_server p) = Some (es, s') →
      pp_step p (pp_effects es (pp_with_server s' (pp_with_to_server rest p)))
  | pp_request_lost p id message rest :
      pp_to_server p = (id, message) :: rest → pp_server_on p = false → pp_step p (pp_with_to_server rest p)
  | pp_answer p iv status result now es s' :
      iv ∈ pp_running p → may_answer (iv_handler iv) (iv_payload iv) status result → status_ok status →
      pp_respond iv status result now (pp_server p) = Some (es, s') →
      pp_step p (pp_effects es (pp_with_server s' p))
  | pp_deadline p now response s' :
      rv_active (pp_server p) = true →
      RpcServer_deadlineLoop_round now (pp_server p) = Some (Expired response s') →
      pp_step p (pp_effects [response] (pp_with_server s' p))
  | pp_server_reset p connection_id :
      pp_server_on p = true →
      pp_step p (pp_with_server (RpcServer_connectionReset connection_id (pp_server p)) p)
  | pp_server_begin p : pp_step p (pp_server_register true (RpcServer_begin (pp_server p)) p)
  | pp_server_end p : pp_step p (pp_server_register false (RpcServer_end (pp_server p)) p)
  | pp_disconnect p connection_id :
      pp_step p (mkRpcPair (pp_client p) (pp_client_on p) (pp_server p) (pp_server_on p) connection_id []
        [] (pp_running p) (pp_requests p) (pp_messages p) (pp_invoked p)).

Definition pp_start (connection_id : Z) : RpcPair :=
  mkRpcPair rc_start false RpcServer_new false connection_id [] [] [] [] [] [].

Definition pp_reachable (p : RpcPair) : Prop := ∃ connection_id, rtc pp_step (pp_start connection_id) p.

(** What the client may be told about a call: what a handler of its function answers to its
    own request, or that there was no handler, no time or no connection. *)
Definition rpc_outcome (requests : list (Z * list byte)) (call : nat) (status : RpcStatus) (payload : list byte) : Prop :=
  ∃ function_id request, requests !! call = Some (function_id, request)
    ∧ (status = RpcOk ∧ (∃ h, handlers function_id = Some h ∧ may_answer h request RpcOk payload)
       ∨ status ≠ RpcOk
         ∧ ((∃ h result, handlers function_id = Some h ∧ may_answer h request status result)
            ∨ handlers function_id = None ∧ status = RpcUnimplemented
            ∨ status = RpcDeadlineExceeded ∨ status = RpcUnavailable)).

End System.

(** ** The invariant *)

Section Invariant.

Context {io : RooIo} {io_laws : RooIoLaws} {data : RooIoData} {data_laws : RooIoDataLaws} {pf : Platform}.
Context (handlers : Z → option nat) (may_answer : nat → list byte → RpcStatus → list byte → Prop).

Local Notation outcome := (rpc_outcome handlers may_answer).

(** The call with a stream id, as long as the ids have not wrapped. *)
Definition call_of (id : Z) : nat := Z.to_nat (id - 1).

Definition known (requests : list (Z * list byte)) (id : Z) : Prop := 1 ≤ id ≤ Z.of_nat (length requests).

Definition thread_good (requests : list (Z * list byte)) (t : rc_thread) : Prop :=
  match t with
  | Sending id call => id = Z.of_nat call + 1 ∧ known requests id
  | Cancelling _ => True
  | Completing call payload status => outcome requests call status payload
  end.

Definition request_good (requests : list (Z * list byte)) (call : nat) (message : list byte) : Prop :=
  ∃ fid req tmo, requests !! call = Some (fid, req)
    ∧ RpcHeader_deserialize message
      = Some (mkRpcHeader RkRequest true true (bool_decide (is_Some tmo)) (Z.of_nat call + 1)
                (NewRequest fid (default 0 tmo)), req).

(** A response: of a known call, and one of its outcomes. *)
Definition response_good (requests : list (Z * list byte)) (id : Z) (header payload : list byte) : Prop :=
  ∃ status, RpcHeader_serialize (RpcHeader_NewUnaryResponse id status) RpcHeader_kMaxSerializedSize = Some header
    ∧ status_ok status ∧ known requests id ∧ outcome requests (call_of id) status payload.

Definition message_good (requests : list (Z * list byte)) (message : list byte) : Prop :=
  ∃ id header payload, message = header ++ payload ∧ response_good requests id header payload.

Definition invocation_good (requests : list (Z * list byte)) (iv : Invocation) : Prop :=
  ∃ fid, known requests (iv_stream_id iv) ∧ requests !! call_of (iv_stream_id iv) = Some (fid, iv_payload iv)
    ∧ handlers fid = Some (iv_handler iv).

Definition pending_good (requests : list (Z * list byte)) (calls : gmap Z RpcRequest) : Prop :=
  map_Forall (λ sid rq, rq_stream_id rq = sid ∧ known requests sid) calls.

Definition sending_ids (ts : list rc_thread) : list Z :=
  omap (λ t, match t with Sending id _ => Some id | _ => None end) ts.

(** The stream ids whose request has not reached a handler, and those that did. *)
Definition pp_ids (p : RpcPair) : list Z :=
  sending_ids (rg_threads (pp_client p)) ++ (pp_to_server p).*1 ++ pp_invoked p.

Record pp_good (p : RpcPair) : Prop := {
  pg_calls : length (rc_calls (rg_client (pp_client p))) = length (pp_requests p);
  pg_next : rc_next_stream_id (rg_client (pp_client p))
    = if decide (Z.of_nat (length (pp_requests p)) = 0xFFFFFF) then 1 else Z.of_nat (length (pp_requests p)) + 1;
  pg_outgoing : map_Forall (λ id call, id = Z.of_nat call + 1 ∧ known (pp_requests p) id)
    (rc_outgoing_calls (rg_client (pp_client p)));
  pg_messages : Forall2 (λ call m, request_good (pp_requests p) call m) (seq 0 (length (pp_requests p))) (pp_messages p);
  pg_threads : Forall (thread_good (pp_requests p)) (rg_threads (pp_client p));
  pg_log : Forall (λ cp, outcome (pp_requests p) (cp_call cp) (cp_status cp) (cp_payload cp)) (rg_log (pp_client p));
  pg_to_server : Forall (λ m, pp_messages p !! call_of m.1 = Some m.2) (pp_to_server p);
  pg_to_client : Forall (message_good (pp_requests p)) (pp_to_client p);
  pg_pending : pending_good (pp_requests p) (rv_pending_calls (pp_server p));
  pg_running : Forall (invocation_good (pp_requests p)) (pp_running p);
  pg_once : NoDup (pp_ids p);
  pg_known : Forall (known (pp_requests p)) (pp_ids p);
}.

(** Fewer than 2^24 calls have been made. *)
Definition few_calls (p : RpcPair) : Prop := Z.of_nat (length (pp_requests p)) ≤ 0xFFFFFF.

Lemma pp_start_good conn : pp_good (pp_start conn).
Proof.
  split; try done; try apply map_Forall_empty; constructor.
Qed.

(** *** More calls do not change what is known of the earlier ones *)

Section Growth.

Context (requests more : list (Z * list byte)).

Lemma known_more id : known requests id → known (requests ++ more) id.
Proof. unfold known. rewrite length_app. lia. Qed.

Lemma outcome_more call status payload : outcome requests call status payload → outcome (requests ++ more) call status payload.
Proof. intros (fid & req & Hl & H). exists fid, req. split; [by apply lookup_app_l_Some|done]. Qed.

Lemma thread_more t : thread_good requests t → thread_good (requests ++ more) t.
Proof. destruct t; cbn; auto using outcome_more. intros []. auto using known_more. Qed.

Lemma request_more call m : request_good requests call m → request_good (requests ++ more) call m.
Proof. intros (fid & req & tmo & Hl & H). exists fid, req, tmo. split; [by apply lookup_app_l_Some|done]. Qed.

Lemma message_more m : message_good requests m → message_good (requests ++ more) m.
Proof.
  intros (id & header & payload & -> & st & Hs & Hok & Hk & Ho). exists id, header, payload. split; [done|].
  exists st. auto using known_more, outcome_more.
Qed.

Lemma invocation_more iv : invocation_good requests iv → invocation_good (requests ++ more) iv.
Proof.
  intros (fid & Hk & Hl & Hh). exists fid. split; [by apply known_more|]. split; [by apply lookup_app_l_Some|done].
Qed.

Lemma pending_more calls : pending_good requests calls → pending_good (requests ++ more) calls.
Proof. intros H sid rq Hl. destruct (H sid rq Hl). auto using known_more. Qed.

End Growth.

(** *** The client's steps *)

Lemma call_of_succ call : call_of (Z.of_nat call + 1) = call.
Proof. unfold call_of. lia. Qed.

Lemma known_lookup requests id : known requests id → is_Some (requests !! call_of id).
Proof. unfold known, call_of. intros H. apply lookup_lt_is_Some. lia. Qed.

Lemma messages_lookup p call m :
  pp_good p → pp_messages p !! call = Some m → request_good (pp_requests p) call m.
Proof.
  intros Hg Hl. destruct (Forall2_lookup_r _ _ _ _ _ (pg_messages _ Hg) Hl) as (i & Hi & H).
  apply lookup_seq in Hi as [-> _]. exact H.
Qed.

Lemma send_begin_next fid tmo cb c call id header c' :
  RpcClient_send_begin fid tmo cb c = Some (call, id, header, c') →
  rc_next_stream_id c' = let next := u32 (rc_next_stream_id c + 1) in if 0x00FFFFFF <? next then 1 else next.
Proof.
  unfold RpcClient_send_begin. cbn. intros H. destruct (RpcHeader_serialize _ _); [|done].
  cbn in H. destruct (check _); [|done]. cbn in H. injection H as _ _ _ <-. done.
Qed.

Lemma pp_call_good p fid tmo cb payload call id header c' ts :
  pp_good p → Z.of_nat (length (pp_requests p)) + 1 ≤ 0xFFFFFF →
  0 ≤ fid < 2 ^ 32 → (∀ t, tmo = Some t → 0 ≤ t < 2 ^ 32) →
  RpcClient_send_begin fid tmo cb (rg_client (pp_client p)) = Some (call, id, header, c') →
  pp_good (mkRpcPair (mkRcConfig c' (Sending id call :: rg_threads (pp_client p)) (rg_log (pp_client p))
                        (rg_refused (pp_client p)) ts)
             (pp_client_on p) (pp_server p) (pp_server_on p) (pp_connection p) (pp_to_server p)
             (pp_to_client p) (pp_running p) (pp_requests p ++ [(fid, payload)])
             (pp_messages p ++ [header ++ payload]) (pp_invoked p)).
Proof.
  intros Hg Hfew Hfid Htmo Hb. pose proof Hg as [Hcalls Hnext Hout Hmsg Hthr Hlog Hts Htc Hpend Hrun Hnd Hkn].
  set (n := length (pp_requests p)) in *. rewrite decide_False in Hnext by lia.
  destruct (send_begin_inv _ _ _ _ _ _ _ _ Hb) as (Hcall & Hid & Hc' & Ho').
  destruct (send_begin_message fid tmo cb (rg_client (pp_client p)) payload Hfid Htmo ltac:(lia))
    as (call1 & header1 & c1 & h & Hb1 & Hd & Hh). rewrite Hb in Hb1. injection Hb1 as <- _ <- <-.
  assert (Hidn : id = Z.of_nat n + 1) by congruence. rewrite Hcalls in Hcall. subst call.
  assert (Hfree : rc_outgoing_calls (rg_client (pp_client p)) !! id = None).
  { destruct (rc_outgoing_calls _ !! id) as [call|] eqn:Hl; [exfalso|done].
    destruct (Hout _ _ Hl) as [_ Hk]. unfold known in Hk. fold n in Hk. lia. }
  rewrite Hfree in Ho'.
  assert (Hkid : known (pp_requests p ++ [(fid, payload)]) id) by (unfold known; rewrite length_app; cbn; lia).
  split; cbn [pp_client pp_requests pp_messages pp_to_server pp_to_client pp_server pp_running pp_invoked
    rg_client rg_threads rg_log pp_ids].
  - rewrite Hc', !length_app, Hcalls. done.
  - rewrite (send_begin_next _ _ _ _ _ _ _ _ Hb), length_app, Hnext. cbn [length]. fold n.
    rewrite u32_small by lia. replace (Z.of_nat (n + 1)) with (Z.of_nat n + 1) by lia.
    destruct (Z.ltb_spec 16777215 (Z.of_nat n + 1 + 1)); case_decide; lia.
  - rewrite Ho'. apply map_Forall_insert_2; [by split|]. intros id' call' Hl. destruct (Hout _ _ Hl). auto using known_more.
  - rewrite length_app. cbn [length]. rewrite seq_app. apply Forall2_app.
    + eapply Forall2_impl; [exact Hmsg|]. intros. by apply request_more.
    + constructor; [|constructor]. exists fid, payload, tmo. cbn [Nat.add]. fold n.
      split; [rewrite lookup_app_r by done; by rewrite Nat.sub_diag|]. rewrite Hd, Hh, Hnext. done.
  - constructor; [done|]. eapply Forall_impl; [exact Hthr|]. intros. by apply thread_more.
  - eapply Forall_impl; [exact Hlog|]. intros. by apply outcome_more.
  - eapply Forall_impl; [exact Hts|]. intros. by apply lookup_app_l_Some.
  - eapply Forall_impl; [exact Htc|]. intros. by apply message_more.
  - by apply pending_more.
  - eapply Forall_impl; [exact Hrun|]. intros. by apply invocation_more.
  - constructor; [|exact Hnd]. intros Hin. rewrite Forall_forall in Hkn. specialize (Hkn id Hin).
    unfold known in Hkn. fold n in Hkn. lia.
  - constructor; [done|]. eapply Forall_impl; [exact Hkn|]. intros. by apply known_more.
Qed.

(** A step of the client that neither makes a call nor sends a message: its threads are
    fewer or known to be good. *)
Lemma pp_client_good p c' ts log refused reused :
  pp_good p → length (rc_calls c') = length (rc_calls (rg_client (pp_client p))) →
  rc_next_stream_id c' = rc_next_stream_id (rg_client (pp_client p)) →
  rc_outgoing_calls c' ⊆ rc_outgoing_calls (rg_client (pp_client p)) →
  Forall (thread_good (pp_requests p)) ts →
  Forall (λ cp, outcome (pp_requests p) (cp_call cp) (cp_status cp) (cp_payload cp)) log →
  sending_ids ts `sublist_of` sending_ids (rg_threads (pp_client p)) →
  pp_good (pp_with_client (mkRcConfig c' ts log refused reused) p).
Proof.
  intros Hg Hlen Hn Ho Hts Hl Hsub. destruct Hg as [Hcalls Hnext Hout Hmsg Hthr Hlog Hto Htc Hpend Hrun Hnd Hkn].
  assert (Hids : pp_ids (pp_with_client (mkRcConfig c' ts log refused reused) p) `sublist_of` pp_ids p)
    by (unfold pp_ids; cbn; by apply sublist_app).
  split; auto; cbn; try congruence.
  - intros id call Hlk. apply Hout. by eapply lookup_weaken.
  - by eapply sublist_NoDup.
  - rewrite Forall_forall in Hkn |- *. intros id Hin. apply Hkn. by eapply elem_of_sublist.
Qed.

Lemma sending_ids_app ts us : sending_ids (ts ++ us) = sending_ids ts ++ sending_ids us.
Proof. apply omap_app. Qed.

(** A thread goes on to something else than sending. *)
Lemma sending_ids_replace ts1 t us ts2 :
  sending_ids us = [] → sending_ids (ts1 ++ us ++ ts2) `sublist_of` sending_ids (ts1 ++ t :: ts2).
Proof.
  intros Hu. rewrite !sending_ids_app, Hu. cbn. apply sublist_app; [done|]. destruct t; cbn; by try constructor.
Qed.

(** *** The responses of the server *)

Lemma outcome_any requests call status payload payload' :
  status ≠ RpcOk → outcome requests call status payload → outcome requests call status payload'.
Proof. intros Hs (fid & req & Hl & [[? _]|H]); [done|]. exists fid, req. auto. Qed.

Lemma outcome_expired requests id payload :
  known requests id → outcome requests (call_of id) RpcDeadlineExceeded payload.
Proof. intros Hk. destruct (known_lookup _ _ Hk) as [[fid req] Hl]. exists fid, req. auto 10. Qed.

(** An effect that is a good response. *)
Definition responds_good (requests : list (Z * list byte)) (es : list rv_effect) : Prop :=
  es = [] ∨ ∃ conn id header payload, es = [Respond conn id header payload] ∧ response_good requests id header payload.

Lemma sendResponse_good requests conn id status payload e :
  status_ok status → known requests id → outcome requests (call_of id) status payload →
  RpcServer_sendResponse conn id status payload = Some e → responds_good requests [e].
Proof.
  intros Hs Hk Ho H. unfold RpcServer_sendResponse in H. inv_bind H. injection H as <-. right.
  do 4 eexists. split; [done|]. exists status. auto.
Qed.

Lemma prep_good conn id status now s answer s' requests :
  pending_good requests (rv_pending_calls s) → RpcServer_prepForResponse conn id status now s = (answer, s') →
  pending_good requests (rv_pending_calls s')
  ∧ match answer with
    | None => True
    | Some status' => known requests id ∧ (status' = status ∨ status' = RpcDeadlineExceeded)
    end.
Proof.
  intros Hp. unfold RpcServer_prepForResponse. destruct (negb _); [by intros [= <- <-]|].
  destruct (rv_pending_calls s !! id) as [rq|] eqn:Hl; [|by intros [= <- <-]].
  destruct (negb _); [by intros [= <- <-]|]. intros [= <- <-]. split; [by apply map_Forall_delete|].
  split; [apply (Hp _ _ Hl)|]. destruct (_ <=? _); auto.
Qed.

Lemma success_good requests conn id payload now s es s' :
  pending_good requests (rv_pending_calls s) → outcome requests (call_of id) RpcOk payload →
  RpcServer_sendSuccessResponse conn id payload now s = Some (es, s') →
  pending_good requests (rv_pending_calls s') ∧ responds_good requests es.
Proof.
  intros Hp Ho H. unfold RpcServer_sendSuccessResponse in H.
  destruct (RpcServer_prepForResponse _ _ _ _ _) as [[st|] s1] eqn:Hprep;
    destruct (prep_good _ _ _ _ _ _ _ _ Hp Hprep) as [Hp1 Hst]; [|injection H as <- <-; split; [done|by left]].
  inv_bind H. injection H as <- <-. split; [done|]. destruct Hst as [Hk [-> | ->]].
  - rewrite decide_False in E by done. exact (sendResponse_good _ _ _ RpcOk _ _ I Hk Ho E).
  - rewrite decide_True in E by done.
    exact (sendResponse_good _ _ _ RpcDeadlineExceeded _ _ I Hk (outcome_expired _ _ _ Hk) E).
Qed.

Lemma failure_good requests conn id status msg now s es s' :
  pending_good requests (rv_pending_calls s) → status_ok status →
  (known requests id → ∀ payload, outcome requests (call_of id) status payload) →
  RpcServer_sendFailureResponse conn id status msg now s = Some (es, s') →
  pending_good requests (rv_pending_calls s') ∧ responds_good requests es.
Proof.
  intros Hp Hs Ho H. unfold RpcServer_sendFailureResponse in H.
  destruct (RpcServer_prepForResponse _ _ _ _ _) as [[st|] s1] eqn:Hprep;
    destruct (prep_good _ _ _ _ _ _ _ _ Hp Hprep) as [Hp1 Hst]; [|injection H as <- <-; split; [done|by left]].
  inv_bind H. injection H as <- <-. split; [done|]. destruct Hst as [Hk [-> | ->]].
  - exact (sendResponse_good _ _ _ _ _ _ Hs Hk (Ho Hk _) E).
  - exact (sendResponse_good _ _ _ RpcDeadlineExceeded _ _ I Hk (outcome_expired _ _ _ Hk) E).
Qed.

(** What a request makes the server do: call the handler with it, answer it, or nothing. *)
Lemma handleRequest_good requests call message conn now now1 now2 s es s' :
  pending_good requests (rv_pending_calls s) → request_good requests call message →
  known requests (Z.of_nat call + 1) →
  RpcServer_handleRequest handlers conn message now now1 now2 s = Some (es, s') →
  pending_good requests (rv_pending_calls s')
  ∧ (responds_good requests es
     ∨ ∃ h payload, es = [Invoke h conn (Z.of_nat call + 1) payload true]
         ∧ invocation_good requests (mkInvocation h conn (Z.of_nat call + 1) payload)).
Proof.
  intros Hp (fid & req & tmo & Hl & Hd) Hk H. unfold RpcServer_handleRequest in H. rewrite Hd in H.
  assert (Hp1 : pending_good requests (rv_pending_calls (RpcServer_reconnected conn s))).
  { unfold RpcServer_reconnected. destruct (conn =? _); [done|apply map_Forall_empty]. }
  set (s1 := RpcServer_reconnected conn s) in *. clearbody s1.
  change (is_type RkRequest _) with true in H. change (RpcHeader_functionId _) with (Some fid) in H.
  cbn [negb rh_first_message rh_stream_id rh_has_timeout rh_last_message mbind option_bind] in H.
  match type of H with context [mbind _ ?m] => destruct m as [deadline|]; [|discriminate H] end.
  cbn [mbind option_bind] in H.
  destruct (RpcServer_accept _ _ _ _ _ _ s1) as [s2|] eqn:Ha; [|injection H as <- <-; split; [done|left; by left]].
  assert (Hp2 : pending_good requests (rv_pending_calls s2)).
  { unfold RpcServer_accept in Ha. destruct (rv_pending_calls s1 !! _); [discriminate Ha|].
    destruct (negb _); [discriminate Ha|]. injection Ha as <-. cbn. by apply map_Forall_insert_2. }
  destruct (deadline <=? now1).
  { destruct (failure_good requests conn (Z.of_nat call + 1) RpcDeadlineExceeded (text "deadline exceeded") now2
      s2 es s' Hp2 I (λ Hk p, outcome_expired _ _ p Hk) H). auto. }
  destruct (handlers fid) as [h|] eqn:Hh.
  - injection H as <- <-. split; [done|]. right. exists h, req. split; [done|]. exists fid.
    cbn. by rewrite call_of_succ.
  - destruct (failure_good requests conn (Z.of_nat call + 1) RpcUnimplemented (text "Unknown function ID") now2 s2 es s' Hp2 I)
      as [? ?]; [|done|auto].
    intros _ payload. rewrite call_of_succ. exists fid, req. split; [done|]. right. auto 10.
Qed.

(** *** The steps *)

Lemma pp_with_server_good s p :
  pp_good p → pending_good (pp_requests p) (rv_pending_calls s) → pp_good (pp_with_server s p).
Proof. intros [] Hp. by split. Qed.

Lemma pp_with_to_client_good ms p :
  pp_good p → Forall (message_good (pp_requests p)) ms → pp_good (pp_with_to_client ms p).
Proof. intros [] Hm. by split. Qed.

Lemma pp_responds_good es p : pp_good p → responds_good (pp_requests p) es → pp_good (pp_effects es p).
Proof.
  intros Hg [-> | (conn & id & header & payload & -> & Hr)]; [done|]. cbn. destruct (conn =? _); [|done].
  apply pp_with_to_client_good; [done|]. apply Forall_app. split; [apply (pg_to_client _ Hg)|].
  constructor; [|constructor]. by exists id, header, payload.
Qed.

Lemma pp_invoke_good h conn id payload fin p :
  pp_good p → invocation_good (pp_requests p) (mkInvocation h conn id payload) → id ∉ pp_ids p →
  pp_good (pp_effects [Invoke h conn id payload fin] p).
Proof.
  intros [Hcalls Hnext Hout Hmsg Hthr Hlog Hts Htc Hpend Hrun Hnd Hkn] Hiv Hnew. cbn.
  assert (Hperm : ∀ l : list Z, l = sending_ids (rg_threads (pp_client p)) ++ (pp_to_server p).*1 ++ id :: pp_invoked p →
    l ≡ₚ id :: pp_ids p).
  { intros l ->. unfold pp_ids. rewrite (app_assoc _ _ (id :: _)), (app_assoc _ _ (pp_invoked p)). symmetry. apply Permutation_middle. }
  split; cbn [pp_client pp_requests pp_messages pp_to_server pp_to_client pp_server pp_running pp_invoked]; auto;
    unfold pp_ids; cbn [pp_client pp_to_server pp_invoked].
  - rewrite (Hperm _ eq_refl). by constructor.
  - rewrite (Hperm _ eq_refl). constructor; [|done]. by destruct Hiv as (fid & ? & _).
Qed.

(** The message at the head of the way to the server is taken off it. *)
Lemma pp_take_good p id message rest :
  pp_good p → pp_to_server p = (id, message) :: rest →
  let p1 := pp_with_to_server rest p in
  pp_good p1 ∧ id ∉ pp_ids p1 ∧ known (pp_requests p) id ∧ request_good (pp_requests p) (call_of id) message.
Proof.
  intros Hg Hto p1. pose proof Hg as [Hcalls Hnext Hout Hmsg Hthr Hlog Hts Htc Hpend Hrun Hnd Hkn].
  assert (Hperm : pp_ids p ≡ₚ id :: pp_ids p1).
  { unfold pp_ids, p1. rewrite Hto. cbn. symmetry. apply Permutation_middle. }
  rewrite Hperm in Hnd, Hkn. apply NoDup_cons in Hnd as [Hnew Hnd]. apply Forall_cons in Hkn as [Hk Hkn].
  rewrite Hto in Hts. apply Forall_cons in Hts as [Hm Hts].
  split; [by split|]. split; [done|]. split; [done|]. by apply messages_lookup.
Qed.

Lemma handleResponse_good p message claimed c' :
  pp_good p → few_calls p → message_good (pp_requests p) message →
  RpcClient_handleResponse message (rg_client (pp_client p)) = Some (claimed, c') →
  rc_calls c' = rc_calls (rg_client (pp_client p))
  ∧ rc_next_stream_id c' = rc_next_stream_id (rg_client (pp_client p))
  ∧ rc_outgoing_calls c' ⊆ rc_outgoing_calls (rg_client (pp_client p))
  ∧ match claimed with
    | Some (call, payload, status) => outcome (pp_requests p) call status payload
    | None => True
    end.
Proof.
  intros Hg Hfew (id & header & payload & -> & st & Hs & Hok & Hk & Ho) H.
  destruct (header_roundtrip (RpcHeader_NewUnaryResponse id st) payload) as (header' & Hs' & _ & Hd).
  { unfold known, few_calls in *. split; [done|]. split; [cbn; lia|done]. }
  rewrite Hs in Hs'. injection Hs' as <-. unfold RpcClient_handleResponse in H. rewrite Hd in H.
  change (is_type RkResponse _) with true in H. cbn [negb rh_stream_id rh_last_message RpcHeader_NewUnaryResponse] in H.
  destruct (rc_outgoing_calls (rg_client (pp_client p)) !! id) as [call|] eqn:Hl.
  2:{ injection H as <- <-. split_and!; done. }
  change (RpcHeader_responseStatus _) with (Some st) in H. cbn [mbind option_bind] in H. injection H as <- <-.
  split; [done|]. split; [done|]. split; [apply delete_subseteq|].
  destruct (pg_outgoing _ Hg _ _ Hl) as [-> _]. by rewrite call_of_succ in Ho.
Qed.

(** The steps of the client's threads. *)
Lemma pp_sent_good p id call ts1 ts2 message :
  pp_good p → rg_threads (pp_client p) = ts1 ++ Sending id call :: ts2 → pp_messages p !! call = Some message →
  pp_good (pp_with_to_server (pp_to_server p ++ [(id, message)])
    (pp_with_client (mkRcConfig (rg_client (pp_client p)) (ts1 ++ ts2) (rg_log (pp_client p))
       (rg_refused (pp_client p)) (rg_reused (pp_client p))) p)).
Proof.
  intros [Hcalls Hnext Hout Hmsg Hthr Hlog Hts Htc Hpend Hrun Hnd Hkn] Ht Hm. set (p' := pp_with_to_server _ _).
  assert (Hperm : pp_ids p' ≡ₚ pp_ids p).
  { unfold pp_ids, p'. cbn. rewrite Ht, fmap_app, !sending_ids_app. cbn. rewrite <- !app_assoc.
    apply Permutation_app_head. cbn. rewrite !app_assoc. symmetry. apply Permutation_middle. }
  rewrite Ht in Hthr. apply Forall_app in Hthr as [Ht1 [[Hid _] Ht2]%Forall_cons].
  split; rewrite ?Hperm; auto; cbn.
  - by apply Forall_app.
  - apply Forall_app. split; [done|]. constructor; [|constructor]. cbn. by rewrite Hid, call_of_succ.
Qed.

Lemma pp_thread_good p t ts1 ts2 us :
  pp_good p → rg_threads (pp_client p) = ts1 ++ t :: ts2 → sending_ids us = [] →
  Forall (thread_good (pp_requests p)) us →
  Forall (thread_good (pp_requests p)) (ts1 ++ us ++ ts2)
  ∧ sending_ids (ts1 ++ us ++ ts2) `sublist_of` sending_ids (rg_threads (pp_client p)).
Proof.
  intros Hg Ht Hu Hus. pose proof (pg_threads _ Hg) as Hthr. rewrite Ht in *.
  apply Forall_app in Hthr as [Ht1 [_ Ht2]%Forall_cons]. split; [by rewrite !Forall_app|by apply sending_ids_replace].
Qed.

Lemma pp_reset_good p calls c' :
  pp_good p → RpcClient_connectionReset (rg_client (pp_client p)) = (calls, c') →
  Forall (thread_good (pp_requests p)) ((λ call, Completing call [] RpcUnavailable) <$> calls).
Proof.
  intros Hg [= <- _]. apply Forall_fmap, Forall_fmap, Forall_forall. intros [id call] Hin. cbn.
  apply elem_of_map_to_list in Hin. destruct (pg_outgoing _ Hg _ _ Hin) as [-> Hk].
  destruct (known_lookup _ _ Hk) as [[fid req] Hl]. rewrite call_of_succ in Hl. exists fid, req. auto 10.
Qed.

(** A response reaches the client. *)
Lemma pp_response_good p message rest claimed c' :
  pp_good p → few_calls p → pp_to_client p = message :: rest →
  RpcClient_handleResponse message (rg_client (pp_client p)) = Some (claimed, c') →
  pp_good (pp_with_to_client rest (pp_with_client (mkRcConfig c'
    (match claimed with
     | Some (call, payload, status) => Completing call payload status :: rg_threads (pp_client p)
     | None => rg_threads (pp_client p)
     end) (rg_log (pp_client p)) (rg_refused (pp_client p)) (rg_reused (pp_client p))) p)).
Proof.
  intros Hg Hfew Hto Hh. pose proof (pg_to_client _ Hg) as Htc. rewrite Hto in Htc. apply Forall_cons in Htc as [Hm Htc].
  destruct (handleResponse_good p message claimed c' Hg Hfew Hm Hh) as (Hc & Hn & Ho & Hcl).
  apply pp_with_to_client_good; [|done]. apply pp_client_good; auto; [by rewrite Hc| |apply (pg_log _ Hg)|].
  - destruct claimed as [[[call payload] st]|]; [|apply (pg_threads _ Hg)].
    constructor; [done|apply (pg_threads _ Hg)].
  - by destruct claimed as [[[call payload] st]|].
Qed.

(** A request reaches the server. *)
Lemma pp_request_good p id message rest now now1 now2 es s' :
  pp_good p → pp_to_server p = (id, message) :: rest →
  RpcServer_handleRequest handlers (pp_connection p) message now now1 now2 (pp_server p) = Some (es, s') →
  pp_good (pp_effects es (pp_with_server s' (pp_with_to_server rest p))).
Proof.
  intros Hg Hto Hh. destruct (pp_take_good p id message rest Hg Hto) as (Hg1 & Hnew & Hk & Hreq).
  assert (Hid : id = Z.of_nat (call_of id) + 1) by (unfold known, call_of in *; lia).
  destruct (handleRequest_good (pp_requests p) (call_of id) message (pp_connection p) now now1 now2 (pp_server p) es s'
    (pg_pending _ Hg) Hreq ltac:(by rewrite <- Hid) Hh) as (Hp & Hes).
  assert (Hg2 : pp_good (pp_with_server s' (pp_with_to_server rest p))) by (by apply pp_with_server_good).
  destruct Hes as [Hes|(h & payload & -> & Hiv)]; [by apply pp_responds_good|].
  rewrite <- Hid in *. by apply pp_invoke_good.
Qed.

(** A handler answers. *)
Lemma pp_answer_good p iv status result now es s' :
  pp_good p → iv ∈ pp_running p → may_answer (iv_handler iv) (iv_payload iv) status result → status_ok status →
  pp_respond iv status result now (pp_server p) = Some (es, s') → pp_good (pp_effects es (pp_with_server s' p)).
Proof.
  intros Hg Hin Hans Hok Hr. pose proof (pg_running _ Hg) as Hrun. rewrite Forall_forall in Hrun.
  destruct (Hrun iv Hin) as (fid & Hk & Hl & Hh). unfold pp_respond in Hr.
  assert (Hes : pending_good (pp_requests p) (rv_pending_calls s') ∧ responds_good (pp_requests p) es).
  { case_decide as Hst.
    - subst status. eapply success_good; [apply (pg_pending _ Hg)| |exact Hr]. exists fid, (iv_payload iv). eauto 10.
    - eapply failure_good; [apply (pg_pending _ Hg)|exact Hok| |exact Hr].
      intros _ payload. exists fid, (iv_payload iv). split; [done|]. right. eauto 10. }
  destruct Hes as [Hp Hes]. apply pp_responds_good; [by apply pp_with_server_good|done].
Qed.

(** A deadline passes. *)
Lemma pp_deadline_good p now response s' :
  pp_good p → RpcServer_deadlineLoop_round now (pp_server p) = Some (Expired response s') →
  pp_good (pp_effects [response] (pp_with_server s' p)).
Proof.
  intros Hg Hr. unfold RpcServer_deadlineLoop_round in Hr. destruct (earliest _) as [[sid rq]|] eqn:He; [|done].
  destruct (now <? _); [done|]. apply earliest_in, elem_of_map_to_list in He.
  destruct (pg_pending _ Hg _ _ He) as [Hsid Hk]. inv_bind Hr. injection Hr as <- <-. apply pp_responds_good.
  - apply pp_with_server_good; [done|]. cbn. apply map_Forall_delete, (pg_pending _ Hg).
  - rewrite Hsid in E. exact (sendResponse_good _ _ _ RpcDeadlineExceeded _ _ I Hk (outcome_expired _ _ _ Hk) E).
Qed.

(** The connection breaks. *)
Lemma pp_disconnect_good p connection_id :
  pp_good p →
  pp_good (mkRpcPair (pp_client p) (pp_client_on p) (pp_server p) (pp_server_on p) connection_id [] []
    (pp_running p) (pp_requests p) (pp_messages p) (pp_invoked p)).
Proof.
  intros [Hcalls Hnext Hout Hmsg Hthr Hlog Hts Htc Hpend Hrun Hnd Hkn].
  assert (Hids : sending_ids (rg_threads (pp_client p)) ++ [] ++ pp_invoked p `sublist_of` pp_ids p).
  { apply sublist_app; [done|]. by apply sublist_inserts_l. }
  split; auto; unfold pp_ids; cbn [pp_client pp_to_server pp_invoked fmap list_fmap].
  - by eapply sublist_NoDup.
  - rewrite Forall_forall in Hkn |- *. intros id Hin. apply Hkn. by eapply elem_of_sublist.
Qed.

(** The connection is reset under the client. *)
Lemma pp_client_reset_good p calls c' :
  pp_good p → RpcClient_connectionReset (rg_client (pp_client p)) = (calls, c') →
  pp_good (pp_with_client (mkRcConfig c'
    (((λ call, Completing call [] RpcUnavailable) <$> calls) ++ rg_threads (pp_client p))
    (rg_log (pp_client p)) (rg_refused (pp_client p)) (rg_reused (pp_client p))) p).
Proof.
  intros Hg Hr. pose proof (pp_reset_good p calls c' Hg Hr) as Hts. injection Hr as <- <-.
  apply pp_client_good; auto; [apply map_empty_subseteq| |apply (pg_log _ Hg)|].
  - apply Forall_app. split; [done|apply (pg_threads _ Hg)].
  - rewrite sending_ids_app. replace (sending_ids (_ <$> _)) with (@nil Z); [done|].
    unfold sending_ids. symmetry. clear. induction (_.*2) as [|x l IH]; [done|exact IH].
Qed.

(** A thread of the client completes a call. *)
Lemma pp_complete_good p call payload status cb c' ts1 ts2 :
  pp_good p → rg_threads (pp_client p) = ts1 ++ Completing call payload status :: ts2 →
  RpcClient_complete call (rg_client (pp_client p)) = (cb, c') →
  pp_good (pp_with_client (mkRcConfig c' (ts1 ++ ts2)
    (match cb with Some _ => mkCompletion call payload status :: rg_log (pp_client p) | None => rg_log (pp_client p) end)
    (rg_refused (pp_client p)) (rg_reused (pp_client p))) p).
Proof.
  intros Hg Ht Hc. destruct (pp_thread_good p _ ts1 ts2 [] Hg Ht eq_refl) as [? ?]; [done|]. injection Hc as <- <-.
  apply pp_client_good; auto; [cbn; apply length_insert|]. destruct (mjoin _); [|apply (pg_log _ Hg)].
  constructor; [|apply (pg_log _ Hg)]. cbn. pose proof (pg_threads _ Hg) as Hthr. rewrite Ht in Hthr.
  by apply Forall_app in Hthr as [_ [Ho _]%Forall_cons].
Qed.

(** The completion function of an [AsyncUnaryHandler], and so also a [UnaryHandler]
    ([UnaryHandler_async]), answers in this way. *)
Lemma AsyncUnaryHandler_answers {Response} `{Serializer Response} (status : RpcStatus) (v : Response)
    (iv : Invocation) (now : Z) (s : RpcServer) :
  AsyncUnaryHandler_complete status v (iv_connection_id iv) (iv_stream_id iv) now s
  = pp_respond iv status (if decide (status = RpcOk) then (serialize v).2 else text "application error") now s.
Proof. unfold AsyncUnaryHandler_complete, pp_respond. case_decide; case_bool_decide; done. Qed.

Lemma pp_step_good p p' :
  pp_good p → few_calls p' → pp_step handlers may_answer p p' → pp_good p'.
Proof.
  intros Hg Hfew H. destruct H as
    [p fid tmo cb payload call id header c' g Hfid Htmo Hb|p id call ts1 ts2 m g Ht Hm|p id call ts1 ts2 g Ht
    |p call ts1 ts2 g Ht|p call payload st cb c' ts1 ts2 g Ht Hc|p m rest claimed c' g Hto Hon Hh|p m rest Hto Hon
    |p calls c' g Hon Hr|p|p|p id m rest now now1 now2 es s' Hto Hon Hh|p id m rest Hto Hon
    |p iv st result now es s' Hin Hans Hok Hr|p now response s' Hact Hr|p conn Hon|p|p|p conn].
  - apply (pp_call_good p fid tmo cb); auto. unfold few_calls in Hfew. cbn in Hfew. rewrite length_app in Hfew.
    cbn in Hfew. lia.
  - by apply (pp_sent_good p id call).
  - destruct (pp_thread_good p _ ts1 ts2 [Cancelling call] Hg Ht eq_refl) as [? ?]; [by repeat constructor|].
    apply pp_client_good; auto; [apply delete_subseteq|apply (pg_log _ Hg)].
  - destruct (pp_thread_good p _ ts1 ts2 [] Hg Ht eq_refl) as [? ?]; [done|].
    apply pp_client_good; auto; [cbn; apply length_insert|apply (pg_log _ Hg)].
  - by apply pp_complete_good.
  - by eapply pp_response_good.
  - pose proof (pg_to_client _ Hg) as Htc. rewrite Hto in Htc. apply Forall_cons in Htc as [_ Htc].
    by apply pp_with_to_client_good.
  - by apply pp_client_reset_good.
  - destruct Hg. by split.
  - destruct Hg. by split.
  - by eapply pp_request_good.
  - by destruct (pp_take_good p id m rest Hg Hto) as (Hg1 & _).
  - by eapply pp_answer_good.
  - by eapply pp_deadline_good.
  - apply pp_with_server_good; [done|]. unfold RpcServer_connectionReset.
    destruct (negb _); [apply (pg_pending _ Hg)|apply map_Forall_empty].
  - destruct Hg. by split.
  - destruct Hg. split; auto. apply map_Forall_empty.
  - by apply pp_disconnect_good.
Qed.

Lemma pp_effects_requests es p : pp_requests (pp_effects es p) = pp_requests p.
Proof.
  revert p. induction es as [|e es IH]; intros p; [done|]. transitivity (pp_requests (pp_effect p e)); [apply IH|]. destruct e; cbn; [|done]. by destruct (_ =? _).
Qed.

Lemma pp_step_few p p' : pp_step handlers may_answer p p' → few_calls p' → few_calls p.
Proof.
  unfold few_calls. intros []; rewrite ?pp_effects_requests; try done. cbn. rewrite length_app. cbn. lia.
Qed.

Lemma pp_reachable_good p : pp_reachable handlers may_answer p → few_calls p → pp_good p.
Proof.
  intros [conn Hr]. revert p Hr. apply (rtc_ind_r (λ p, few_calls p → pp_good p)); [intros; apply pp_start_good|].
  intros p p' _ Hs IH Hfew. eapply pp_step_good; [|done|done]. apply IH. by eapply pp_step_few.
Qed.

(** *** The client of a pair is a client *)

Lemma pp_effects_client es p : pp_client (pp_effects es p) = pp_client p.
Proof.
  revert p. induction es as [|e es IH]; intros p; [done|]. transitivity (pp_client (pp_effect p e)); [apply IH|].
  destruct e; cbn; [|done]. by destruct (_ =? _).
Qed.

Lemma pp_step_client p p' : pp_step handlers may_answer p p' → rtc rc_step (pp_client p) (pp_client p').
Proof.
  intros H. destruct H as
    [p fid tmo cb payload call id header c' g Hfid Htmo Hb|p id call ts1 ts2 m g Ht Hm|p id call ts1 ts2 g Ht
    |p call ts1 ts2 g Ht|p call payload st cb c' ts1 ts2 g Ht Hc|p m rest claimed c' g Hto Hon Hh| |p calls c' g Hon Hr
    | | | | | | | | | | ];
    rewrite ?pp_effects_client; try (apply rtc_refl); apply rtc_once; cbn [pp_client pp_with_to_client pp_with_to_server pp_with_client];
    subst g; destruct p as [[c ts log refused reused]];
    cbn [pp_client rg_client rg_threads rg_log rg_refused rg_reused] in *; subst.
  - by eapply rc_send_begin.
  - apply rc_send_accepted.
  - apply rc_send_refused.
  - apply rc_send_cancelled.
  - by apply rc_complete.
  - by eapply rc_response.
  - by apply rc_reset.
Qed.

Lemma pp_client_reachable p : pp_reachable handlers may_answer p → rc_reachable (pp_client p).
Proof.
  intros [conn Hr]. revert p Hr. apply (rtc_ind_r (λ p, rc_reachable (pp_client p))); [apply rtc_refl|].
  intros p p' _ Hs IH. unfold rc_reachable in *. etrans; [exact IH|by apply pp_step_client].
Qed.

(** C13: With a client and a server on a connection that keeps messages whole and in order
    while it lasts, with any number of calls, answers, expired deadlines, lost connections,
    restarts of either side and any interleaving of their threads, and fewer than 2^24
    calls: every completion that the client reports is of a call that was made, with an
    outcome of that very call: what a handler of its function answers to its own request,
    or that there is no handler, no time or no connection. No call is completed twice, no
    request reaches a handler twice, and every handler runs with the request of the call
    whose stream id it answers, of its own function. *)
Theorem Rpc_responses_match (p : RpcPair) (Hreach : pp_reachable handlers may_answer p) (Hfew : few_calls p) :
  Forall (λ cp, rpc_outcome handlers may_answer (pp_requests p) (cp_call cp) (cp_status cp) (cp_payload cp))
    (rg_log (pp_client p))
  ∧ NoDup (cp_call <$> rg_log (pp_client p))
  ∧ NoDup (pp_invoked p)
  ∧ Forall (λ iv, ∃ function_id, pp_requests p !! call_of (iv_stream_id iv) = Some (function_id, iv_payload iv)
                    ∧ handlers function_id = Some (iv_handler iv)) (pp_running p).
Proof.
  pose proof (pp_reachable_good p Hreach Hfew) as Hg. split_and!.
  - apply (pg_log _ Hg).
  - exact (rs_log _ (rc_safe_reachable _ _ rc_safe_start (pp_client_reachable p Hreach))).
  - pose proof (pg_once _ Hg) as Hnd. unfold pp_ids in Hnd. rewrite !NoDup_app in Hnd. by destruct Hnd as (_ & _ & _ & _ & ?).
  - eapply Forall_impl; [apply (pg_running _ Hg)|]. intros iv (fid & _ & Hl & Hh). by exists fid.
Qed.

End Invariant.

(** ** Witness *)

(** A handler that returns the request, with one byte in front. *)
Definition echo_answer (h : nat) (request : list byte) (status : RpcStatus) (result : list byte) : Prop :=
  status = RpcOk ∧ result = 1 :: request.

(** Evaluates the state that a run has come to. *)
Ltac pp_eval :=
  match goal with |- rtc _ ?p _ => let q := eval vm_compute in p in replace p with q by (vm_compute; reflexivity) end.

(** The first call, to function 300 with request [5], is answered and completed; the
    second, to a function that does not exist, is on its way to the server. *)
Lemma Rpc_responses_match_witness :
  ∃ p, pp_reachable demo_handlers echo_answer p ∧ few_calls p
    ∧ rg_log (pp_client p) = [mkCompletion 0 [1; 5] RpcOk]
    ∧ pp_requests p = [(300, [5]); (8, [6])] ∧ length (pp_to_server p) = 1%nat
    ∧ rpc_outcome demo_handlers echo_answer (pp_requests p) 0 RpcOk [1; 5].
Proof.
  assert (H : ∃ p, pp_reachable demo_handlers echo_answer p ∧ few_calls p
    ∧ rg_log (pp_client p) = [mkCompletion 0 [1; 5] RpcOk]
    ∧ pp_requests p = [(300, [5]); (8, [6])] ∧ length (pp_to_server p) = 1%nat).
  { eexists. split; [exists 7|split; [|split; [|split]]].
    - eapply rtc_l; [apply pp_client_begin|]; pp_eval.
      eapply rtc_l; [apply pp_server_begin|]; pp_eval.
      eapply rtc_l; [apply (pp_call _ _ _ 300 None 5 [5]); [lia|done|vm_compute; reflexivity]|]; pp_eval.
      eapply rtc_l; [apply (pp_sent _ _ _ 1 0 [] []); vm_compute; reflexivity|]; pp_eval.
      eapply rtc_l; [eapply (pp_request _ _ _ 1 [7; 0; 0; 1; 172; 2; 5] [] 1000 1001 1002); [reflexivity|reflexivity|vm_compute; reflexivity]|]; pp_eval.
      eapply rtc_l; [eapply (pp_answer _ _ _ (mkInvocation 1 7 1 [5]) RpcOk [1; 5] 1003);
        [vm_compute; left|by split|exact I|vm_compute; reflexivity]|]; pp_eval.
      eapply rtc_l; [eapply pp_response; vm_compute; reflexivity|]; pp_eval.
      eapply rtc_l; [apply (pp_call _ _ _ 8 None 6 [6]); [lia|done|vm_compute; reflexivity]|]; pp_eval.
      eapply rtc_l; [apply (pp_sent _ _ _ 2 1 [] [Completing 0 [1; 5] RpcOk]); vm_compute; reflexivity|]; pp_eval.
      eapply rtc_l; [eapply (pp_complete _ _ _ 0 [1; 5] RpcOk _ _ [] []); vm_compute; reflexivity|]; pp_eval.
      apply rtc_refl.
    - vm_compute. discriminate.
    - vm_compute. reflexivity.
    - vm_compute. reflexivity.
    - vm_compute. reflexivity. }
  destruct H as (p & Hr & Hf & Hl & Hq & Hto). exists p. split_and!; try done.
  destruct (Rpc_responses_match demo_handlers echo_answer p Hr Hf) as [Ho _]. rewrite Hl in Ho.
  by apply Forall_cons in Ho as [Ho _].
Defined.
