(* ===== verification/PicoDma.v ===== *)
(** * PicoDma: the DMA rings of the RP2040 UART

    [ReliableUartDma::Impl] of link/pico/reliable_uart_dma.cpp: a ring of 8192 bytes
    between the packet sender and the DMA channel that feeds the UART, shared by the
    thread in [write] and the DMA completion interrupt, and a ring that a DMA channel
    fills with what the UART receives. The counters are 32-bit and wrap. The DMA engine and
    the UART are the environment: the registers that the code reads are arguments, and a
    transfer is a sequence of single-byte steps that read the ring as it is at that
    moment. *)

From S2P Require Import Prelude.

Local Open Scope Z_scope.
Local Open Scope roo_scope.

Definition kRingSize : Z := 8192.
Definition kRingMask : Z := kRingSize - 1.

(** ** Sending *)

(** The part of [Impl] that the sending side uses. *)
Record DmaTx := mkDmaTx {
  tx_buffer : list byte;
  tx_head : Z;
  tx_tail : Z;
  tx_inflight : Z;
}.

(** What [startTx] asks the DMA channel for: an offset in the ring and a length. *)
Definition dma_request : Type := option (Z * Z).

Section Sending.

Definition startTx (s : DmaTx) : dma_request * DmaTx :=
  let inflight := Z.min (u32 (tx_head s - tx_tail s)) (kRingSize - Z.land (tx_tail s) kRingMask) in
  (if negb (inflight =? 0) then Some (Z.land (tx_tail s) kRingMask, inflight) else None,
   mkDmaTx (tx_buffer s) (tx_head s) (tx_tail s) inflight).

(** The completion interrupt, for an instance whose channel has finished. *)
Definition TxIrq_instance (s : DmaTx) : dma_request * DmaTx :=
  let s := mkDmaTx (tx_buffer s) (tx_head s) (u32 (tx_tail s + tx_inflight s)) (tx_inflight s) in
  let s := mkDmaTx (tx_buffer s) (tx_head s) (tx_tail s) 0 in
  startTx s.

(** The parts of an iteration of [write]: the free space, read under the lock; the chunk
    that fits before the ring wraps; the copy, which other steps may interrupt at any byte;
    and the publication, under the lock again. *)
Definition write_free (s : DmaTx) : Z := u32 (kRingSize - u32 (tx_head s - tx_tail s)).

Definition write_offset (s : DmaTx) : Z := Z.land (tx_head s) kRingMask.

Definition write_chunk (s : DmaTx) (free count : Z) : Z :=
  Z.min count (Z.min free (kRingSize - write_offset s)).

Definition write_copy (s : DmaTx) (i : nat) (b : byte) : option DmaTx :=
  buffer ← memcpy (tx_buffer s) (Z.to_nat (write_offset s) + i) [b];
  Some (mkDmaTx buffer (tx_head s) (tx_tail s) (tx_inflight s)).

Definition write_publish (s : DmaTx) (chunk : Z) : dma_request * DmaTx :=
  let s := mkDmaTx (tx_buffer s) (u32 (tx_head s + chunk)) (tx_tail s) (tx_inflight s) in
  if tx_inflight s =? 0 then startTx s else (None, s).

(** The test of [flush]. *)
Definition flush_done (s : DmaTx) : bool := tx_head s =? tx_tail s.

End Sending.

(** Where the thread is in [write]: not in it, at the top of the loop with some bytes left,
    with the free space known, and inside the copy of a chunk. *)
Inductive writer :=
  | NotWriting
  | WriteLoop (bytes : list byte)
  | WriteFree (bytes : list byte) (free : Z)
  | WriteCopy (bytes : list byte) (chunk : Z) (i : nat).

(** The system: the sending side, the thread, the DMA channel (the transfer under way: the
    offset of the next byte and how many are left), its interrupt, and as
    history the bytes on the wire and the bytes passed to [write]. *)
Record DmaSys := mkDmaSys {
  ds_tx : DmaTx;
  ds_writer : writer;
  ds_transfer : option (Z * Z);
  ds_irq : bool;
  ds_wire : list byte;
  ds_given : list byte;
}.

Inductive dma_event :=
  | DmaWrite (bytes : list byte)
  | DmaThread
  | DmaByte
  | DmaIrq.

Section System.

(** Programming the channel: an error while a transfer is under way or its interrupt has
    not been served. *)
Definition dma_start (req : dma_request) (s : DmaSys) : option DmaSys :=
  match req with
  | None => Some s
  | Some t =>
      if bool_decide (ds_transfer s = None) && negb (ds_irq s)
      then Some (mkDmaSys (ds_tx s) (ds_writer s) (Some t) (ds_irq s) (ds_wire s) (ds_given s))
      else None
  end.

(** One step of the thread in [write]. *)
Definition dma_thread (s : DmaSys) : option DmaSys :=
  let at_writer w := mkDmaSys (ds_tx s) w (ds_transfer s) (ds_irq s) (ds_wire s) (ds_given s) in
  match ds_writer s with
  | NotWriting => Some s
  | WriteLoop bytes =>
      match bytes with
      | [] => Some (at_writer NotWriting)
      | _ =>
          let free := write_free (ds_tx s) in
          if free =? 0 then Some (at_writer (WriteLoop bytes))
          else Some (at_writer (WriteFree bytes free))
      end
  | WriteFree bytes free =>
      Some (at_writer (WriteCopy bytes (write_chunk (ds_tx s) free (Z.of_nat (length bytes))) 0))
  | WriteCopy bytes chunk i =>
      if (Z.of_nat i <? chunk) then
        b ← bytes !! i;
        t ← write_copy (ds_tx s) i b;
        Some (mkDmaSys t (WriteCopy bytes chunk (S i)) (ds_transfer s) (ds_irq s) (ds_wire s) (ds_given s))
      else
        let '(req, t) := write_publish (ds_tx s) chunk in
        dma_start req (mkDmaSys t (WriteLoop (drop (Z.to_nat chunk) bytes)) (ds_transfer s) (ds_irq s)
                         (ds_wire s) (ds_given s))
  end.

(** The hardware moves one byte of the ring to the wire, and raises the interrupt after the
    last one. *)
Definition dma_byte (s : DmaSys) : option DmaSys :=
  match ds_transfer s with
  | None => Some s
  | Some (offset, count) =>
      b ← tx_buffer (ds_tx s) !! Z.to_nat offset;
      Some (mkDmaSys (ds_tx s) (ds_writer s)
              (if count =? 1 then None else Some (offset + 1, count - 1)) (count =? 1)
              (ds_wire s ++ [b]) (ds_given s))
  end.

(** The handler runs when the interrupt is pending, which it clears first. *)
Definition dma_irq (s : DmaSys) : option DmaSys :=
  if ds_irq s then
    let '(req, t) := TxIrq_instance (ds_tx s) in
    dma_start req (mkDmaSys t (ds_writer s) (ds_transfer s) false (ds_wire s) (ds_given s))
  else Some s.

Definition dma_exec (s : DmaSys) (e : dma_event) : option DmaSys :=
  match e with
  | DmaWrite bytes =>
      match ds_writer s with
      | NotWriting =>
          Some (mkDmaSys (ds_tx s) (WriteLoop bytes) (ds_transfer s) (ds_irq s) (ds_wire s)
                  (ds_given s ++ bytes))
      | _ => Some s
      end
  | DmaThread => dma_thread s
  | DmaByte => dma_byte s
  | DmaIrq => dma_irq s
  end.

(** A new instance, with whatever memory the ring was given. *)
Definition dma_init (memory : list byte) : DmaSys :=
  mkDmaSys (mkDmaTx memory 0 0 0) NotWriting None false [] [].

Inductive dma_runs : DmaSys → Prop :=
  | dma_runs_start memory : Z.of_nat (length memory) = kRingSize → dma_runs (dma_init memory)
  | dma_runs_step s e s' : dma_runs s → dma_exec s e = Some s' → dma_runs s'.

End System.

(** ** The invariant of the sending side

    Positions count the published bytes from the start: [T, H) is in the ring. *)

Lemma land_mask x : Z.land x kRingMask = x mod 8192.
Proof. change kRingMask with (Z.ones 13). by rewrite Z.land_ones. Qed.

Lemma u32_mod_ring x : u32 x mod 8192 = x mod 8192.
Proof. unfold u32. apply Z.mod_mod_divide. by exists 524288. Qed.

Lemma u32_diff a b : 0 ≤ a - b < 4294967296 → u32 (u32 a - u32 b) = a - b.
Proof. intros. wrap_lia. Qed.

Lemma memcpy_byte {A} (dst : list A) off b :
  (off < length dst)%nat → memcpy dst off [b] = Some (<[off:=b]> dst).
Proof.
  intros Hlt. rewrite memcpy_Some by (cbn [length]; lia). cbn [length].
  rewrite insert_take_drop by done. by rewrite Nat.add_1_r.
Qed.

(** The byte at position [p] of the ring. *)
Definition ring_at (buffer : list byte) (p : Z) : option byte := buffer !! Z.to_nat (p mod 8192).

Lemma ring_at_insert buffer p q b :
  Z.of_nat (length buffer) = 8192 →
  -8192 < p - q < 8192 →
  ring_at (<[Z.to_nat (p mod 8192):=b]> buffer) q = if decide (p = q) then Some b else ring_at buffer q.
Proof.
  intros Hlen Hpq. unfold ring_at.
  pose proof (Z.mod_pos_bound p 8192 ltac:(lia)). pose proof (Z.mod_pos_bound q 8192 ltac:(lia)).
  case_decide as Heq.
  - subst. apply list_lookup_insert_eq. lia.
  - apply list_lookup_insert_ne. intros Hm. apply Heq. apply (mod_inj_close p q 8192); lia.
Qed.

(** [sent] are the published bytes. *)
Definition writer_ok (buffer : list byte) (T H : Z) (w : writer) : Prop :=
  match w with
  | NotWriting | WriteLoop _ => True
  | WriteFree bytes free => bytes ≠ [] ∧ 0 < free ∧ H + free ≤ T + 8192
  | WriteCopy bytes chunk i =>
      0 < chunk ∧ chunk ≤ Z.of_nat (length bytes) ∧ Z.of_nat i ≤ chunk
      ∧ H + chunk ≤ T + 8192 ∧ H mod 8192 + chunk ≤ 8192
      ∧ ∀ j, (j < i)%nat → ring_at buffer (H + Z.of_nat j) = bytes !! j
  end.

Definition writer_rest (w : writer) : list byte :=
  match w with
  | NotWriting => []
  | WriteLoop bytes | WriteFree bytes _ | WriteCopy bytes _ _ => bytes
  end.

(** The transfer: [I] bytes from T on, of which [k] are on the wire. *)
Definition transfer_ok (T I k : Z) (transfer : option (Z * Z)) (irq : bool) : Prop :=
  if decide (k < I) then transfer = Some (T mod 8192 + k, I - k) ∧ irq = false
  else transfer = None ∧ irq = bool_decide (0 < I).

Record dma_inv (s : DmaSys) (sent : list byte) (T I k : Z) : Prop := {
  di_length : Z.of_nat (length (tx_buffer (ds_tx s))) = 8192;
  di_head : tx_head (ds_tx s) = u32 (Z.of_nat (length sent));
  di_tail : tx_tail (ds_tx s) = u32 T;
  di_inflight : tx_inflight (ds_tx s) = I;
  di_window : 0 ≤ T ≤ Z.of_nat (length sent) ∧ Z.of_nat (length sent) ≤ T + 8192;
  di_segment : 0 ≤ k ≤ I ∧ T + I ≤ Z.of_nat (length sent) ∧ T mod 8192 + I ≤ 8192;
  di_busy : I = 0 → T = Z.of_nat (length sent);
  di_ring : ∀ p, T ≤ p < Z.of_nat (length sent) →
    ring_at (tx_buffer (ds_tx s)) p = sent !! Z.to_nat p;
  di_transfer : transfer_ok T I k (ds_transfer s) (ds_irq s);
  di_wire : ds_wire s = take (Z.to_nat (T + k)) sent;
  di_writer : writer_ok (tx_buffer (ds_tx s)) T (Z.of_nat (length sent)) (ds_writer s);
  di_given : ds_given s = sent ++ writer_rest (ds_writer s);
}.

Definition dma_good (s : DmaSys) : Prop := ∃ sent T I k, dma_inv s sent T I k.

Lemma dma_init_good memory : Z.of_nat (length memory) = kRingSize → dma_good (dma_init memory).
Proof.
  intros Hlen. exists [], 0, 0, 0. constructor; cbn; auto; try lia; done.
Qed.

(** [startTx] on an idle channel programs it with the longest segment that does not wrap. *)
Lemma startTx_spec s H T :
  tx_head s = u32 H → tx_tail s = u32 T → T ≤ H ≤ T + 8192 →
  let I := Z.min (H - T) (8192 - T mod 8192) in
  startTx s = (if decide (0 < I) then Some (T mod 8192, I) else None,
               mkDmaTx (tx_buffer s) (tx_head s) (tx_tail s) I).
Proof.
  intros HH HT Hw I. unfold startTx. rewrite land_mask, HH, HT, u32_diff, u32_mod_ring by lia.
  fold I. pose proof (Z.mod_pos_bound T 8192 ltac:(lia)). unfold kRingSize. fold I.
  destruct (Z.eqb_spec I 0); cbn [negb]; case_decide; done || lia.
Qed.

(** The common end of the interrupt and of the publication: the channel is idle and
    [startTx] runs. *)
Record dma_ready (t : DmaTx) (w : writer) (wire given sent : list byte) (T : Z) : Prop := {
  dr_length : Z.of_nat (length (tx_buffer t)) = 8192;
  dr_head : tx_head t = u32 (Z.of_nat (length sent));
  dr_tail : tx_tail t = u32 T;
  dr_window : 0 ≤ T ≤ Z.of_nat (length sent) ∧ Z.of_nat (length sent) ≤ T + 8192;
  dr_ring : ∀ p, T ≤ p < Z.of_nat (length sent) → ring_at (tx_buffer t) p = sent !! Z.to_nat p;
  dr_wire : wire = take (Z.to_nat T) sent;
  dr_writer : writer_ok (tx_buffer t) T (Z.of_nat (length sent)) w;
  dr_given : given = sent ++ writer_rest w;
}.

Lemma dma_started t w wire given sent T :
  dma_ready t w wire given sent T →
  ∃ s', (let '(req, t) := startTx t in dma_start req (mkDmaSys t w None false wire given)) = Some s'
        ∧ ∃ I, dma_inv s' sent T I 0 ∧ ds_writer s' = w ∧ ds_given s' = given.
Proof.
  intros []. rewrite (startTx_spec t _ _ dr_head0 dr_tail0) by lia.
  set (I := Z.min _ _). pose proof (Z.mod_pos_bound T 8192 ltac:(lia)).
  assert (Htr : transfer_ok T I 0 (if decide (0 < I) then Some (T mod 8192, I) else None) false).
  { unfold transfer_ok. case_decide; [by rewrite Z.add_0_r, Z.sub_0_r|].
    split; [done|]. symmetry. by apply bool_decide_false. }
  exists (mkDmaSys (mkDmaTx (tx_buffer t) (tx_head t) (tx_tail t) I) w
    (if decide (0 < I) then Some (T mod 8192, I) else None) false wire given).
  split; [by case_decide|]. exists I.
  assert (0 ≤ I ∧ T + I ≤ Z.of_nat (length sent) ∧ T mod 8192 + I ≤ 8192
    ∧ (I = 0 → T = Z.of_nat (length sent))) as (? & ? & ? & ?) by lia.
  split; [|done]. constructor; cbn; auto; try lia. by rewrite Z.add_0_r.
Qed.

(** The interrupt is pending when a whole segment is on the wire. *)
Lemma dma_irq_pending s sent T I k :
  dma_inv s sent T I k → ds_irq s = bool_decide (0 < I ∧ k = I).
Proof.
  intros Hi. pose proof (di_transfer _ _ _ _ _ Hi) as Htr. pose proof (di_segment _ _ _ _ _ Hi).
  unfold transfer_ok in Htr. case_decide; destruct Htr as [_ ->]; [symmetry; apply bool_decide_false; lia|].
  apply bool_decide_ext. lia.
Qed.

Lemma dma_irq_inv s sent T I k :
  dma_inv s sent T I k → ds_irq s = true →
  ∃ s' I', dma_irq s = Some s' ∧ dma_inv s' sent (T + I) I' 0
           ∧ ds_writer s' = ds_writer s ∧ ds_given s' = ds_given s.
Proof.
  intros Hi Hirq. unfold dma_irq. rewrite Hirq. destruct Hi. unfold transfer_ok in di_transfer0.
  rewrite Hirq in di_transfer0. case_decide; [by destruct di_transfer0|].
  destruct di_transfer0 as [Htr _]. rewrite Htr. unfold TxIrq_instance. cbn [tx_buffer tx_head tx_tail tx_inflight].
  destruct (dma_started (mkDmaTx (tx_buffer (ds_tx s)) (tx_head (ds_tx s))
    (u32 (tx_tail (ds_tx s) + tx_inflight (ds_tx s))) 0) (ds_writer s) (ds_wire s) (ds_given s) sent (T + I))
    as (s' & Hs & I' & Hi' & ? & ?); [|by exists s', I'].
  constructor; cbn; auto; try lia.
  - by rewrite di_tail0, u32_add_l, di_inflight0.
  - intros p Hp. apply di_ring0. lia.
  - rewrite di_wire0. do 2 f_equal. lia.
  - destruct (ds_writer s); cbn in *; auto; [intuition lia|].
    destruct di_writer0 as (? & ? & ? & ? & ? & ?). split_and!; auto; lia.
Qed.

Lemma dma_irq_good s : dma_good s → ∃ s', dma_irq s = Some s' ∧ dma_good s'.
Proof.
  intros (sent & T & I & k & Hi). destruct (ds_irq s) eqn:Hirq.
  - destruct (dma_irq_inv _ _ _ _ _ Hi Hirq) as (s' & I' & Hs & Hi' & _).
    exists s'. split; [done|]. by exists sent, (T + I), I', 0.
  - exists s. unfold dma_irq. rewrite Hirq. split; [done|]. by exists sent, T, I, k.
Qed.

Lemma dma_byte_inv s sent T I k :
  dma_inv s sent T I k → k < I →
  ∃ s', dma_byte s = Some s' ∧ dma_inv s' sent T I (k + 1)
        ∧ ds_writer s' = ds_writer s ∧ ds_given s' = ds_given s.
Proof.
  intros Hi Hk. unfold dma_byte. pose proof (di_transfer _ _ _ _ _ Hi) as Htr.
  unfold transfer_ok in Htr. rewrite decide_True in Htr by done. destruct Htr as [-> Hirq].
  destruct Hi. pose proof (Z.mod_pos_bound T 8192 ltac:(lia)).
  assert (Hb : tx_buffer (ds_tx s) !! Z.to_nat (T mod 8192 + k) = sent !! Z.to_nat (T + k)).
  { rewrite <- di_ring0 by lia. unfold ring_at. do 2 f_equal.
    by rewrite <- (Zplus_mod_idemp_l T k), (Z.mod_small (T mod 8192 + k)) by lia. }
  destruct (lookup_lt_is_Some_2 sent (Z.to_nat (T + k)) ltac:(lia)) as [b Hsb].
  rewrite Hb, Hsb. cbn [mbind option_bind]. eexists. split; [done|]. split; [|done].
  constructor; cbn; auto; try lia.
  - unfold transfer_ok. destruct (Z.eqb_spec (I - k) 1).
    + rewrite decide_False by lia. split; [done|]. symmetry. apply bool_decide_true. lia.
    + rewrite decide_True by lia. split; [|done]. do 2 f_equal; lia.
  - rewrite di_wire0. replace (Z.to_nat (T + (k + 1))) with (S (Z.to_nat (T + k))) by lia.
    symmetry. by apply take_S_r.
Qed.

Lemma dma_byte_idle s sent T I k : dma_inv s sent T I k → ¬ k < I → dma_byte s = Some s.
Proof.
  intros Hi Hk. unfold dma_byte. pose proof (di_transfer _ _ _ _ _ Hi) as Htr.
  unfold transfer_ok in Htr. rewrite decide_False in Htr by done. by destruct Htr as [-> _].
Qed.

Lemma dma_byte_good s : dma_good s → ∃ s', dma_byte s = Some s' ∧ dma_good s'.
Proof.
  intros (sent & T & I & k & Hi). destruct (decide (k < I)) as [Hk|Hk].
  - destruct (dma_byte_inv _ _ _ _ _ Hi Hk) as (s' & Hs & Hi' & _).
    exists s'. split; [done|]. by exists sent, T, I, (k + 1).
  - exists s. split; [by eapply dma_byte_idle|]. by exists sent, T, I, k.
Qed.

(** *** The thread *)

Lemma write_offset_pos s H : tx_head s = u32 H → write_offset s = H mod 8192.
Proof. intros HH. unfold write_offset. by rewrite land_mask, HH, u32_mod_ring. Qed.

(** A step of the thread that changes nothing but where it is. *)
Lemma dma_at_writer s sent T I k w :
  dma_inv s sent T I k → writer_ok (tx_buffer (ds_tx s)) T (Z.of_nat (length sent)) w →
  writer_rest w = writer_rest (ds_writer s) →
  dma_inv (mkDmaSys (ds_tx s) w (ds_transfer s) (ds_irq s) (ds_wire s) (ds_given s)) sent T I k.
Proof. intros [] Hw Hr. constructor; cbn; auto. by rewrite Hr. Qed.

Lemma dma_loop_good s sent T I k bytes :
  dma_inv s sent T I k → ds_writer s = WriteLoop bytes → ∃ s', dma_thread s = Some s' ∧ dma_good s'.
Proof.
  intros Hi Hw. unfold dma_thread. rewrite Hw.
  assert (Hat : ∀ w, writer_ok (tx_buffer (ds_tx s)) T (Z.of_nat (length sent)) w → writer_rest w = bytes →
    dma_good (mkDmaSys (ds_tx s) w (ds_transfer s) (ds_irq s) (ds_wire s) (ds_given s))).
  { intros w Hok Hr. exists sent, T, I, k. apply dma_at_writer; [done|done|]. by rewrite Hw. }
  destruct bytes as [|b bytes].
  { eexists. split; [done|]. by apply Hat. }
  assert (Hfree : write_free (ds_tx s) = 8192 - (Z.of_nat (length sent) - T)).
  { destruct Hi. unfold write_free, kRingSize. rewrite di_head0, di_tail0, u32_diff, u32_small by lia. lia. }
  rewrite Hfree. destruct (Z.eqb_spec (8192 - (Z.of_nat (length sent) - T)) 0).
  - eexists. split; [done|]. by apply Hat.
  - eexists. split; [done|]. apply Hat; [|done]. cbn. pose proof (di_window _ _ _ _ _ Hi). split; [done|lia].
Qed.

Lemma dma_free_good s sent T I k bytes free :
  dma_inv s sent T I k → ds_writer s = WriteFree bytes free → ∃ s', dma_thread s = Some s' ∧ dma_good s'.
Proof.
  intros Hi Hw. unfold dma_thread. rewrite Hw. eexists. split; [done|]. exists sent, T, I, k.
  apply dma_at_writer; [done| |by rewrite Hw]. pose proof (di_writer _ _ _ _ _ Hi) as Hok. rewrite Hw in Hok.
  destruct Hok as (Hne & Hpos & Hfit). unfold write_chunk, kRingSize.
  rewrite (write_offset_pos _ _ (di_head _ _ _ _ _ Hi)).
  pose proof (Z.mod_pos_bound (Z.of_nat (length sent)) 8192 ltac:(lia)).
  assert (0 < Z.of_nat (length bytes)) by (destruct bytes; [done|cbn; lia]).
  cbn. split_and!; lia.
Qed.

(** Copying one byte: it lands behind the queue, and not on a byte that is still to be
    sent. *)
Lemma dma_copy_good s sent T I k bytes chunk i :
  dma_inv s sent T I k → ds_writer s = WriteCopy bytes chunk i → Z.of_nat i < chunk →
  ∃ s', dma_thread s = Some s' ∧ dma_good s'.
Proof.
  intros Hi Hw Hlt. unfold dma_thread. rewrite Hw, (proj2 (Z.ltb_lt _ _) Hlt).
  destruct Hi. rewrite Hw in di_writer0. destruct di_writer0 as (Hc0 & Hcl & _ & Hfit & Hwrap & Hcopied).
  set (H := Z.of_nat (length sent)) in *. pose proof (Z.mod_pos_bound H 8192 ltac:(lia)).
  destruct (lookup_lt_is_Some_2 bytes i ltac:(lia)) as [b Hb]. rewrite Hb. cbn [mbind option_bind].
  unfold write_copy. rewrite (write_offset_pos _ H di_head0).
  assert (Hoff : (Z.to_nat (H mod 8192) + i)%nat = Z.to_nat ((H + Z.of_nat i) mod 8192)).
  { rewrite <- (Zplus_mod_idemp_l H), (Z.mod_small (H mod 8192 + _)) by lia. lia. }
  rewrite Hoff, memcpy_byte by (rewrite <- Hoff; lia). cbn [mbind option_bind].
  assert (Hother : ∀ q b', H + Z.of_nat i - 8192 < q < H + Z.of_nat i →
    ring_at (<[Z.to_nat ((H + Z.of_nat i) mod 8192):=b']> (tx_buffer (ds_tx s))) q
    = ring_at (tx_buffer (ds_tx s)) q).
  { intros q b' Hq. rewrite ring_at_insert by lia. by rewrite decide_False by lia. }
  eexists. split; [done|]. exists sent, T, I, k. constructor; cbn [ds_tx tx_buffer tx_head tx_tail tx_inflight
    ds_writer ds_transfer ds_irq ds_wire ds_given writer_rest]; auto.
  - by rewrite length_insert.
  - intros p Hp. rewrite Hother by lia. by apply di_ring0.
  - cbn. split_and!; auto; [lia|]. intros j Hj. destruct (decide (j = i)) as [->|].
    + rewrite ring_at_insert by lia. by rewrite decide_True by lia.
    + rewrite Hother by lia. apply Hcopied. lia.
  - by rewrite di_given0, Hw.
Qed.

(** Publishing the chunk. *)
Lemma dma_publish_good s sent T I k bytes chunk i :
  dma_inv s sent T I k → ds_writer s = WriteCopy bytes chunk i → ¬ Z.of_nat i < chunk →
  ∃ s', dma_thread s = Some s' ∧ dma_good s'.
Proof.
  intros Hi Hw Hge. unfold dma_thread. rewrite Hw, (proj2 (Z.ltb_ge _ _)) by lia.
  destruct Hi. rewrite Hw in di_writer0. destruct di_writer0 as (Hc0 & Hcl & Hic & Hfit & Hwrap & Hcopied).
  set (sent' := sent ++ take (Z.to_nat chunk) bytes).
  assert (Hlen : Z.of_nat (length sent') = Z.of_nat (length sent) + chunk)
    by (unfold sent'; rewrite length_app, length_take; lia).
  assert (Hhead : u32 (tx_head (ds_tx s) + chunk) = u32 (Z.of_nat (length sent')))
    by (by rewrite di_head0, u32_add_l, Hlen).
  assert (Hring : ∀ p, T ≤ p < Z.of_nat (length sent') →
    ring_at (tx_buffer (ds_tx s)) p = sent' !! Z.to_nat p).
  { intros p Hp. unfold sent'. destruct (decide (p < Z.of_nat (length sent))).
    - rewrite lookup_app_l by lia. apply di_ring0. lia.
    - rewrite lookup_app_r by lia. rewrite lookup_take_lt by lia.
      rewrite <- Hcopied by lia. f_equal. lia. }
  assert (Hgiven : ds_given s = sent' ++ drop (Z.to_nat chunk) bytes)
    by (unfold sent'; by rewrite <- app_assoc, take_drop, di_given0, Hw).
  assert (Hwire : ∀ n, T + n ≤ Z.of_nat (length sent) → take (Z.to_nat (T + n)) sent' = take (Z.to_nat (T + n)) sent)
    by (intros n Hn; unfold sent'; apply take_app_le; lia).
  unfold write_publish. cbn [tx_buffer tx_head tx_tail tx_inflight]. destruct (Z.eqb_spec (tx_inflight (ds_tx s)) 0).
  - assert (I = 0 ∧ k = 0) as [-> ->] by lia. specialize (di_busy0 eq_refl).
    unfold transfer_ok in di_transfer0. rewrite decide_False in di_transfer0 by lia.
    destruct di_transfer0 as [-> ->]. rewrite bool_decide_false by lia.
    destruct (dma_started (mkDmaTx (tx_buffer (ds_tx s)) (u32 (tx_head (ds_tx s) + chunk)) (tx_tail (ds_tx s))
      (tx_inflight (ds_tx s))) (WriteLoop (drop (Z.to_nat chunk) bytes)) (ds_wire s) (ds_given s) sent' T)
      as (s' & Hs & I' & Hi' & _); [|exists s'; split; [done|by exists sent', T, I', 0]].
    constructor; auto; try lia; [|done]. rewrite di_wire0, <- Hwire, Z.add_0_r by lia. done.
  - eexists. split; [done|]. exists sent', T, I, k. constructor; cbn; auto; try lia.
    by rewrite Hwire by lia.
Qed.

Lemma dma_exec_good s e : dma_good s → ∃ s', dma_exec s e = Some s' ∧ dma_good s'.
Proof.
  intros Hg. destruct e as [bytes| | |]; cbn [dma_exec]; [| |by apply dma_byte_good|by apply dma_irq_good].
  - destruct Hg as (sent & T & I & k & Hi). destruct (ds_writer s) eqn:Hw;
      try (exists s; split; [done|]; by exists sent, T, I, k).
    eexists. split; [done|]. exists sent, T, I, k. destruct Hi. constructor; cbn; auto.
    rewrite di_given0, Hw. cbn. by rewrite app_nil_r.
  - destruct Hg as (sent & T & I & k & Hi). destruct (ds_writer s) as [|bytes|bytes free|bytes chunk i] eqn:Hw.
    + exists s. unfold dma_thread. rewrite Hw. split; [done|]. by exists sent, T, I, k.
    + by eapply dma_loop_good.
    + by eapply dma_free_good.
    + destruct (decide (Z.of_nat i < chunk)); [by eapply dma_copy_good|by eapply dma_publish_good].
Qed.

Lemma dma_runs_good s : dma_runs s → dma_good s.
Proof.
  induction 1 as [memory Hlen|s e s' _ IH Hex]; [by apply dma_init_good|].
  destruct (dma_exec_good s e IH) as (s1 & Hex1 & Hg). congruence.
Qed.

(** ** What the sending side promises *)

Lemma dma_queue s : dma_good s →
  ∃ queued, ds_given s = ds_wire s ++ queued ++ writer_rest (ds_writer s)
    ∧ Z.of_nat (length queued) ≤ kRingSize ∧ (flush_done (ds_tx s) = true → queued = []).
Proof.
  intros (sent & T & I & k & []). exists (drop (Z.to_nat (T + k)) sent). split; [|split].
  - rewrite di_wire0, di_given0, app_assoc. by rewrite take_drop.
  - rewrite length_drop. unfold kRingSize. lia.
  - unfold flush_done. rewrite di_head0, di_tail0. intros Heq%Z.eqb_eq.
    assert (Z.of_nat (length sent) = T) by wrap_lia. apply nil_length_inv. rewrite length_drop. lia.
Qed.

(** C30: the DMA ring is a queue. Whatever the interleaving of the thread in [write],
    byte by byte, with the DMA channel and its interrupt, the bytes on the wire are a
    prefix of the bytes passed to [write], in order: no byte is sent twice, skipped or
    overwritten before it is sent, also when the 32-bit counters wrap. When the test of
    [flush] succeeds everything published is on the wire. The channel is never
    programmed while it is busy, and no access is out of bounds. *)
Theorem PicoDma_tx_in_order (s : DmaSys) (Hrun : dma_runs s) :
  (∃ queued, ds_given s = ds_wire s ++ queued ++ writer_rest (ds_writer s)
     ∧ Z.of_nat (length queued) ≤ kRingSize
     ∧ (flush_done (ds_tx s) = true → queued = []))
  ∧ ∀ e, ∃ s', dma_exec s e = Some s'.
Proof.
  apply dma_runs_good in Hrun as Hg. split; [by apply dma_queue|].
  intros e. destruct (dma_exec_good s e Hg) as (s' & ? & _). eauto.
Qed.

(** A round of the hardware: the channel moves a byte, if it has one, and the interrupt is
    served, if it is pending. *)
Fixpoint dma_hardware (n : nat) (s : DmaSys) : option DmaSys :=
  match n with
  | O => Some s
  | S n => s ← dma_exec s DmaByte; s ← dma_exec s DmaIrq; dma_hardware n s
  end.

(** The rounds that are left: the bytes to send, and one more for a pending interrupt. *)
Definition dma_left (s : DmaSys) (sent : list byte) (T k : Z) : Z :=
  Z.of_nat (length sent) - T - k + Z.b2z (ds_irq s).

Lemma dma_round s sent T I k :
  dma_inv s sent T I k →
  ∃ s1 s' T' I' k', dma_byte s = Some s1 ∧ dma_irq s1 = Some s' ∧ dma_inv s' sent T' I' k'
    ∧ dma_left s' sent T' k' ≤ Z.max 0 (dma_left s sent T k - 1)
    ∧ ds_writer s' = ds_writer s ∧ ds_given s' = ds_given s.
Proof.
  intros Hi. unfold dma_left. pose proof (di_segment _ _ _ _ _ Hi). pose proof (di_busy _ _ _ _ _ Hi).
  rewrite (dma_irq_pending _ _ _ _ _ Hi).
  assert (Hserve : ∀ s1 k1, dma_inv s1 sent T I k1 → 0 < I → k1 = I → ∃ s' I', dma_irq s1 = Some s'
    ∧ dma_inv s' sent (T + I) I' 0 ∧ ds_irq s' = false ∧ ds_writer s' = ds_writer s1 ∧ ds_given s' = ds_given s1).
  { intros s1 k1 Hi1 HI Hk1. destruct (dma_irq_inv _ _ _ _ _ Hi1) as (s' & I' & Hs & Hi' & Hrest).
    { rewrite (dma_irq_pending _ _ _ _ _ Hi1). by apply bool_decide_true. }
    exists s', I'. split; [done|]. split; [done|]. split; [|done].
    rewrite (dma_irq_pending _ _ _ _ _ Hi'). apply bool_decide_false. lia. }
  assert (Hskip : ∀ s1 k1, dma_inv s1 sent T I k1 → ¬ (0 < I ∧ k1 = I) → dma_irq s1 = Some s1 ∧ ds_irq s1 = false).
  { intros s1 k1 Hi1 Hno. unfold dma_irq. rewrite (dma_irq_pending _ _ _ _ _ Hi1).
    by rewrite bool_decide_false. }
  destruct (decide (k < I)) as [Hk|Hk].
  - rewrite bool_decide_false by lia. destruct (dma_byte_inv _ _ _ _ _ Hi Hk) as (s1 & Hb & Hi1 & Hw1 & Hg1).
    exists s1. destruct (decide (k + 1 = I)) as [Hlast|].
    + destruct (Hserve _ _ Hi1 ltac:(lia) Hlast) as (s' & I' & Hs & Hi' & Hq & Hw & Hg).
      exists s', (T + I), I', 0. rewrite Hq, Hw, Hg. do 3 (split; [done|]). split; [cbn; lia|done].
    + destruct (Hskip _ _ Hi1 ltac:(lia)) as [Hs Hq]. exists s1, T, I, (k + 1). rewrite Hq.
      do 3 (split; [done|]). split; [cbn; lia|done].
  - exists s. rewrite (dma_byte_idle _ _ _ _ _ Hi Hk). destruct (decide (0 < I)).
    + rewrite bool_decide_true by lia. destruct (Hserve _ _ Hi ltac:(lia) ltac:(lia)) as (s' & I' & Hs & Hi' & Hq & Hw & Hg).
      exists s', (T + I), I', 0. rewrite Hq. do 3 (split; [done|]). split; [cbn; lia|done].
    + rewrite bool_decide_false by lia. destruct (Hskip _ _ Hi ltac:(lia)) as [Hs Hq].
      exists s, T, I, k. rewrite Hq. do 3 (split; [done|]). split; [cbn; lia|done].
Qed.

Lemma dma_drains n s sent T I k :
  dma_inv s sent T I k → dma_left s sent T k ≤ Z.of_nat n →
  ∃ s' T' I' k', dma_hardware n s = Some s' ∧ dma_inv s' sent T' I' k' ∧ dma_left s' sent T' k' ≤ 0
    ∧ ds_writer s' = ds_writer s ∧ ds_given s' = ds_given s.
Proof.
  revert s T I k. induction n as [|n IH]; intros s T I k Hi Hn; [by exists s, T, I, k|].
  destruct (dma_round _ _ _ _ _ Hi) as (s1 & s2 & T2 & I2 & k2 & Hb & Hq & Hi2 & Hle & Hw2 & Hg2).
  destruct (IH s2 T2 I2 k2 Hi2 ltac:(lia)) as (s' & T' & I' & k' & Hs & Hi' & Hl & Hw & Hg).
  exists s', T', I', k'. cbn [dma_hardware dma_exec]. rewrite (bind_step _ _ _ Hb), (bind_step _ _ _ Hq).
  rewrite Hw, Hg. done.
Qed.

Lemma dma_flushes s : dma_good s →
  ∃ s', dma_hardware (S (Z.to_nat kRingSize)) s = Some s'
    ∧ flush_done (ds_tx s') = true ∧ ds_given s' = ds_given s ∧ ds_writer s' = ds_writer s
    ∧ write_free (ds_tx s') = kRingSize ∧ ds_given s' = ds_wire s' ++ writer_rest (ds_writer s').
Proof.
  intros (sent & T & I & k & Hi).
  destruct (dma_drains (S (Z.to_nat kRingSize)) s sent T I k Hi) as (s' & T' & I' & k' & Hs & Hi' & Hl & Hw & Hg).
  { unfold dma_left, kRingSize. destruct Hi. destruct (ds_irq s); cbn [Z.b2z]; lia. }
  exists s'. split; [done|]. unfold dma_left in Hl. pose proof (dma_irq_pending _ _ _ _ _ Hi') as Hq.
  destruct Hi'. assert (Hk : k' = 0 ∧ I' = 0).
  { destruct (ds_irq s'); cbn [Z.b2z] in Hl; [lia|]. symmetry in Hq. apply bool_decide_eq_false in Hq. lia. }
  destruct Hk as [-> ->]. specialize (di_busy0 eq_refl). subst T'. split_and!; [|done|done| |].
  - unfold flush_done. rewrite di_head0, di_tail0. apply Z.eqb_refl.
  - unfold write_free. rewrite di_head0, di_tail0, Z.sub_diag. done.
  - rewrite di_given0, di_wire0, take_ge by lia. done.
Qed.

(** The ring drains. From any reachable state the hardware alone, in at most one round
    for each byte of the ring and one more, puts every published byte on the wire, and
    then the test of [flush] succeeds and the whole ring is free for a thread that
    waits in [write]: data is never stranded without a transfer or an interrupt to
    move it. *)
Theorem PicoDma_tx_drains (s : DmaSys) (Hrun : dma_runs s) :
  ∃ s', dma_hardware (S (Z.to_nat kRingSize)) s = Some s'
    ∧ flush_done (ds_tx s') = true ∧ write_free (ds_tx s') = kRingSize
    ∧ ds_given s' = ds_given s ∧ ds_writer s' = ds_writer s
    ∧ ds_given s' = ds_wire s' ++ writer_rest (ds_writer s').
Proof.
  destruct (dma_flushes s (dma_runs_good s Hrun)) as (s' & ? & ? & ? & ? & ? & ?). by exists s'.
Qed.

(** ** Receiving *)

(** The part of [Impl] that the receiving side uses. *)
Record DmaRx := mkDmaRx {
  rx_base : Z;
  rx_consumed : Z;
  overruns : Z;
  receive_errors : Z;
}.

(** The registers in the order [produced] reads them: the transfer count, the transfer
    count before the abort, the write address after it, and the transfer count after the
    restart. *)
Record RxRegs := mkRxRegs {
  rg_count : Z;
  rg_count_before_abort : Z;
  rg_write_addr : Z;
  rg_count_restarted : Z;
}.

Section Receiving.

(** [kRxTransferCount], which a test build can override, and the address of the ring. *)
Context (kRxTransferCount : Z) (rx_buffer_addr : Z).

Definition produced (g : RxRegs) (s : DmaRx) : Z * DmaRx :=
  let remaining := rg_count g in
  if remaining <? kRingSize then
    let estimate := u32 (rx_base s + kRxTransferCount - rg_count_before_abort g) in
    let offset := Z.land (u32 (rg_write_addr g - rx_buffer_addr)) kRingMask in
    let advance := Z.land (u32 (offset - estimate)) kRingMask in
    let advance := if kRingSize / 2 <? advance then advance - kRingSize else advance in
    let s := mkDmaRx (u32 (estimate + advance)) (rx_consumed s) (overruns s) (receive_errors s) in
    (u32 (rx_base s + kRxTransferCount - rg_count_restarted g), s)
  else (u32 (rx_base s + kRxTransferCount - remaining), s).

(** [buffer] is the ring at the time of the copy, and [errors] the error register of the
    UART. *)
Definition readAvailable (g : RxRegs) (buffer : list byte) (errors count : Z) (s : DmaRx)
    : option (list byte * DmaRx) :=
  if count =? 0 then Some ([], s)
  else
    let '(p, s) := produced g s in
    let pending := u32 (p - rx_consumed s) in
    let '(pending, s) :=
      if kRingSize <? pending
      then (kRingSize, mkDmaRx (rx_base s) (u32 (rx_consumed s + (pending - kRingSize)))
                         (u32 (overruns s + 1)) (receive_errors s))
      else (pending, s) in
    let count := Z.min count pending in
    let offset := Z.land (rx_consumed s) kRingMask in
    let first := Z.min count (kRingSize - offset) in
    bytes ← slice buffer (Z.to_nat offset) (Z.to_nat first);
    rest ← slice buffer 0 (Z.to_nat (count - first));
    Some (bytes ++ rest,
          mkDmaRx (rx_base s) (u32 (rx_consumed s + count)) (overruns s)
            (if negb (errors =? 0) then u32 (receive_errors s + 1) else receive_errors s)).

(** *** What the registers show

    Positions count the bytes the channel has received. [base] is where the transfer under
    way began, and the counts are read when the position is P1, P2 and P3; the write
    address is that of position W, where the channel resumes. The hardware may be writing
    behind the count or ahead of it, by less than half a ring. *)
Record rx_readings (g : RxRegs) (base P1 P2 W P3 : Z) : Prop := {
  rr_count : rg_count g = kRxTransferCount - (P1 - base);
  rr_before : rg_count g < kRingSize → rg_count_before_abort g = kRxTransferCount - (P2 - base);
  rr_addr : rg_count g < kRingSize → u32 (rg_write_addr g - rx_buffer_addr) = W mod 8192;
  rr_close : rg_count g < kRingSize → -4096 < W - P2 ≤ 4096;
  rr_restarted : rg_count g < kRingSize → rg_count_restarted g = kRxTransferCount - (P3 - W);
}.

Lemma produced_spec g s base P1 P2 W P3 :
  rx_readings g base P1 P2 W P3 → rx_base s = u32 base →
  let renew := rg_count g <? kRingSize in
  produced g s
  = (u32 (if renew then P3 else P1),
     mkDmaRx (u32 (if renew then W else base)) (rx_consumed s) (overruns s) (receive_errors s)).
Proof.
  intros [Hc Hb Ha Hcl Hr] Hbase renew. unfold produced. destruct (Z.ltb_spec (rg_count g) kRingSize) as [Hlt|Hge].
  - subst renew. cbn [rx_base rx_consumed overruns receive_errors].
    specialize (Ha Hlt). specialize (Hcl Hlt). rewrite (Hb Hlt), Ha, (Hr Hlt).
    assert (Hbk : u32 (rx_base s + kRxTransferCount - (kRxTransferCount - (P2 - base))) = u32 P2).
    { rewrite Hbase. replace (u32 base + kRxTransferCount - (kRxTransferCount - (P2 - base)))
        with (u32 base + (P2 - base)) by lia. rewrite u32_add_l. f_equal. lia. }
    rewrite Hbk, !land_mask, u32_mod_ring, Z.mod_mod by lia.
    rewrite Zminus_mod, Z.mod_mod, u32_mod_ring, <- Zminus_mod by lia.
    set (a := (W - P2) mod 8192).
    assert (Hadv : (if kRingSize / 2 <? a then a - kRingSize else a) = W - P2).
    { change (kRingSize / 2) with 4096. unfold kRingSize, a. destruct (decide (0 ≤ W - P2)).
      - rewrite Z.mod_small by lia. destruct (Z.ltb_spec 4096 (W - P2)); lia.
      - rewrite <- (Z_mod_plus_full _ 1), Z.mod_small by lia. destruct (Z.ltb_spec 4096 (W - P2 + 1 * 8192)); lia. }
    rewrite Hadv, u32_add_l. replace (P2 + (W - P2)) with W by lia. f_equal.
    replace (u32 W + kRxTransferCount - (kRxTransferCount - (P3 - W))) with (u32 W + (P3 - W)) by lia.
    rewrite u32_add_l. f_equal. lia.
  - subst renew. rewrite Hc, <- Hbase. destruct s as [b c o e]. cbn in *. f_equal. rewrite Hbase.
    replace (u32 base + kRxTransferCount - (kRxTransferCount - (P1 - base))) with (u32 base + (P1 - base)) by lia.
    rewrite u32_add_l. f_equal. lia.
Qed.

(** The ring holds the last 8192 bytes received. *)
Record ring_holds (buffer received : list byte) : Prop := {
  rh_length : Z.of_nat (length buffer) = 8192;
  rh_at : ∀ p, 0 ≤ p < Z.of_nat (length received) → Z.of_nat (length received) - 8192 ≤ p →
    ring_at buffer p = received !! Z.to_nat p;
}.

(** Reading a range of the ring in two pieces. *)
Lemma ring_slices buffer C n :
  Z.of_nat (length buffer) = 8192 → 0 ≤ C → 0 ≤ n ≤ 8192 →
  let first := Z.min n (8192 - C mod 8192) in
  ∃ a b, slice buffer (Z.to_nat (C mod 8192)) (Z.to_nat first) = Some a
    ∧ slice buffer 0 (Z.to_nat (n - first)) = Some b
    ∧ length (a ++ b) = Z.to_nat n
    ∧ ∀ j, (j < Z.to_nat n)%nat → (a ++ b) !! j = ring_at buffer (C + Z.of_nat j).
Proof.
  intros Hlen HC Hn first. pose proof (Z.mod_pos_bound C 8192 ltac:(lia)) as Hm.
  rewrite !slice_Some by lia. do 2 eexists. split; [done|]. split; [done|].
  rewrite drop_0, length_app, !length_take, length_drop. split; [lia|].
  intros j Hj. unfold ring_at.
  assert (Hmod : (C + Z.of_nat j) mod 8192
    = if decide (Z.of_nat j < first) then C mod 8192 + Z.of_nat j else Z.of_nat j - first).
  { rewrite <- (Zplus_mod_idemp_l C). case_decide; [apply Z.mod_small; lia|].
    rewrite <- (Z_mod_plus_full _ (-1)), Z.mod_small by lia. lia. }
  rewrite Hmod. case_decide.
  - rewrite lookup_app_l by (rewrite length_take, length_drop; lia).
    rewrite lookup_take_lt by lia. rewrite lookup_drop. f_equal. lia.
  - rewrite lookup_app_r by (rewrite length_take, length_drop; lia).
    rewrite length_take, length_drop, lookup_take_lt by lia. f_equal. lia.
Qed.

(** One read: C bytes were consumed and the channel was at P when the position was
    read. *)
Lemma readAvailable_spec g buffer received errors count s base P1 P2 W P3 C :
  rx_readings g base P1 P2 W P3 → rx_base s = u32 base → rx_consumed s = u32 C →
  0 ≤ count → 0 ≤ C → ring_holds buffer received →
  let renew := rg_count g <? kRingSize in
  let P := if renew then P3 else P1 in
  0 ≤ P - C < 4294967296 → P ≤ Z.of_nat (length received) →
  let C' := Z.max C (P - 8192) in
  let n := Z.min count (P - C') in
  count = 0 ∧ readAvailable g buffer errors count s = Some ([], s)
  ∨ 0 < count ∧ ∃ bytes s', readAvailable g buffer errors count s = Some (bytes, s')
    ∧ Z.of_nat (length bytes) = n
    ∧ (∀ j, (j < length bytes)%nat → Z.of_nat (length received) - 8192 ≤ C' + Z.of_nat j →
         bytes !! j = received !! Z.to_nat (C' + Z.of_nat j))
    ∧ rx_base s' = u32 (if renew then W else base) ∧ rx_consumed s' = u32 (C' + n)
    ∧ overruns s' = (if decide (8192 < P - C) then u32 (overruns s + 1) else overruns s)
    ∧ receive_errors s' = (if decide (errors = 0) then receive_errors s else u32 (receive_errors s + 1)).
Proof.
  intros Hg Hbase Hcons Hcount HC [Hlen Hat] renew P HP HPr C' n.
  unfold readAvailable. destruct (Z.eqb_spec count 0) as [->|Hne]; [by left|]. right. split; [lia|].
  rewrite (produced_spec g s base P1 P2 W P3 Hg Hbase). fold renew. fold P. cbv zeta.
  cbn [rx_base rx_consumed overruns receive_errors].
  rewrite Hcons, u32_diff by lia.
  set (s1 := if _ <? _ then _ else _).
  assert (Hs1 : s1 = (P - C', mkDmaRx (u32 (if renew then W else base)) (u32 C')
    (if decide (8192 < P - C) then u32 (overruns s + 1) else overruns s) (receive_errors s))).
  { unfold s1, kRingSize. destruct (Z.ltb_spec 8192 (P - C)).
    - rewrite decide_True by lia. f_equal; [lia|]. f_equal. rewrite u32_add_l. f_equal. lia.
    - rewrite decide_False by lia. by replace C' with C by lia. }
  rewrite Hs1. clear Hs1 s1. cbn [rx_base rx_consumed overruns receive_errors].
  fold n. rewrite land_mask, u32_mod_ring. unfold kRingSize.
  destruct (ring_slices buffer C' n Hlen ltac:(lia) ltac:(lia)) as (a & b & -> & -> & Hl & Hlook).
  cbn [mbind option_bind]. exists (a ++ b). eexists. split; [done|]. split; [rewrite Hl; lia|]. split.
  - intros j Hj Hok. rewrite Hlook by lia. apply Hat; lia.
  - cbn [rx_base rx_consumed overruns receive_errors]. rewrite u32_add_l. split_and!; [done..|].
    destruct (Z.eqb_spec errors 0); cbn [negb]; case_decide; done.
Qed.

End Receiving.

(** ** What the receiving side promises *)

Section RxSystem.

Context (kRxTransferCount : Z) (rx_buffer_addr : Z).

(** The channel stores the next byte it receives. *)
Definition rx_store (buffer received : list byte) (b : byte) : list byte :=
  <[Z.to_nat (Z.of_nat (length received) mod 8192):=b]> buffer.

(** A run: the receiving side, the ring, and as history everything received, where the
    transfer under way began, how much was consumed, the bytes that were read, and whether
    every read so far was in time: the channel had not run over unread bytes when they
    were copied. A read uses register values of any earlier moment since the last
    read; the receive loop also looks at the position alone. *)
Inductive dma_rx_runs : DmaRx → list byte → list byte → Z → Z → list byte → bool → Prop :=
  | dma_rx_start memory :
      Z.of_nat (length memory) = kRingSize → dma_rx_runs (mkDmaRx 0 0 0 0) memory [] 0 0 [] true
  | dma_rx_byte s buffer received base C out in_time b :
      dma_rx_runs s buffer received base C out in_time →
      dma_rx_runs s (rx_store buffer received b) (received ++ [b]) base C out in_time
  | dma_rx_read s buffer received base C out in_time g P1 P2 W P3 errors count bytes s' :
      let renew := rg_count g <? kRingSize in
      let P := if renew then P3 else P1 in
      dma_rx_runs s buffer received base C out in_time →
      rx_readings kRxTransferCount rx_buffer_addr g base P1 P2 W P3 →
      C ≤ P ≤ Z.of_nat (length received) → P - C < 4294967296 → 0 < count →
      readAvailable kRxTransferCount rx_buffer_addr g buffer errors count s = Some (bytes, s') →
      dma_rx_runs s' buffer received (if renew then W else base)
        (Z.max C (P - 8192) + Z.of_nat (length bytes)) (out ++ bytes)
        (in_time && (Z.of_nat (length received) - C <=? 8192))
  | dma_rx_poll s buffer received base C out in_time g P1 P2 W P3 p s' :
      dma_rx_runs s buffer received base C out in_time →
      rx_readings kRxTransferCount rx_buffer_addr g base P1 P2 W P3 →
      produced kRxTransferCount rx_buffer_addr g s = (p, s') →
      dma_rx_runs s' buffer received (if rg_count g <? kRingSize then W else base) C out in_time.

Record dma_rx_inv (s : DmaRx) (buffer received : list byte) (base C : Z) (out : list byte)
    (in_time : bool) : Prop := {
  dx_ring : ring_holds buffer received;
  dx_base : rx_base s = u32 base;
  dx_consumed : rx_consumed s = u32 C;
  dx_position : 0 ≤ C ≤ Z.of_nat (length received);
  dx_in_time : in_time = true → out = take (Z.to_nat C) received ∧ overruns s = 0;
}.

Lemma rx_store_holds buffer received b :
  ring_holds buffer received → ring_holds (rx_store buffer received b) (received ++ [b]).
Proof.
  intros [Hlen Hat]. constructor; [unfold rx_store; by rewrite length_insert|].
  intros p Hp Hlow. rewrite length_app in *. cbn [length] in *. unfold rx_store.
  rewrite ring_at_insert by lia. case_decide.
  - subst p. rewrite Nat2Z.id. rewrite lookup_app_r by lia. by rewrite Nat.sub_diag.
  - rewrite lookup_app_l by lia. apply Hat; lia.
Qed.

Lemma dma_rx_runs_inv s buffer received base C out in_time :
  dma_rx_runs s buffer received base C out in_time → dma_rx_inv s buffer received base C out in_time.
Proof.
  induction 1 as [memory Hlen|s buffer received base C out in_time b _ IH
    |s buffer received base C out in_time g P1 P2 W P3 errors count bytes s' renew P _ IH Hg HP Hwrap Hcount Hread
    |s buffer received base C out in_time g P1 P2 W P3 p s' _ IH Hg Hp].
  - constructor; [constructor; [done|]| | | |]; cbn; auto; lia.
  - destruct IH as [Hr Hb Hc Hp Ho]. constructor; auto using rx_store_holds; [rewrite length_app; cbn; lia|].
    intros Ht. destruct (Ho Ht) as [-> ?]. split; [|done]. rewrite take_app_le by lia. done.
  - destruct IH as [Hr Hb Hc Hp Ho].
    destruct (readAvailable_spec _ _ g buffer received errors count s base P1 P2 W P3 C Hg Hb Hc ltac:(lia)
      ltac:(lia) Hr) as [[? _]|(_ & bytes1 & s1 & Hread1 & Hl & Hby & Hb' & Hc' & Ho' & _)];
      [fold renew P; lia|fold renew P; lia|lia|]. fold renew P in Hl, Hby, Hb', Hc', Ho'.
    rewrite Hread1 in Hread. injection Hread as -> ->.
    constructor; auto; [by rewrite Hl|lia|].
    intros [Ht Hok%Z.leb_le]%andb_true_iff. destruct (Ho Ht) as [-> Hov].
    rewrite Z.max_l in * by lia. split.
    + replace (Z.to_nat (C + Z.of_nat (length bytes))) with (Z.to_nat C + length bytes)%nat by lia.
      rewrite <- take_take_drop. f_equal. apply list_eq_same_length with (length bytes); [rewrite length_take, length_drop; lia|done|].
      intros j x y Hj Hx Hy. rewrite lookup_take_lt, lookup_drop in Hy by done.
      rewrite Hby in Hx by lia. replace (Z.to_nat (C + Z.of_nat j)) with (Z.to_nat C + j)%nat in Hx by lia. congruence.
    + by rewrite decide_False in Ho' by lia; rewrite Ho'.
  - destruct IH as [Hr Hb Hc Hpos Ho]. rewrite (produced_spec _ _ g s base P1 P2 W P3 Hg Hb) in Hp.
    injection Hp as _ <-. by constructor.
Qed.

(** The receive ring is a queue. As long as every read comes before the channel has
    run over unread bytes, what [readAvailable] has returned is exactly the beginning of
    what the UART received, without a gap, also when the 32-bit position wraps and when
    the transfer is renewed, and no overrun is counted. And every read completes,
    within the bounds of the ring, and returns as much as it was asked for or all
    there is. *)
Theorem PicoDma_rx_in_order (s : DmaRx) (buffer received : list byte) (base C : Z)
    (out : list byte) (in_time : bool)
    (Hrun : dma_rx_runs s buffer received base C out in_time) :
  (in_time = true → out = take (Z.to_nat C) received ∧ overruns s = 0)
  ∧ ∀ g P1 P2 W P3 errors count,
      let P := if rg_count g <? kRingSize then P3 else P1 in
      rx_readings kRxTransferCount rx_buffer_addr g base P1 P2 W P3 →
      C ≤ P ≤ Z.of_nat (length received) → P - C < 4294967296 → 0 < count →
      ∃ bytes s', readAvailable kRxTransferCount rx_buffer_addr g buffer errors count s = Some (bytes, s')
        ∧ Z.of_nat (length bytes) = Z.min count (Z.min (P - C) kRingSize).
Proof.
  apply dma_rx_runs_inv in Hrun. destruct Hrun as [Hr Hb Hc Hp Ho]. split; [done|].
  intros g P1 P2 W P3 errors count P Hg HP Hwrap Hcount.
  destruct (readAvailable_spec _ _ g buffer received errors count s base P1 P2 W P3 C Hg Hb Hc ltac:(lia)
    ltac:(lia) Hr) as [[? _]|(_ & bytes & s' & Hread & Hl & _)]; [fold P; lia|fold P; lia|lia|].
  exists bytes, s'. split; [done|]. fold P in Hl. unfold kRingSize. lia.
Qed.

End RxSystem.

(** ** Witnesses *)

Fixpoint dma_run (s : DmaSys) (es : list dma_event) : option DmaSys :=
  match es with
  | [] => Some s
  | e :: es => s ← dma_exec s e; dma_run s es
  end.

Lemma dma_run_runs es : ∀ s s', dma_runs s → dma_run s es = Some s' → dma_runs s'.
Proof.
  induction es as [|e es IH]; intros s s' Hr Hx; cbn [dma_run] in Hx; [by injection Hx as <-|].
  inv_bind Hx. eapply IH; [|done]. by eapply dma_runs_step.
Qed.

Definition demo_memory : list byte := replicate (Z.to_nat kRingSize) 0.

Lemma demo_memory_length : Z.of_nat (length demo_memory) = kRingSize.
Proof. unfold demo_memory. by rewrite length_replicate, Z2Nat.id. Qed.

Definition demo_events : list dma_event :=
  [ DmaWrite [1; 2; 3]; DmaThread; DmaThread; DmaThread; DmaThread; DmaThread; DmaThread;
    DmaByte; DmaThread; DmaByte ].

(** Three bytes are written and two of them sent before [write] returns. *)
Definition dma_demo : option DmaSys :=
  dma_run (dma_init demo_memory) demo_events.

Lemma dma_demo_runs s : dma_demo = Some s → dma_runs s.
Proof. exact (dma_run_runs demo_events _ s (dma_runs_start _ demo_memory_length)). Qed.

#[local] Opaque dma_demo.

Lemma dma_demo_ok :
  ∃ s, dma_demo = Some s ∧ dma_runs s ∧ ds_wire s = [1; 2] ∧ ds_given s = [1; 2; 3]
       ∧ ds_writer s = NotWriting ∧ flush_done (ds_tx s) = false.
Proof.
  assert (Hf : option_map (λ s, (ds_wire s, ds_given s, ds_writer s, flush_done (ds_tx s))) dma_demo
    = Some ([1; 2], [1; 2; 3], NotWriting, false)) by (vm_compute; reflexivity).
  pose proof dma_demo_runs as Hr. revert Hr Hf. generalize dma_demo. intros [s|] Hr Hf; [|discriminate].
  injection Hf as Hw Hg Hn Hd. exists s. auto 10.
Qed.

Lemma PicoDma_tx_in_order_witness :
  ∃ s s', dma_demo = Some s ∧ dma_exec s DmaByte = Some s'
    ∧ ∃ queued, [1; 2; 3] = [1; 2] ++ queued ∧ Z.of_nat (length queued) ≤ kRingSize.
Proof.
  destruct dma_demo_ok as (s & Hs & Hr & Hw & Hg & Hn & _).
  destruct (PicoDma_tx_in_order s Hr) as [(queued & Hq & Hl & _) Hex].
  destruct (Hex DmaByte) as [s' He]. exists s, s'. do 2 (split; [assumption|]).
  exists queued. rewrite Hw, Hg, Hn, app_nil_r in Hq. split; assumption.
Defined.

Lemma PicoDma_tx_drains_witness :
  ∃ s s', dma_demo = Some s ∧ dma_hardware (S (Z.to_nat kRingSize)) s = Some s'
    ∧ flush_done (ds_tx s) = false ∧ flush_done (ds_tx s') = true ∧ ds_wire s' = [1; 2; 3].
Proof.
  destruct dma_demo_ok as (s & Hs & Hr & Hw & Hg & Hn & Hf).
  destruct (PicoDma_tx_drains s Hr) as (s' & Hd & Hdone & _ & Hg' & Hn' & Hall).
  exists s, s'. do 4 (split; [assumption|]).
  rewrite Hg', Hg, Hn', Hn, app_nil_r in Hall. symmetry. exact Hall.
Defined.

(** Two bytes arrive and one is read, with the transfer count of a new instance. *)
Definition dma_rx_demo_regs : RxRegs := mkRxRegs (4294967295 - 2) 0 0 0.

Lemma PicoDma_rx_in_order_witness :
  ∃ s buffer bytes s', dma_rx_runs 4294967295 0 s buffer [7; 8] 0 1 [7] true
    ∧ readAvailable 4294967295 0 dma_rx_demo_regs buffer 0 5 s = Some (bytes, s')
    ∧ Z.of_nat (length bytes) = 1 ∧ overruns s = 0.
Proof.
  set (buffer := rx_store (rx_store demo_memory [] 7) [7] 8).
  assert (Hbytes : dma_rx_runs 4294967295 0 (mkDmaRx 0 0 0 0) buffer [7; 8] 0 0 [] true).
  { apply (dma_rx_byte _ _ _ _ [7]), (dma_rx_byte _ _ _ _ []).
    exact (dma_rx_start _ _ _ demo_memory_length). }
  assert (Hg : rx_readings 4294967295 0 dma_rx_demo_regs 0 2 2 2 2) by (by constructor).
  destruct (readAvailable 4294967295 0 dma_rx_demo_regs buffer 0 1 (mkDmaRx 0 0 0 0))
    as [[bytes s]|] eqn:Hread; [|exfalso; revert Hread; vm_compute; discriminate].
  assert (Hb : bytes = [7]).
  { assert (Hf : option_map fst (readAvailable 4294967295 0 dma_rx_demo_regs buffer 0 1 (mkDmaRx 0 0 0 0))
      = Some [7]) by (vm_compute; reflexivity). rewrite Hread in Hf. by injection Hf. }
  subst bytes.
  pose proof (dma_rx_read _ _ _ _ _ _ _ _ _ dma_rx_demo_regs 2 2 2 2 0 1 _ _ Hbytes Hg
    ltac:(split; vm_compute; discriminate) ltac:(by vm_compute) ltac:(lia) Hread) as Hrun.
  destruct (PicoDma_rx_in_order _ _ s buffer [7; 8] 0 1 [7] true Hrun) as [Hclean Hnext].
  destruct (Hnext dma_rx_demo_regs 2 2 2 2 0 5 Hg) as (bytes & s' & Hr & Hl); [split; vm_compute; discriminate|by vm_compute|lia|].
  exists s, buffer, bytes, s'. split; [exact Hrun|]. split; [exact Hr|]. split; [exact Hl|]. by apply Hclean.
Defined.
