(* ===== verification/PicoBoard.v ===== *)
(** * PicoBoard: the DMA UARTs of one board

    The life of [ReliableUartDma::Impl] of link/pico/reliable_uart_dma.cpp: the constructor,
    begin(), end(), and the completion interrupt that all instances share. The board has
    what the instances have in common: the static table [instances], the DMA channels and
    spinlocks that are claimed, the interrupt, and the channels themselves. Objects are
    pointers into [bd_impls]; the table holds such pointers. What an instance sends goes
    through the rings of [PicoDma]. *)

From stdpp Require Import gmap.
From S2P Require Import Prelude.
From S2P Require Import PicoDma.

Local Open Scope Z_scope.
Local Open Scope roo_scope.

(** ** The board *)

(** The claims of the Pico SDK: they return something that nobody holds, and give up only when
    everything is held. *)
Class PicoSdk := {
  dma_claim_unused_channel : gset Z → option Z;
  spin_lock_claim_unused : gset Z → option Z;
}.

Definition NUM_DMA_CHANNELS : Z := 12.

Class PicoSdkLaws {sdk : PicoSdk} : Prop := {
  dma_claim_unused claimed c : dma_claim_unused_channel claimed = Some c → c ∉ claimed ∧ 0 ≤ c < NUM_DMA_CHANNELS;
  dma_claim_exhausted claimed c :
    dma_claim_unused_channel claimed = None → 0 ≤ c < NUM_DMA_CHANNELS → c ∈ claimed;
  spin_lock_unused claimed l : spin_lock_claim_unused claimed = Some l → l ∉ claimed;
}.

(** What an instance holds from its construction until it is closed. *)
Record Held := mkHeld {
  hd_uart : nat;
  hd_irq_core : Z;
  hd_rx_channel : Z;
  hd_tx_channel : Z;
  hd_spinlock : Z;
  hd_closed : bool;
}.

(** [im_link] and [im_receiving] say whether the two threads run, and [im_flushing] that end()
    waits for the ring to drain. The last three are the thread in [write] and the history, as in
    [DmaSys]. *)
Record Impl := mkImpl {
  im_held : Held;
  im_started : bool;
  im_running : bool;
  im_link : bool;
  im_receiving : bool;
  im_flushing : bool;
  im_tx : DmaTx;
  im_rx : DmaRx;
  im_writer : writer;
  im_wire : list byte;
  im_given : list byte;
}.

(** The channels: which raise the interrupt, which of them have it pending, the transfers under
    way, the channels that receive, and how often the handler is installed. *)
Record DmaHw := mkDmaHw {
  hw_irq0_enabled : gset Z;
  hw_ints0 : gset Z;
  hw_transfers : gmap Z (Z * Z);
  hw_receiving : gset Z;
  hw_handlers : nat;
}.

Record Board := mkBoard {
  bd_impls : list Impl;
  bd_instances : list (option nat);
  bd_claimed : gset Z;
  bd_locks : gset Z;
  bd_hw : DmaHw;
}.

Definition bd_with_impl (p : nat) (im : Impl) (bd : Board) : Board :=
  mkBoard (<[p := im]> (bd_impls bd)) (bd_instances bd) (bd_claimed bd) (bd_locks bd) (bd_hw bd).

Definition bd_with_hw (hw : DmaHw) (bd : Board) : Board :=
  mkBoard (bd_impls bd) (bd_instances bd) (bd_claimed bd) (bd_locks bd) hw.

Definition hw_with_ints0 (v : gset Z) (hw : DmaHw) : DmaHw :=
  mkDmaHw (hw_irq0_enabled hw) v (hw_transfers hw) (hw_receiving hw) (hw_handlers hw).

Definition hw_with_transfers (v : gmap Z (Z * Z)) (hw : DmaHw) : DmaHw :=
  mkDmaHw (hw_irq0_enabled hw) (hw_ints0 hw) v (hw_receiving hw) (hw_handlers hw).

Definition no_instances (instances : list (option nat)) : bool :=
  forallb (λ i, bool_decide (i = None)) instances.

(** ** The operations *)

Section Operations.

Context {sdk : PicoSdk}.

(** The constructor's test that every instance is on this core. *)
Definition same_core (core : Z) (bd : Board) : bool :=
  forallb (λ i, match i ≫= (bd_impls bd !!.) with
                | Some im => hd_irq_core (im_held im) =? core
                | None => true
                end) (bd_instances bd).

(** The constructor, on [core]; [memory] is what the new ring holds. *)
Definition Impl_new (uart : nat) (rx_buffer core : Z) (memory : list byte) (bd : Board) : option Board :=
  CHECK (uart <? 2)%nat ;;
  CHECK (negb (rx_buffer =? 0)) ;;
  CHECK (Z.land rx_buffer kRingMask =? 0) ;;
  slot ← bd_instances bd !! uart;
  CHECK (bool_decide (slot = None)) ;;
  CHECK (same_core core bd) ;;
  rx ← dma_claim_unused_channel (bd_claimed bd);
  tx ← dma_claim_unused_channel ({[rx]} ∪ bd_claimed bd);
  lock ← spin_lock_claim_unused (bd_locks bd);
  let hw := bd_hw bd in
  let handlers := if no_instances (bd_instances bd) then S (hw_handlers hw) else hw_handlers hw in
  let p := length (bd_impls bd) in
  let im := mkImpl (mkHeld uart core rx tx lock false) false false false false false
              (mkDmaTx memory 0 0 0) (mkDmaRx 0 0 0 0) NotWriting [] [] in
  Some (mkBoard (bd_impls bd ++ [im]) (<[uart := Some p]> (bd_instances bd))
          ({[tx]} ∪ ({[rx]} ∪ bd_claimed bd)) ({[lock]} ∪ bd_locks bd)
          (mkDmaHw ({[tx]} ∪ hw_irq0_enabled hw) (hw_ints0 hw ∖ {[tx]}) (hw_transfers hw)
             ({[rx]} ∪ hw_receiving hw) handlers)).

Definition im_with_threads (started running link receiving flushing : bool) (im : Impl) : Impl :=
  mkImpl (im_held im) started running link receiving flushing (im_tx im) (im_rx im)
    (im_writer im) (im_wire im) (im_given im).

Definition Impl_begin (p : nat) (bd : Board) : option Board :=
  im ← bd_impls bd !! p;
  CHECK (negb (im_started im) && negb (hd_closed (im_held im))) ;;
  Some (bd_with_impl p (im_with_threads true true true true (im_flushing im) im) bd).

(** end(), up to its call of flush: it waits for the sender thread, which may be in [write],
    and then for the receive thread. *)
Definition Impl_end (p : nat) (core : Z) (bd : Board) : option Board :=
  im ← bd_impls bd !! p;
  if hd_closed (im_held im) then Some bd
  else
    CHECK (core =? hd_irq_core (im_held im)) ;;
    if im_started im then
      match im_writer im with
      | NotWriting => Some (bd_with_impl p (im_with_threads true false false false true im) bd)
      | _ => Some bd
      end
    else Some (bd_with_impl p (im_with_threads false (im_running im) (im_link im) (im_receiving im) true im) bd).

(** The rest of it, once the test of flush succeeds. *)
Definition Impl_release (p : nat) (bd : Board) : option Board :=
  im ← bd_impls bd !! p;
  if im_flushing im && flush_done (im_tx im) then
    let h := im_held im in
    let hw := bd_hw bd in
    let rx := hd_rx_channel h in
    let tx := hd_tx_channel h in
    let instances := <[hd_uart h := None]> (bd_instances bd) in
    let handlers := if no_instances instances then pred (hw_handlers hw) else hw_handlers hw in
    let closed := mkHeld (hd_uart h) (hd_irq_core h) rx tx (hd_spinlock h) true in
    let im := mkImpl closed (im_started im) (im_running im) (im_link im) (im_receiving im) false
                (im_tx im) (im_rx im) (im_writer im) (im_wire im) (im_given im) in
    Some (mkBoard (<[p := im]> (bd_impls bd)) instances
            (bd_claimed bd ∖ {[tx]} ∖ {[rx]}) (bd_locks bd ∖ {[hd_spinlock h]})
            (mkDmaHw (hw_irq0_enabled hw ∖ {[tx]}) (hw_ints0 hw ∖ {[tx]}) (delete tx (hw_transfers hw))
               (hw_receiving hw ∖ {[rx]}) handlers))
  else Some bd.

(** [dma_channel_transfer_from_buffer_now]; as in [dma_start], a channel that is busy, or whose
    interrupt is pending, must not be programmed. *)
Definition dma_program (c : Z) (req : dma_request) (hw : DmaHw) : option DmaHw :=
  match req with
  | None => Some hw
  | Some t =>
      if bool_decide (hw_transfers hw !! c = None) && bool_decide (c ∉ hw_ints0 hw)
      then Some (hw_with_transfers (<[c := t]> (hw_transfers hw)) hw)
      else None
  end.

Definition im_with_tx (t : DmaTx) (im : Impl) : Impl :=
  mkImpl (im_held im) (im_started im) (im_running im) (im_link im) (im_receiving im) (im_flushing im)
    t (im_rx im) (im_writer im) (im_wire im) (im_given im).

(** One round of the handler's loop. *)
Definition TxIrq_round (bd : Board) (i : option nat) : option Board :=
  match i with
  | None => Some bd
  | Some p =>
      im ← bd_impls bd !! p;
      let c := hd_tx_channel (im_held im) in
      if bool_decide (c ∈ hw_ints0 (bd_hw bd)) then
        let hw := hw_with_ints0 (hw_ints0 (bd_hw bd) ∖ {[c]}) (bd_hw bd) in
        let '(req, t) := TxIrq_instance (im_tx im) in
        hw ← dma_program c req hw;
        Some (bd_with_hw hw (bd_with_impl p (im_with_tx t im) bd))
      else Some bd
  end.

Fixpoint TxIrq_loop (bd : Board) (instances : list (option nat)) : option Board :=
  match instances with
  | [] => Some bd
  | i :: instances => bd ← TxIrq_round bd i; TxIrq_loop bd instances
  end.

Definition TxIrq (bd : Board) : option Board := TxIrq_loop bd (bd_instances bd).

End Operations.

(** ** The system *)

(** The sending side of an instance, as in [PicoDma]. *)
Definition im_sending (im : Impl) (hw : DmaHw) : DmaSys :=
  let c := hd_tx_channel (im_held im) in
  mkDmaSys (im_tx im) (im_writer im) (hw_transfers hw !! c) (bool_decide (c ∈ hw_ints0 hw)) (im_wire im) (im_given im).

Definition im_with_sending (s : DmaSys) (im : Impl) : Impl :=
  mkImpl (im_held im) (im_started im) (im_running im) (im_link im) (im_receiving im) (im_flushing im)
    (ds_tx s) (im_rx im) (ds_writer s) (ds_wire s) (ds_given s).

Definition hw_with_sending (c : Z) (s : DmaSys) (hw : DmaHw) : DmaHw :=
  hw_with_ints0 (if ds_irq s then {[c]} ∪ hw_ints0 hw else hw_ints0 hw ∖ {[c]})
    (hw_with_transfers (match ds_transfer s with
                        | Some t => <[c := t]> (hw_transfers hw)
                        | None => delete c (hw_transfers hw)
                        end) hw).

(** A step of the sender thread in [write], or of the channel. *)
Definition board_sending (p : nat) (e : dma_event) (bd : Board) : option Board :=
  im ← bd_impls bd !! p;
  if hd_closed (im_held im) then Some bd
  else
    s ← dma_exec (im_sending im (bd_hw bd)) e;
    Some (bd_with_hw (hw_with_sending (hd_tx_channel (im_held im)) s (bd_hw bd))
            (bd_with_impl p (im_with_sending s im) bd)).

(** [BoardWrite]: the sender thread of the link calls [write], which it does while it runs.
    [BoardIrq]: the handler is called, which the interrupts of others, that share the line, may
    cause too. *)
Inductive board_event :=
  | BoardNew (uart : nat) (rx_buffer core : Z) (memory : list byte)
  | BoardBegin (p : nat)
  | BoardEnd (p : nat) (core : Z)
  | BoardRelease (p : nat)
  | BoardWrite (p : nat) (bytes : list byte)
  | BoardThread (p : nat)
  | BoardByte (p : nat)
  | BoardIrq.

Section System.

Context {sdk : PicoSdk}.

Definition board_exec (bd : Board) (e : board_event) : option Board :=
  match e with
  | BoardNew uart rx_buffer core memory => Impl_new uart rx_buffer core memory bd
  | BoardBegin p => Impl_begin p bd
  | BoardEnd p core => Impl_end p core bd
  | BoardRelease p => Impl_release p bd
  | BoardWrite p bytes =>
      im ← bd_impls bd !! p;
      if im_link im then board_sending p (DmaWrite bytes) bd else Some bd
  | BoardThread p => board_sending p DmaThread bd
  | BoardByte p => board_sending p DmaByte bd
  | BoardIrq => if (hw_handlers (bd_hw bd) =? 0)%nat then Some bd else TxIrq bd
  end.

(** Objects that exist, rings of the right size, and what the documentation asks for: begin()
    and end() of an object are not called at the same time. *)
Definition board_env (bd : Board) (e : board_event) : Prop :=
  match e with
  | BoardNew _ _ _ memory => Z.of_nat (length memory) = kRingSize
  | BoardBegin p => ∃ im, bd_impls bd !! p = Some im ∧ im_flushing im = false
  | BoardEnd p _ | BoardRelease p | BoardWrite p _ | BoardThread p | BoardByte p => is_Some (bd_impls bd !! p)
  | BoardIrq => True
  end.

(** A board before the first instance; others hold some channels and spinlocks already. *)
Definition board_start (others other_locks : gset Z) : Board :=
  mkBoard [] [None; None] others other_locks (mkDmaHw ∅ ∅ ∅ ∅ 0).

Inductive board_runs (others other_locks : gset Z) : Board → Prop :=
  | board_runs_start : board_runs others other_locks (board_start others other_locks)
  | board_runs_step bd e bd' :
      board_runs others other_locks bd → board_env bd e → board_exec bd e = Some bd' →
      board_runs others other_locks bd'.

End System.

(** ** The invariant *)

(** An object that has not been closed. *)
Definition holds (bd : Board) (p : nat) (h : Held) : Prop :=
  (im_held <$> bd_impls bd) !! p = Some h ∧ hd_closed h = false.

(** Who holds what. *)
Record board_wf (others other_locks : gset Z) (bd : Board) : Prop := {
  bw_length : length (bd_instances bd) = 2%nat;
  bw_slot u p : bd_instances bd !! u = Some (Some p) ↔ ∃ h, holds bd p h ∧ hd_uart h = u;
  bw_core p q h h' : holds bd p h → holds bd q h' → hd_irq_core h = hd_irq_core h';
  bw_claimed c : c ∈ bd_claimed bd ↔ c ∈ others ∨ ∃ p h, holds bd p h ∧ (c = hd_rx_channel h ∨ c = hd_tx_channel h);
  bw_others p h : holds bd p h →
    hd_rx_channel h ∉ others ∧ hd_tx_channel h ∉ others ∧ hd_rx_channel h ≠ hd_tx_channel h
    ∧ hd_spinlock h ∉ other_locks;
  bw_apart p q h h' : holds bd p h → holds bd q h' → p ≠ q →
    hd_rx_channel h ≠ hd_rx_channel h' ∧ hd_rx_channel h ≠ hd_tx_channel h'
    ∧ hd_tx_channel h ≠ hd_tx_channel h' ∧ hd_spinlock h ≠ hd_spinlock h';
  bw_locks l : l ∈ bd_locks bd ↔ l ∈ other_locks ∨ ∃ p h, holds bd p h ∧ l = hd_spinlock h;
  bw_enabled c : c ∈ hw_irq0_enabled (bd_hw bd) ↔ ∃ p h, holds bd p h ∧ c = hd_tx_channel h;
  bw_receiving c : c ∈ hw_receiving (bd_hw bd) ↔ ∃ p h, holds bd p h ∧ c = hd_rx_channel h;
  bw_pending c : c ∈ hw_ints0 (bd_hw bd) → ∃ p h, holds bd p h ∧ c = hd_tx_channel h;
  bw_transfers c : is_Some (hw_transfers (bd_hw bd) !! c) → ∃ p h, holds bd p h ∧ c = hd_tx_channel h;
  bw_handlers : hw_handlers (bd_hw bd) = if no_instances (bd_instances bd) then 0%nat else 1%nat;
}.

(** How far an object is in its life. *)
Record life_ok (im : Impl) : Prop := {
  lo_link : im_link im = true → im_started im = true ∧ im_running im = true ∧ im_flushing im = false
    ∧ hd_closed (im_held im) = false;
  lo_idle : im_link im = false → im_writer im = NotWriting;
  lo_receiving : im_receiving im = im_link im;
  lo_running : im_running im = im_link im;
  lo_closed : hd_closed (im_held im) = true → im_flushing im = false ∧ im_wire im = im_given im;
}.

Record board_inv (others other_locks : gset Z) (bd : Board) : Prop := {
  bi_wf : board_wf others other_locks bd;
  bi_life p im : bd_impls bd !! p = Some im → life_ok im;
  bi_sending p im : bd_impls bd !! p = Some im → hd_closed (im_held im) = false →
    dma_runs (im_sending im (bd_hw bd));
}.

(** ** Steps that move no resources *)

Lemma holds_ext bd bd' p h : im_held <$> bd_impls bd' = im_held <$> bd_impls bd → holds bd' p h ↔ holds bd p h.
Proof. unfold holds. by intros ->. Qed.

Lemma held_insert p im im' (impls : list Impl) :
  impls !! p = Some im → im_held im' = im_held im → im_held <$> <[p := im']> impls = im_held <$> impls.
Proof. intros Hp Hh. rewrite list_fmap_insert, Hh. apply list_insert_id. by rewrite list_lookup_fmap, Hp. Qed.

Lemma holds_impl bd p im : bd_impls bd !! p = Some im → hd_closed (im_held im) = false → holds bd p (im_held im).
Proof. intros Hp Hc. unfold holds. by rewrite list_lookup_fmap, Hp. Qed.

Lemma holds_inv bd p h : holds bd p h → ∃ im, bd_impls bd !! p = Some im ∧ im_held im = h ∧ hd_closed (im_held im) = false.
Proof. intros [(im & -> & Hp)%list_lookup_fmap_Some_1 Hc]. by exists im. Qed.

Section Invariant.

Context {sdk : PicoSdk} {sdk_laws : PicoSdkLaws} (others other_locks : gset Z).

Notation wf := (board_wf others other_locks).
Notation inv := (board_inv others other_locks).

Record same_resources (bd bd' : Board) : Prop := {
  sr_held : im_held <$> bd_impls bd' = im_held <$> bd_impls bd;
  sr_instances : bd_instances bd' = bd_instances bd;
  sr_claimed : bd_claimed bd' = bd_claimed bd;
  sr_locks : bd_locks bd' = bd_locks bd;
  sr_enabled : hw_irq0_enabled (bd_hw bd') = hw_irq0_enabled (bd_hw bd);
  sr_receiving : hw_receiving (bd_hw bd') = hw_receiving (bd_hw bd);
  sr_handlers : hw_handlers (bd_hw bd') = hw_handlers (bd_hw bd);
}.

Lemma same_resources_wf bd bd' :
  wf bd → same_resources bd bd' →
  (∀ c, c ∈ hw_ints0 (bd_hw bd') → c ∈ hw_ints0 (bd_hw bd) ∨ ∃ p h, holds bd p h ∧ c = hd_tx_channel h) →
  (∀ c, is_Some (hw_transfers (bd_hw bd') !! c) →
    is_Some (hw_transfers (bd_hw bd) !! c) ∨ ∃ p h, holds bd p h ∧ c = hd_tx_channel h) →
  wf bd'.
Proof.
  intros [] [Hh Hi Hc Hl He Hr Hn] Hp Ht. pose proof (λ p h, holds_ext bd bd' p h Hh) as Hx.
  constructor; rewrite ?Hi, ?Hc, ?Hl, ?He, ?Hr, ?Hn; auto; intros *; setoid_rewrite Hx; eauto.
  - intros Hin. destruct (Hp c Hin); eauto.
  - intros Hin. destruct (Ht c Hin); eauto.
Qed.

(** What a step from [bd] to [bd'] is for the sending side of the object [p]. *)
Definition sends_to (bd bd' : Board) (e : option dma_event) (p : nat) : Prop :=
  ∀ im, bd_impls bd !! p = Some im → hd_closed (im_held im) = false →
    ∃ im', bd_impls bd' !! p = Some im' ∧ im_held im' = im_held im ∧ im_flushing im' = im_flushing im
      ∧ match e with
        | Some e => dma_exec (im_sending im (bd_hw bd)) e = Some (im_sending im' (bd_hw bd'))
        | None => im_sending im' (bd_hw bd') = im_sending im (bd_hw bd)
        end.

(** A new state of one object, with the same channels and threads. *)
Lemma board_update bd p im im' hw :
  inv bd → bd_impls bd !! p = Some im → im_held im' = im_held im → life_ok im' →
  hw_irq0_enabled hw = hw_irq0_enabled (bd_hw bd) → hw_receiving hw = hw_receiving (bd_hw bd) →
  hw_handlers hw = hw_handlers (bd_hw bd) →
  (∀ c, c ≠ hd_tx_channel (im_held im) →
    hw_transfers hw !! c = hw_transfers (bd_hw bd) !! c ∧ (c ∈ hw_ints0 hw ↔ c ∈ hw_ints0 (bd_hw bd))) →
  (hd_closed (im_held im) = false → dma_runs (im_sending im' hw)) →
  (hd_closed (im_held im) = true → hw = bd_hw bd) →
  inv (bd_with_hw hw (bd_with_impl p im' bd))
  ∧ ∀ q, q ≠ p → sends_to bd (bd_with_hw hw (bd_with_impl p im' bd)) None q.
Proof.
  intros [Hwf Hlife Hrun] Hp Hh Hl He Hr Hn Hother Hs Hclosed.
  assert (Hsame : same_resources bd (bd_with_hw hw (bd_with_impl p im' bd))).
  { constructor; cbn; auto. by eapply held_insert. }
  assert (Hrest : ∀ q im2, q ≠ p → bd_impls bd !! q = Some im2 → hd_closed (im_held im2) = false →
    im_sending im2 hw = im_sending im2 (bd_hw bd)).
  { intros q im2 Hne Hq Hc. destruct (hd_closed (im_held im)) eqn:Hcp; [by rewrite Hclosed|].
    destruct (bw_apart _ _ _ Hwf p q _ _ (holds_impl _ _ _ Hp Hcp) (holds_impl _ _ _ Hq Hc) (not_eq_sym Hne))
      as (_ & _ & Hch & _).
    destruct (Hother (hd_tx_channel (im_held im2)) (not_eq_sym Hch)) as [Ht Hi].
    unfold im_sending. by rewrite Ht, (bool_decide_ext _ _ Hi). }
  split; [constructor|].
  - destruct (hd_closed (im_held im)) eqn:Hc.
    { rewrite (Hclosed eq_refl) in *. apply (same_resources_wf bd); auto. }
    pose proof (holds_impl bd p im Hp Hc) as Hhold. apply (same_resources_wf bd); auto; cbn; intros c Hin.
    all: destruct (decide (c = hd_tx_channel (im_held im))); [right; eauto|left].
    + by apply Hother.
    + by destruct (Hother c) as [<- _].
  - cbn. intros q im2 [(<- & <- & _)|[_ Hq]]%list_lookup_insert_Some; [done|eauto].
  - cbn. intros q im2 [(<- & <- & _)|[Hne Hq]]%list_lookup_insert_Some Hc; [apply Hs; congruence|].
    rewrite (Hrest q) by auto. eauto.
  - intros q Hne im2 Hq Hc. exists im2. cbn. rewrite list_lookup_insert_ne by done. by rewrite (Hrest q).
Qed.

(** *** Sending *)

Lemma im_sending_with s im hw :
  im_sending (im_with_sending s im) (hw_with_sending (hd_tx_channel (im_held im)) s hw) = s.
Proof.
  destruct s as [t w tr irq wire given]. unfold im_sending, im_with_sending. cbn. f_equal.
  - destruct tr; [apply lookup_insert_eq|apply lookup_delete_eq].
  - destruct irq; [apply bool_decide_true|apply bool_decide_false]; set_solver.
Qed.

Lemma hw_with_sending_other c c' s hw : c' ≠ c →
  hw_transfers (hw_with_sending c s hw) !! c' = hw_transfers hw !! c'
  ∧ (c' ∈ hw_ints0 (hw_with_sending c s hw) ↔ c' ∈ hw_ints0 hw).
Proof.
  intros Hne. cbn. split.
  - destruct (ds_transfer s); [by apply lookup_insert_ne|by apply lookup_delete_ne].
  - destruct (ds_irq s); set_solver.
Qed.

(** Only a call of [write] makes the thread leave [NotWriting], and only the history of a call
    grows. *)
Lemma dma_exec_idle s e s' :
  dma_exec s e = Some s' → ds_writer s = NotWriting → (∀ bytes, e ≠ DmaWrite bytes) →
  ds_writer s' = NotWriting.
Proof.
  intros Hex Hw Hne. destruct e; cbn in Hex.
  - by edestruct Hne.
  - unfold dma_thread in Hex. rewrite Hw in Hex. by injection Hex as <-.
  - unfold dma_byte in Hex. destruct (ds_transfer s) as [[o c]|]; [|by injection Hex as <-].
    inv_bind Hex. by injection Hex as <-.
  - unfold dma_irq in Hex. destruct (ds_irq s); [|by injection Hex as <-]. cbn in Hex.
    unfold dma_start in Hex. destruct (if negb _ then _ else _); [|by injection Hex as <-].
    destruct (_ && _); [|done]. by injection Hex as <-.
Qed.

Lemma board_sending_inv bd p im e :
  inv bd → bd_impls bd !! p = Some im → (∀ bytes, e = DmaWrite bytes → im_link im = true) →
  ∃ bd', board_sending p e bd = Some bd' ∧ inv bd' ∧ sends_to bd bd' (Some e) p
    ∧ ∀ q, q ≠ p → sends_to bd bd' None q.
Proof.
  intros Hinv Hp Hlink. unfold board_sending. rewrite (bind_step _ _ _ Hp).
  destruct (hd_closed (im_held im)) eqn:Hc.
  { exists bd. do 2 (split; [done|]). split; [intros im2 Hp2; congruence|]. intros q _ im2 Hq Hc2. by exists im2. }
  pose proof (bi_sending _ _ _ Hinv p im Hp Hc) as Hrun. pose proof (bi_life _ _ _ Hinv p im Hp) as [].
  destruct (dma_exec_good _ e (dma_runs_good _ Hrun)) as (s & Hex & _).
  rewrite (bind_step _ _ _ Hex). eexists. split; [done|].
  destruct (board_update bd p im (im_with_sending s im) (hw_with_sending (hd_tx_channel (im_held im)) s (bd_hw bd)))
    as [Hinv' Hrest]; auto; [| |intros _; rewrite im_sending_with; by eapply dma_runs_step|congruence|].
  - constructor; cbn; auto; [|congruence]. intros Hl. apply (dma_exec_idle _ _ _ Hex); [by apply lo_idle0|].
    intros bytes ->. by rewrite (Hlink bytes eq_refl) in Hl.
  - intros c Hne. by apply hw_with_sending_other.
  - split; [done|]. split; [|done]. intros im2 Hp2 _. assert (im2 = im) as -> by congruence.
    exists (im_with_sending s im). split; [apply list_lookup_insert_eq; by eapply lookup_lt_Some|].
    do 2 (split; [done|]). cbn. by rewrite Hex, im_sending_with.
Qed.

(** *** The interrupt *)

(** A round of the handler is the interrupt of that instance alone. *)
Lemma TxIrq_round_inv bd p h :
  inv bd → holds bd p h →
  ∃ bd', TxIrq_round bd (Some p) = Some bd' ∧ inv bd' ∧ (∀ q h', holds bd' q h' ↔ holds bd q h')
    ∧ sends_to bd bd' (Some DmaIrq) p ∧ ∀ q, q ≠ p → sends_to bd bd' None q.
Proof.
  intros Hinv (im & Hp & <- & Hc)%holds_inv. cbn [TxIrq_round]. rewrite (bind_step _ _ _ Hp).
  set (c := hd_tx_channel (im_held im)). case_bool_decide as Hin.
  2: { exists bd. do 3 (split; [done|]). split; [|intros q _ im2 Hq Hc2; by exists im2].
       intros im2 Hp2 _. assert (im2 = im) as -> by congruence. exists im. split; [done|]. split; [done|]. split; [done|].
       unfold dma_exec, dma_irq, im_sending. cbn [ds_irq]. fold c. by rewrite bool_decide_false. }
  pose proof (bi_sending _ _ _ Hinv p im Hp Hc) as Hrun.
  destruct (dma_exec_good _ DmaIrq (dma_runs_good _ Hrun)) as (s & Hex & _).
  pose proof (dma_runs_step _ _ _ Hrun Hex) as Hrun'. pose proof Hex as Hirq. cbn [dma_exec] in Hex. unfold dma_irq in Hex.
  unfold im_sending in Hex. cbn [ds_irq ds_tx ds_writer ds_transfer ds_wire ds_given] in Hex. fold c in Hex.
  rewrite bool_decide_true in Hex by done. destruct (TxIrq_instance (im_tx im)) as [req t].
  set (hw0 := hw_with_ints0 _ _).
  assert (Hprog : ∃ hw, dma_program c req hw0 = Some hw ∧ im_sending (im_with_tx t im) hw = s
    ∧ hw_irq0_enabled hw = hw_irq0_enabled (bd_hw bd) ∧ hw_receiving hw = hw_receiving (bd_hw bd)
    ∧ hw_handlers hw = hw_handlers (bd_hw bd) ∧ hw_ints0 hw = hw_ints0 (bd_hw bd) ∖ {[c]}
    ∧ ∀ c', c' ≠ c → hw_transfers hw !! c' = hw_transfers (bd_hw bd) !! c').
  { unfold dma_program, dma_start in *. destruct req as [tr|].
    - cbn [ds_transfer ds_irq negb] in Hex. rewrite andb_true_r in Hex. unfold hw0. cbn [hw_transfers hw_with_ints0 hw_ints0].
      case_bool_decide as Htr; [|done]. rewrite bool_decide_true by set_solver. cbn [andb].
      eexists. split; [done|]. split_and!; try done; [|cbn; intros c' Hne; by apply lookup_insert_ne].
      injection Hex as <-. unfold im_sending. cbn. fold c. rewrite lookup_insert_eq, bool_decide_false by set_solver. done.
    - eexists. split; [done|]. split_and!; try done. injection Hex as <-. unfold im_sending. cbn. fold c.
      by rewrite bool_decide_false by set_solver. }
  destruct Hprog as (hw & Hprog & Hs & He & Hr & Hh & Hi & Ht). rewrite (bind_step _ _ _ Hprog).
  destruct (board_update bd p im (im_with_tx t im) hw) as [Hinv' Hrest]; auto; [| |by rewrite Hs|congruence|].
  - destruct (bi_life _ _ _ Hinv p im Hp). constructor; cbn; auto.
  - intros c' Hne. rewrite Hi. split; [by apply Ht|set_solver].
  - eexists. split; [done|]. split; [done|]. split; [|split; [|done]].
    + intros q h'. apply holds_ext. cbn. by eapply held_insert.
    + intros im2 Hp2 _. assert (im2 = im) as -> by congruence. exists (im_with_tx t im).
      split; [apply list_lookup_insert_eq; by eapply lookup_lt_Some|]. do 2 (split; [done|]). cbn [bd_hw bd_with_hw].
      by rewrite Hs.
Qed.

Lemma sends_to_trans bd bd1 bd' e p : sends_to bd bd1 None p → sends_to bd1 bd' e p → sends_to bd bd' e p.
Proof.
  intros H1 H2 im Hp Hc. destruct (H1 im Hp Hc) as (im1 & Hp1 & Hh1 & Hf1 & Hs1).
  destruct (H2 im1 Hp1 ltac:(congruence)) as (im' & Hp' & Hh' & Hf' & Hs'). exists im'.
  rewrite Hh', Hf', <- Hs1. auto.
Qed.

Lemma sends_to_none bd bd1 bd' e p : sends_to bd bd1 e p → sends_to bd1 bd' None p → sends_to bd bd' e p.
Proof.
  intros H1 H2 im Hp Hc. destruct (H1 im Hp Hc) as (im1 & Hp1 & Hh1 & Hf1 & Hs1).
  destruct (H2 im1 Hp1 ltac:(congruence)) as (im' & Hp' & Hh' & Hf' & Hs'). exists im'.
  rewrite Hh', Hf', Hs'. auto.
Qed.

Lemma TxIrq_loop_inv l : ∀ bd,
  inv bd → NoDup (omap id l) → (∀ p, p ∈ omap id l → ∃ h, holds bd p h) →
  ∃ bd', TxIrq_loop bd l = Some bd' ∧ inv bd'
    ∧ ∀ p, sends_to bd bd' (if decide (p ∈ omap id l) then Some DmaIrq else None) p.
Proof.
  induction l as [|[p|] l IH]; intros bd Hinv Hnd Hl.
  - exists bd. do 2 (split; [done|]). intros p im Hp Hc. cbn. by exists im.
  - cbn in Hnd. apply NoDup_cons in Hnd as [Hnew Hnd]. destruct (Hl p ltac:(by left)) as [h Hh].
    destruct (TxIrq_round_inv bd p h Hinv Hh) as (bd1 & Hr & Hinv1 & Hx & Hme & Hothers).
    destruct (IH bd1 Hinv1 Hnd) as (bd' & Hl' & Hinv' & Hs).
    { intros q Hq. destruct (Hl q ltac:(by right)) as [h' Hh']. exists h'. by apply Hx. }
    exists bd'. cbn [TxIrq_loop]. rewrite (bind_step _ _ _ Hr). do 2 (split; [done|]). intros q. specialize (Hs q).
    cbn. destruct (decide (q = p)) as [->|Hne].
    + rewrite decide_True by by left. rewrite decide_False in Hs by done. by eapply sends_to_none.
    + eapply sends_to_trans; [by apply Hothers|]. destruct (decide (q ∈ omap id l)).
      * by rewrite decide_True by by right.
      * by rewrite decide_False by by intros [?|?]%elem_of_cons.
  - exact (IH bd Hinv Hnd Hl).
Qed.

Lemma instances_distinct bd : wf bd → NoDup (omap id (bd_instances bd)).
Proof.
  intros Hwf. pose proof (bw_length _ _ _ Hwf) as Hl. pose proof (bw_slot _ _ _ Hwf) as Hs.
  destruct (bd_instances bd) as [|a [|b [|]]]; try done. destruct a as [p|], b as [q|]; cbn; try apply NoDup_singleton; [|constructor].
  apply NoDup_cons. split; [|apply NoDup_singleton]. intros ->%list_elem_of_singleton.
  destruct (proj1 (Hs 0%nat q) eq_refl) as (h & [Hh _] & H0). destruct (proj1 (Hs 1%nat q) eq_refl) as (h' & [Hh' _] & H1).
  congruence.
Qed.

(** The handler, whatever made the core call it, is the interrupt of every live instance. *)
Lemma TxIrq_inv bd :
  inv bd → ∃ bd', TxIrq bd = Some bd' ∧ inv bd' ∧ ∀ p, sends_to bd bd' (Some DmaIrq) p.
Proof.
  intros Hinv. pose proof (bi_wf _ _ _ Hinv) as Hwf.
  destruct (TxIrq_loop_inv (bd_instances bd) bd Hinv (instances_distinct bd Hwf)) as (bd' & Hex & Hinv' & Hs).
  { intros p ([q|] & Hq & Hid)%list_elem_of_omap; cbn in Hid; [|done]. injection Hid as <-.
    apply list_elem_of_lookup in Hq as [u Hu]. apply (bw_slot _ _ _ Hwf) in Hu as (h & Hh & _). by exists h. }
  exists bd'. do 2 (split; [done|]). intros p im Hp Hc. specialize (Hs p). rewrite decide_True in Hs; [by apply Hs|].
  apply list_elem_of_omap. exists (Some p). split; [|done]. apply list_elem_of_lookup. exists (hd_uart (im_held im)).
  apply (bw_slot _ _ _ Hwf). exists (im_held im). split; [by apply holds_impl|done].
Qed.

(** *** The threads *)

Lemma board_threads_inv bd p im im' :
  inv bd → bd_impls bd !! p = Some im → im_held im' = im_held im → life_ok im' →
  im_sending im' (bd_hw bd) = im_sending im (bd_hw bd) → inv (bd_with_impl p im' bd).
Proof.
  intros Hinv Hp Hh Hl Hs. pose proof (λ H1 H2, proj1 (board_update bd p im im' (bd_hw bd) Hinv Hp Hh Hl eq_refl eq_refl
    eq_refl ltac:(auto) H1 H2)) as Hup.
  destruct bd as [impls instances claimed locks hw]. apply Hup; auto. intros Hc. rewrite Hs.
  by apply (bi_sending _ _ _ Hinv p im).
Qed.

Lemma Impl_begin_inv bd p im bd' :
  inv bd → bd_impls bd !! p = Some im → im_flushing im = false → Impl_begin p bd = Some bd' → inv bd'.
Proof.
  intros Hinv Hp Hf. unfold Impl_begin. rewrite (bind_step _ _ _ Hp). intros Hex. inv_bind Hex.
  destruct (_ && _) eqn:Hok in E; [|done]. apply andb_true_iff in Hok as [Hs%negb_true_iff Hc%negb_true_iff].
  injection Hex as <-. apply (board_threads_inv bd p im); auto.
  destruct (bi_life _ _ _ Hinv p im Hp). rewrite Hf. constructor; cbn; auto; congruence.
Qed.

Lemma Impl_end_inv bd p core bd' : inv bd → Impl_end p core bd = Some bd' → inv bd'.
Proof.
  intros Hinv. unfold Impl_end. intros Hex. inv_bind Hex.
  destruct (hd_closed (im_held i)) eqn:Hc; [by injection Hex as <-|]. inv_bind Hex.
  destruct (bi_life _ _ _ Hinv p i E) as [Hl Hidle Hrec Hrun Hclosed]. destruct (im_started i) eqn:Hs.
  - destruct (im_writer i) eqn:Hw; [|by injection Hex as <-..]. injection Hex as <-.
    apply (board_threads_inv bd p i); auto. constructor; cbn; auto; congruence.
  - injection Hex as <-. destruct (im_link i) eqn:Hlink; [destruct Hl; congruence|].
    apply (board_threads_inv bd p i); auto. constructor; cbn; auto; congruence.
Qed.

(** *** Construction *)

Lemma no_instances_insert instances u p :
  (u < length instances)%nat → no_instances (<[u := Some p]> instances) = false.
Proof.
  intros Hu. apply not_true_is_false. intros Hall. unfold no_instances in Hall. rewrite forallb_forall in Hall.
  specialize (Hall (Some p)). rewrite bool_decide_eq_true in Hall. discriminate Hall.
  apply list_elem_of_In, list_elem_of_lookup. exists u. by apply list_lookup_insert_eq.
Qed.

Lemma no_instances_some instances u p : instances !! u = Some (Some p) → no_instances instances = false.
Proof.
  intros Hu. rewrite <- (list_insert_id instances u (Some p)) by done.
  apply no_instances_insert. by eapply lookup_lt_Some.
Qed.

Lemma same_core_spec core bd p h :
  wf bd → same_core core bd = true → holds bd p h → hd_irq_core h = core.
Proof.
  intros Hwf Hsame Hh. pose proof (proj2 (bw_slot _ _ _ Hwf (hd_uart h) p)) as Hslot.
  specialize (Hslot (ex_intro _ h (conj Hh eq_refl))). unfold same_core in Hsame. rewrite forallb_forall in Hsame.
  specialize (Hsame (Some p) ltac:(apply list_elem_of_In, list_elem_of_lookup; eauto)).
  apply holds_inv in Hh as (im & Hp & <- & _). cbn in Hsame. rewrite Hp in Hsame. by apply Z.eqb_eq.
Qed.

Lemma holds_snoc bd im instances claimed locks hw q h :
  hd_closed (im_held im) = false →
  holds (mkBoard (bd_impls bd ++ [im]) instances claimed locks hw) q h
  ↔ holds bd q h ∨ q = length (bd_impls bd) ∧ h = im_held im.
Proof.
  intros Hc. unfold holds. cbn. rewrite fmap_app. split.
  - intros [[Hq|[Hle Hq]]%lookup_app_Some Hn]; [by left|right]. rewrite length_fmap in *.
    destruct (q - length (bd_impls bd))%nat as [|k] eqn:Hk; cbn in Hq; [|by destruct k].
    injection Hq as <-. split; [lia|done].
  - intros [[Hq Hn]|[-> ->]].
    + split; [|done]. by apply lookup_app_l_Some.
    + split; [|done]. by rewrite lookup_app_r, length_fmap, Nat.sub_diag by (by rewrite length_fmap).
Qed.

Lemma holds_lt bd q h : holds bd q h → (q < length (bd_impls bd))%nat.
Proof. intros (im & Hq & _)%holds_inv. by eapply lookup_lt_Some. Qed.

(** A new instance, with channels and a spinlock that nobody holds. *)
Lemma board_add_wf bd im :
  let h := im_held im in
  wf bd → hd_closed h = false → bd_instances bd !! hd_uart h = Some None →
  (∀ q h', holds bd q h' → hd_irq_core h' = hd_irq_core h) →
  hd_rx_channel h ∉ bd_claimed bd → hd_tx_channel h ∉ {[hd_rx_channel h]} ∪ bd_claimed bd →
  hd_spinlock h ∉ bd_locks bd →
  wf (mkBoard (bd_impls bd ++ [im]) (<[hd_uart h := Some (length (bd_impls bd))]> (bd_instances bd))
        ({[hd_tx_channel h]} ∪ ({[hd_rx_channel h]} ∪ bd_claimed bd)) ({[hd_spinlock h]} ∪ bd_locks bd)
        (mkDmaHw ({[hd_tx_channel h]} ∪ hw_irq0_enabled (bd_hw bd)) (hw_ints0 (bd_hw bd) ∖ {[hd_tx_channel h]})
           (hw_transfers (bd_hw bd)) ({[hd_rx_channel h]} ∪ hw_receiving (bd_hw bd))
           (if no_instances (bd_instances bd) then S (hw_handlers (bd_hw bd)) else hw_handlers (bd_hw bd)))).
Proof.
  intros h [] Hc Hslot Hcore Hrx Htx Hlock.
  apply not_elem_of_union in Htx as [Hrt%not_elem_of_singleton Htx].
  set (bd' := mkBoard _ _ _ _ _).
  assert (Hx : ∀ q h', holds bd' q h' ↔ holds bd q h' ∨ q = length (bd_impls bd) ∧ h' = h)
    by (intros; by apply holds_snoc).
  assert (Hfresh : ∀ q h', holds bd q h' → hd_rx_channel h ≠ hd_rx_channel h' ∧ hd_rx_channel h ≠ hd_tx_channel h'
    ∧ hd_tx_channel h ≠ hd_rx_channel h' ∧ hd_tx_channel h ≠ hd_tx_channel h' ∧ hd_spinlock h ≠ hd_spinlock h').
  { intros q h' Hq. pose proof (proj2 (bw_claimed0 (hd_rx_channel h'))) as H1.
    pose proof (proj2 (bw_claimed0 (hd_tx_channel h'))) as H2. pose proof (proj2 (bw_locks0 (hd_spinlock h'))) as H3.
    assert (hd_rx_channel h' ∈ bd_claimed bd) by eauto 10. assert (hd_tx_channel h' ∈ bd_claimed bd) by eauto 10.
    assert (hd_spinlock h' ∈ bd_locks bd) by eauto 10. clear H1 H2 H3. split_and!; congruence. }
  constructor; cbn.
  - by rewrite length_insert.
  - intros u p. setoid_rewrite Hx. split.
    + intros [(<- & [= <-] & _)|[Hne Hu]]%list_lookup_insert_Some; [eauto|].
      apply bw_slot0 in Hu as (h' & ? & ?). eauto.
    + intros (h' & [Hh|[-> ->]] & Hu).
      * assert (Hin : bd_instances bd !! u = Some (Some p)) by (apply bw_slot0; eauto).
        rewrite list_lookup_insert_ne; [done|]. intros <-. congruence.
      * subst u. apply list_lookup_insert_eq. by eapply lookup_lt_Some.
  - intros p q h1 h2. rewrite !Hx. intros [H1|[-> ->]] [H2|[-> ->]]; eauto. symmetry. eauto.
  - intros c. setoid_rewrite Hx. rewrite !elem_of_union, !elem_of_singleton, bw_claimed0. split.
    + intros [->|[->|[?|(p & h' & ? & ?)]]]; eauto 10.
    + intros [?|(p & h' & [?|[-> ->]] & ?)]; [by auto|eauto 10|tauto].
  - intros p h'. rewrite Hx. intros [Hh|[-> ->]]; [by eapply bw_others0|].
    assert (∀ c, c ∉ bd_claimed bd → c ∉ others) by (intros c Hc' Ho; apply Hc', bw_claimed0; by left).
    assert (hd_spinlock h ∉ other_locks) by (intros Ho; apply Hlock, bw_locks0; by left).
    split_and!; auto.
  - intros p q h1 h2. rewrite !Hx. intros [H1|[-> ->]] [H2|[-> ->]] Hne; [by eapply bw_apart0|..|done].
    + destruct (Hfresh _ _ H1) as (? & ? & ? & ? & ?). split_and!; congruence.
    + destruct (Hfresh _ _ H2) as (? & ? & ? & ? & ?). split_and!; congruence.
  - intros l. setoid_rewrite Hx. rewrite elem_of_union, elem_of_singleton, bw_locks0. split.
    + intros [->|[?|(p & h' & ? & ?)]]; eauto 10.
    + intros [?|(p & h' & [?|[-> ->]] & ?)]; [by auto|eauto 10|tauto].
  - intros c. setoid_rewrite Hx. rewrite elem_of_union, elem_of_singleton, bw_enabled0. split.
    + intros [->|(p & h' & ? & ?)]; eauto 10.
    + intros (p & h' & [?|[-> ->]] & ?); [eauto 10|tauto].
  - intros c. setoid_rewrite Hx. rewrite elem_of_union, elem_of_singleton, bw_receiving0. split.
    + intros [->|(p & h' & ? & ?)]; eauto 10.
    + intros (p & h' & [?|[-> ->]] & ?); [eauto 10|tauto].
  - intros c [Hin _]%elem_of_difference. setoid_rewrite Hx. destruct (bw_pending0 c Hin) as (p & h' & ? & ?). eauto.
  - intros c Hin. setoid_rewrite Hx. destruct (bw_transfers0 c Hin) as (p & h' & ? & ?). eauto.
  - rewrite no_instances_insert by (by eapply lookup_lt_Some). rewrite bw_handlers0. by destruct (no_instances _).
Qed.


(** What the constructor tests. *)
Definition new_allowed (uart : nat) (rx_buffer core : Z) (bd : Board) : bool :=
  (uart <? 2)%nat && negb (rx_buffer =? 0) && (Z.land rx_buffer kRingMask =? 0)
  && bool_decide (bd_instances bd !! uart = Some None) && same_core core bd.

Lemma Impl_new_inv bd uart rx_buffer core memory :
  inv bd → Z.of_nat (length memory) = kRingSize →
  if new_allowed uart rx_buffer core bd
  then match Impl_new uart rx_buffer core memory bd with
       | Some bd' => inv bd'
       | None => (∃ rx, ∀ c, 0 ≤ c < NUM_DMA_CHANNELS → c ≠ rx → c ∈ bd_claimed bd)
           ∨ spin_lock_claim_unused (bd_locks bd) = None
       end
  else Impl_new uart rx_buffer core memory bd = None.
Proof using sdk_laws.
  intros [Hwf Hlife Hrun] Hmem. unfold new_allowed, Impl_new.
  destruct (uart <? 2)%nat eqn:Hu; [|done]. destruct (rx_buffer =? 0); [done|].
  destruct (Z.land rx_buffer kRingMask =? 0); [|done]. cbn [negb andb check mbind option_bind].
  apply Nat.ltb_lt in Hu. rewrite <- (bw_length _ _ _ Hwf) in Hu. apply lookup_lt_is_Some_2 in Hu as [slot Hslot].
  rewrite Hslot. cbn [mbind option_bind]. destruct slot as [q|].
  { by rewrite !bool_decide_false by congruence. }
  rewrite !bool_decide_true by done. cbn [andb check mbind option_bind].
  destruct (same_core core bd) eqn:Hcore; [|done]. cbn [check mbind option_bind].
  destruct (dma_claim_unused_channel (bd_claimed bd)) as [rx|] eqn:Hrx; cbn [mbind option_bind].
  2: { left. exists 0. intros c Hc _. by eapply dma_claim_exhausted. }
  destruct (dma_claim_unused_channel ({[rx]} ∪ bd_claimed bd)) as [tx|] eqn:Htx; cbn [mbind option_bind].
  2: { left. exists rx. intros c Hc Hne. pose proof (dma_claim_exhausted _ c Htx Hc). set_solver. }
  destruct (spin_lock_claim_unused (bd_locks bd)) as [lock|] eqn:Hlock; cbn [mbind option_bind]; [|by right].
  apply dma_claim_unused in Hrx as [Hrx _]. apply dma_claim_unused in Htx as [Htx _]. apply spin_lock_unused in Hlock.
  set (im := mkImpl _ _ _ _ _ _ _ _ _ _ _).
  pose proof (board_add_wf bd im Hwf eq_refl Hslot) as Hadd. cbn [im im_held hd_rx_channel hd_tx_channel
    hd_spinlock hd_uart hd_irq_core] in Hadd. specialize (Hadd (λ q h Hq, same_core_spec _ _ _ _ Hwf Hcore Hq) Hrx Htx Hlock).
  assert (Hnew : ∀ q x, (bd_impls bd ++ [im]) !! q = Some x → bd_impls bd !! q = Some x ∨ x = im).
  { intros q x [?|[_ Hq]]%lookup_app_Some; [by left|right]. destruct (q - _)%nat as [|k]; cbn in Hq; [congruence|by destruct k]. }
  constructor; [exact Hadd|..]; cbn [bd_impls].
  - intros q x [Hq| ->]%Hnew; [eauto|]. by constructor.
  - intros q x [Hq| ->]%Hnew Hc.
    + specialize (Hrun q x Hq Hc). pose proof (proj2 (bw_claimed _ _ _ Hwf (hd_tx_channel (im_held x)))) as Hin.
      assert (Hne : hd_tx_channel (im_held x) ≠ tx).
      { intros Heq. apply not_elem_of_union in Htx as [_ Htx]. apply Htx. rewrite <- Heq. apply Hin. right.
        exists q, (im_held x). split; [by apply holds_impl|auto]. }
      unfold im_sending in *. cbn. erewrite bool_decide_ext; [exact Hrun|]. set_solver.
    + unfold im_sending. cbn. replace (hw_transfers (bd_hw bd) !! tx) with (@None (Z * Z)).
      * rewrite bool_decide_false by set_solver. by apply dma_runs_start.
      * symmetry. apply eq_None_not_Some. intros Hsome. destruct (bw_transfers _ _ _ Hwf tx Hsome) as (q2 & h & Hq2 & Heq).
        apply not_elem_of_union in Htx as [_ Htx]. apply Htx. apply (bw_claimed _ _ _ Hwf). eauto 10.
Qed.

(** *** Closing *)

(** What was passed to [write] is on the wire when the ring is empty. *)
Lemma flushed_wire s :
  dma_runs s → flush_done (ds_tx s) = true → ds_writer s = NotWriting → ds_wire s = ds_given s.
Proof.
  intros Hrun Hf Hw. destruct (dma_queue s (dma_runs_good s Hrun)) as (queued & -> & _ & Hq).
  by rewrite Hq, Hw, app_nil_r by done.
Qed.

Lemma no_instances_false instances :
  no_instances instances = false → ∃ u p, instances !! u = Some (Some p).
Proof.
  induction instances as [|[p|] l IH]; [done| |]; cbn; [by exists 0%nat, p|].
  intros (u & p & Hu)%IH. by exists (S u), p.
Qed.

(** An instance gives up what it holds. *)
Lemma board_drop_wf bd p h im :
  let h' := im_held im in
  wf bd → holds bd p h → hd_closed h' = true →
  wf (mkBoard (<[p := im]> (bd_impls bd)) (<[hd_uart h := None]> (bd_instances bd))
        (bd_claimed bd ∖ {[hd_tx_channel h]} ∖ {[hd_rx_channel h]}) (bd_locks bd ∖ {[hd_spinlock h]})
        (mkDmaHw (hw_irq0_enabled (bd_hw bd) ∖ {[hd_tx_channel h]}) (hw_ints0 (bd_hw bd) ∖ {[hd_tx_channel h]})
           (delete (hd_tx_channel h) (hw_transfers (bd_hw bd))) (hw_receiving (bd_hw bd) ∖ {[hd_rx_channel h]})
           (if no_instances (<[hd_uart h := None]> (bd_instances bd)) then pred (hw_handlers (bd_hw bd))
            else hw_handlers (bd_hw bd)))).
Proof.
  intros h' [] Hh Hc. set (bd' := mkBoard _ _ _ _ _).
  assert (Hx : ∀ q h2, holds bd' q h2 ↔ holds bd q h2 ∧ q ≠ p).
  { intros q h2. unfold holds. cbn. rewrite list_fmap_insert. fold h'. split.
    - intros [[(<- & <- & _)|[Hne Hq]]%list_lookup_insert_Some Hn]; [congruence|auto].
    - intros [[Hq Hn] Hne]. by rewrite list_lookup_insert_ne. }
  assert (Hslot : bd_instances bd !! hd_uart h = Some (Some p)) by (apply bw_slot0; eauto).
  assert (Hsame : ∀ q h2, holds bd q h2 → q = p → h2 = h).
  { intros q h2 [H1 _] ->. destruct Hh as [H2 _]. congruence. }
  destruct (bw_others0 p h Hh) as (Ho1 & Ho2 & Ho3 & Ho4).
  assert (Hpi : ∀ (pi : Held → Z) c, (∀ q h2, holds bd q h2 → q ≠ p → pi h2 ≠ pi h) →
    (∃ q h2, holds bd' q h2 ∧ c = pi h2) ↔ (∃ q h2, holds bd q h2 ∧ c = pi h2) ∧ c ≠ pi h).
  { intros pi c Hne. split.
    - intros (q & h2 & [Hq Hqp]%Hx & ->). split; [eauto|by apply (Hne q)].
    - intros [(q & h2 & Hq & ->) Hc']. exists q, h2. split; [|done]. apply Hx. split; [done|].
      intros ->. by rewrite (Hsame _ _ Hq eq_refl) in Hc'. }
  pose proof (λ c, Hpi hd_tx_channel c (λ q h2 H1 H2, proj1 (proj2 (proj2 (bw_apart0 q p h2 h H1 Hh H2))))) as Htx.
  pose proof (λ c, Hpi hd_rx_channel c (λ q h2 H1 H2, proj1 (bw_apart0 q p h2 h H1 Hh H2))) as Hrx.
  pose proof (λ c, Hpi hd_spinlock c (λ q h2 H1 H2, proj2 (proj2 (proj2 (bw_apart0 q p h2 h H1 Hh H2))))) as Hlk.
  constructor; cbn.
  - by rewrite length_insert.
  - intros u q. setoid_rewrite Hx. split.
    + intros [(<- & [=] & _)|[Hne Hu]]%list_lookup_insert_Some. apply bw_slot0 in Hu as (h2 & Hq & <-).
      exists h2. split_and!; [done| |done]. intros ->. by rewrite (Hsame _ _ Hq eq_refl) in Hne.
    + intros (h2 & [Hq Hne] & Hu). assert (Hin : bd_instances bd !! u = Some (Some q)) by (apply bw_slot0; eauto).
      rewrite list_lookup_insert_ne; [done|]. intros <-. congruence.
  - intros q r h1 h2. rewrite !Hx. intros [H1 _] [H2 _]. eauto.
  - intros c. setoid_rewrite Hx. rewrite !elem_of_difference, !elem_of_singleton, bw_claimed0. split.
    + intros [[[?|(q & h2 & Hq & Heq)] H1] H2]; [by left|right]. exists q, h2. split; [|done]. split; [done|].
      intros ->. rewrite (Hsame _ _ Hq eq_refl) in Heq. destruct Heq; congruence.
    + intros [?|(q & h2 & [Hq Hne] & Heq)]; [split; [split; [by left|]|]; congruence|].
      destruct (bw_apart0 q p h2 h Hq Hh Hne) as (? & ? & ? & _).
      destruct (bw_apart0 p q h h2 Hh Hq (not_eq_sym Hne)) as (_ & ? & _).
      split; [split; [right; eauto|]|]; destruct Heq; congruence.
  - intros q h2. rewrite Hx. intros [Hq _]. by eapply bw_others0.
  - intros q r h1 h2. rewrite !Hx. intros [H1 _] [H2 _]. by apply bw_apart0.
  - intros l. rewrite Hlk, elem_of_difference, elem_of_singleton, bw_locks0. split; [tauto|].
    intros [?|[? ?]]; [split; [by left|congruence]|tauto].
  - intros c. by rewrite Htx, elem_of_difference, elem_of_singleton, bw_enabled0.
  - intros c. by rewrite Hrx, elem_of_difference, elem_of_singleton, bw_receiving0.
  - intros c [Hin Hne%not_elem_of_singleton]%elem_of_difference. apply Htx. auto.
  - intros c [t [Hne Ht]%lookup_delete_Some]. apply Htx. split; [eauto|congruence].
  - rewrite bw_handlers0, (no_instances_some _ _ _ Hslot). by destruct (no_instances _).
Qed.

Lemma Impl_release_inv bd p im :
  inv bd → bd_impls bd !! p = Some im → ∃ bd', Impl_release p bd = Some bd' ∧ inv bd'.
Proof.
  intros Hinv Hp. unfold Impl_release. rewrite (bind_step _ _ _ Hp).
  destruct (im_flushing im && flush_done (im_tx im)) eqn:Hgo; [|by exists bd].
  apply andb_true_iff in Hgo as [Hfl Hdone]. pose proof (bi_life _ _ _ Hinv p im Hp) as [Hl Hidle Hrec Hrun Hclosed].
  assert (Hlink : im_link im = false) by (destruct (im_link im); [destruct (Hl eq_refl) as (_ & _ & ? & _); congruence|done]).
  assert (Hc : hd_closed (im_held im) = false) by (destruct (hd_closed (im_held im)); [destruct Hclosed; congruence|done]).
  pose proof (holds_impl bd p im Hp Hc) as Hh. eexists. split; [done|]. constructor.
  - by apply (board_drop_wf bd p (im_held im)); [apply (bi_wf _ _ _ Hinv)|..].
  - cbn. intros q x [(<- & <- & _)|[_ Hq]]%list_lookup_insert_Some; [|by apply (bi_life _ _ _ Hinv q)].
    constructor; cbn; auto; try congruence. intros _. split; [done|].
    apply (flushed_wire (im_sending im (bd_hw bd))); [by apply (bi_sending _ _ _ Hinv p)|done|by apply Hidle].
  - cbn. intros q x [(<- & <- & _)|[Hne Hq]]%list_lookup_insert_Some Hcx; [done|].
    pose proof (bi_sending _ _ _ Hinv q x Hq Hcx) as Hrx.
    destruct (bw_apart _ _ _ (bi_wf _ _ _ Hinv) p q _ _ Hh (holds_impl _ _ _ Hq Hcx) Hne) as (_ & _ & Hch & _).
    unfold im_sending in *. cbn. rewrite lookup_delete_ne by done. erewrite bool_decide_ext; [exact Hrx|]. set_solver.
Qed.

(** *** Every event *)

Lemma board_exec_inv bd e bd' : inv bd → board_env bd e → board_exec bd e = Some bd' → inv bd'.
Proof using sdk_laws.
  intros Hinv Henv Hex. destruct e as [uart rx_buffer core memory|p|p core|p|p bytes|p|p|]; cbn [board_env board_exec] in *.
  - pose proof (Impl_new_inv bd uart rx_buffer core memory Hinv Henv) as Hnew.
    destruct (new_allowed uart rx_buffer core bd); [by rewrite Hex in Hnew|congruence].
  - destruct Henv as (im & Hp & Hf). by eapply Impl_begin_inv.
  - by eapply Impl_end_inv.
  - destruct Henv as [im Hp]. destruct (Impl_release_inv bd p im Hinv Hp) as (bd2 & Hex2 & ?). congruence.
  - destruct Henv as [im Hp]. rewrite (bind_step _ _ _ Hp) in Hex. destruct (im_link im) eqn:Hl; [|by injection Hex as <-].
    destruct (board_sending_inv bd p im (DmaWrite bytes) Hinv Hp) as (bd2 & Hex2 & ? & _); [done|congruence].
  - destruct Henv as [im Hp]. destruct (board_sending_inv bd p im DmaThread Hinv Hp) as (bd2 & Hex2 & ? & _); [done|congruence].
  - destruct Henv as [im Hp]. destruct (board_sending_inv bd p im DmaByte Hinv Hp) as (bd2 & Hex2 & ? & _); [done|congruence].
  - destruct (_ =? _)%nat; [by injection Hex as <-|]. destruct (TxIrq_inv bd Hinv) as (bd2 & Hex2 & ? & _). congruence.
Qed.

Lemma board_start_inv : inv (board_start others other_locks).
Proof.
  assert (Hno : ∀ p h, ¬ holds (board_start others other_locks) p h) by (intros p h [? _]; done).
  constructor; [constructor|..]; cbn; try done; intros *; try (intros Hbad; by destruct (Hno _ _ Hbad)).
  - split; [|intros (h & Hh & _); by apply Hno in Hh].
    intros [Hu|[Hu|Hu]%elem_of_cons]%list_elem_of_lookup_2%elem_of_cons; [done..|by apply not_elem_of_nil in Hu].
  - split; [by left|]. intros [?|(p & h & Hh & _)]; [done|by apply Hno in Hh].
  - split; [by left|]. intros [?|(p & h & Hh & _)]; [done|by apply Hno in Hh].
  - split; [by intros ?%elem_of_empty|]. intros (p & h & Hh & _). by apply Hno in Hh.
  - split; [by intros ?%elem_of_empty|]. intros (p & h & Hh & _). by apply Hno in Hh.
  - rewrite lookup_empty. by intros [? ?].
Qed.

Lemma board_runs_inv bd : board_runs others other_locks bd → inv bd.
Proof using sdk_laws.
  induction 1 as [|bd e bd' _ IH Henv Hex]; [apply board_start_inv|by eapply board_exec_inv].
Qed.

(** *** Draining *)

Lemma holds_handlers bd p h : wf bd → holds bd p h → hw_handlers (bd_hw bd) = 1%nat.
Proof.
  intros Hwf Hh. rewrite (bw_handlers _ _ _ Hwf).
  assert (Hu : bd_instances bd !! hd_uart h = Some (Some p)) by (apply (bw_slot _ _ _ Hwf); eauto).
  by rewrite (no_instances_some _ _ _ Hu).
Qed.

(** The channel of an instance and the interrupt, by turns. *)
Fixpoint board_hardware (n : nat) (p : nat) (bd : Board) : option Board :=
  match n with
  | O => Some bd
  | S n => bd ← board_exec bd (BoardByte p); bd ← board_exec bd BoardIrq; board_hardware n p bd
  end.

Lemma board_hardware_sending n p : ∀ bd im,
  inv bd → board_runs others other_locks bd → bd_impls bd !! p = Some im → hd_closed (im_held im) = false →
  ∃ bd' im', board_hardware n p bd = Some bd' ∧ inv bd' ∧ board_runs others other_locks bd'
    ∧ bd_impls bd' !! p = Some im' ∧ im_held im' = im_held im ∧ im_flushing im' = im_flushing im
    ∧ dma_hardware n (im_sending im (bd_hw bd)) = Some (im_sending im' (bd_hw bd')).
Proof.
  induction n as [|n IH]; intros bd im Hinv Hr Hp Hc; [by exists bd, im|].
  destruct (board_sending_inv bd p im DmaByte Hinv Hp) as (bd1 & Hex1 & Hinv1 & Hs1 & _); [done|].
  destruct (Hs1 im Hp Hc) as (im1 & Hp1 & Hh1 & Hf1 & Hb1).
  destruct (TxIrq_inv bd1 Hinv1) as (bd2 & Hex2 & Hinv2 & Hs2).
  destruct (Hs2 p im1 Hp1 ltac:(congruence)) as (im2 & Hp2 & Hh2 & Hf2 & Hb2).
  assert (Hirq : board_exec bd1 BoardIrq = Some bd2).
  { cbn [board_exec]. erewrite holds_handlers; [exact Hex2|apply (bi_wf _ _ _ Hinv1)|].
    apply (holds_impl _ _ _ Hp1). congruence. }
  destruct (IH bd2 im2 Hinv2) as (bd' & im' & Hex' & Hinv' & Hr' & Hp' & Hh' & Hf' & Hb'); [|done|congruence|].
  { apply (board_runs_step _ _ bd1 BoardIrq); [|done|done]. apply (board_runs_step _ _ bd (BoardByte p)); [done| |done].
    by exists im. }
  exists bd', im'. cbn [board_hardware dma_hardware]. change (board_exec bd (BoardByte p)) with (board_sending p DmaByte bd).
  rewrite (bind_step _ _ _ Hex1), (bind_step _ _ _ Hirq), (bind_step _ _ _ Hb1), (bind_step _ _ _ Hb2).
  rewrite Hh', Hf', Hh2, Hf2. do 4 (split; [done|]). split; [congruence|]. by split; [congruence|].
Qed.

End Invariant.

(** ** The contract *)

Section Closing.

Context {sdk : PicoSdk} {sdk_laws : PicoSdkLaws} (others other_locks : gset Z).

(** The two halves of end(). *)
Lemma Impl_end_stops bd p im :
  board_inv others other_locks bd → bd_impls bd !! p = Some im → hd_closed (im_held im) = false →
  im_writer im = NotWriting →
  ∃ im1, Impl_end p (hd_irq_core (im_held im)) bd = Some (bd_with_impl p im1 bd) ∧ im_held im1 = im_held im
    ∧ im_flushing im1 = true ∧ im_sending im1 (bd_hw bd) = im_sending im (bd_hw bd).
Proof.
  intros Hinv Hp Hc Hw. unfold Impl_end. rewrite (bind_step _ _ _ Hp), Hc, Z.eqb_refl, Hw. cbn [check mbind option_bind].
  destruct (im_started im); by eexists.
Qed.

Lemma Impl_release_closes bd p im :
  board_inv others other_locks bd → bd_impls bd !! p = Some im → im_flushing im = true → flush_done (im_tx im) = true →
  let h := im_held im in
  ∃ bd' im', Impl_release p bd = Some bd' ∧ board_inv others other_locks bd' ∧ bd_impls bd' !! p = Some im'
    ∧ hd_closed (im_held im') = true ∧ (im_link im' = false ∧ im_receiving im' = false)
    ∧ im_wire im' = im_given im ∧ bd_instances bd' !! hd_uart h = Some None
    ∧ hd_rx_channel h ∉ bd_claimed bd' ∧ hd_tx_channel h ∉ bd_claimed bd' ∧ hd_spinlock h ∉ bd_locks bd'.
Proof.
  intros Hinv Hp Hf Hd h. destruct (Impl_release_inv others other_locks bd p im Hinv Hp) as (bd' & Hex & Hinv').
  pose proof (bi_life _ _ _ Hinv p im Hp) as [Hl Hidle Hrec Hrun Hclosed].
  assert (Hc : hd_closed h = false) by (unfold h; destruct (hd_closed (im_held im)); [destruct Hclosed; congruence|done]).
  assert (Hlink : im_link im = false) by (destruct (im_link im); [destruct (Hl eq_refl) as (_ & _ & ? & _); congruence|done]).
  pose proof (proj2 (bw_slot _ _ _ (bi_wf _ _ _ Hinv) (hd_uart h) p)) as Hslot.
  specialize (Hslot (ex_intro _ h (conj (holds_impl _ _ _ Hp Hc) eq_refl))).
  pose proof Hex as Hex'. unfold Impl_release in Hex'. rewrite (bind_step _ _ _ Hp), Hf, Hd in Hex'. injection Hex' as <-.
  eexists _, _. split; [exact Hex|]. split; [exact Hinv'|]. cbn. split.
  { apply list_lookup_insert_eq. by eapply lookup_lt_Some. }
  cbn. split; [done|]. split; [by rewrite Hrec, Hlink|]. split.
  - apply (flushed_wire (im_sending im (bd_hw bd))); [by apply (bi_sending _ _ _ Hinv p)|done|by apply Hidle].
  - split; [apply list_lookup_insert_eq; by eapply lookup_lt_Some|]. fold h. split_and!; set_solver.
Qed.

End Closing.

Section Contract.

Context {sdk : PicoSdk} {sdk_laws : PicoSdkLaws} (others other_locks : gset Z).

(** C32: the instances of a board share it without conflict. In every state that constructing,
    using and closing instances on the two UARTs can reach, in any order: an entry of the
    table points to an object that is not closed, and every such object is the entry of its
    UART; all of them are on one core; each holds two channels and a spinlock that neither
    another instance nor anyone else holds; exactly their transmit channels raise the
    interrupt, whose handler is installed once, and not at all when there is no instance.
    When all are closed, everything that was claimed has been given back. *)
Theorem PicoBoard_resources (bd : Board) (Hrun : board_runs others other_locks bd) :
  board_wf others other_locks bd
  ∧ ((∀ p im, bd_impls bd !! p = Some im → hd_closed (im_held im) = true) →
     bd_claimed bd = others ∧ bd_locks bd = other_locks ∧ bd_hw bd = mkDmaHw ∅ ∅ ∅ ∅ 0
     ∧ bd_instances bd = [None; None]).
Proof using sdk_laws.
  apply board_runs_inv in Hrun as [Hwf _ _]. split; [done|]. intros Hall.
  assert (Hno : ∀ p h, ¬ holds bd p h).
  { intros p h (im & Hp & _ & Hc)%holds_inv. rewrite (Hall p im Hp) in Hc. done. }
  destruct Hwf. pose proof (no_instances_false (bd_instances bd)) as Hni.
  destruct (no_instances (bd_instances bd)) eqn:Hn.
  2: { destruct (Hni eq_refl) as (u & p & Hu). apply bw_slot0 in Hu as (h & Hh & _). by apply Hno in Hh. }
  assert (Hnone : ∀ Q : nat → Held → Prop, ¬ ∃ p h, holds bd p h ∧ Q p h) by (intros Q (p & h & Hh & _); by apply Hno in Hh).
  split_and!.
  - apply set_eq. intros c. rewrite bw_claimed0. split; [intros [?|Hx]; [done|by apply Hnone in Hx]|by left].
  - apply set_eq. intros c. rewrite bw_locks0. split; [intros [?|Hx]; [done|by apply Hnone in Hx]|by left].
  - destruct (bd_hw bd) as [en ints tr rc hs]. cbn in *. f_equal; [| | | |done]; try apply set_eq; try apply map_eq; intros c.
    + rewrite bw_enabled0. split; [intros Hx; by apply Hnone in Hx|by intros ?%elem_of_empty].
    + split; [intros Hx%bw_pending0; by apply Hnone in Hx|by intros ?%elem_of_empty].
    + rewrite lookup_empty. apply eq_None_not_Some. intros Hx%bw_transfers0. by apply Hnone in Hx.
    + rewrite bw_receiving0. split; [intros Hx; by apply Hnone in Hx|by intros ?%elem_of_empty].
  - destruct (bd_instances bd) as [|[a|] [|[b|] [|]]]; done.
Qed.

(** C31: an instance has the rings to itself. In every reachable state what a live instance
    sends is a run of the system of one ring and one channel, to which the theorems on the
    rings apply; the shared handler, whichever instance or stranger made the core call
    it, completes and is exactly the completion interrupt of every live instance; and a
    step of one instance leaves the others alone. *)
Theorem PicoBoard_refines_rings (bd : Board) (Hrun : board_runs others other_locks bd) :
  (∀ p im, bd_impls bd !! p = Some im → hd_closed (im_held im) = false → dma_runs (im_sending im (bd_hw bd)))
  ∧ (∃ bd', TxIrq bd = Some bd' ∧ ∀ p, sends_to bd bd' (Some DmaIrq) p)
  ∧ ∀ p im e, bd_impls bd !! p = Some im → e = DmaThread ∨ e = DmaByte ∨ im_link im = true →
      ∃ bd', board_sending p e bd = Some bd' ∧ sends_to bd bd' (Some e) p
        ∧ ∀ q, q ≠ p → sends_to bd bd' None q.
Proof using sdk_laws.
  apply board_runs_inv in Hrun as Hinv. split; [apply (bi_sending _ _ _ Hinv)|]. split.
  - destruct (TxIrq_inv _ _ bd Hinv) as (bd' & Hex & _ & Hs). by exists bd'.
  - intros p im e Hp He. destruct (board_sending_inv others other_locks bd p im e Hinv Hp) as (bd' & Hex & _ & Hs & Ho).
    + intros bytes ->. by destruct He as [?|[?|?]].
    + by exists bd'.
Qed.

(** What aborts. In every reachable state the constructor aborts when the UART does not
    exist or has an instance, the buffer is null or not aligned, or another instance is on
    another core, and otherwise only when channels or spinlocks have run out; begin() aborts
    when it was called before or the object is closed; end() aborts on the wrong core,
    and on a closed object does nothing; nothing else aborts. *)
Theorem PicoBoard_checks (bd : Board) (e : board_event) (Hrun : board_runs others other_locks bd)
    (Henv : board_env bd e) :
  match e with
  | BoardNew uart rx_buffer core memory =>
      if new_allowed uart rx_buffer core bd
      then board_exec bd e = None →
        (∃ rx, ∀ c, 0 ≤ c < NUM_DMA_CHANNELS → c ≠ rx → c ∈ bd_claimed bd)
        ∨ spin_lock_claim_unused (bd_locks bd) = None
      else board_exec bd e = None
  | BoardBegin p =>
      ∀ im, bd_impls bd !! p = Some im →
        (board_exec bd e = None ↔ im_started im = true ∨ hd_closed (im_held im) = true)
  | BoardEnd p core =>
      ∀ im, bd_impls bd !! p = Some im →
        (board_exec bd e = None ↔ hd_closed (im_held im) = false ∧ core ≠ hd_irq_core (im_held im))
        ∧ (hd_closed (im_held im) = true → board_exec bd e = Some bd)
  | _ => is_Some (board_exec bd e)
  end.
Proof using sdk_laws.
  apply board_runs_inv in Hrun as Hinv. destruct e as [uart rx_buffer core memory|p|p core|p|p bytes|p|p|]; cbn [board_env board_exec] in *.
  - pose proof (Impl_new_inv others other_locks bd uart rx_buffer core memory Hinv Henv) as Hnew.
    destruct (new_allowed uart rx_buffer core bd); [|done]. intros Hnone. by rewrite Hnone in Hnew.
  - intros im Hp. unfold Impl_begin. rewrite (bind_step _ _ _ Hp).
    destruct (im_started im), (hd_closed (im_held im)); cbn; split; auto; try discriminate. intros [?|?]; discriminate.
  - intros im Hp. unfold Impl_end. rewrite (bind_step _ _ _ Hp). destruct (hd_closed (im_held im)); [split; [|done]; split; [done|]; by intros [? _]|].
    split; [|done]. destruct (Z.eqb_spec core (hd_irq_core (im_held im))); cbn [check mbind option_bind].
    + split; [|by intros [_ ?]]. destruct (im_started im); [destruct (im_writer im)|]; done.
    + by split.
  - destruct Henv as [im Hp]. destruct (Impl_release_inv others other_locks bd p im Hinv Hp) as (bd' & Hex & _). by exists bd'.
  - destruct Henv as [im Hp]. rewrite (bind_step _ _ _ Hp). destruct (im_link im) eqn:Hl; [|done].
    destruct (board_sending_inv others other_locks bd p im (DmaWrite bytes) Hinv Hp) as (bd' & Hex & _); [done|]. by exists bd'.
  - destruct Henv as [im Hp].
    destruct (board_sending_inv others other_locks bd p im DmaThread Hinv Hp) as (bd' & Hex & _); [done|]. by exists bd'.
  - destruct Henv as [im Hp].
    destruct (board_sending_inv others other_locks bd p im DmaByte Hinv Hp) as (bd' & Hex & _); [done|]. by exists bd'.
  - destruct (_ =? _)%nat; [done|]. destruct (TxIrq_inv _ _ bd Hinv) as (bd' & Hex & _). by exists bd'.
Qed.

(** C33: end() completes and gives everything back. When the sender thread is not in [write], for
    which end() waits, an instance that is closed on its core stops both threads; its
    channel and the interrupt alone, in at most one round for each byte of the ring and one
    more, bring everything it was ever given onto the wire; then its channels, spinlock and
    table entry are free, and a new instance may take the UART. Closing it again does
    nothing, and it cannot be started again. *)
Theorem PicoBoard_end_releases (bd : Board) (p : nat) (im : Impl) (Hrun : board_runs others other_locks bd)
    (Hp : bd_impls bd !! p = Some im) (Hopen : hd_closed (im_held im) = false) (Hidle : im_writer im = NotWriting) :
  let h := im_held im in
  ∃ bd1 bd2 bd3 im3,
    board_exec bd (BoardEnd p (hd_irq_core h)) = Some bd1
    ∧ board_hardware (S (Z.to_nat kRingSize)) p bd1 = Some bd2
    ∧ board_exec bd2 (BoardRelease p) = Some bd3 ∧ board_runs others other_locks bd3
    ∧ bd_impls bd3 !! p = Some im3 ∧ hd_closed (im_held im3) = true
    ∧ im_link im3 = false ∧ im_receiving im3 = false ∧ im_wire im3 = im_given im
    ∧ bd_instances bd3 !! hd_uart h = Some None
    ∧ hd_rx_channel h ∉ bd_claimed bd3 ∧ hd_tx_channel h ∉ bd_claimed bd3 ∧ hd_spinlock h ∉ bd_locks bd3
    ∧ board_exec bd3 (BoardBegin p) = None ∧ ∀ core, board_exec bd3 (BoardEnd p core) = Some bd3.
Proof using sdk_laws.
  intros h. apply board_runs_inv in Hrun as Hinv.
  destruct (Impl_end_stops others other_locks bd p im Hinv Hp Hopen Hidle) as (im1 & Hex1 & Hh1 & Hf1 & Hs1).
  set (bd1 := bd_with_impl p im1 bd) in *.
  assert (Hrun1 : board_runs others other_locks bd1).
  { by apply (board_runs_step _ _ bd (BoardEnd p (hd_irq_core h))); [done|exists im|]. }
  assert (Hp1 : bd_impls bd1 !! p = Some im1) by (apply list_lookup_insert_eq; by eapply lookup_lt_Some).
  apply board_runs_inv in Hrun1 as Hinv1.
  destruct (board_hardware_sending others other_locks (S (Z.to_nat kRingSize)) p bd1 im1 Hinv1 Hrun1 Hp1)
    as (bd2 & im2 & Hex2 & Hinv2 & Hrun2 & Hp2 & Hh2 & Hf2 & Hd2); [congruence|].
  assert (Hdone : flush_done (im_tx im2) = true ∧ im_given im2 = im_given im).
  { assert (Hgood : dma_runs (im_sending im1 (bd_hw bd1))) by (apply (bi_sending _ _ _ Hinv1 p); congruence).
    destruct (dma_flushes _ (dma_runs_good _ Hgood)) as (s & Hs & Hfl & Hg & _).
    rewrite Hs in Hd2. injection Hd2 as ->. split; [done|]. cbn in Hg. rewrite Hg.
    by injection Hs1. }
  destruct Hdone as [Hdone Hgiven]. assert (Hf : im_flushing im2 = true) by congruence.
  destruct (Impl_release_closes others other_locks bd2 p im2 Hinv2 Hp2 Hf Hdone)
    as (bd3 & im3 & Hex3 & Hinv3 & Hp3 & Hc3 & Hl3 & Hw3 & Hslot & Hfree).
  rewrite Hh2, Hh1 in Hslot, Hfree. fold h in Hslot, Hfree. exists bd1, bd2, bd3, im3.
  split; [done|]. split; [done|]. split; [exact Hex3|]. split; [by apply (board_runs_step _ _ bd2 (BoardRelease p)); [done|exists im2|]|].
  split; [done|]. split; [done|]. destruct Hl3. split; [done|]. split; [done|]. split; [congruence|].
  split; [done|]. destruct Hfree as (? & ? & ?). split; [done|]. split; [done|]. split; [done|]. cbn [board_exec]. split.
  - unfold Impl_begin. rewrite (bind_step _ _ _ Hp3), Hc3. by rewrite andb_false_r.
  - intros core. unfold Impl_end. by rewrite (bind_step _ _ _ Hp3), Hc3.
Qed.

End Contract.

(** ** Witnesses *)

(** The SDK takes the first channel, and the first spinlock, that is free. *)
Definition first_unused (n : nat) (claimed : gset Z) : option Z :=
  find (λ c, bool_decide (c ∉ claimed)) (seqZ 0 (Z.of_nat n)).

#[local] Instance demo_sdk : PicoSdk := {
  dma_claim_unused_channel := first_unused 12;
  spin_lock_claim_unused := first_unused 32;
}.

Lemma first_unused_some n claimed c : first_unused n claimed = Some c → c ∉ claimed ∧ 0 ≤ c < Z.of_nat n.
Proof.
  intros [Hin%list_elem_of_In%elem_of_seqZ Hc%bool_decide_eq_true]%find_some. split; [done|lia].
Qed.

#[local] Instance demo_sdk_laws : PicoSdkLaws.
Proof.
  constructor.
  - intros claimed c. apply first_unused_some.
  - intros claimed c Hf Hc. cbn in Hf. unfold first_unused in Hf. unfold NUM_DMA_CHANNELS in Hc.
    pose proof (find_none _ _ Hf c ltac:(apply list_elem_of_In, elem_of_seqZ; lia)) as Hb.
    apply bool_decide_eq_false in Hb. by apply dec_stable.
  - intros claimed l Hf. by apply first_unused_some in Hf as [? _].
Qed.

Definition board_env_ok (bd : Board) (e : board_event) : bool :=
  match e with
  | BoardNew _ _ _ memory => Z.of_nat (length memory) =? kRingSize
  | BoardBegin p => match bd_impls bd !! p with Some im => negb (im_flushing im) | None => false end
  | BoardEnd p _ | BoardRelease p | BoardWrite p _ | BoardThread p | BoardByte p => bool_decide (is_Some (bd_impls bd !! p))
  | BoardIrq => true
  end.

Lemma board_env_ok_spec bd e : board_env_ok bd e = true → board_env bd e.
Proof.
  destruct e; cbn; try (by intros ?%bool_decide_eq_true); [lia| |done].
  destruct (bd_impls bd !! p) as [im|]; [|done]. intros ?%negb_true_iff. eauto.
Qed.

Fixpoint board_run (bd : Board) (es : list board_event) : option Board :=
  match es with
  | [] => Some bd
  | e :: es => if board_env_ok bd e then bd ← board_exec bd e; board_run bd es else None
  end.

(** Someone else has channel 0 and spinlock 0. *)
Definition board_demo (es : list board_event) : option Board := board_run (board_start {[0]} {[0]}) es.

Lemma board_demo_runs es bd : board_demo es = Some bd → board_runs {[0]} {[0]} bd.
Proof.
  unfold board_demo. generalize (board_runs_start {[0]} {[0]}). generalize (board_start {[0]} {[0]}).
  induction es as [|e es IH]; intros bd0 Hr; cbn [board_run]; [by intros [= <-]|].
  destruct (board_env_ok bd0 e) eqn:Hok; [|done]. intros Hx. inv_bind Hx.
  eapply IH; [|done]. eapply board_runs_step; [done|by apply board_env_ok_spec|done].
Qed.

(** Both UARTs, of which the first sends two bytes. *)
Definition board_demo_open : list board_event :=
  [ BoardNew 0 8192 0 demo_memory; BoardNew 1 16384 0 demo_memory; BoardBegin 0; BoardBegin 1;
    BoardWrite 0 [5; 6]; BoardThread 0; BoardThread 0; BoardThread 0; BoardThread 0; BoardThread 0;
    BoardThread 0; BoardByte 0 ].

(** The first is at the end of its call of [write], and both are closed. *)
Definition board_demo_closed : list board_event :=
  board_demo_open ++ [ BoardThread 0; BoardByte 0; BoardIrq; BoardEnd 0 0; BoardRelease 0; BoardEnd 1 0; BoardRelease 1 ].

Lemma demo_some {A} (x : option A) : bool_decide (is_Some x) = true → ∃ a, x = Some a.
Proof. by intros [a ->]%bool_decide_eq_true; eexists. Qed.

Lemma PicoBoard_resources_witness :
  ∃ bd, board_demo board_demo_closed = Some bd ∧ length (bd_impls bd) = 2%nat
    ∧ bd_claimed bd = {[0]} ∧ bd_locks bd = {[0]} ∧ bd_instances bd = [None; None].
Proof.
  destruct (board_demo board_demo_closed) as [bd|] eqn:Hrun; [|exfalso; revert Hrun; vm_compute; discriminate].
  assert (Hf : option_map (λ bd, (length (bd_impls bd), forallb (λ im, hd_closed (im_held im)) (bd_impls bd)))
    (board_demo board_demo_closed) = Some (2%nat, true)) by (vm_compute; reflexivity).
  rewrite Hrun in Hf. injection Hf as Hl Hc. rewrite forallb_forall in Hc.
  destruct (PicoBoard_resources {[0]} {[0]} bd (board_demo_runs _ _ Hrun)) as [_ Hall].
  destruct Hall as (H1 & H2 & _ & H3); [|exists bd; auto].
  intros p im Hp. apply Hc. apply list_elem_of_In. by eapply list_elem_of_lookup_2.
Defined.

Lemma PicoBoard_refines_rings_witness :
  ∃ bd bd' im, board_demo board_demo_open = Some bd ∧ bd_impls bd !! 0%nat = Some im
    ∧ dma_runs (im_sending im (bd_hw bd)) ∧ TxIrq bd = Some bd' ∧ sends_to bd bd' (Some DmaIrq) 1.
Proof.
  destruct (board_demo board_demo_open) as [bd|] eqn:Hrun; [|exfalso; revert Hrun; vm_compute; discriminate].
  assert (Hf : option_map (λ bd, option_map (λ im, hd_closed (im_held im)) (bd_impls bd !! 0%nat))
    (board_demo board_demo_open) = Some (Some false)) by (vm_compute; reflexivity).
  rewrite Hrun in Hf. cbn [option_map] in Hf. injection Hf as Hf.
  destruct (bd_impls bd !! 0%nat) as [im|] eqn:Hp; [|discriminate]. injection Hf as Hc.
  destruct (PicoBoard_refines_rings {[0]} {[0]} bd (board_demo_runs _ _ Hrun)) as (Hs & (bd' & Hirq & Hall) & _).
  exists bd, bd', im. split; [reflexivity|]. split; [exact Hp|]. split; [exact (Hs 0%nat im Hp Hc)|].
  split; [exact Hirq|apply Hall].
Defined.

Lemma PicoBoard_checks_witness :
  ∃ bd, board_demo board_demo_open = Some bd ∧ board_exec bd (BoardNew 1 8192 0 demo_memory) = None.
Proof.
  destruct (board_demo board_demo_open) as [bd|] eqn:Hrun; [|exfalso; revert Hrun; vm_compute; discriminate].
  assert (Hf : option_map (new_allowed 1 8192 0) (board_demo board_demo_open) = Some false) by (vm_compute; reflexivity).
  rewrite Hrun in Hf. injection Hf as Hn. exists bd. split; [reflexivity|].
  pose proof (PicoBoard_checks {[0]} {[0]} bd (BoardNew 1 8192 0 demo_memory) (board_demo_runs _ _ Hrun)
    demo_memory_length) as Hc. cbn beta iota in Hc. rewrite Hn in Hc. exact Hc.
Defined.

Lemma PicoBoard_end_releases_witness :
  ∃ bd bd1 bd2 bd3 im3, board_demo (board_demo_open ++ [BoardThread 0]) = Some bd
    ∧ board_exec bd (BoardEnd 0 0) = Some bd1 ∧ board_hardware (S (Z.to_nat kRingSize)) 0 bd1 = Some bd2
    ∧ board_exec bd2 (BoardRelease 0) = Some bd3
    ∧ bd_impls bd3 !! 0%nat = Some im3 ∧ hd_closed (im_held im3) = true ∧ im_wire im3 = [5; 6].
Proof.
  destruct (board_demo (board_demo_open ++ [BoardThread 0])) as [bd|] eqn:Hrun; [|exfalso; revert Hrun; vm_compute; discriminate].
  assert (Hf : option_map (λ bd, option_map (λ im, (hd_closed (im_held im), im_writer im, hd_irq_core (im_held im), im_given im))
      (bd_impls bd !! 0%nat)) (board_demo (board_demo_open ++ [BoardThread 0]))
    = Some (Some (false, NotWriting, 0, [5; 6]))) by (vm_compute; reflexivity).
  rewrite Hrun in Hf. cbn [option_map] in Hf. injection Hf as Hf.
  destruct (bd_impls bd !! 0%nat) as [im|] eqn:Hp; [|discriminate]. injection Hf as Hc Hw Hcore Hg.
  destruct (PicoBoard_end_releases {[0]} {[0]} bd 0 im (board_demo_runs _ _ Hrun) Hp Hc Hw)
    as (bd1 & bd2 & bd3 & im3 & H1 & H2 & H3 & _ & H4 & H5 & _ & _ & H6 & _).
  rewrite Hcore in H1. rewrite Hg in H6. exists bd, bd1, bd2, bd3, im3. auto 10.
Defined.
