(* ===== verification/ReceiveLoops.v ===== *)
(** * ReceiveLoops: the threads that feed the channel

    What runs between a serial port and [LinkTransport::processIncomingPacket]: the receive
    threads of esp_idf/reliable_uart.cpp, arduino/rp2040/reliable_serial.h and
    pico/reliable_uart_dma.cpp, the calls [tryReceive] and [receive] of
    arduino/link_stream_transport.cpp, and the receive callback of
    arduino/esp32/reliable_serial.h with the channel it feeds. The three loops are one
    program with different tests, a [ReceiveLoop]; one step of a thread is one test, one
    read of the port or one packet passed on, and any operation of other threads on the
    channel may come between two steps. The port is the environment: what arrives, and how
    many of the bytes that are there a read returns. *)

From S2P Require Import Prelude.
From S2P Require Import RooIo.
From S2P Require Import Packets.
From S2P Require Import Channel.
From S2P Require Import ChannelHandshake.
From S2P Require Import Link.
From S2P Require Import Arduino.

Local Open Scope Z_scope.
Local Open Scope roo_scope.

(** ** What the loops share *)

(** Where a receive thread is: at the test of [running_], at the look at the port, in the
    delay, at [tryReceive], and in [tryReceive] with the packets it has not yet passed on
    and the number it will return. *)
Inductive receive_pc :=
  | RxNotStarted
  | RxTest
  | RxPoll
  | RxWait
  | RxTry
  | RxPass (packets : list (list byte)) (received : nat)
  | RxDone.

#[export] Instance receive_pc_eq_dec : EqDecision receive_pc.
Proof. solve_decision. Defined.

(** The decisions of a loop. [available] is what the port says when the thread looks. *)
Record ReceiveLoop := mkReceiveLoop {
  after_test : bool → receive_pc;
  after_poll : Z → receive_pc;
  after_wait : Z → receive_pc;
  after_pass : nat → receive_pc;
}.

(** [while (running_) { if (receiver_.tryReceive(process_fn_) == 0) sleep }]. It never looks
    at the port. *)
Definition EspIdf_receiveLoop : ReceiveLoop :=
  mkReceiveLoop
    (λ running, if running then RxTry else RxDone)
    (λ _, RxTry)
    (λ _, RxTest)
    (λ received, if decide (received = 0%nat) then RxWait else RxTest).

(** The delay is an inner loop, which looks at the port and not at [running_]. *)
Definition Rp2040_receiveLoop : ReceiveLoop :=
  mkReceiveLoop
    (λ running, if running then RxPoll else RxDone)
    (λ available, if available =? 0 then RxWait else RxTry)
    (λ available, if 0 <? available then RxTry else RxWait)
    (λ _, RxTest).

(** [Impl::receiveLoop]; [available] is zero when [produced() == rx_consumed]. *)
Definition PicoDma_receiveLoop : ReceiveLoop :=
  mkReceiveLoop
    (λ running, if running then RxPoll else RxDone)
    (λ available, if available =? 0 then RxWait else RxTry)
    (λ _, RxTest)
    (λ _, RxTest).

(** What happens to the channel: a packet is passed on, or another thread does something. *)
Inductive channel_event :=
  | PassedOn (packet : list byte)
  | Other (m : ChM unit).

Section Core.

Context {io : RooIo} {codec : PacketCodec} {pf : Platform}.

Definition channel_op (e : channel_event) : ChM unit :=
  match e with
  | PassedOn packet => LinkTransport_processIncomingPacket packet
  | Other m => m
  end.

Fixpoint channel_ops (es : list channel_event) : ChM unit :=
  match es with
  | [] => ch_ret tt
  | e :: es => channel_op e ;;; channel_ops es
  end.

(** The state the thread works on, and as history the bytes it read and what happened
    to the channel. *)
Record RxCore := mkRxCore {
  rc_receiver : PacketReceiverOverStream;
  rc_channel : Channel;
  rc_running : bool;
  rc_pc : receive_pc;
  rc_read : list byte;
  rc_trace : list channel_event;
  rc_effects : list Effect;
}.

Definition rc_at (pc : receive_pc) (s : RxCore) : RxCore :=
  mkRxCore (rc_receiver s) (rc_channel s) (rc_running s) pc (rc_read s) (rc_trace s) (rc_effects s).

(** Something happens to the channel. *)
Definition rc_channel_event (e : channel_event) (s : RxCore) : option RxCore :=
  '(_, es, c) ← channel_op e (rc_channel s);
  Some (mkRxCore (rc_receiver s) c (rc_running s) (rc_pc s) (rc_read s) (rc_trace s ++ [e])
          (rc_effects s ++ es)).

(** The read of [tryReceive], and the cutting of what it returned into packets. *)
Definition rc_tryReceive (data : list byte) (s : RxCore) : option (list (list byte) * RxCore) :=
  '(packets, r) ← PacketReceiverOverStream_tryReceive data (rc_receiver s);
  Some (packets, mkRxCore r (rc_channel s) (rc_running s) (rc_pc s) (rc_read s ++ data) (rc_trace s)
                   (rc_effects s)).

(** One step of a receive thread: [available] is what the port says, if the thread looks,
    and [data] what a read returns, if it reads. *)
Definition receive_step (L : ReceiveLoop) (available : Z) (data : list byte) (s : RxCore) : option RxCore :=
  match rc_pc s with
  | RxNotStarted | RxDone => Some s
  | RxTest => Some (rc_at (after_test L (rc_running s)) s)
  | RxPoll => Some (rc_at (after_poll L available) s)
  | RxWait => Some (rc_at (after_wait L available) s)
  | RxTry =>
      '(packets, s) ← rc_tryReceive data s;
      Some (rc_at (RxPass packets (length packets)) s)
  | RxPass [] received => Some (rc_at (after_pass L received) s)
  | RxPass (packet :: packets) received =>
      s ← rc_channel_event (PassedOn packet) s;
      Some (rc_at (RxPass packets received) s)
  end.

(** Starting the thread, which [begin] does once; clearing [running_]. *)
Definition receive_begin (s : RxCore) : option RxCore :=
  CHECK bool_decide (rc_pc s = RxNotStarted) ;;
  Some (mkRxCore (rc_receiver s) (rc_channel s) true RxTest (rc_read s) (rc_trace s) (rc_effects s)).

Definition receive_stop (s : RxCore) : RxCore :=
  mkRxCore (rc_receiver s) (rc_channel s) false (rc_pc s) (rc_read s) (rc_trace s) (rc_effects s).

(** *** Without a thread *)

Fixpoint rc_pass (packets : list (list byte)) (s : RxCore) : option RxCore :=
  match packets with
  | [] => Some s
  | packet :: packets => s ← rc_channel_event (PassedOn packet) s; rc_pass packets s
  end.

(** The number of packets received. *)
Definition LinkStreamTransport_tryReceive (data : list byte) (s : RxCore) : option (Z * RxCore) :=
  '(packets, s) ← rc_tryReceive data s;
  s ← rc_pass packets s;
  Some (Z.of_nat (length packets), s).

(** [reads] is what the blocking reads return; [None] when they run out. Returns the reads
    that are left. *)
Fixpoint LinkStreamTransport_receive (reads : list (list byte)) (s : RxCore)
    : option (Z * list (list byte) * RxCore) :=
  match reads with
  | [] => None
  | [] :: reads => Some (0, reads, s)
  | data :: reads =>
      '(packets, s) ← LinkStreamTransport_tryReceive data s;
      if 0 <? packets then Some (packets, reads, s) else LinkStreamTransport_receive reads s
  end.

(** The callback of the ESP32 on a receive event. *)
Definition Esp32_receiveAvailable (available : Z) (reads : list (list byte)) (s : RxCore)
    : option (list (list byte) * RxCore) :=
  '(packets, rest, r) ← receiveAvailable available reads (rc_receiver s);
  s ← rc_pass packets (mkRxCore r (rc_channel s) (rc_running s) (rc_pc s)
         (rc_read s ++ concat (take (length reads - length rest) reads)) (rc_trace s) (rc_effects s));
  Some (rest, s).

End Core.

(** The packets passed on and what the others did, in a history. *)
Definition packets_of (es : list channel_event) : list (list byte) :=
  omap (λ e, match e with PassedOn packet => Some packet | Other _ => None end) es.

Definition others_of (es : list channel_event) : list (ChM unit) :=
  omap (λ e, match e with PassedOn _ => None | Other m => Some m end) es.

Definition rx_todo (pc : receive_pc) : list (list byte) :=
  match pc with RxPass packets _ => packets | _ => [] end.

(** ** A serial port and its thread *)

Inductive serial_event :=
  | SerialArrive (bytes : list byte)
  | SerialThread (n : nat)
  | SerialOther (m : ChM unit)
  | SerialBegin
  | SerialStop.

(** The thread's state and the bytes that have arrived and were not read. *)
Record SerialSystem := mkSerialSystem {
  ss_core : RxCore;
  ss_unread : list byte;
}.

Section Serial.

Context {io : RooIo} {codec : PacketCodec} {pf : Platform} (L : ReceiveLoop).

(** What a read returns: at most 256 bytes, as [tryReceive] asks for, of those that are
    there. *)
Definition serial_data (n : nat) (s : SerialSystem) : list byte :=
  match rc_pc (ss_core s) with
  | RxTry => take (Nat.min n 256) (ss_unread s)
  | _ => []
  end.

Definition serial_exec (s : SerialSystem) (e : serial_event) : option SerialSystem :=
  match e with
  | SerialArrive bytes => Some (mkSerialSystem (ss_core s) (ss_unread s ++ bytes))
  | SerialThread n =>
      let data := serial_data n s in
      core ← receive_step L (Z.of_nat (length (ss_unread s))) data (ss_core s);
      Some (mkSerialSystem core (drop (length data) (ss_unread s)))
  | SerialOther m => core ← rc_channel_event (Other m) (ss_core s); Some (mkSerialSystem core (ss_unread s))
  | SerialBegin => core ← receive_begin (ss_core s); Some (mkSerialSystem core (ss_unread s))
  | SerialStop => Some (mkSerialSystem (receive_stop (ss_core s)) (ss_unread s))
  end.

Fixpoint serial_run (es : list serial_event) (s : SerialSystem) : option SerialSystem :=
  match es with
  | [] => Some s
  | e :: es => s ← serial_exec s e; serial_run es s
  end.

End Serial.

(** A new transport: [memory] is the buffer of the packet receiver. *)
Definition rc_start (memory : list byte) (c : Channel) : RxCore :=
  mkRxCore (PacketReceiverOverStream_new memory) c false RxNotStarted [] [] [].

Definition serial_start (memory : list byte) (c : Channel) : SerialSystem :=
  mkSerialSystem (rc_start memory c) [].

Definition arrivals (es : list serial_event) : list byte :=
  concat (omap (λ e, match e with SerialArrive bytes => Some bytes | _ => None end) es).

Definition serial_others (es : list serial_event) : list (ChM unit) :=
  omap (λ e, match e with SerialOther m => Some m | _ => None end) es.

(** ** What the loops have in common

    Whatever it sees, a loop passes on what it read before it reads again; while it runs
    and there are bytes, it goes on to the next read. *)
Class ReceiveLoopLaws (L : ReceiveLoop) : Prop := {
  rl_test_end : after_test L false = RxDone;
  rl_test_next : after_test L true = RxPoll ∨ after_test L true = RxTry;
  rl_poll_any n : after_poll L n = RxTry ∨ after_poll L n = RxWait;
  rl_wait_any n : after_wait L n = RxTry ∨ after_wait L n = RxTest ∨ after_wait L n = RxWait;
  rl_pass_next k : after_pass L k = RxWait ∨ after_pass L k = RxTest;
  rl_poll_next n : 0 < n → after_poll L n = RxTry;
  rl_wait_next n : 0 < n → after_wait L n = RxTry ∨ after_wait L n = RxTest;
}.

(** A loop that comes back to the test of [running_] whatever the port says. *)
Class ReceiveLoopStops (L : ReceiveLoop) : Prop :=
  rs_wait n : after_wait L n = RxTest.

#[export] Instance EspIdf_receiveLoop_laws : ReceiveLoopLaws EspIdf_receiveLoop.
Proof. split; cbn; auto. intros k. case_decide; auto. Qed.

#[export] Instance Rp2040_receiveLoop_laws : ReceiveLoopLaws Rp2040_receiveLoop.
Proof.
  split; cbn; auto; [by intros n; destruct (n =? 0); auto|by intros n; destruct (0 <? n); auto| |].
  - intros n Hn. by rewrite (proj2 (Z.eqb_neq n 0)) by lia.
  - intros n Hn. rewrite (proj2 (Z.ltb_lt 0 n)) by lia. auto.
Qed.

#[export] Instance PicoDma_receiveLoop_laws : ReceiveLoopLaws PicoDma_receiveLoop.
Proof.
  split; cbn; auto; [by intros n; destruct (n =? 0); auto|].
  intros n Hn. by rewrite (proj2 (Z.eqb_neq n 0)) by lia.
Qed.

#[export] Instance EspIdf_receiveLoop_stops : ReceiveLoopStops EspIdf_receiveLoop.
Proof. done. Qed.

#[export] Instance PicoDma_receiveLoop_stops : ReceiveLoopStops PicoDma_receiveLoop.
Proof. done. Qed.

Lemma packets_of_app es fs : packets_of (es ++ fs) = packets_of es ++ packets_of fs.
Proof. apply omap_app. Qed.

Lemma others_of_app es fs : others_of (es ++ fs) = others_of es ++ others_of fs.
Proof. apply omap_app. Qed.

Lemma others_of_passed packets : others_of (PassedOn <$> packets) = [].
Proof. by induction packets. Qed.

Lemma packets_of_passed packets : packets_of (PassedOn <$> packets) = packets.
Proof. induction packets as [|p packets IH]; [done|]. unfold packets_of in *. cbn. by rewrite IH. Qed.

Section Invariant.

Context {io : RooIo} {codec : PacketCodec} {codec_laws : PacketCodecLaws} {pf : Platform}.

Lemma channel_ops_snoc es e c es1 c1 es2 c2 :
  channel_ops es c = Some (tt, es1, c1) → channel_op e c1 = Some (tt, es2, c2) →
  channel_ops (es ++ [e]) c = Some (tt, es1 ++ es2, c2).
Proof.
  revert c es1. induction es as [|e0 es IH]; intros c es1; cbn [channel_ops app].
  - intros [= <- <-] H. unfold ch_bind, ch_ret. rewrite H. cbn. by rewrite app_nil_r.
  - intros H He. unfold ch_bind in *. destruct (channel_op e0 c) as [[[[] fs] c']|]; [|done].
    cbn [mbind option_bind] in *. destruct (channel_ops es c') as [[[[] gs] c'']|] eqn:Hr; [|done].
    cbn in H. injection H as <- <-. rewrite (IH c' gs Hr He). cbn. by rewrite app_assoc.
Qed.

(** The packet receiver has seen what was read, the packets in it are passed on or about to
    be, and the channel is where the history of operations brings it. *)
Record core_inv (c0 : Channel) (s : RxCore) : Prop := {
  ci_holds : pr_holds (rc_receiver s) (deframe_pending [] (rc_read s));
  ci_packets : packets_of (rc_trace s) ++ rx_todo (rc_pc s) = deframe [] (rc_read s);
  ci_channel : channel_ops (rc_trace s) c0 = Some (tt, rc_effects s, rc_channel s);
}.

Lemma rc_start_inv memory c : length memory = 256%nat → core_inv c (rc_start memory c).
Proof. intros. split; [by apply pr_new_holds|done..]. Qed.

(** A move of the thread without a read and without a packet. *)
Lemma rc_at_inv c0 s pc : core_inv c0 s → rx_todo pc = rx_todo (rc_pc s) → core_inv c0 (rc_at pc s).
Proof. intros [Hh Hp Hc] Ht. split; [done| |done]. cbn. by rewrite Ht. Qed.

Lemma rc_channel_event_inv e s s' :
  rc_channel_event e s = Some s' →
  rc_receiver s' = rc_receiver s ∧ rc_running s' = rc_running s ∧ rc_pc s' = rc_pc s ∧ rc_read s' = rc_read s
  ∧ rc_trace s' = rc_trace s ++ [e]
  ∧ ∀ c0, channel_ops (rc_trace s) c0 = Some (tt, rc_effects s, rc_channel s) →
          channel_ops (rc_trace s') c0 = Some (tt, rc_effects s', rc_channel s').
Proof.
  unfold rc_channel_event. intros H. destruct (channel_op e (rc_channel s)) as [[[[] es] c]|] eqn:He; [|done].
  cbn in H. injection H as <-. cbn. split_and!; try done. intros c0 Hc. by eapply channel_ops_snoc.
Qed.

Lemma rc_other_inv c0 m s s' : core_inv c0 s → rc_channel_event (Other m) s = Some s' → core_inv c0 s'.
Proof.
  intros [Hh Hp Hc] H. apply rc_channel_event_inv in H as (Hr & _ & Hpc & Hread & Ht & Hch).
  split; [by rewrite Hr, Hread| |by apply Hch].
  rewrite Hpc, Hread, Ht, packets_of_app. cbn. by rewrite app_nil_r.
Qed.

Lemma rc_pass_one_inv c0 packet packets k s s' :
  core_inv c0 s → rx_todo (rc_pc s) = packet :: packets → rc_channel_event (PassedOn packet) s = Some s' →
  core_inv c0 (rc_at (RxPass packets k) s').
Proof.
  intros [Hh Hp Hc] Htodo H. apply rc_channel_event_inv in H as (Hr & _ & Hpc & Hread & Ht & Hch).
  split; cbn; [by rewrite Hr, Hread| |by apply Hch].
  rewrite Hread, Ht, packets_of_app, <- app_assoc. cbn. by rewrite <- Htodo.
Qed.

(** A read of up to 256 bytes always succeeds, and adds the packets it completes. *)
Lemma rc_tryReceive_spec c0 data s :
  core_inv c0 s → rx_todo (rc_pc s) = [] → (length data ≤ 256)%nat →
  let packets := deframe (deframe_pending [] (rc_read s)) data in
  ∃ s', rc_tryReceive data s = Some (packets, s')
    ∧ rc_channel s' = rc_channel s ∧ rc_running s' = rc_running s ∧ rc_pc s' = rc_pc s
    ∧ rc_trace s' = rc_trace s ∧ rc_read s' = rc_read s ++ data
    ∧ ∀ k, core_inv c0 (rc_at (RxPass packets k) s').
Proof.
  intros [Hh Hp Hc] Htodo Hlen packets. unfold rc_tryReceive, PacketReceiverOverStream_tryReceive.
  destruct (processIncoming_spec data _ _ Hlen Hh) as (r & Hr & Hh' & _). rewrite Hr. cbn [mbind option_bind].
  eexists. split; [done|]. cbn. split_and!; try done. intros k. split; cbn; [by rewrite deframe_pending_app| |done].
  rewrite deframe_app, <- Hp, Htodo, app_nil_r. done.
Qed.

Lemma receive_step_inv L {laws : ReceiveLoopLaws L} c0 available data s s' :
  core_inv c0 s → (length data ≤ 256)%nat → receive_step L available data s = Some s' → core_inv c0 s'.
Proof.
  intros Hi Hlen H. unfold receive_step in H. destruct (rc_pc s) as [| | | | |[|p ps] k|] eqn:Hpc.
  - by injection H as <-.
  - injection H as <-. apply rc_at_inv; [done|]. rewrite Hpc.
    destruct (rc_running s); [by destruct (rl_test_next (L:=L)) as [-> | ->]|by rewrite rl_test_end].
  - injection H as <-. apply rc_at_inv; [done|]. rewrite Hpc. by destruct (rl_poll_any (L:=L) available) as [-> | ->].
  - injection H as <-. apply rc_at_inv; [done|]. rewrite Hpc. by destruct (rl_wait_any (L:=L) available) as [-> | [-> | ->]].
  - destruct (rc_tryReceive_spec c0 data s Hi ltac:(by rewrite Hpc) Hlen) as (s1 & H1 & _ & _ & _ & _ & _ & Hi1).
    rewrite (bind_step _ _ _ H1) in H. injection H as <-. apply Hi1.
  - injection H as <-. apply rc_at_inv; [done|]. rewrite Hpc. by destruct (rl_pass_next (L:=L) k) as [-> | ->].
  - inv_bind H. injection H as <-. eapply rc_pass_one_inv; [done| |done]. by rewrite Hpc.
  - by injection H as <-.
Qed.

End Invariant.

(** ** The thread of a serial port *)

Section SerialCorrect.

Context {io : RooIo} {io_laws : RooIoLaws} {codec : PacketCodec} {codec_laws : PacketCodecLaws} {pf : Platform}.
Context (L : ReceiveLoop) {laws : ReceiveLoopLaws L}.

Definition thread_alive (pc : receive_pc) : Prop := pc ≠ RxNotStarted ∧ pc ≠ RxDone.

(** After the events [es]. *)
Record serial_inv (c0 : Channel) (es : list serial_event) (s : SerialSystem) : Prop := {
  si_core : core_inv c0 (ss_core s);
  si_arrived : rc_read (ss_core s) ++ ss_unread s = arrivals es;
  si_others : others_of (rc_trace (ss_core s)) = serial_others es;
  si_alive : rc_running (ss_core s) = true → thread_alive (rc_pc (ss_core s));
}.

Lemma arrivals_app es fs : arrivals (es ++ fs) = arrivals es ++ arrivals fs.
Proof. unfold arrivals. by rewrite omap_app, concat_app. Qed.

Lemma serial_others_app es fs : serial_others (es ++ fs) = serial_others es ++ serial_others fs.
Proof. apply omap_app. Qed.

Lemma serial_data_length n s : (length (serial_data n s) ≤ 256)%nat.
Proof. unfold serial_data. destruct (rc_pc _); cbn; try lia. rewrite length_take. lia. Qed.

Lemma serial_data_split n s : serial_data n s ++ drop (length (serial_data n s)) (ss_unread s) = ss_unread s.
Proof.
  unfold serial_data. destruct (rc_pc (ss_core s)); cbn; try done.
  rewrite <- (take_drop (Nat.min n 256) (ss_unread s)) at 4. f_equal. rewrite length_take.
  destruct (decide (Nat.min n 256 ≤ length (ss_unread s))%nat); [by rewrite Nat.min_l by lia|].
  by rewrite !drop_ge by lia.
Qed.

(** What a step of the thread leaves alone. *)
Lemma receive_step_frame c0 available data s s' :
  core_inv c0 s → (length data ≤ 256)%nat → (rc_pc s ≠ RxTry → data = []) →
  receive_step L available data s = Some s' →
  rc_running s' = rc_running s ∧ rc_read s' = rc_read s ++ data ∧ others_of (rc_trace s') = others_of (rc_trace s)
  ∧ (rc_running s = true → thread_alive (rc_pc s) → thread_alive (rc_pc s')).
Proof.
  intros Hi Hlen Hdata H. unfold receive_step in H. destruct (rc_pc s) as [| | | | |[|p ps] k|] eqn:Hpc;
    try (rewrite Hdata, app_nil_r by done).
  - injection H as <-. rewrite Hpc. done.
  - injection H as <-. cbn. split_and!; try done. intros ->. by destruct (rl_test_next (L:=L)) as [-> | ->].
  - injection H as <-. cbn. split_and!; try done. by destruct (rl_poll_any (L:=L) available) as [-> | ->].
  - injection H as <-. cbn. split_and!; try done. by destruct (rl_wait_any (L:=L) available) as [-> | [-> | ->]].
  - destruct (rc_tryReceive_spec c0 data s Hi ltac:(by rewrite Hpc) Hlen) as (s1 & H1 & Hc & Hr & _ & Ht & Hread & _).
    rewrite (bind_step _ _ _ H1) in H. injection H as <-. cbn. by rewrite Hr, Hread, Ht.
  - injection H as <-. cbn. split_and!; try done. by destruct (rl_pass_next (L:=L) k) as [-> | ->].
  - inv_bind H. injection H as <-. apply rc_channel_event_inv in E as (_ & Hr & _ & Hread & Ht & _). cbn.
    rewrite Hr, Hread, Ht, others_of_app. cbn. by rewrite app_nil_r.
  - injection H as <-. rewrite Hpc. done.
Qed.

Lemma serial_exec_inv c0 es s e s' :
  serial_inv c0 es s → serial_exec L s e = Some s' → serial_inv c0 (es ++ [e]) s'.
Proof.
  intros [Hc Ha Ho Hal] H. destruct e as [bytes|n|m| |]; cbn [serial_exec] in H.
  - injection H as <-. split; cbn; [done| | |done].
    + rewrite arrivals_app, app_assoc, Ha. cbn. by rewrite app_nil_r.
    + by rewrite serial_others_app, app_nil_r.
  - inv_bind H. injection H as <-.
    destruct (receive_step_frame c0 _ _ _ _ Hc (serial_data_length n s)
      ltac:(intros; unfold serial_data; by destruct (rc_pc _)) E) as (Hr & Hread & Htr & Hkeep).
    split; cbn.
    + exact (receive_step_inv L c0 _ _ _ _ Hc (serial_data_length n s) E).
    + rewrite Hread, <- app_assoc, arrivals_app, app_nil_r, <- Ha. f_equal. apply serial_data_split.
    + by rewrite Htr, serial_others_app, app_nil_r.
    + rewrite Hr. auto.
  - inv_bind H. injection H as <-. pose proof (rc_other_inv c0 m _ _ Hc E) as Hi.
    apply rc_channel_event_inv in E as (_ & Hr & Hpc & Hread & Ht & _). split; cbn; [done| | |by rewrite Hr, Hpc].
    + by rewrite Hread, arrivals_app, app_nil_r.
    + by rewrite Ht, others_of_app, serial_others_app, Ho.
  - inv_bind H. injection H as <-. unfold receive_begin in E. case_bool_decide as Hpc; [|discriminate E].
    injection E as <-. destruct Hc as [Hh Hp Hch]. rewrite Hpc in Hp.
    split; cbn; [by split| | |by intros _; split].
    + by rewrite arrivals_app, app_nil_r.
    + by rewrite serial_others_app, app_nil_r.
  - injection H as <-. destruct Hc as [Hh Hp Hch]. split; cbn; [by split| | |done].
    + by rewrite arrivals_app, app_nil_r.
    + by rewrite serial_others_app, app_nil_r.
Qed.

Lemma serial_run_inv c0 es : ∀ done s s',
  serial_inv c0 done s → serial_run L es s = Some s' → serial_inv c0 (done ++ es) s'.
Proof.
  induction es as [|e es IH]; intros done s s' Hi H; cbn [serial_run] in H.
  - injection H as <-. by rewrite app_nil_r.
  - destruct (serial_exec L s e) as [s1|] eqn:He; [|done]. cbn [mbind option_bind] in H.
    change (e :: es) with ([e] ++ es). rewrite app_assoc. eapply IH; [|done]. by eapply serial_exec_inv.
Qed.

Lemma serial_start_inv memory c : length memory = 256%nat → serial_inv c [] (serial_start memory c).
Proof. intros. split; [by apply rc_start_inv|done..]. Qed.

(** The only way a step of the thread aborts. *)
Definition aborts (s : RxCore) : Prop :=
  ∃ packet packets k, rc_pc s = RxPass (packet :: packets) k
    ∧ LinkTransport_processIncomingPacket packet (rc_channel s) = None.

Lemma receive_step_total c0 available data s :
  core_inv c0 s → (length data ≤ 256)%nat → receive_step L available data s = None → aborts s.
Proof.
  intros Hi Hlen H. unfold receive_step in H. destruct (rc_pc s) as [| | | | |[|p ps] k|] eqn:Hpc; try done.
  - destruct (rc_tryReceive_spec c0 data s Hi ltac:(by rewrite Hpc) Hlen) as (s1 & H1 & _).
    by rewrite (bind_step _ _ _ H1) in H.
  - exists p, ps, k. split; [done|]. unfold rc_channel_event, channel_op in H.
    by destruct (LinkTransport_processIncomingPacket p (rc_channel s)) as [[[[] es] c]|].
Qed.

Lemma serial_thread_total c0 es n s : serial_inv c0 es s → serial_exec L s (SerialThread n) = None → aborts (ss_core s).
Proof.
  intros [Hc _ _ _] H. cbn [serial_exec] in H.
  destruct (receive_step L _ _ _) eqn:E; [done|]. exact (receive_step_total c0 _ _ _ Hc (serial_data_length n s) E).
Qed.

(** C22: the channel gets the packets in the bytes that arrive, all of them, once and in order.
    However the arrivals, the reads of the thread, its delays and the operations of other
    threads on the channel are interleaved: the thread has read the beginning of what
    arrived; the packets it has passed on and the ones it is passing on are exactly those
    that [deframe] finds in what it has read; the state of the channel and
    everything the channel sent and notified are the result of those packets and of the
    other threads' operations, each in its own order; and the thread never fails by
    itself. When the peer's packets come after some garbage and one zero byte, and
    the thread has caught up, they have all been passed on, the last ones in the trace. *)
Theorem ReceiveLoop_passes_on (memory : list byte) (c0 : Channel) (es : list serial_event) (s : SerialSystem)
    (Hmem : length memory = 256%nat) (Hrun : serial_run L es (serial_start memory c0) = Some s) :
  let core := ss_core s in
  rc_read core ++ ss_unread s = arrivals es
  ∧ packets_of (rc_trace core) ++ rx_todo (rc_pc core) = deframe [] (rc_read core)
  ∧ others_of (rc_trace core) = serial_others es
  ∧ channel_ops (rc_trace core) c0 = Some (tt, rc_effects core, rc_channel core)
  ∧ (∀ n, serial_exec L s (SerialThread n) = None → aborts core)
  ∧ ∀ garbage packets bytes,
      Forall (λ p, (length p ≤ 250)%nat ∧ Forall is_byte p) packets →
      send_all packets = Some bytes → arrivals es = garbage ++ 0 :: bytes →
      ss_unread s = [] → rx_todo (rc_pc core) = [] →
      ∃ before, packets_of (rc_trace core) = before ++ packets.
Proof.
  intros core. pose proof (serial_run_inv c0 es [] _ s (serial_start_inv memory c0 Hmem) Hrun) as Hi.
  cbn [app] in Hi. pose proof Hi as [Hc Ha Ho _]. pose proof Hc as [Hh Hp Hch].
  split; [done|]. split; [done|]. split; [done|]. split; [done|]. split.
  { intros n. by apply (serial_thread_total c0 es). }
  intros garbage packets bytes Hpk Hsend Harr Hun Htodo.
  rewrite Hun, app_nil_r, Harr in Ha. unfold core in Htodo. rewrite Htodo, app_nil_r, Ha in Hp. unfold core. rewrite Hp.
  destruct (send_all_deframe packets Hpk) as (bytes' & Hs & Hd). rewrite Hsend in Hs. injection Hs as <-.
  replace (garbage ++ 0 :: bytes) with ((garbage ++ [0]) ++ bytes) by (by rewrite <- app_assoc).
  rewrite deframe_app, deframe_pending_app. cbn [deframe_pending Z.eqb]. rewrite Hd. by eexists.
Qed.

(** ** Catching up *)

Lemma length_deframe p bytes : (length (deframe p bytes) ≤ length bytes)%nat.
Proof.
  revert p. induction bytes as [|b bytes IH]; intros p; cbn; [done|].
  destruct (b =? 0); [|etrans; [apply IH|lia]]. rewrite length_app.
  assert (length (frame_packet (p ++ [b])) ≤ 1)%nat; [|specialize (IH []); lia].
  unfold frame_packet. case_bool_decide; cbn; [|lia]. destruct (cobs_decode_tinyframe _); [|cbn; lia]. case_decide; cbn; lia.
Qed.

Definition caught_up (s : SerialSystem) : Prop := ss_unread s = [] ∧ rx_todo (rc_pc (ss_core s)) = [].

Definition rx_weight (pc : receive_pc) : nat :=
  match pc with
  | RxNotStarted | RxDone | RxTry => 0
  | RxPoll => 1
  | RxTest => 2
  | RxWait => 3
  | RxPass packets _ => 4 + length packets
  end.

(** How many steps the thread needs at most. *)
Definition backlog (s : SerialSystem) : nat := 6 * length (ss_unread s) + rx_weight (rc_pc (ss_core s)).

(** A step of the thread with some of the backlog left, and one without. *)
Lemma thread_progress c0 es n s :
  serial_inv c0 es s → rc_running (ss_core s) = true → (1 ≤ n)%nat → ¬ caught_up s →
  aborts (ss_core s)
  ∨ ∃ s', serial_exec L s (SerialThread n) = Some s' ∧ (backlog s' < backlog s)%nat.
Proof.
  intros Hi Hrun Hn Hbehind. destruct (serial_exec L s (SerialThread n)) as [s'|] eqn:Hex;
    [right|left; by eapply serial_thread_total].
  exists s'. split; [done|]. pose proof (si_alive _ _ _ Hi Hrun) as [Hns Hnd].
  assert (Hav : rx_todo (rc_pc (ss_core s)) = [] → 0 < Z.of_nat (length (ss_unread s))).
  { intros Ht. destruct (ss_unread s) eqn:Hu; [|cbn; lia]. exfalso. apply Hbehind. by split. }
  cbn [serial_exec] in Hex. inv_bind Hex. injection Hex as <-. unfold backlog. cbn [ss_unread ss_core].
  rewrite length_drop. unfold receive_step in E. unfold serial_data in *.
  destruct (rc_pc (ss_core s)) as [| | | | |[|p ps] k|] eqn:Hpc; try done; cbn [rx_todo] in Hav; try specialize (Hav eq_refl).
  - injection E as <-. cbn [rc_pc rc_at]. rewrite Hrun. destruct (rl_test_next (L:=L)) as [-> | ->]; cbn; lia.
  - injection E as <-. cbn [rc_pc rc_at]. rewrite (rl_poll_next (L:=L)) by done. cbn. lia.
  - injection E as <-. cbn [rc_pc rc_at]. destruct (rl_wait_next (L:=L) _ Hav) as [-> | ->]; cbn; lia.
  - destruct (rc_tryReceive_spec c0 (take (Nat.min n 256) (ss_unread s)) (ss_core s) (si_core _ _ _ Hi)
      ltac:(by rewrite Hpc) ltac:(rewrite length_take; lia)) as (s1 & H1 & _).
    rewrite (bind_step _ _ _ H1) in E. injection E as <-. cbn [rc_pc rc_at rx_weight].
    pose proof (length_deframe (deframe_pending [] (rc_read (ss_core s))) (take (Nat.min n 256) (ss_unread s))) as Hd.
    revert Hd. rewrite length_take. lia.
  - injection E as <-. cbn [rc_pc rc_at length]. destruct (rl_pass_next (L:=L) k) as [-> | ->]; cbn; lia.
  - inv_bind E. injection E as <-. cbn. lia.
Qed.

Lemma thread_stays c0 es n s :
  serial_inv c0 es s → caught_up s →
  ∃ s', serial_exec L s (SerialThread n) = Some s' ∧ caught_up s' ∧ rc_trace (ss_core s') = rc_trace (ss_core s).
Proof.
  intros Hi [Hu Ht]. cbn [serial_exec]. unfold serial_data. rewrite Hu, take_nil.
  replace (match rc_pc (ss_core s) with RxTry => [] | _ => [] end) with (@nil byte) by (by destruct (rc_pc _)).
  unfold receive_step. unfold caught_up. destruct (rc_pc (ss_core s)) as [| | | | |[|p ps] k|] eqn:Hpc; try done.
  - eexists. split; [done|]. cbn. by rewrite Hpc.
  - eexists. split; [done|]. cbn. destruct (rc_running _); [by destruct (rl_test_next (L:=L)) as [-> | ->]|by rewrite rl_test_end].
  - eexists. split; [done|]. cbn [rc_pc rc_at ss_core]. by destruct (rl_poll_any (L:=L) (Z.of_nat (length (@nil byte)))) as [-> | ->].
  - eexists. split; [done|]. cbn [rc_pc rc_at ss_core].
    by destruct (rl_wait_any (L:=L) (Z.of_nat (length (@nil byte)))) as [-> | [-> | ->]].
  - destruct (rc_tryReceive_spec c0 [] (ss_core s) (si_core _ _ _ Hi) ltac:(by rewrite Hpc) ltac:(cbn; lia))
      as (s1 & H1 & _ & _ & _ & Htr & _). rewrite (bind_step _ _ _ H1). eexists. split; [done|]. done.
  - eexists. split; [done|]. cbn. by destruct (rl_pass_next (L:=L) k) as [-> | ->].
  - eexists. split; [done|]. cbn. by rewrite Hpc.
Qed.

Lemma thread_running n s s' :
  serial_exec L s (SerialThread n) = Some s' → rc_running (ss_core s') = rc_running (ss_core s).
Proof.
  cbn [serial_exec]. intros H. inv_bind H. injection H as <-. cbn. unfold receive_step in E.
  destruct (rc_pc (ss_core s)) as [| | | | |[|p ps] k|]; try (by injection E as <-).
  - unfold rc_tryReceive in E.
    destruct (PacketReceiverOverStream_tryReceive _ _) as [[packets r1]|]; [|done]. by injection E as <-.
  - inv_bind E. injection E as <-. by apply rc_channel_event_inv in E0 as (_ & ? & _).
Qed.

Lemma threads_catch_up c0 ns : ∀ es s,
  serial_inv c0 es s → rc_running (ss_core s) = true → Forall (λ n, 1 ≤ n)%nat ns →
  caught_up s ∨ (backlog s ≤ length ns)%nat →
  (∃ s', serial_run L (SerialThread <$> ns) s = Some s' ∧ caught_up s')
  ∨ ∃ ns1 ns2 s1, ns = ns1 ++ ns2 ∧ serial_run L (SerialThread <$> ns1) s = Some s1 ∧ aborts (ss_core s1).
Proof.
  induction ns as [|n ns IH]; intros es s Hi Hrun Hf Hb.
  { left. exists s. split; [done|]. destruct Hb as [?|Hb]; [done|]. unfold backlog in Hb. cbn [length] in Hb.
    split; [apply nil_length_inv; lia|]. destruct (rc_pc _) as [| | | | |ps k|]; cbn [rx_todo rx_weight] in *; done || lia. }
  apply Forall_cons in Hf as [Hn Hf].
  assert (Hnext : aborts (ss_core s) ∨ ∃ s', serial_exec L s (SerialThread n) = Some s'
    ∧ (caught_up s' ∨ (backlog s' ≤ length ns)%nat)).
  { destruct (decide (ss_unread s = [] ∧ rx_todo (rc_pc (ss_core s)) = [])) as [Hc|Hc].
    - right. destruct (thread_stays c0 es n s Hi Hc) as (s' & ? & ? & _). eauto.
    - destruct Hb as [?|Hb]; [done|].
      destruct (thread_progress c0 es n s Hi Hrun Hn Hc) as [?|(s' & ? & ?)]; [by left|].
      right. exists s'. split; [done|]. right. cbn [length] in Hb. lia. }
  destruct Hnext as [Hab|(s' & Hex & Hb')]; [right; by exists [], (n :: ns), s|].
  destruct (IH (es ++ [SerialThread n]) s') as [(s2 & Hr & Hc)|(ns1 & ns2 & s1 & -> & Hr & Hab)].
  - by eapply serial_exec_inv.
  - by rewrite (thread_running n s s' Hex).
  - done.
  - done.
  - left. exists s2. split; [|done]. cbn [fmap list_fmap serial_run]. by rewrite (bind_step _ _ _ Hex).
  - right. exists (n :: ns1), ns2, s1. split; [done|]. split; [|done].
    cbn [fmap list_fmap serial_run]. by rewrite (bind_step _ _ _ Hex).
Qed.

(** C23: the receive thread catches up. Wherever it is while it is not stopped: if its reads
    return at least one of the bytes that are there, then six steps of its own for each unread
    byte, four more, and one for each packet at hand are enough to read and pass on
    everything that has arrived, unless the channel aborts on a packet. *)
Theorem ReceiveLoop_catches_up (memory : list byte) (c0 : Channel) (es : list serial_event) (s : SerialSystem)
    (ns : list nat) (Hmem : length memory = 256%nat)
    (Hrun : serial_run L es (serial_start memory c0) = Some s) (Hgo : rc_running (ss_core s) = true)
    (Hreads : Forall (λ n, 1 ≤ n)%nat ns)
    (Henough : (6 * length (ss_unread s) + 4 + length (rx_todo (rc_pc (ss_core s))) ≤ length ns)%nat) :
  (∃ s', serial_run L (SerialThread <$> ns) s = Some s'
     ∧ caught_up s' ∧ packets_of (rc_trace (ss_core s')) = deframe [] (arrivals es))
  ∨ ∃ ns1 ns2 s1, ns = ns1 ++ ns2 ∧ serial_run L (SerialThread <$> ns1) s = Some s1 ∧ aborts (ss_core s1).
Proof.
  pose proof (serial_run_inv c0 es [] _ s (serial_start_inv memory c0 Hmem) Hrun) as Hi. cbn [app] in Hi.
  destruct (threads_catch_up c0 ns es s Hi Hgo Hreads) as [(s' & Hr & Hc)|?]; [right|left|by right].
  { unfold backlog. destruct (rc_pc _); cbn in *; lia. }
  exists s'. split; [done|]. split; [done|]. destruct Hc as [Hu Ht].
  destruct (serial_run_inv c0 (SerialThread <$> ns) es s s' Hi Hr) as [[_ Hp _] Ha _ _].
  rewrite Ht, app_nil_r in Hp. rewrite Hp. rewrite Hu, app_nil_r in Ha. rewrite Ha, arrivals_app.
  assert (arrivals (SerialThread <$> ns) = []) as ->; [|by rewrite app_nil_r].
  clear. unfold arrivals. by induction ns.
Qed.

End SerialCorrect.

(** ** Stopping *)

Section Stopping.

Context {io : RooIo} {codec : PacketCodec} {codec_laws : PacketCodecLaws} {pf : Platform}.
Context (L : ReceiveLoop) {laws : ReceiveLoopLaws L} {stops : ReceiveLoopStops L}.

(** How many steps a thread can take at most once [running_] is false. A read of 256 bytes
    completes at most 256 packets. *)
Definition steps_to_stop (pc : receive_pc) : nat :=
  match pc with
  | RxNotStarted | RxDone => 0
  | RxTest => 1
  | RxWait => 2
  | RxPass packets _ => 3 + length packets
  | RxTry => 260
  | RxPoll => 261
  end.

(** It moves on at every step, whatever the port says and the read returns. *)
Lemma receive_step_stops c0 available data s s' :
  core_inv c0 s → (length data ≤ 256)%nat → rc_running s = false → thread_alive (rc_pc s) →
  receive_step L available data s = Some s' →
  rc_running s' = false ∧ rc_pc s' ≠ RxNotStarted ∧ (steps_to_stop (rc_pc s') < steps_to_stop (rc_pc s))%nat.
Proof.
  intros Hi Hlen Hrun [Hns Hnd] H. unfold receive_step in H.
  destruct (rc_pc s) as [| | | | |[|p ps] k|] eqn:Hpc; try done.
  - injection H as <-. cbn. rewrite Hrun, rl_test_end. cbn. split_and!; done || lia.
  - injection H as <-. cbn [rc_pc rc_at rc_running]. destruct (rl_poll_any (L:=L) available) as [-> | ->];
      cbn; split_and!; done || lia.
  - injection H as <-. cbn. rewrite (rs_wait (L:=L)). cbn. split_and!; done || lia.
  - destruct (rc_tryReceive_spec c0 data s Hi ltac:(by rewrite Hpc) Hlen) as (s1 & H1 & _ & Hr & _).
    rewrite (bind_step _ _ _ H1) in H. injection H as <-. cbn [rc_pc rc_at rc_running steps_to_stop].
    pose proof (length_deframe (deframe_pending [] (rc_read s)) data). split_and!; [congruence|done|lia].
  - injection H as <-. cbn [rc_pc rc_at rc_running]. destruct (rl_pass_next (L:=L) k) as [-> | ->];
      cbn; split_and!; done || lia.
  - inv_bind H. injection H as <-. apply rc_channel_event_inv in E as (_ & Hr & _). cbn.
    split_and!; [congruence|done|lia].
Qed.

Lemma serial_thread_stops c0 es n s s' :
  serial_inv c0 es s → rc_running (ss_core s) = false → thread_alive (rc_pc (ss_core s)) →
  serial_exec L s (SerialThread n) = Some s' →
  rc_running (ss_core s') = false ∧ rc_pc (ss_core s') ≠ RxNotStarted
  ∧ (steps_to_stop (rc_pc (ss_core s')) < steps_to_stop (rc_pc (ss_core s)))%nat.
Proof.
  intros Hi Hrun Hal H. cbn [serial_exec] in H. inv_bind H. injection H as <-. cbn.
  exact (receive_step_stops c0 _ _ _ _ (si_core _ _ _ Hi) (serial_data_length n s) Hrun Hal E).
Qed.

End Stopping.

Section Rp2040.

Context {io : RooIo} {codec : PacketCodec} {pf : Platform}.

(** The loop of arduino/rp2040 is not one of these: it does not look at [running_] while it
    waits for data. *)
Lemma Rp2040_waits n s :
  ss_unread s = [] → rc_pc (ss_core s) = RxWait →
  serial_run Rp2040_receiveLoop (replicate n (SerialThread 1)) s = Some s.
Proof.
  intros Hu Hpc. induction n as [|n IH]; [done|]. cbn [replicate serial_run].
  assert (Hstep : serial_exec Rp2040_receiveLoop s (SerialThread 1) = Some s); [|by rewrite (bind_step _ _ _ Hstep)].
  destruct s as [[r c b pc rd tr es] unread]. cbn in Hu, Hpc. by subst.
Qed.

(** After [end] has cleared the flag, the thread never finishes while the port is silent,
    however many steps it takes, and the join in [end] waits for it. *)
Theorem Rp2040_end_waits_for_data (memory : list byte) (c : Channel) (n : nat) :
  ∃ s, serial_run Rp2040_receiveLoop
         ([SerialBegin; SerialThread 1; SerialThread 1; SerialStop] ++ replicate n (SerialThread 1))
         (serial_start memory c) = Some s
    ∧ rc_running (ss_core s) = false ∧ rc_pc (ss_core s) = RxWait.
Proof.
  set (s := mkSerialSystem (mkRxCore (PacketReceiverOverStream_new memory) c false RxWait [] [] []) []).
  exists s. split; [|done].
  change (serial_run Rp2040_receiveLoop (replicate n (SerialThread 1)) s = Some s). by apply Rp2040_waits.
Qed.

End Rp2040.

(** ** Receiving without a thread *)

Section StreamTransport.

Context {io : RooIo} {codec : PacketCodec} {codec_laws : PacketCodecLaws} {pf : Platform}.

Lemma rc_pass_inv c0 k packets : ∀ s s',
  core_inv c0 (rc_at (RxPass packets k) s) → rc_pass packets s = Some s' →
  core_inv c0 (rc_at (RxPass [] k) s') ∧ rc_read s' = rc_read s ∧ rc_pc s' = rc_pc s
  ∧ rc_trace s' = rc_trace s ++ (PassedOn <$> packets).
Proof.
  induction packets as [|p packets IH]; intros s s' Hi H; cbn [rc_pass] in H.
  { injection H as <-. by rewrite app_nil_r. }
  inv_bind H. apply rc_channel_event_inv in E as Hev. destruct Hev as (Hr & Hrun & Hpc & Hread & Ht & Hch).
  assert (Hi1 : core_inv c0 (rc_at (RxPass packets k) r)).
  { destruct Hi as [Hh Hp Hc]. split; cbn in *; [by rewrite Hr, Hread| |by apply Hch].
    by rewrite Hread, Ht, packets_of_app, <- app_assoc. }
  destruct (IH r s' Hi1 H) as (Hi2 & Hread2 & Hpc2 & Ht2). split; [done|].
  rewrite Hread2, Hpc2, Ht2, Hread, Hpc, Ht, <- app_assoc. done.
Qed.

Lemma rc_pass_aborts packets : ∀ s, rc_pass packets s = None →
  ∃ before packet after c, packets = before ++ packet :: after ∧ LinkTransport_processIncomingPacket packet c = None.
Proof.
  induction packets as [|p packets IH]; intros s H; cbn [rc_pass] in H; [done|].
  destruct (rc_channel_event (PassedOn p) s) as [s1|] eqn:E.
  - destruct (IH s1 H) as (before & packet & after & c & -> & ?). by exists (p :: before), packet, after, c.
  - exists [], p, packets, (rc_channel s). split; [done|]. unfold rc_channel_event, channel_op in E.
    by destruct (LinkTransport_processIncomingPacket p (rc_channel s)) as [[[[] es] c]|].
Qed.

(** Once the packets are passed on, the invariant is that of a thread that is not in
    [tryReceive]. *)
Lemma rc_passed c0 k s : core_inv c0 (rc_at (RxPass [] k) s) → rx_todo (rc_pc s) = [] → core_inv c0 s.
Proof. intros [Hh Hp Hc] Ht. split; [done| |done]. rewrite Ht. exact Hp. Qed.

Lemma tryReceive_inv c0 data s n s' :
  core_inv c0 s → rx_todo (rc_pc s) = [] → (length data ≤ 256)%nat →
  LinkStreamTransport_tryReceive data s = Some (n, s') →
  core_inv c0 s' ∧ rx_todo (rc_pc s') = [] ∧ rc_read s' = rc_read s ++ data
  ∧ ∃ packets, rc_trace s' = rc_trace s ++ (PassedOn <$> packets) ∧ n = Z.of_nat (length packets).
Proof.
  intros Hi Ht Hlen H. unfold LinkStreamTransport_tryReceive in H.
  destruct (rc_tryReceive_spec c0 data s Hi Ht Hlen) as (s1 & H1 & _ & _ & Hpc1 & Htr1 & Hread1 & Hi1).
  rewrite (bind_step _ _ _ H1) in H. inv_bind H. injection H as <- <-.
  destruct (rc_pass_inv c0 0 _ _ _ (Hi1 0%nat) E) as (Hi2 & Hread2 & Hpc2 & Htr2).
  assert (Ht2 : rx_todo (rc_pc r) = []) by (by rewrite Hpc2, Hpc1).
  split; [by eapply rc_passed|]. split; [done|]. split; [congruence|].
  eexists. split; [by rewrite Htr2, Htr1|done].
Qed.

(** [LinkStreamTransport::receive] reads on until it has a packet or the stream ends. It
    reads a beginning of what the reads return, passes on exactly the packets that these
    bytes complete, and returns their number, which is zero only after a read that returned
    nothing. *)
Theorem LinkStreamTransport_receive_passes_on (c0 : Channel) (reads : list (list byte)) (s : RxCore)
    (n : Z) (rest : list (list byte)) (s' : RxCore)
    (Hinv : core_inv c0 s) (Hidle : rx_todo (rc_pc s) = [])
    (Hreads : Forall (λ data, length data ≤ 256)%nat reads)
    (Hrun : LinkStreamTransport_receive reads s = Some (n, rest, s')) :
  ∃ used packets, reads = used ++ rest
    ∧ core_inv c0 s' ∧ rx_todo (rc_pc s') = [] ∧ rc_read s' = rc_read s ++ concat used
    ∧ rc_trace s' = rc_trace s ++ (PassedOn <$> packets)
    ∧ n = Z.of_nat (length packets) ∧ (0 < n ∨ last used = Some []).
Proof.
  revert s Hinv Hidle Hrun. induction Hreads as [|data reads Hd _ IH]; intros s Hi Ht Hrun; [done|].
  destruct data as [|b data].
  { injection Hrun as <- <- <-. exists [[]], []. cbn. rewrite !app_nil_r. split_and!; auto. }
  revert Hrun. change (LinkStreamTransport_receive ((b :: data) :: reads) s) with
    ('(packets, s) ← LinkStreamTransport_tryReceive (b :: data) s;
     if 0 <? packets then Some (packets, reads, s) else LinkStreamTransport_receive reads s).
  destruct (LinkStreamTransport_tryReceive (b :: data) s) as [[m s1]|] eqn:Hm; [|done]. cbn [mbind option_bind].
  destruct (tryReceive_inv c0 _ s m s1 Hi Ht Hd Hm) as (Hi1 & Ht1 & Hread1 & packets & Htr1 & Hn).
  destruct (Z.ltb_spec 0 m) as [Hpos|Hzero]; intros Hrun.
  - injection Hrun as <- <- <-. exists [b :: data], packets. cbn [concat]. rewrite app_nil_r. split_and!; auto.
  - destruct (IH s1 Hi1 Ht1 Hrun) as (used & more & -> & Hi2 & Ht2 & Hread2 & Htr2 & Hn2 & Hend).
    assert (packets = []) as -> by (apply nil_length_inv; lia).
    exists ((b :: data) :: used), more. split; [done|]. split; [done|]. split; [done|].
    rewrite Hread2, Htr2, Htr1, Hread1, app_nil_r, <- app_assoc. split_and!; auto.
    destruct Hend as [?|Hl]; [by left|right]. by destruct used.
Qed.

(** C27: a receive event of the ESP32 transport is bounded, drains the backlog and feeds the
    channel. Whatever the reads return, the callback makes at most one read for each byte
    that was available on entry, processes fewer than 256 bytes more than that, and stops
    short of the backlog only when the stream is empty; it passes on exactly the
    packets that the bytes it read complete, unless the channel aborts on one, and keeps the
    rest for the next event. *)
Theorem Esp32_receive_event (c0 : Channel) (available : Z) (reads : list (list byte)) (s : RxCore)
    (Hinv : core_inv c0 s) (Hidle : rx_todo (rc_pc s) = []) (Hav : available < 2147483648)
    (Hreads : Forall (λ data, length data ≤ 256)%nat reads)
    (Henough : available ≤ Z.of_nat (length reads)) :
  ∃ used rest, reads = used ++ rest ∧ Z.of_nat (length used) ≤ Z.max 0 available
    ∧ Z.of_nat (length (concat used)) < Z.max 1 (available + 256)
    ∧ (available ≤ Z.of_nat (length (concat used)) ∨ last used = Some [])
    ∧ let packets := deframe (deframe_pending [] (rc_read s)) (concat used) in
      (∃ s', Esp32_receiveAvailable available reads s = Some (rest, s')
         ∧ core_inv c0 s' ∧ rx_todo (rc_pc s') = [] ∧ rc_read s' = rc_read s ++ concat used
         ∧ rc_trace s' = rc_trace s ++ (PassedOn <$> packets))
      ∨ Esp32_receiveAvailable available reads s = None
        ∧ ∃ before packet after c, packets = before ++ packet :: after
            ∧ LinkTransport_processIncomingPacket packet c = None.
Proof.
  destruct (Esp32_receiveAvailable_drains available reads (rc_receiver s) _ Hav (ci_holds _ _ Hinv) Hreads Henough)
    as (used & rest & r' & Hu & Hn & Hr & Hlt & Hend & Hh).
  exists used, rest. split_and!; [done..|]. intros packets. unfold Esp32_receiveAvailable.
  rewrite (bind_step _ _ _ Hr). fold packets.
  replace (take (length reads - length rest) reads) with used
    by (rewrite Hu, length_app, Nat.add_sub, take_app_length; done).
  set (s1 := mkRxCore _ _ _ _ _ _ _).
  assert (Hi1 : core_inv c0 (rc_at (RxPass packets 0) s1)).
  { destruct Hinv as [_ Hp Hc]. split; cbn; [by rewrite deframe_pending_app| |done].
    rewrite deframe_app, <- Hp, Hidle, app_nil_r. done. }
  destruct (rc_pass packets s1) as [s'|] eqn:Hpass; cbn [mbind option_bind].
  - left. exists s'. split; [done|]. destruct (rc_pass_inv c0 0 _ _ _ Hi1 Hpass) as (Hi2 & Hread2 & Hpc2 & Htr2).
    assert (Ht2 : rx_todo (rc_pc s') = []) by (by rewrite Hpc2).
    split; [by eapply rc_passed|]. by rewrite Hread2, Htr2.
  - right. split; [done|]. by eapply rc_pass_aborts.
Qed.

End StreamTransport.

(** ** Witnesses *)

(** The thread starts, the bytes of two packets arrive after some garbage, and another
    thread connects in between; three steps later only a part has been read. *)
Definition serial_demo_events : list serial_event :=
  [SerialArrive (take 20 demo_stream); SerialBegin; SerialThread 1; SerialThread 7;
   SerialOther (λ c, '(_, es, c) ← Channel_connect None [9] 100 c; Some (tt, es, c));
   SerialArrive (drop 20 demo_stream); SerialThread 1].

Definition serial_demo_start : option SerialSystem :=
  c ← chan_demo_new; Some (serial_start (replicate 256 0) c).

Definition serial_demo (more : list serial_event) : option SerialSystem :=
  s ← serial_demo_start; serial_run EspIdf_receiveLoop (serial_demo_events ++ more) s.

Lemma serial_demo_run more s :
  serial_demo more = Some s →
  ∃ c, serial_run EspIdf_receiveLoop (serial_demo_events ++ more) (serial_start (replicate 256 0) c) = Some s.
Proof.
  unfold serial_demo, serial_demo_start. intros H. destruct chan_demo_new as [c|]; [|discriminate H].
  exists c. exact H.
Qed.

Lemma serial_demo_arrivals more :
  arrivals more = [] → ∃ bytes, send_all demo_packets = Some bytes
    ∧ arrivals (serial_demo_events ++ more) = [5; 9; 0; 3] ++ 0 :: bytes.
Proof.
  intros Hm. eexists. split; [vm_compute; reflexivity|]. rewrite arrivals_app, Hm. vm_compute. reflexivity.
Qed.

Lemma ReceiveLoop_passes_on_witness :
  ∃ s before, serial_demo (replicate 250 (SerialThread 7)) = Some s
    ∧ packets_of (rc_trace (ss_core s)) = before ++ demo_packets.
Proof.
  set (more := replicate 250 (SerialThread 7)).
  assert (Hf : option_map (λ s, (ss_unread s, rx_todo (rc_pc (ss_core s)))) (serial_demo more) = Some ([], []))
    by (vm_compute; reflexivity).
  destruct (serial_demo more) as [s|] eqn:Hs; [|discriminate Hf]. injection Hf as Hu Ht.
  destruct (serial_demo_run more s Hs) as [c Hrun].
  destruct (serial_demo_arrivals more ltac:(vm_compute; reflexivity)) as (bytes & Hb & Ha).
  destruct (ReceiveLoop_passes_on EspIdf_receiveLoop (replicate 256 0) c _ s (length_replicate _ _) Hrun)
    as (_ & _ & _ & _ & _ & Hall).
  destruct (Hall _ demo_packets bytes demo_packets_ok Hb Ha Hu Ht) as [before Hp].
  exists s, before. split; [reflexivity|exact Hp].
Defined.

Lemma ReceiveLoop_catches_up_witness :
  ∃ s, serial_demo [] = Some s ∧ length (ss_unread s) = 270%nat
    ∧ ((∃ s', serial_run EspIdf_receiveLoop (SerialThread <$> replicate 1624 1%nat) s = Some s' ∧ caught_up s')
       ∨ ∃ ns1 ns2 s1, replicate 1624 1%nat = ns1 ++ ns2
           ∧ serial_run EspIdf_receiveLoop (SerialThread <$> ns1) s = Some s1 ∧ aborts (ss_core s1)).
Proof.
  assert (Hf : option_map (λ s, (length (ss_unread s), rc_running (ss_core s), length (rx_todo (rc_pc (ss_core s)))))
    (serial_demo []) = Some (270%nat, true, 0%nat)) by (vm_compute; reflexivity).
  destruct (serial_demo []) as [s|] eqn:Hs; [|discriminate Hf]. injection Hf as Hu Hr Ht.
  destruct (serial_demo_run [] s Hs) as [c Hrun].
  destruct (ReceiveLoop_catches_up EspIdf_receiveLoop (replicate 256 0) c _ s (replicate 1624 1%nat)
    (length_replicate _ _) Hrun Hr) as [(s' & H1 & H2 & _)|Hab].
  - apply Forall_replicate. lia.
  - rewrite Hu, Ht, length_replicate. lia.
  - exists s. split; [reflexivity|]. split; [exact Hu|]. left. exists s'. split; [exact H1|exact H2].
  - exists s. split; [reflexivity|]. split; [exact Hu|]. right. exact Hab.
Defined.

Lemma Esp32_receive_event_witness :
  ∃ c rest s', chan_demo_new = Some c
    ∧ Esp32_receiveAvailable 24 demo_backlog (rc_start (replicate 256 0) c) = Some (rest, s')
    ∧ packets_of (rc_trace s') = demo_packets.
Proof.
  assert (Hf : option_map (λ x : list (list byte) * RxCore, packets_of (rc_trace x.2))
    (c ← chan_demo_new; Esp32_receiveAvailable 24 demo_backlog (rc_start (replicate 256 0) c)) = Some demo_packets)
    by (vm_compute; reflexivity).
  destruct chan_demo_new as [c|]; [|discriminate Hf]. cbn [mbind option_bind] in Hf.
  destruct (Esp32_receive_event c 24 demo_backlog (rc_start (replicate 256 0) c)) as (used & rest & _ & _ & _ & _ & Hres).
  - apply rc_start_inv, length_replicate.
  - reflexivity.
  - lia.
  - apply Forall_app. split; [apply demo_reads_ok|]. apply Forall_replicate. cbn. lia.
  - unfold demo_backlog. rewrite length_app, length_replicate. lia.
  - destruct Hres as [(s' & Hex & _)|[Hnone _]].
    + exists c, rest, s'. split; [reflexivity|]. split; [exact Hex|]. rewrite Hex in Hf. injection Hf as Hp. exact Hp.
    + rewrite Hnone in Hf. discriminate Hf.
Defined.
