(* ===== verification/EspIdf.v ===== *)
(** * EspIdf: begin and end of the ESP-IDF transport

    [ReliableUartLinkTransport] of link/esp_idf/reliable_uart.cpp: the receive thread of
    [ReceiveLoops] with its port, the sender thread of the channel as in [SendLoop], and the
    thread that calls [begin] and [end], one step at a time and in any interleaving. *)

From S2P Require Import Prelude.
From S2P Require Import RooIo.
From S2P Require Import Packets.
From S2P Require Import Channel.
From S2P Require Import ChannelHandshake.
From S2P Require Import Link.
From S2P Require Import SendLoop.
From S2P Require Import ReceiveLoops.

Local Open Scope Z_scope.
Local Open Scope roo_scope.

(** Where the thread in [end] is: not in it, at the join, in [transport_.end()], and
    returned. *)
Inductive ender := NotEnding | JoinReceiver | EndTransport | EndReturned.

(** The receive thread with its port, the sender thread of the channel, and the thread that
    calls [begin] and [end]. *)
Record EspIdfSystem := mkEspIdfSystem {
  ei_serial : SerialSystem;
  ei_sender : SendLoop;
  ei_ender : ender;
}.

Inductive espidf_actor := IdfReceiver | IdfSender | IdfEnder | IdfEnvironment.

Section EspIdf.

Context {io : RooIo} {codec : PacketCodec} {pf : Platform}.

(** [begin]: [transport_.begin()], then [running_ = true] and the thread. *)
Definition EspIdf_begin (s : EspIdfSystem) : option EspIdfSystem :=
  CHECK (match sl_sender (ei_sender s) with SNotStarted => true | _ => false end) ;;
  serial ← serial_exec EspIdf_receiveLoop (ei_serial s) SerialBegin;
  Some (mkEspIdfSystem serial (sl_start_thread (ei_sender s)) (ei_ender s)).

(** [end], one step at a time; [None] while it waits. *)
Definition EspIdf_end_step (s : EspIdfSystem) : option EspIdfSystem :=
  match ei_ender s with
  | NotEnding =>
      serial ← serial_exec EspIdf_receiveLoop (ei_serial s) SerialStop;
      Some (mkEspIdfSystem serial (ei_sender s) JoinReceiver)
  | JoinReceiver =>
      match rc_pc (ss_core (ei_serial s)) with
      | RxDone => Some (mkEspIdfSystem (ei_serial s) (sl_produce false (ei_sender s)) EndTransport)
      | _ => None
      end
  | EndTransport =>
      if sl_joined (ei_sender s) then Some (mkEspIdfSystem (ei_serial s) (ei_sender s) EndReturned) else None
  | EndReturned => None
  end.

(** Steps of the whole. [begin] is called before [end]; the sender's own steps and those
    of the threads that notify it are those of [SendLoop]. *)
Inductive espidf_step : espidf_actor → EspIdfSystem → EspIdfSystem → Prop :=
  | ei_begin s s' : ei_ender s = NotEnding → EspIdf_begin s = Some s' → espidf_step IdfEnvironment s s'
  | ei_end s s' : rc_pc (ss_core (ei_serial s)) ≠ RxNotStarted → EspIdf_end_step s = Some s' →
      espidf_step IdfEnder s s'
  | ei_receive s n serial : serial_exec EspIdf_receiveLoop (ei_serial s) (SerialThread n) = Some serial →
      espidf_step IdfReceiver s (mkEspIdfSystem serial (ei_sender s) (ei_ender s))
  | ei_arrive s bytes serial :
      serial_exec EspIdf_receiveLoop (ei_serial s) (SerialArrive bytes) = Some serial →
      espidf_step IdfEnvironment s (mkEspIdfSystem serial (ei_sender s) (ei_ender s))
  | ei_other s m serial : serial_exec EspIdf_receiveLoop (ei_serial s) (SerialOther m) = Some serial →
      espidf_step IdfEnvironment s (mkEspIdfSystem serial (ei_sender s) (ei_ender s))
  | ei_send s sender : sl_moves (ei_sender s) sender →
      espidf_step IdfSender s (mkEspIdfSystem (ei_serial s) sender (ei_ender s))
  | ei_timer s sender : sl_step Timer (ei_sender s) sender →
      espidf_step IdfEnvironment s (mkEspIdfSystem (ei_serial s) sender (ei_ender s))
  | ei_work s : espidf_step IdfEnvironment s
      (mkEspIdfSystem (ei_serial s) (sl_produce (sl_active (ei_sender s)) (ei_sender s)) (ei_ender s)).

Definition espidf_start (memory : list byte) (c : Channel) : EspIdfSystem :=
  mkEspIdfSystem (serial_start memory c) sl_init NotEnding.

Inductive espidf_runs (memory : list byte) (c : Channel) : EspIdfSystem → Prop :=
  | espidf_runs_start : espidf_runs memory c (espidf_start memory c)
  | espidf_runs_step a s s' : espidf_runs memory c s → espidf_step a s s' → espidf_runs memory c s'.

(** The threads that [end] waits for, and [end] itself. *)
Definition espidf_moves (s s' : EspIdfSystem) : Prop :=
  espidf_step IdfReceiver s s' ∨ espidf_step IdfSender s s' ∨ espidf_step IdfEnder s s'.

End EspIdf.

Section EspIdfCorrect.

Context {io : RooIo} {codec : PacketCodec} {codec_laws : PacketCodecLaws} {pf : Platform}.
Context (memory : list byte) (c0 : Channel) (Hmem : length memory = 256%nat).

Local Notation pc s := (rc_pc (ss_core (ei_serial s))).
Local Notation L := EspIdf_receiveLoop.

Record espidf_inv (s : EspIdfSystem) : Prop := {
  ev_serial : ∃ es, serial_inv c0 es (ei_serial s);
  ev_sender : sl_inv (ei_sender s);
  ev_ending : ei_ender s ≠ NotEnding → rc_running (ss_core (ei_serial s)) = false ∧ pc s ≠ RxNotStarted;
  ev_joined : ei_ender s = EndTransport ∨ ei_ender s = EndReturned → pc s = RxDone ∧ sl_active (ei_sender s) = false;
  ev_returned : ei_ender s = EndReturned → sl_joined (ei_sender s) = true;
}.

Lemma sl_moves_joined s s' : sl_moves s s' → sl_joined s = true → sl_joined s' = true.
Proof.
  unfold sl_joined. intros [H|H] Hj; inversion H; subst; cbn in *; try done;
    repeat match goal with E : sl_sender _ = _ |- _ => rewrite E in *; clear E end; try done.
  by destruct (sl_sender s).
Qed.

Lemma sl_timer_keeps s s' : sl_step Timer s s' → sl_active s' = sl_active s ∧ (sl_joined s = true → False).
Proof. unfold sl_joined. intros H. inversion H as [| | | | | | | |s0 b Hs| | | | | | | |]; subst. by rewrite Hs. Qed.

(** A step on the serial side, which leaves the sender and [end] alone. *)
Lemma espidf_serial_inv s e serial :
  espidf_inv s → serial_exec L (ei_serial s) e = Some serial →
  (ei_ender s ≠ NotEnding → rc_running (ss_core serial) = false ∧ rc_pc (ss_core serial) ≠ RxNotStarted) →
  (pc s = RxDone → rc_pc (ss_core serial) = RxDone) →
  espidf_inv (mkEspIdfSystem serial (ei_sender s) (ei_ender s)).
Proof.
  intros [[es Hs] Hl He Hj Hr] Hex Hend Hdone. split; cbn; auto; [|naive_solver].
  exists (es ++ [e]). by apply (serial_exec_inv L c0 es _ _ _ Hs Hex).
Qed.

(** A step of the threads of the channel. *)
Lemma espidf_sender_inv s sender :
  espidf_inv s → sl_inv sender → sl_active sender = sl_active (ei_sender s) →
  (sl_joined (ei_sender s) = true → sl_joined sender = true) →
  espidf_inv (mkEspIdfSystem (ei_serial s) sender (ei_ender s)).
Proof. intros [Hs Hl He Hj Hr] Hi Ha Hk. split; cbn; auto. intros H. rewrite Ha. auto. Qed.

Lemma done_stays n s serial :
  rc_pc (ss_core s) = RxDone → serial_exec L s (SerialThread n) = Some serial → ss_core serial = ss_core s.
Proof.
  cbn [serial_exec]. unfold receive_step, serial_data. intros -> H. cbn in H. by injection H as <-.
Qed.

Lemma espidf_receive_inv s n serial :
  espidf_inv s → serial_exec L (ei_serial s) (SerialThread n) = Some serial →
  espidf_inv (mkEspIdfSystem serial (ei_sender s) (ei_ender s)).
Proof.
  intros Hi Hex. pose proof Hi as [[es Hs] _ He _ _].
  assert (Hdone : pc s = RxDone → rc_pc (ss_core serial) = RxDone).
  { intros Hd. by rewrite (done_stays n _ _ Hd Hex). }
  apply (espidf_serial_inv s (SerialThread n)); auto. intros Hne. destruct (He Hne) as [Hr Hns].
  destruct (decide (pc s = RxDone)) as [Hd|Hnd]; [rewrite (done_stays n _ _ Hd Hex); auto|].
  by destruct (serial_thread_stops L c0 es n _ _ Hs Hr ltac:(by split) Hex) as (? & ? & _).
Qed.

Lemma espidf_start_inv : espidf_inv (espidf_start memory c0).
Proof.
  split; cbn; try naive_solver; [|exact (sl_reachable_inv _ sl_start)].
  exists []. by apply serial_start_inv.
Qed.

Lemma espidf_begin_inv s s' :
  espidf_inv s → ei_ender s = NotEnding → EspIdf_begin s = Some s' → espidf_inv s'.
Proof.
  intros [[es Hs] Hl He Hj Hr] Hne H. unfold EspIdf_begin in H.
  destruct (sl_sender (ei_sender s)) eqn:Hsl; try discriminate H. cbn [check mbind option_bind] in H.
  destruct (serial_exec L (ei_serial s) SerialBegin) as [serial|] eqn:Hex; [|discriminate H]. injection H as <-.
  split; cbn [ei_serial ei_sender ei_ender].
  - exists (es ++ [SerialBegin]). by apply (serial_exec_inv L c0 es _ _ _ Hs Hex).
  - by apply (sl_step_inv Application (ei_sender s)), sl_begin.
  - naive_solver.
  - rewrite Hne. naive_solver.
  - rewrite Hne. naive_solver.
Qed.

Lemma espidf_end_inv s s' :
  espidf_inv s → pc s ≠ RxNotStarted → EspIdf_end_step s = Some s' → espidf_inv s'.
Proof.
  intros [[es Hs] Hl He Hj Hr] Hns H. unfold EspIdf_end_step in H. destruct (ei_ender s) eqn:Hend.
  - cbn [mbind option_bind serial_exec] in H. injection H as <-. split; cbn; [|done|done|naive_solver|done].
    exists (es ++ [SerialStop]). by apply (serial_exec_inv L c0 es (ei_serial s) SerialStop _ Hs).
  - destruct (pc s) eqn:Hpc; try discriminate H. injection H as <-. destruct (He ltac:(done)) as [Hrun _].
    split; cbn; [by exists es| |by rewrite Hpc|by rewrite Hpc|done].
    by apply (sl_step_inv Application (ei_sender s)), sl_end.
  - destruct (sl_joined (ei_sender s)) eqn:Hjoin; [|discriminate H]. injection H as <-.
    split; cbn; auto. by exists es.
  - discriminate H.
Qed.

Lemma espidf_step_inv a s s' : espidf_inv s → espidf_step a s s' → espidf_inv s'.
Proof.
  intros Hi H. pose proof Hi as [[es Hs] Hl He _ _]. destruct H as [s s' Hne H|s s' Hne H|s n serial Hex|s bytes serial Hex
    |s m serial Hex|s sender Hm|s sender Hm|s].
  - exact (espidf_begin_inv s s' Hi Hne H).
  - exact (espidf_end_inv s s' Hi Hne H).
  - exact (espidf_receive_inv s n serial Hi Hex).
  - apply (espidf_serial_inv s (SerialArrive bytes)); auto; by injection Hex as <-.
  - cbn [serial_exec] in Hex. apply (espidf_serial_inv s (SerialOther m)); auto;
      destruct (rc_channel_event _ _) as [core|] eqn:E; try discriminate Hex; injection Hex as <-;
      apply rc_channel_event_inv in E as (_ & Hr & Hpc & _); cbn; by rewrite ?Hr, Hpc.
  - destruct (sl_moves_inv _ _ Hl (rtc_once _ _ Hm)) as [? ?].
    apply espidf_sender_inv; auto. by apply sl_moves_joined.
  - destruct (sl_timer_keeps _ _ Hm). apply espidf_sender_inv; auto. by eapply sl_step_inv.
  - apply espidf_sender_inv; auto. by apply (sl_step_inv Application (ei_sender s)), sl_new_work.
Qed.

Lemma espidf_runs_inv s : espidf_runs memory c0 s → espidf_inv s.
Proof. induction 1 as [|a s s' _ IH Hstep]; [apply espidf_start_inv|by eapply espidf_step_inv]. Qed.

Lemma espidf_moves_inv s s' : espidf_inv s → rtc espidf_moves s s' → espidf_inv s'.
Proof. intros Hi Hr. induction Hr as [|s s1 s' [Hm|[Hm|Hm]] _ IH]; [done|apply IH; by eapply espidf_step_inv..]. Qed.

(** *** end returns *)

(** What the others do to the receive thread: nothing. *)
Lemma espidf_step_pc a s s' : espidf_step a s s' → a ≠ IdfReceiver → ei_ender s ≠ NotEnding → pc s' = pc s.
Proof.
  intros H Ha Hend. destruct H as [s s' Hne|s s' _ H|s n serial|s bytes serial Hex|s m serial Hex|s sender|s sender|s];
    try done.
  - unfold EspIdf_end_step in H. destruct (ei_ender s); [done| | |discriminate H].
    + by destruct (pc s) eqn:Hpc; try discriminate H; injection H as <-.
    + by destruct (sl_joined _); [injection H as <-|discriminate H].
  - by injection Hex as <-.
  - cbn [serial_exec] in Hex. destruct (rc_channel_event _ _) as [core|] eqn:E; [|discriminate Hex].
    injection Hex as <-. by apply rc_channel_event_inv in E as (_ & _ & ? & _).
Qed.

(** What happens when the receive thread has ended. *)
Lemma espidf_step_quiet a s s' :
  espidf_step a s s' → pc s = RxDone → ei_ender s = EndReturned →
  rc_read (ss_core (ei_serial s')) = rc_read (ss_core (ei_serial s))
  ∧ packets_of (rc_trace (ss_core (ei_serial s'))) = packets_of (rc_trace (ss_core (ei_serial s))).
Proof.
  intros H Hdone Hret. destruct H as [s s' Hne|s s' _ H|s n serial Hex|s bytes serial Hex|s m serial Hex|s sender|s sender|s];
    try done; cbn.
  - congruence.
  - unfold EspIdf_end_step in H. by rewrite Hret in H.
  - by rewrite (done_stays n _ _ Hdone Hex).
  - by injection Hex as <-.
  - cbn [serial_exec] in Hex. destruct (rc_channel_event _ _) as [core|] eqn:E; [|discriminate Hex].
    injection Hex as <-. apply rc_channel_event_inv in E as (_ & _ & _ & Hrd & Ht & _). cbn.
    by rewrite Hrd, Ht, packets_of_app, app_nil_r.
Qed.

Lemma espidf_ends_transport s :
  espidf_inv s → ei_ender s = EndTransport → ∃ s', rtc espidf_moves s s' ∧ ei_ender s' = EndReturned.
Proof.
  intros [Hs Hl He Hj Hr] Hend. destruct (Hj ltac:(by left)) as [Hdone Hact].
  destruct (sl_ends_all _ _ Hl Hact eq_refl) as (sender & Hrtc & Hjoined).
  exists (mkEspIdfSystem (ei_serial s) sender EndReturned). split; [|done].
  apply rtc_r with (mkEspIdfSystem (ei_serial s) sender (ei_ender s)).
  - destruct s as [serial sender0 e]. cbn in *. clear - Hrtc.
    induction Hrtc as [|s1 s2 s3 Hm _ IH]; [done|]. eapply rtc_l; [|exact IH]. right. left. by apply (ei_send (mkEspIdfSystem _ _ _)).
  - right. right. apply ei_end; cbn; [by rewrite Hdone|]. unfold EspIdf_end_step. cbn. by rewrite Hend, Hjoined.
Qed.

Lemma espidf_joins k : ∀ s,
  espidf_inv s → ei_ender s = JoinReceiver → (steps_to_stop (pc s) ≤ k)%nat →
  ∃ s', rtc espidf_moves s s' ∧ (ei_ender s' = EndReturned ∨ aborts (ss_core (ei_serial s'))).
Proof.
  induction k as [|k IH]; intros s Hi Hend Hk; pose proof Hi as [[es Hs] _ He _ _];
    destruct (He ltac:(by rewrite Hend)) as [Hrun Hns].
  - assert (Hdone : pc s = RxDone).
    { destruct (pc s); cbn in Hk; try done; lia. }
    set (s1 := mkEspIdfSystem (ei_serial s) (sl_produce false (ei_sender s)) EndTransport).
    assert (Hm : espidf_moves s s1).
    { right. right. apply ei_end; [done|]. unfold EspIdf_end_step. by rewrite Hend, Hdone. }
    destruct (espidf_ends_transport s1) as (s' & Hr & Hret); [|done|].
    { eapply espidf_moves_inv; [done|]. by apply rtc_once. }
    exists s'. split; [by eapply rtc_l|by left].
  - destruct (decide (pc s = RxDone)) as [Hdone|Hnd].
    { apply (IH s Hi Hend). rewrite Hdone. cbn. lia. }
    destruct (serial_exec L (ei_serial s) (SerialThread 0)) as [serial|] eqn:Hex.
    2:{ exists s. split; [done|]. right. by eapply (serial_thread_total L c0 es 0). }
    destruct (serial_thread_stops L c0 es 0 _ _ Hs Hrun ltac:(by split) Hex) as (_ & _ & Hlt).
    destruct (IH (mkEspIdfSystem serial (ei_sender s) (ei_ender s))) as (s' & Hr & Hres).
    + by eapply espidf_receive_inv.
    + done.
    + cbn. lia.
    + exists s'. split; [|done]. eapply rtc_l; [|exact Hr]. left. by apply (ei_receive s 0).
Qed.

(** C25: end() of the ESP-IDF transport returns, and nothing happens after it. From every state
    after it was called, wherever the receive thread, the sender thread and the threads
    that notify it are, these threads and end() get to its return by their own steps,
    without any byte on the line and without any timer, unless the channel aborts on a
    packet at hand. Every step of the receive thread brings it closer to its end, of which it is
    at most 261 steps away, or three and one for each packet at hand, and no other thread
    sets it back. When end() has returned, both threads have ended, and whatever happens,
    no byte is read and no packet passed on any more. *)
Theorem EspIdf_end_returns (s : EspIdfSystem) (Hruns : espidf_runs memory c0 s)
    (Hend : ei_ender s ≠ NotEnding) :
  (∃ s', rtc espidf_moves s s' ∧ (ei_ender s' = EndReturned ∨ aborts (ss_core (ei_serial s'))))
  ∧ (∀ a s', espidf_step a s s' →
       (a = IdfReceiver → pc s ≠ RxDone → (steps_to_stop (pc s') < steps_to_stop (pc s))%nat)
       ∧ (a ≠ IdfReceiver → pc s' = pc s))
  ∧ (ei_ender s = EndReturned →
       pc s = RxDone ∧ sl_joined (ei_sender s) = true
       ∧ ∀ a s', espidf_step a s s' →
           rc_read (ss_core (ei_serial s')) = rc_read (ss_core (ei_serial s))
           ∧ packets_of (rc_trace (ss_core (ei_serial s'))) = packets_of (rc_trace (ss_core (ei_serial s)))).
Proof.
  apply espidf_runs_inv in Hruns as Hi. pose proof Hi as [[es Hs] Hl He Hj Hr]. split; [|split].
  - destruct (ei_ender s) eqn:Heq; [done| | |].
    + by apply (espidf_joins (steps_to_stop (pc s))).
    + destruct (espidf_ends_transport s Hi Heq) as (s' & ? & ?). eauto.
    + exists s. split; [apply rtc_refl|by left].
  - intros a s' Hstep. destruct (He Hend) as [Hrun Hns]. split.
    + intros -> Hnd. inversion Hstep as [| |? n serial Hex| | | | |]; subst. cbn.
      by destruct (serial_thread_stops L c0 es n _ _ Hs Hrun ltac:(by split) Hex) as (_ & _ & ?).
    + intros Ha. exact (espidf_step_pc a s s' Hstep Ha Hend).
  - intros Hret. destruct (Hj ltac:(by right)) as [Hdone _]. split; [done|]. split; [auto|].
    intros a s' Hstep. exact (espidf_step_quiet a s s' Hstep Hdone Hret).
Qed.

End EspIdfCorrect.

(** ** Witness *)

(** The thread has been started, a frame has arrived, and [end] is called. *)
Lemma EspIdf_end_returns_witness :
  ∃ c s s', chan_demo_new = Some c ∧ espidf_runs (replicate 256 0) c s
    ∧ ei_ender s = JoinReceiver ∧ rc_pc (ss_core (ei_serial s)) = RxTest
    ∧ rtc espidf_moves s s' ∧ (ei_ender s' = EndReturned ∨ aborts (ss_core (ei_serial s'))).
Proof.
  destruct chan_demo_new as [c|] eqn:Hc; [|exfalso; revert Hc; vm_compute; discriminate].
  set (memory := replicate 256 0).
  set (core b := mkRxCore (PacketReceiverOverStream_new memory) c b RxTest [] [] []).
  set (s := mkEspIdfSystem (mkSerialSystem (core false) demo_stream) (sl_at SLoop sl_init) JoinReceiver).
  assert (Hr : espidf_runs memory c s).
  { apply (espidf_runs_step _ _ IdfEnder (mkEspIdfSystem (mkSerialSystem (core true) demo_stream) (sl_at SLoop sl_init) NotEnding));
      [|by apply ei_end].
    apply (espidf_runs_step _ _ IdfEnvironment (mkEspIdfSystem (mkSerialSystem (core true) []) (sl_at SLoop sl_init) NotEnding));
      [|by apply (ei_arrive (mkEspIdfSystem (mkSerialSystem (core true) []) _ _) demo_stream)].
    apply (espidf_runs_step _ _ IdfEnvironment (espidf_start memory c)); [constructor|by apply ei_begin]. }
  destruct (EspIdf_end_returns memory c (length_replicate _ _) s Hr ltac:(discriminate)) as [(s' & Hm & Hs) _].
  exists c, s, s'. split; [reflexivity|]. split; [exact Hr|]. split; [reflexivity|]. split; [reflexivity|].
  split; [exact Hm|exact Hs].
Defined.
