(* ===== verification/PicoReceive.v ===== *)
(** * PicoReceive: the receive loop over the DMA ring

    [ReliableUartDma::Impl::receiveLoop] of link/pico/reliable_uart_dma.cpp: the thread of
    [ReceiveLoops] that looks at [produced()] and reads with [readAvailable] from the ring of
    [PicoDma], which the DMA channel fills at the same time. *)

From S2P Require Import Prelude.
From S2P Require Import RooIo.
From S2P Require Import Packets.
From S2P Require Import Channel.
From S2P Require Import ChannelHandshake.
From S2P Require Import Link.
From S2P Require Import PicoDma.
From S2P Require Import ReceiveLoops.

Local Open Scope Z_scope.
Local Open Scope roo_scope.

(** The thread, the receiving side of [Impl], the ring, and as history what the UART
    received, where the transfer under way began, how much was consumed, and whether every read
    was in time. *)
Record PicoRx := mkPicoRx {
  px_core : RxCore;
  px_rx : DmaRx;
  px_ring : list byte;
  px_received : list byte;
  px_base : Z;
  px_position : Z;
  px_in_time : bool;
}.

Definition px_with_core (core : RxCore) (s : PicoRx) : PicoRx :=
  mkPicoRx core (px_rx s) (px_ring s) (px_received s) (px_base s) (px_position s) (px_in_time s).

(** What [tryReceive] asks the input stream for. *)
Definition kReadSize : Z := 256.

Section Loop.

Context {io : RooIo} {codec : PacketCodec} {pf : Platform}.
Context (kRxTransferCount : Z) (rx_buffer_addr : Z).

(** The look at the port: [produced() == rx_consumed]. *)
Definition PicoDma_poll (g : RxRegs) (s : PicoRx) : option (RxCore * DmaRx) :=
  let '(p, rx) := produced kRxTransferCount rx_buffer_addr g (px_rx s) in
  core ← receive_step PicoDma_receiveLoop (if p =? rx_consumed rx then 0 else 1) [] (px_core s);
  Some (core, rx).

(** [tryReceive], whose read is [Input::tryRead]. *)
Definition PicoDma_read (g : RxRegs) (errors : Z) (s : PicoRx) : option (list byte * RxCore * DmaRx) :=
  '(bytes, rx) ← readAvailable kRxTransferCount rx_buffer_addr g (px_ring s) errors kReadSize (px_rx s);
  core ← receive_step PicoDma_receiveLoop 0 bytes (px_core s);
  Some (bytes, core, rx).

(** The position the registers show. *)
Definition shown (g : RxRegs) (P1 P3 : Z) : Z := if rg_count g <? kRingSize then P3 else P1.

(** Where the transfer began after the registers were read. *)
Definition renewed (g : RxRegs) (base W : Z) : Z := if rg_count g <? kRingSize then W else base.

(** The registers are read when the channel was at a position that has not been consumed
    and is not ahead of what was received. *)
Record readings_ok (g : RxRegs) (s : PicoRx) (P1 P2 W P3 : Z) : Prop := {
  ro_readings : rx_readings kRxTransferCount rx_buffer_addr g (px_base s) P1 P2 W P3;
  ro_position : px_position s ≤ shown g P1 P3 ≤ Z.of_nat (length (px_received s));
  ro_wrap : shown g P1 P3 - px_position s < 4294967296;
}.

Inductive pico_rx_step : PicoRx → PicoRx → Prop :=
  | px_byte s b :
      pico_rx_step s (mkPicoRx (px_core s) (px_rx s) (rx_store (px_ring s) (px_received s) b)
                        (px_received s ++ [b]) (px_base s) (px_position s) (px_in_time s))
  | px_poll s g P1 P2 W P3 core rx :
      rc_pc (px_core s) = RxPoll → readings_ok g s P1 P2 W P3 → PicoDma_poll g s = Some (core, rx) →
      pico_rx_step s (mkPicoRx core rx (px_ring s) (px_received s) (renewed g (px_base s) W)
                        (px_position s) (px_in_time s))
  | px_read s g P1 P2 W P3 errors bytes core rx :
      rc_pc (px_core s) = RxTry → readings_ok g s P1 P2 W P3 →
      PicoDma_read g errors s = Some (bytes, core, rx) →
      pico_rx_step s (mkPicoRx core rx (px_ring s) (px_received s) (renewed g (px_base s) W)
                        (Z.max (px_position s) (shown g P1 P3 - 8192) + Z.of_nat (length bytes))
                        (px_in_time s && (Z.of_nat (length (px_received s)) - px_position s <=? 8192)))
  | px_thread s core :
      rc_pc (px_core s) ≠ RxPoll → rc_pc (px_core s) ≠ RxTry →
      receive_step PicoDma_receiveLoop 0 [] (px_core s) = Some core → pico_rx_step s (px_with_core core s)
  | px_other s m core :
      rc_channel_event (Other m) (px_core s) = Some core → pico_rx_step s (px_with_core core s)
  | px_begin s core : receive_begin (px_core s) = Some core → pico_rx_step s (px_with_core core s)
  | px_stop s : pico_rx_step s (px_with_core (receive_stop (px_core s)) s).

Definition pico_rx_start (memory ring : list byte) (c : Channel) : PicoRx :=
  mkPicoRx (rc_start memory c) (mkDmaRx 0 0 0 0) ring [] 0 0 true.

Definition pico_rx_runs (memory ring : list byte) (c : Channel) (s : PicoRx) : Prop :=
  rtc pico_rx_step (pico_rx_start memory ring c) s.

End Loop.

Section Correct.

Context {io : RooIo} {codec : PacketCodec} {codec_laws : PacketCodecLaws} {pf : Platform}.
Context (kRxTransferCount : Z) (rx_buffer_addr : Z).
Context (memory ring : list byte) (c0 : Channel).
Context (Hmem : length memory = 256%nat) (Hring : Z.of_nat (length ring) = kRingSize).

Local Notation step := (pico_rx_step kRxTransferCount rx_buffer_addr).
Local Notation L := PicoDma_receiveLoop.

Record pico_rx_inv (s : PicoRx) : Prop := {
  pv_core : core_inv c0 (px_core s);
  pv_ring : dma_rx_runs kRxTransferCount rx_buffer_addr (px_rx s) (px_ring s) (px_received s) (px_base s)
    (px_position s) (rc_read (px_core s)) (px_in_time s);
}.

Lemma pico_rx_start_inv : pico_rx_inv (pico_rx_start memory ring c0).
Proof. split; [by apply rc_start_inv|by apply dma_rx_start]. Qed.

(** A read of the ring always succeeds, and returns at most what it was asked for. *)
Lemma pico_readAvailable s g P1 P2 W P3 errors :
  pico_rx_inv s → readings_ok kRxTransferCount rx_buffer_addr g s P1 P2 W P3 →
  ∃ bytes rx, readAvailable kRxTransferCount rx_buffer_addr g (px_ring s) errors kReadSize (px_rx s) = Some (bytes, rx)
    ∧ Z.of_nat (length bytes) = Z.min kReadSize (Z.min (shown g P1 P3 - px_position s) kRingSize).
Proof.
  intros [_ Hr] [Hg HP Hw]. apply dma_rx_runs_inv in Hr as [Hh Hb Hc Hp _].
  destruct (readAvailable_spec _ _ g _ _ errors kReadSize (px_rx s) _ _ _ _ _ _ Hg Hb Hc ltac:(done) ltac:(lia) Hh)
    as [[? _]|(_ & bytes & rx & Hread & Hl & _)]; try fold (shown g P1 P3); [lia|lia|done|].
  exists bytes, rx. split; [done|]. fold (shown g P1 P3) in Hl. unfold kRingSize in *. lia.
Qed.

Lemma pico_rx_step_inv s s' : pico_rx_inv s → step s s' → pico_rx_inv s'.
Proof.
  intros Hi H. pose proof Hi as [Hc Hr]. destruct H as [s b|s g P1 P2 W P3 core rx Hpc Hg Hex
    |s g P1 P2 W P3 errors bytes core rx Hpc Hg Hex|s core Hp1 Hp2 Hex|s m core Hex|s core Hex|s].
  - split; [done|]. by apply dma_rx_byte.
  - unfold PicoDma_poll in Hex. destruct (produced _ _ _ _) as [p rx'] eqn:Hp.
    destruct (receive_step _ _ _ _) as [core'|] eqn:Hst; [|discriminate Hex]. injection Hex as <- <-.
    split; cbn; [exact (receive_step_inv L c0 _ [] _ _ Hc (Nat.le_0_l 256) Hst)|].
    unfold receive_step in Hst. rewrite Hpc in Hst. injection Hst as <-. cbn [rc_read rc_at].
    exact (dma_rx_poll _ _ _ _ _ _ _ _ _ _ _ _ _ _ _ _ Hr (ro_readings _ _ _ _ _ _ _ _ Hg) Hp).
  - unfold PicoDma_read in Hex.
    destruct (pico_readAvailable s g P1 P2 W P3 errors Hi Hg) as (bytes' & rx' & Hread & Hl).
    rewrite (bind_step _ _ _ Hread) in Hex.
    destruct (receive_step _ _ _ _) as [core'|] eqn:Hst; [|discriminate Hex]. injection Hex as <- <- <-.
    assert (Hlen : (length bytes' ≤ 256)%nat) by (unfold kReadSize in Hl; lia).
    split; cbn; [exact (receive_step_inv L c0 _ _ _ _ Hc Hlen Hst)|].
    destruct (receive_step_frame L c0 _ _ _ _ Hc Hlen ltac:(by rewrite Hpc) Hst) as (_ & -> & _).
    destruct Hg as [Hg HP Hw]. eapply dma_rx_read; [exact Hr|exact Hg|exact HP|exact Hw| |exact Hread]. done.
  - split; cbn; [exact (receive_step_inv L c0 _ [] _ _ Hc (Nat.le_0_l 256) Hex)|].
    destruct (receive_step_frame L c0 _ [] _ _ Hc (Nat.le_0_l 256) ltac:(done) Hex) as (_ & -> & _).
    by rewrite app_nil_r.
  - split; cbn; [exact (rc_other_inv c0 m _ _ Hc Hex)|].
    by apply rc_channel_event_inv in Hex as (_ & _ & _ & -> & _).
  - unfold receive_begin in Hex. case_bool_decide as Hpc; [|discriminate Hex]. injection Hex as <-.
    destruct Hc as [Hh Hp Hch]. rewrite Hpc in Hp. split; [by split|done].
  - destruct Hc as [Hh Hp Hch]. split; [by split|done].
Qed.

Lemma pico_rx_runs_inv s : pico_rx_runs kRxTransferCount rx_buffer_addr memory ring c0 s → pico_rx_inv s.
Proof.
  intros Hr. eapply (rtc_ind_r pico_rx_inv); [apply pico_rx_start_inv| |exact Hr].
  intros s1 s2 _ Hstep Hi. by eapply pico_rx_step_inv.
Qed.

(** The look at the ring sees whether there is anything to read. *)
Lemma pico_poll s g P1 P2 W P3 :
  pico_rx_inv s → rc_pc (px_core s) = RxPoll → readings_ok kRxTransferCount rx_buffer_addr g s P1 P2 W P3 →
  ∃ core rx, PicoDma_poll kRxTransferCount rx_buffer_addr g s = Some (core, rx)
    ∧ rc_pc core = if decide (px_position s < shown g P1 P3) then RxTry else RxWait.
Proof.
  intros [_ Hr] Hpc [Hg HP Hw]. apply dma_rx_runs_inv in Hr as [Hh Hb Hc Hp _]. unfold PicoDma_poll.
  rewrite (produced_spec _ _ g _ _ _ _ _ _ Hg Hb). cbn [rx_consumed]. fold (shown g P1 P3).
  unfold receive_step. rewrite Hpc. cbn [mbind option_bind]. do 2 eexists. split; [done|].
  cbn [rc_pc rc_at after_poll L]. rewrite Hc. case_decide as Hlt.
  - destruct (Z.eqb_spec (u32 (shown g P1 P3)) (u32 (px_position s))) as [Heq|_]; [exfalso|done].
    pose proof (u32_diff (shown g P1 P3) (px_position s) ltac:(lia)) as Hd. rewrite Heq, Z.sub_diag in Hd.
    change (u32 0) with 0 in Hd. lia.
  - replace (shown g P1 P3) with (px_position s) by lia. by rewrite Z.eqb_refl.
Qed.

(** C24: the receive loop of the RP2040 DMA UART feeds the channel from the ring. Whatever the
    interleaving of the DMA channel, the thread and the other threads, and whenever the
    32-bit position wraps or the transfer is renewed: the packets passed on and
    those about to be are exactly the packets in the bytes that were read, and the state of the
    channel and all it sent are the result of these packets and of the other threads'
    operations. As long as every read came before the DMA channel had run over unread bytes, the
    bytes that were read are exactly the beginning of what the UART received, up to the
    position, and no overrun is counted. No step of the loop fails except by the channel: a look at
    the ring goes on to read when the registers show a byte that was not consumed, and to the delay
    when they do not, and the read returns all the bytes that they show, up to
    256. *)
Theorem PicoDma_receiveLoop_passes_on (s : PicoRx)
    (Hrun : pico_rx_runs kRxTransferCount rx_buffer_addr memory ring c0 s) :
  let core := px_core s in
  packets_of (rc_trace core) ++ rx_todo (rc_pc core) = deframe [] (rc_read core)
  ∧ channel_ops (rc_trace core) c0 = Some (tt, rc_effects core, rc_channel core)
  ∧ (px_in_time s = true →
       rc_read core = take (Z.to_nat (px_position s)) (px_received s) ∧ overruns (px_rx s) = 0)
  ∧ ∀ g P1 P2 W P3, readings_ok kRxTransferCount rx_buffer_addr g s P1 P2 W P3 →
      (rc_pc core = RxPoll →
         ∃ core' rx, PicoDma_poll kRxTransferCount rx_buffer_addr g s = Some (core', rx)
           ∧ rc_pc core' = if decide (px_position s < shown g P1 P3) then RxTry else RxWait)
      ∧ (rc_pc core = RxTry → ∀ errors,
           ∃ bytes core' rx, PicoDma_read kRxTransferCount rx_buffer_addr g errors s = Some (bytes, core', rx)
             ∧ Z.of_nat (length bytes) = Z.min 256 (shown g P1 P3 - px_position s)).
Proof.
  intros core. apply pico_rx_runs_inv in Hrun as Hi. pose proof Hi as [Hc Hr]. pose proof Hc as [Hh Hp Hch].
  apply dma_rx_runs_inv in Hr as Hx. split; [done|]. split; [done|].
  split; [apply (dx_in_time _ _ _ _ _ _ _ Hx)|]. intros g P1 P2 W P3 Hg. split; intros Hpc.
  - by apply (pico_poll s g P1 P2 W P3).
  - intros errors. destruct (pico_readAvailable s g P1 P2 W P3 errors Hi Hg) as (bytes & rx & Hread & Hl).
    unfold PicoDma_read. rewrite (bind_step _ _ _ Hread).
    assert (Hlen : (length bytes ≤ 256)%nat) by (unfold kReadSize in Hl; lia).
    destruct (receive_step L 0 bytes (px_core s)) as [core'|] eqn:Hst.
    + cbn [mbind option_bind]. exists bytes, core', rx. split; [done|].
      unfold kReadSize, kRingSize in Hl. destruct Hg as [_ HP _]. lia.
    + destruct (receive_step_total L c0 _ _ _ Hc Hlen Hst) as (p & ps & k & Hpass & _). unfold core in Hpc. congruence.
Qed.

End Correct.

(** ** Witness *)

(** The thread is started, two bytes arrive, and the thread looks at the ring. *)
Lemma PicoDma_receiveLoop_passes_on_witness :
  ∃ c s core rx, chan_demo_new = Some c
    ∧ pico_rx_runs 4294967295 0 (replicate 256 0) demo_memory c s
    ∧ px_received s = [7; 8] ∧ rc_read (px_core s) = [] ∧ overruns (px_rx s) = 0
    ∧ PicoDma_poll 4294967295 0 dma_rx_demo_regs s = Some (core, rx) ∧ rc_pc core = RxTry.
Proof.
  destruct chan_demo_new as [c|] eqn:Hc; [|exfalso; revert Hc; vm_compute; discriminate].
  set (core pc := mkRxCore (PacketReceiverOverStream_new (replicate 256 0)) c true pc [] [] []).
  set (ring1 := rx_store demo_memory [] 7). set (ring2 := rx_store ring1 [7] 8).
  set (st pc ring received := mkPicoRx (core pc) (mkDmaRx 0 0 0 0) ring received 0 0 true).
  assert (Hr : pico_rx_runs 4294967295 0 (replicate 256 0) demo_memory c (st RxPoll ring2 [7; 8])).
  { apply (rtc_l _ _ (st RxTest demo_memory [])); [exact (px_begin _ _ (pico_rx_start _ _ _) (core RxTest) eq_refl)|].
    apply (rtc_l _ _ (st RxTest ring1 [7])); [exact (px_byte _ _ (st RxTest demo_memory []) 7)|].
    apply (rtc_l _ _ (st RxTest ring2 [7; 8])); [exact (px_byte _ _ (st RxTest ring1 [7]) 8)|].
    apply rtc_once. apply (px_thread _ _ (st RxTest ring2 [7; 8]) (core RxPoll)); [discriminate|discriminate|reflexivity]. }
  destruct (PicoDma_receiveLoop_passes_on 4294967295 0 (replicate 256 0) demo_memory c (length_replicate _ _)
    demo_memory_length _ Hr) as (_ & _ & Hclean & Hnext).
  destruct (Hnext dma_rx_demo_regs 2 2 2 2) as [Hpoll _].
  { split; [split; discriminate || reflexivity|split; vm_compute; discriminate|reflexivity]. }
  destruct (Hpoll eq_refl) as (core' & rx & Hex & Hpc).
  exists c, (st RxPoll ring2 [7; 8]), core', rx. split; [reflexivity|]. split; [exact Hr|]. split; [reflexivity|].
  split; [reflexivity|]. split; [apply Hclean; reflexivity|]. split; [exact Hex|exact Hpc].
Defined.
